(* ===== verification/_CoqProject ===== *)
-Q . S2P
Prelude.v
Domain.v
GoStd.v
Text.v
Json.v
Dates.v
Platform.v
Database.v
Program.v
Postgres.v
Schema.v
Usecase.v
Handover.v
Booking.v
Waitlist.v
Reservation.v
Invariant.v
System.v
Scenario.v
Machine.v
Effects.v
Safety.v
Decisions.v
Announcements.v
Expiry.v
Listings.v
Calendar.v
SlotGen.v
SlotGenSpec.v
SlotGenSafety.v
Rooms.v
Schedules.v
Auth.v
Middleware.v
Sessions.v
Response.v
Handlers.v
Http.v
Frame.v
Deployment.v
Realtime.v
Hub.v
HubSafety.v
Gateway.v
Config.v
Concurrency.v
Discipline.v
Interleaving.v
Parallel.v
Serial.v
Finality.v
HubGauges.v
HubDelivery.v
Observability.v
Tally.v
Stable.v
Backed.v
EndToEnd.v
Lifecycle.v
