(* ===== verification/Prelude.v ===== *)
(** * Booking service: a verification development

    ** The program

    The repository is a Go service that books half-hour slots of meeting rooms.  Users book
    a free slot, queue for a taken one, and are offered a slot that comes free as a
    reservation of limited duration; administrators define rooms and weekly schedules, from
    which a generator makes the slots.  The state lives in PostgreSQL; realtime events go
    out through Redis, counters to Prometheus.

    The layers, from the outside in: HTTP handlers (internal/transport/http) call use cases
    (internal/usecase), which run transactions over repositories (internal/repository/postgres)
    and publish events after the commit; cmd/app/main.go wires them and starts two workers,
    the slot generator and the expiration of reservations.

    ** How it is modelled

    - [Prelude]: tables as finite maps, ORDER BY and WHERE over their rows, 64-bit integers.
    - [Domain] (internal/domain): entities, statuses, error codes and the error chain.
    - [GoStd]: [strings.TrimSpace] and [time.ParseInLocation], byte by byte.
    - [Database] (migrations/): the tables as the record [DB], the constraints as [schema],
      an SQL statement as a function of the server's [Answer] and the tables.
    - [Program]: a handler is a program over the effects of the Go code (statements,
      transaction calls, clock, random identifiers, outputs); [run] executes it in a [World]
      against an environment [Env]; [wp] is the program logic, [wp_run] its adequacy.
    - [Postgres] (internal/repository/postgres): every repository method, and
      [WithinTransaction] of tx_manager.go.
    - [Schema]: every statement preserves the constraints; [Keeps] lifts that to programs.
    - [Usecase]: publishers, metrics and the proof rules the use cases share.
    - [Handover]: the two statements that pass a freed slot to the head of its queue.
    - [Booking], [Waitlist], [Reservation] (internal/usecase/.../service.go): the operations,
      each with a specification of what its transaction does.
    - [Invariant], [System]: the invariants between the tables, the services as main wires
      them, [serve] for a request or a worker tick, [step] and [reachable].
    - [Scenario]: a small concrete deployment, on which the witnesses are evaluated.
    - [Machine]: the abstract life of a slot and the refinement.
    - [Effects]: one specification per operation over all environments: what it returns,
      stores and publishes.
    - [Calendar] (internal/usecase/slot/service.go): the two listings of slots.
    - [SlotGen] (internal/app/slotgen): the generator; [SlotGenSpec] its loops against the
      declarative condition [due].
    - [Rooms] (internal/usecase/room/service.go): listing and creating rooms.
    - [Schedules] (internal/usecase/schedule/service.go, CreateBatch of schedule_repo.go):
      defining the weekly schedule of a room.
    - [Text], [Json], [Dates]: what the code uses of strings, strconv, encoding/base64,
      encoding/json and time, on bytes: splitting, decimal and hexadecimal numbers, RFC 8259
      values with Go's rules for struct members, the civil calendar and RFC 3339.
    - [Platform]: HMAC-SHA256, bcrypt, uuid.Parse, net/mail and Unicode letter case, as
      parameters with the laws assumed of them and a sample.
    - [Auth] (internal/usecase/auth/service.go), [Middleware]
      (internal/transport/http/middleware): registration, login, tokens and their check.
    - [Response], [Handlers], [Http] (internal/transport/http): bodies and error replies, one
      definition per handler, the routes with their middleware ([ServeHTTP]).
    - [Frame]: which part of the tables a program leaves alone.
    - [Deployment]: sequences of HTTP requests, expiration ticks and generator runs
      ([history]), and the invariant of the whole ([deployed]).
    - [Realtime] (event.go, message.go, redis_publisher.go, handleMessage of
      redis_subscriber.go in internal/realtime): events, their JSON and validation.
    - [Hub] (hub.go, client.go): the goroutines of the websocket clients as programs over
      atomic actions on the shared [Hub]; [move] interleaves them.
    - [Gateway] (ws_handler.go, Run of redis_subscriber.go, manager.go): how clients and
      events come to the hub.
    - [Config] (internal/config/config.go): the environment variables, and the settings that
      main hands on.
    - [Concurrency]: requests that run at the same time.  An open transaction keeps the rows
      it has written in a [Delta] and holds the locks of these rows and of those it has
      selected FOR UPDATE; [exec] gives an effect its meaning under READ COMMITTED, [advance]
      lets a session do one effect unless it has to wait, [interleaving] is any sequence of
      such steps, arrivals and lost connections.
    - [Discipline]: a type system for programs, [disciplined]: how transactions are begun and
      ended, and what a transaction may do with a waitlist entry it has claimed.  Every use
      case is well typed.  [Interleaving] shows that well-typed programs keep the invariant
      [sound] in every interleaving; [Parallel] applies it to HTTP requests, ticks and
      generator runs ([job]).
    - [Serial]: a session that is not interrupted does what [run] says.  [Finality]: how rows
      change in the course of an interleaving.
    - [Observability] (internal/observability, and metrics.go, recovery.go and
      request_logger.go of the middleware): the registry and who writes it, what is logged.
    - [Tally]: the outputs of the use cases as increments of the registry.
    - [Stable]: a program logic for interleaved sessions, [backs], whose assertions survive what
      the other sessions do ([outlives]), and its adequacy over schedules; [backed] is what an
      event promises.  [Backed] applies it to every job.
    - [EndToEnd] (cmd/app/main.go): the server, the Redis channel and the hub put together
      ([Deployed]), with the steps of all of them interleaved ([happen]).
    - [Lifecycle] (cmd/app/main.go, internal/app/migrate.go, pool.go of the repositories):
      start, workers and end of the process.

    Up to [Deployment], a request is executed from its first to its last effect before the
    next one starts.  What concurrent transactions would do to it is in the [Answer]s of the
    server: rows they hold locked, which SKIP LOCKED passes over, and failures at any
    statement.  Every theorem quantifies over the environment, except where it assumes a
    named part of it ([unlocked]: no row is locked; [steady]: nothing fails).  [Parallel] gives
    up the restriction, for the properties that survive it; two lemmas show that the
    invariants of [Safety] about slots do not.

    ** What is shown

    - [Safety] (C1, C4, C7): a slot has one holder; who waits, waits for a held slot; failed
      requests change and publish nothing.
    - [Backed] (C3): in every interleaving, what has been announced is backed by committed rows.
    - [EndToEnd] (C5): what a websocket client is told is backed by committed rows, and the
      client is one it is for.
    - [Parallel] (C6, C8): in every interleaving the constraints hold, rooms are not double
      booked and no waitlist entry is used twice; no session uses a transaction out of turn
      or leaves one open, and who waits for a lock waits for a request that is not over.
    - [Machine] (C2): every request is at most one step of the abstract slot machine, which
      goes by the order of the queue unless locked rows may be skipped.
    - [Decisions] (C9-C14): the reply of each operation as a table over the abstract state,
      when nothing fails, nothing is locked and identifiers are fresh.
    - [Announcements] (C15): events are true, and no change of holder goes unannounced.
    - [Expiry] (C16-C18): the worker clears its backlog, and expires the oldest due reservations
      that nobody has locked; reservations last for the configured time.
    - [SlotGenSafety] (C19, C20, C22, C24): the generator adds exactly the due slots and
      succeeds when the server answers; its window never moves, because NewGenerator keeps
      the start-up time: no run adds a slot later than fourteen days after that.
    - [HubGauges] (C21): what the gauges of connections and subscriptions show.  The proof
      counts the debts of the goroutines, [owes].
    - [Observability] (C25): every request is counted once, as its client sees it, but for
      connections that are taken over.
    - [Calendar] (C26) and [Listings] (C23, C28, C30): the reading operations return exactly
      what they promise, the pages of all bookings only where no two were created at the same
      time; page numbers are not protected against overflow.
    - [Finality] (C27): what is decided stays decided, whoever races for it.
    - [HubDelivery] (C29): a delivery reaches everybody it is for; messages are not reordered,
      dropped or repeated.  [serves] is a program logic for what a delivery still has to do.
    - [Tally] (C31): the business counters and the rows they count, from empty tables on.
    - [Schedules] (C32): the schedules that are stored are those the generator can work with.
    - [Sessions] (C33-C35): a token is accepted for a day as the user it was issued for;
      what is accepted was signed; registered users log in with their password.
    - [Http] (C36): a request is refused without effect, or is one use-case call on behalf of
      the user its token names, and the reply tells how the call ended.
    - [Deployment] (C37, C38): over any history of requests of every kind, ticks and generator
      runs, rooms are never double booked and schedules are always offered.
    - [Realtime] (C39): an event arrives as it was published, at those it is for.
    - [HubSafety] (C40): whatever the interleaving, no channel is closed twice and clients
      are sent only what is meant for them.  The proof is by rely and guarantee: [pre] is
      what an action needs, [later] what the other goroutines leave alone, [safe] a program
      that meets its preconditions under such interference.
    - Lemmas beside the properties: [Gateway.admitted_vouched] (a websocket client was let in
      with a signed token of its user), [Gateway.Run_handles] and [Gateway.Run_returns] (the
      subscriber survives bad messages and broken channels), [Config.Load_Ok],
      [Lifecycle.worker_serves] (a worker works off every tick until it is stopped),
      [Lifecycle.main_log_errors], [Middleware.CORS_lets_in],
      [Safety.nobody_books_past_the_queue], [Safety.reservations_stem_from_the_queue],
      [Safety.constraints_always_hold], [SlotGenSafety.generator_recovers],
      [SlotGenSafety.time_text_is_parsed], [Rooms.rooms_are_proper],
      [Serial.served_alone_is_run] (what is proved of [run] is true of sessions that nobody
      interrupts).
    - Lemmas that show defects: [HubSafety.closed_client_stays_subscribed],
      [HubGauges.closed_client_stays_counted], [Config.long_interval_panics],
      [Observability.untouched_or_set] (a branch of Recovery that is never taken),
      [Observability.upgrades_count_as_200], [Observability.panics_are_logged_without_user],
      [Listings.ties_repeat_and_skip] (pages that repeat one booking and skip another), and the
      races [Parallel.booked_and_reserved] and [Parallel.cancelled_twice], after which a slot
      is booked by one user and reserved for another.

    ** Conventions and limits

    - Instants and durations are integers of nanoseconds; the truncation to microseconds in
      PostgreSQL is not modelled.  Go's int is 64 bits wide, and the products that can
      overflow are wrapped ([int64]).
    - Ties in an ORDER BY come in an order that the server chooses anew for each query
      ([a_order], [order_ties]; [order_ties_any] shows that every order is covered), and
      RETURNING lists rows in any order ([a_returned]).  Where [order_by] is used the key is
      unique, or the order does not come out of the query.
    - Where INTERVAL '1 day' ends a day is the server's choice ([a_next_day]): twenty-four hours
      later if its session is in UTC.
    - The table of schedules has the values of its TIME columns beside the texts that queries
      return ([ScheduleRow]).
    - A COMMIT that fails may have been executed ([a_lost]); sequences are not rolled back.
    - The loops of the generator run on fuel computed from their bounds; [upto_ends],
      [elem_of_slot_starts] and [elem_of_days] show that it never runs out.
    - [ctx.Err()] is a point where the environment may report a cancellation.
    - [sort.Slice] is the insertion sort Go uses up to twelve elements; a room has at most
      seven schedules.
    - What PostgreSQL reads in a text cast to TIME, how it writes a TIME, and the message of
      its errors are parameters of [Schedules]; the first is assumed to agree with Go where
      both accept a text, the second to be HH:MM:SS.
    - [uuid.NewSHA1] is a parameter; random identifiers come from the environment.
    - The JSON reader runs on fuel, the length of its input; [parse_total] shows that it is
      enough.  A slice that is decoded anew starts empty.
    - RFC 3339 texts are shown to be read back for the years 1970 to 9999.
    - Register and Login assume that a users repository is configured, as main does.
    - A goroutine of the hub is interrupted between two actions only; a critical section is
      one action.  What a client sends, whether a write succeeds, when the ticker fires and
      the order in which Go walks a map are choices of the environment ([Choice]).
    - In [Concurrency] a statement waits exactly for rows that another open transaction has
      written or selected FOR UPDATE, or that a unique index could not hold together with
      rows it has written; FOR KEY SHARE locks of foreign keys conflict with none of these.  A
      query may have read the database of another time ([cs_read]), locking what it found
      there: there are more interleavings than on the server, and what holds of all of them
      holds there.  The races are shown with answers that the queries really give.  Statements
      on users, rooms, schedules and slots run outside of transactions, as they do in the code.  C3 and C5 speak of schedules ([moves]) in
      which a query answers from what its session sees when it runs, as READ COMMITTED has it.
    - Redis is a channel that only this service writes to, and that may lose, repeat and reorder
      messages ([Publish], [Receive]).
    - The messages that the use cases log are left out; [Observability] has the request log,
      [Lifecycle] that of main.
    - Counters and gauges are integers, where the client library has floats.  The times that
      the middlewares measure and the route pattern of chi are arguments.  Of a handler that
      takes over the connection (/ws) [Hijack] says with which status it answers there.

    ** Not modelled

    The websocket protocol with its deadlines and pongs, the Redis client, the exposition of
    /metrics, the matching of paths by chi: library calls.  The
    interface declarations of the packages, which have no behaviour of their own.
    scripts/ws_smoke.go, a manual test, and the frontend, which is not Go. *)

From stdpp Require Export base gmap strings list sorting.
From Stdlib Require Export ZArith Lia.

(** Hint databases of the development: [svc] for the preservation and program-logic
    lemmas, [svc_rw] for its rewriting equations. *)
Create HintDb svc.
Create Rewrite HintDb svc_rw.

(** ** Machine integers *)

(** A signed 64-bit Go integer: the value wraps into [-2^63, 2^63). *)
Definition int64 (z : Z) : Z := ((z + 2 ^ 63) `mod` 2 ^ 64 - 2 ^ 63)%Z.

Lemma int64_id z : (- 2 ^ 63 <= z < 2 ^ 63)%Z -> int64 z = z.
Proof. intros H. unfold int64. rewrite Z.mod_small; lia. Qed.

Lemma int64_range z : (- 2 ^ 63 <= int64 z < 2 ^ 63)%Z.
Proof. unfold int64. pose proof (Z.mod_pos_bound (z + 2 ^ 63) (2 ^ 64)). lia. Qed.

(** ** Lists *)

Lemma filter_none {A} (P : A -> Prop) `{!forall x, Decision (P x)} (l : list A) :
  (forall x, x ∈ l -> ~ P x) -> filter P l = [].
Proof.
  induction l as [|x l IH]; intros Hl; [done|]. rewrite filter_cons, decide_False.
  - apply IH. intros y Hy. apply Hl. by right.
  - apply Hl. left.
Qed.

Lemma filter_all {A} (P : A -> Prop) `{!forall x, Decision (P x)} (l : list A) :
  (forall x, x ∈ l -> P x) -> filter P l = l.
Proof.
  induction l as [|x l IH]; intros Hl; [done|]. rewrite filter_cons, decide_True.
  - f_equal. apply IH. intros y Hy. apply Hl. by right.
  - apply Hl. left.
Qed.

(** ** Tables

    A table is a finite map from the primary key to the row.  [rows] lists the
    rows of a table, a WHERE clause is a [filter] over them, and [order_by] is an
    ORDER BY on an integer-valued key. *)

Definition rows {A} (t : gmap N A) : list A := (map_to_list t).*2.

Definition key_le {A} (key : A -> Z) (x y : A) : Prop := (key x <= key y)%Z.

#[global] Instance key_le_dec {A} (key : A -> Z) : RelDecision (key_le key).
Proof. intros x y. unfold key_le. apply _. Defined.

#[global] Instance key_le_total {A} (key : A -> Z) : Total (key_le key).
Proof. intros x y. unfold key_le. lia. Qed.

#[global] Instance key_le_trans {A} (key : A -> Z) : Transitive (key_le key).
Proof. intros x y z. unfold key_le. lia. Qed.

Definition order_by {A} (key : A -> Z) (l : list A) : list A := merge_sort (key_le key) l.

Section tables.
Context {A : Type}.
Implicit Types (t : gmap N A) (l : list A) (P : A -> Prop).

Lemma elem_of_rows t x : x ∈ rows t <-> exists i, t !! i = Some x.
Proof.
  unfold rows. rewrite list_elem_of_fmap. split.
  - intros [[i y] [-> H]]. exists i. by apply elem_of_map_to_list.
  - intros [i H]. exists (i, x). split; [done|]. by apply elem_of_map_to_list.
Qed.

Lemma order_by_Permutation key l : order_by key l ≡ₚ l.
Proof. apply merge_sort_Permutation. Qed.

Lemma order_by_sorted key l : Sorted (key_le key) (order_by key l).
Proof. apply Sorted_merge_sort, _. Qed.

Lemma elem_of_order_by key l x : x ∈ order_by key l <-> x ∈ l.
Proof. by rewrite order_by_Permutation. Qed.

(** The first row of a query: present only if it satisfies the clause, absent only
    if no row does. *)
Lemma head_filter_Some P `{Pdec : !forall x, Decision (P x)} t x :
  head (filter P (rows t)) = Some x -> P x /\ exists i, t !! i = Some x.
Proof.
  intros H. apply head_Some_elem_of in H.
  apply list_elem_of_filter in H as [HP H]. split; [done|]. by apply elem_of_rows.
Qed.

Lemma head_filter_None P `{Pdec : !forall x, Decision (P x)} t :
  head (filter P (rows t)) = None <-> forall i x, t !! i = Some x -> ~ P x.
Proof.
  rewrite head_None. split.
  - intros H i x Hi HP. eapply not_elem_of_nil. rewrite <- H.
    apply list_elem_of_filter. split; [done|]. apply elem_of_rows; eauto.
  - intros H. destruct (filter P (rows t)) as [|x l] eqn:E; [done|].
    assert (x ∈ filter P (rows t)) as Hx by (rewrite E; constructor).
    apply list_elem_of_filter in Hx as [HP Hx].
    apply elem_of_rows in Hx as [i Hi]. by destruct (H i x Hi).
Qed.

Lemma head_filter_unique P `{Pdec : !forall x, Decision (P x)} t i x :
  (forall j y, t !! j = Some y -> P y -> y = x) ->
  t !! i = Some x -> P x -> head (filter P (rows t)) = Some x.
Proof.
  intros Hu Hi HP. destruct (head _) as [y|] eqn:E.
  - apply head_filter_Some in E as [HPy [j Hj]]. f_equal. by eapply Hu.
  - rewrite head_filter_None in E. by destruct (E i x Hi).
Qed.

(** The head of an ordered query is minimal for the ordering key. *)
Lemma head_order_by key l x :
  head (order_by key l) = Some x -> x ∈ l /\ forall y, y ∈ l -> (key x <= key y)%Z.
Proof.
  intros H. split.
  - apply (elem_of_order_by key). by apply head_Some_elem_of.
  - intros y Hy. apply (elem_of_order_by key) in Hy.
    pose proof (order_by_sorted key l) as Hs.
    destruct (order_by key l) as [|z zs]; [done|]. injection H as ->.
    apply Sorted_StronglySorted in Hs; [|apply _].
    apply StronglySorted_inv in Hs as [_ Hall]. rewrite Forall_forall in Hall.
    apply elem_of_cons in Hy as [->|Hy]; [lia|]. by apply Hall.
Qed.

Lemma head_order_by_None key l : head (order_by key l) = None <-> l = [].
Proof.
  rewrite head_None. split; [|by intros ->].
  intros H. apply Permutation_nil. by rewrite <- (order_by_Permutation key l), H.
Qed.
(** An ordering key without ties determines the order. *)
Lemma order_by_unique key l l' :
  (forall x y, x ∈ l -> y ∈ l -> key x = key y -> x = y) ->
  l' ≡ₚ l -> StronglySorted (key_le key) l' -> order_by key l = l'.
Proof.
  intros Hu Hp Hs. eapply (StronglySorted_unique_strong (key_le key)).
  - intros x y Hx Hy Hxy Hyx. apply elem_of_order_by in Hx. rewrite Hp in Hy.
    apply Hu; [done..|]. unfold key_le in *. lia.
  - apply Sorted_StronglySorted; [apply _|apply order_by_sorted].
  - done.
  - by rewrite order_by_Permutation.
Qed.

Lemma order_by_ssorted key l : StronglySorted (key_le key) (order_by key l).
Proof. apply Sorted_StronglySorted; [apply _|apply order_by_sorted]. Qed.

Lemma rows_insert t i x : t !! i = None -> rows (<[i := x]> t) ≡ₚ x :: rows t.
Proof. intros Hi. unfold rows. by rewrite map_to_list_insert. Qed.

Lemma rows_delete t i x : t !! i = Some x -> rows t ≡ₚ x :: rows (delete i t).
Proof. intros Hi. unfold rows. by rewrite <- (map_to_list_delete t i x). Qed.

Lemma rows_update t i x : rows (<[i := x]> t) ≡ₚ x :: rows (delete i t).
Proof.
  rewrite <- insert_delete_eq. apply rows_insert, lookup_delete_eq.
Qed.
End tables.

(** ** ORDER BY with ties

    Rows with the same key come in the order of a [rank], which is the server's choice. *)

Definition tie_le {A} (key rank : A -> Z) (x y : A) : Prop :=
  (key x < key y)%Z \/ (key x = key y /\ (rank x <= rank y)%Z).

#[global] Instance tie_le_dec {A} (key rank : A -> Z) : RelDecision (tie_le key rank).
Proof. intros x y. unfold tie_le. apply _. Defined.

#[global] Instance tie_le_total {A} (key rank : A -> Z) : Total (tie_le key rank).
Proof. intros x y. unfold tie_le. lia. Qed.

#[global] Instance tie_le_trans {A} (key rank : A -> Z) : Transitive (tie_le key rank).
Proof. intros x y z. unfold tie_le. lia. Qed.

Definition order_ties {A} (rank key : A -> Z) (l : list A) : list A := merge_sort (tie_le key rank) l.

Section ties.
Context {A : Type}.
Implicit Types (rank key : A -> Z) (l : list A).

Lemma order_ties_Permutation rank key l : order_ties rank key l ≡ₚ l.
Proof. apply merge_sort_Permutation. Qed.

Lemma elem_of_order_ties rank key l x : x ∈ order_ties rank key l <-> x ∈ l.
Proof. by rewrite order_ties_Permutation. Qed.

Lemma order_ties_strongly rank key l : StronglySorted (tie_le key rank) (order_ties rank key l).
Proof. apply Sorted_StronglySorted; [apply _|]. apply Sorted_merge_sort, _. Qed.

Lemma sorted_impl (R R' : A -> A -> Prop) l :
  (forall x y, R x y -> R' x y) -> StronglySorted R l -> StronglySorted R' l.
Proof.
  intros HR. induction 1 as [|x l _ IH Hx]; constructor; [done|].
  eapply Forall_impl; [exact Hx|]. apply HR.
Qed.

Lemma order_ties_ssorted rank key l : StronglySorted (key_le key) (order_ties rank key l).
Proof.
  eapply sorted_impl; [|apply order_ties_strongly]. intros x y. unfold tie_le, key_le. lia.
Qed.

(** The keys come as the ORDER BY has them, whatever the server does with ties. *)
Lemma order_ties_keys rank key l : key <$> order_ties rank key l = order_by id (key <$> l).
Proof.
  symmetry. apply order_by_unique; [done| |].
  - by rewrite order_ties_Permutation.
  - pose proof (order_ties_ssorted rank key l) as Hs. induction Hs as [|x l' _ IH Hx]; [constructor|].
    rewrite fmap_cons. constructor; [done|]. by apply Forall_fmap.
Qed.

(** Without ties there is one order. *)
Lemma order_ties_unique rank key l :
  (forall x y, x ∈ l -> y ∈ l -> key x = key y -> x = y) -> order_ties rank key l = order_by key l.
Proof.
  intros Hu. symmetry. apply order_by_unique; [done|apply order_ties_Permutation|apply order_ties_ssorted].
Qed.

(** A rank that puts the elements of a list in the order they have. *)
Lemma rank_of_list (ID : A -> N) l :
  NoDup (ID <$> l) -> exists rank : N -> Z, StronglySorted (fun x y => (rank (ID x) < rank (ID y))%Z) l.
Proof.
  induction l as [|x l IH]; intros Hnd; [exists (fun _ => 0%Z); constructor|].
  rewrite fmap_cons in Hnd. apply NoDup_cons in Hnd as [Hx Hnd]. destruct (IH Hnd) as [rank Hr].
  set (low := foldr (fun y => Z.min (rank (ID y))) 0%Z l).
  assert (forall y, y ∈ l -> (low <= rank (ID y))%Z) as Hlow.
  { subst low. clear. induction l as [|z l IH]; intros y Hy; [by apply elem_of_nil in Hy|].
    simpl. apply elem_of_cons in Hy as [->|Hy]; [lia|]. specialize (IH y Hy). lia. }
  assert (forall y, y ∈ l -> ID y <> ID x) as Hne
    by (intros y Hy Heq; apply Hx; rewrite <- Heq; by apply list_elem_of_fmap_2).
  exists (fun i => if decide (i = ID x) then (low - 1)%Z else rank i). constructor.
  - clear Hx Hnd IH Hlow. clearbody low. induction Hr as [|z l Hr IHr Hz]; constructor.
    + apply IHr. intros y Hy. apply Hne. by right.
    + rewrite Forall_forall in Hz |- *. intros y Hy.
      rewrite !decide_False by (apply Hne; first [by left|by right]). by apply Hz.
  - apply Forall_forall. intros y Hy. rewrite decide_True by done. rewrite decide_False by by apply Hne.
    specialize (Hlow y Hy). lia.
Qed.

Lemma strictly_sorted_injective (f : A -> Z) l x y :
  StronglySorted (fun x y => (f x < f y)%Z) l -> x ∈ l -> y ∈ l -> f x = f y -> x = y.
Proof.
  induction 1 as [|z l _ IH Hz]; intros Hx Hy Heq; [by apply elem_of_nil in Hx|].
  rewrite Forall_forall in Hz. apply elem_of_cons in Hx. apply elem_of_cons in Hy.
  destruct Hx as [->|Hx], Hy as [->|Hy]; [done|specialize (Hz y Hy); lia|specialize (Hz x Hx); lia|auto].
Qed.

(** Every list that respects the ORDER BY is what some server answers. *)
Lemma order_ties_any (ID : A -> N) key l l' :
  NoDup (ID <$> l) -> l' ≡ₚ l -> StronglySorted (key_le key) l' ->
  exists rank : N -> Z, order_ties (fun x => rank (ID x)) key l = l'.
Proof.
  intros Hnd Hp Hs. destruct (rank_of_list ID l') as [rank Hrank]; [by rewrite Hp|].
  exists rank. eapply (StronglySorted_unique_strong (tie_le key (fun x => rank (ID x)))).
  - intros x y Hx Hy Hxy Hyx. apply elem_of_order_ties in Hx.
    eapply (strictly_sorted_injective (fun x => rank (ID x))); [exact Hrank|by rewrite Hp|done|].
    unfold tie_le in *. lia.
  - apply order_ties_strongly.
  - clear Hp Hnd l. induction Hs as [|x l' _ IH Hx]; [constructor|].
    apply StronglySorted_inv in Hrank as [Hr Hrx]. constructor; [by apply IH|].
    rewrite Forall_forall in *. intros y Hy. specialize (Hx y Hy). specialize (Hrx y Hy).
    unfold tie_le, key_le in *. lia.
  - by rewrite order_ties_Permutation.
Qed.
End ties.
