(* ===== verification/Domain.v ===== *)
(** * Domain: internal/domain

    Entities, status enumerations and errors of the service, with the constructors
    and fields of the Go package.  A [uuid.UUID] is its 128-bit value, [uuid.Nil] is
    zero; a [time.Time] is its instant in UTC, in nanoseconds since the Unix epoch;
    a Go pointer field is an [option]. *)

From S2P Require Import Prelude.

Abbreviation uuid := N (only parsing).
Abbreviation time := Z (only parsing).
Abbreviation Duration := Z (only parsing).

Definition uuid_Nil : uuid := 0%N.

Definition Second : Duration := 1000000000%Z.
Definition Minute : Duration := (60 * Second)%Z.
Definition Hour : Duration := (60 * Minute)%Z.
Definition Day : Duration := (24 * Hour)%Z.

(** ** Errors (errors.go) *)

Inductive ErrorCode :=
| ErrorInvalidRequest
| ErrorUnauthorized
| ErrorNotFound
| ErrorRoomNotFound
| ErrorSlotNotFound
| ErrorSlotAlreadyBooked
| ErrorSlotReserved
| ErrorSlotNotBooked
| ErrorBookingNotFound
| ErrorReservationNotFound
| ErrorWaitlistNotFound
| ErrorWaitlistJoined
| ErrorForbidden
| ErrorScheduleExists
| ErrorInternalError.

#[global] Instance ErrorCode_eq_dec : EqDecision ErrorCode.
Proof. solve_decision. Defined.

Definition ErrorCode_string (c : ErrorCode) : string :=
  match c with
  | ErrorInvalidRequest => "INVALID_REQUEST"
  | ErrorUnauthorized => "UNAUTHORIZED"
  | ErrorNotFound => "NOT_FOUND"
  | ErrorRoomNotFound => "ROOM_NOT_FOUND"
  | ErrorSlotNotFound => "SLOT_NOT_FOUND"
  | ErrorSlotAlreadyBooked => "SLOT_ALREADY_BOOKED"
  | ErrorSlotReserved => "SLOT_RESERVED"
  | ErrorSlotNotBooked => "SLOT_NOT_BOOKED"
  | ErrorBookingNotFound => "BOOKING_NOT_FOUND"
  | ErrorReservationNotFound => "RESERVATION_NOT_FOUND"
  | ErrorWaitlistNotFound => "WAITLIST_NOT_FOUND"
  | ErrorWaitlistJoined => "WAITLIST_ALREADY_JOINED"
  | ErrorForbidden => "FORBIDDEN"
  | ErrorScheduleExists => "SCHEDULE_EXISTS"
  | ErrorInternalError => "INTERNAL_ERROR"
  end.

(** The error values of the program: domain errors, the errors of the database server
    ([*pgconn.PgError], of which the code reads SQLSTATE and constraint name), errors
    that wrap another one with [fmt.Errorf("...%w")], and every other error. *)
Inductive error :=
| DomainError (Code : ErrorCode) (Message : string) (Err : option error)
| PgError (Code ConstraintName : string)
| Wrapped (Message : string) (Err : error)
| PlainError (Message : string).

Definition NewDomainError (code : ErrorCode) (message : string) : error :=
  DomainError code message None.

Definition WrapDomainError (code : ErrorCode) (message : string) (err : option error) : error :=
  match err with
  | None => NewDomainError code message
  | Some _ => DomainError code message err
  end.

(** [errors.As] with a [*DomainError] target walks the chain from the outside and
    stops at the first domain error; the result carries its code and message. *)
Fixpoint AsDomainError (err : error) : option (ErrorCode * string) :=
  match err with
  | DomainError code message _ => Some (code, message)
  | Wrapped _ err => AsDomainError err
  | PgError _ _ | PlainError _ => None
  end.

(** [errors.As] with a [*pgconn.PgError] target. *)
Fixpoint AsPgError (err : error) : option (string * string) :=
  match err with
  | PgError code constraint => Some (code, constraint)
  | DomainError _ _ (Some err) => AsPgError err
  | Wrapped _ err => AsPgError err
  | DomainError _ _ None | PlainError _ => None
  end.

(** [de, ok := AsDomainError(err); ok && de.Code == code]. *)
Definition has_code (code : ErrorCode) (err : error) : bool :=
  match AsDomainError err with
  | Some (c, _) => bool_decide (c = code)
  | None => false
  end.

(** A Go result [(A, error)]. *)
Inductive result (A : Type) :=
| Ok (a : A)
| Err (e : error).
Arguments Ok {A} a.
Arguments Err {A} e.

(** ** Entities *)

Inductive UserRole :=
| RoleAdmin
| RoleUser
| RoleOther (s : string).

#[global] Instance UserRole_eq_dec : EqDecision UserRole.
Proof. solve_decision. Defined.

Record User := {
  us_ID : uuid;
  us_Email : string;
  us_PasswordHash : option string;
  us_Role : UserRole;
  us_CreatedAt : time }.

Record Room := {
  rm_ID : uuid;
  rm_Name : string;
  rm_Description : option string;
  rm_Capacity : option Z;
  rm_CreatedAt : time }.

Record Schedule := {
  sc_ID : uuid;
  sc_RoomID : uuid;
  sc_DayOfWeek : Z;
  sc_StartTime : string;
  sc_EndTime : string;
  sc_CreatedAt : time }.

Record Slot := {
  sl_ID : uuid;
  sl_RoomID : uuid;
  sl_StartTime : time;
  sl_EndTime : time;
  sl_CreatedAt : time }.

Inductive SlotStatus :=
| SlotStatusAvailable
| SlotStatusBooked
| SlotStatusReserved
| SlotStatusPast.

#[global] Instance SlotStatus_eq_dec : EqDecision SlotStatus.
Proof. solve_decision. Defined.

Record SlotView := {
  sv_ID : uuid;
  sv_RoomID : uuid;
  sv_StartTime : time;
  sv_EndTime : time;
  sv_Status : SlotStatus;
  sv_BookingID : option uuid;
  sv_ReservationID : option uuid;
  sv_WaitlistEntryID : option uuid }.

Inductive BookingStatus :=
| BookingStatusActive
| BookingStatusCancelled.

#[global] Instance BookingStatus_eq_dec : EqDecision BookingStatus.
Proof. solve_decision. Defined.

Record Booking := {
  bk_ID : uuid;
  bk_UserID : uuid;
  bk_SlotID : uuid;
  bk_Status : BookingStatus;
  bk_ConferenceLink : option string;
  bk_CreatedAt : time }.

Inductive WaitlistStatus :=
| WaitlistStatusActive
| WaitlistStatusNotified
| WaitlistStatusCancelled
| WaitlistStatusExpired.

#[global] Instance WaitlistStatus_eq_dec : EqDecision WaitlistStatus.
Proof. solve_decision. Defined.

Record WaitlistEntry := {
  wl_ID : uuid;
  wl_SlotID : uuid;
  wl_UserID : uuid;
  wl_Status : WaitlistStatus;
  wl_Position : Z;
  wl_CreatedAt : time;
  wl_NotifiedAt : option time }.

Inductive ReservationStatus :=
| ReservationStatusActive
| ReservationStatusConfirmed
| ReservationStatusExpired
| ReservationStatusCancelled.

#[global] Instance ReservationStatus_eq_dec : EqDecision ReservationStatus.
Proof. solve_decision. Defined.

Record SlotReservation := {
  rs_ID : uuid;
  rs_SlotID : uuid;
  rs_UserID : uuid;
  rs_WaitlistEntryID : option uuid;
  rs_Status : ReservationStatus;
  rs_ExpiresAt : time;
  rs_CreatedAt : time;
  rs_ConfirmedAt : option time;
  rs_ExpiredAt : option time }.

Record Pagination := {
  pg_Page : Z;
  pg_PageSize : Z;
  pg_Total : Z }.

(** ** Facts on errors *)

Lemma has_code_New c c' m : has_code c (NewDomainError c' m) = bool_decide (c' = c).
Proof. reflexivity. Qed.

Lemma has_code_Wrapped c m e : has_code c (Wrapped m e) = has_code c e.
Proof. reflexivity. Qed.

#[export] Hint Rewrite has_code_New has_code_Wrapped : svc_rw.
