(* ===== verification/GoStd.v ===== *)
(** * GoStd: what the service uses of the strings and time packages of Go

    [strings.TrimSpace] and [time.ParseInLocation] for the layouts "15:04:05" and "15:04",
    on the bytes of a string. *)

From Stdlib Require Import Ascii.
From S2P Require Import Prelude Domain.

(** ** strings *)

(** The white space of Unicode, by the length of its encoding in UTF-8. *)
Definition is_space (c : ascii) : bool :=
  let n := N_of_ascii c in ((9 <=? n)%N && (n <=? 13)%N) || (n =? 32)%N.

Definition is_space2 (c1 c2 : ascii) : bool :=
  (N_of_ascii c1 =? 194)%N && ((N_of_ascii c2 =? 133)%N || (N_of_ascii c2 =? 160)%N).

Definition is_space3 (c1 c2 c3 : ascii) : bool :=
  let n1 := N_of_ascii c1 in
  let n2 := N_of_ascii c2 in
  let n3 := N_of_ascii c3 in
  ((n1 =? 225)%N && (n2 =? 154)%N && (n3 =? 128)%N) ||
  ((n1 =? 226)%N && (n2 =? 128)%N &&
     (((128 <=? n3)%N && (n3 <=? 138)%N) || (n3 =? 168)%N || (n3 =? 169)%N || (n3 =? 175)%N)) ||
  ((n1 =? 226)%N && (n2 =? 129)%N && (n3 =? 159)%N) ||
  ((n1 =? 227)%N && (n2 =? 128)%N && (n3 =? 128)%N).

(** Strips the runes at the front of [s] that are white space. *)
Fixpoint trim (space2 : ascii -> ascii -> bool) (space3 : ascii -> ascii -> ascii -> bool)
    (s : list ascii) : list ascii :=
  match s with
  | [] => []
  | c1 :: s1 =>
      if is_space c1 then trim space2 space3 s1
      else
        match s1 with
        | [] => s
        | c2 :: s2 =>
            if space2 c1 c2 then trim space2 space3 s2
            else
              match s2 with
              | [] => s
              | c3 :: s3 => if space3 c1 c2 c3 then trim space2 space3 s3 else s
              end
        end
  end.

Definition trim_left : list ascii -> list ascii := trim is_space2 is_space3.

(** The same from the back: the bytes of a rune come in reverse. *)
Definition trim_right (s : list ascii) : list ascii :=
  rev (trim (fun c1 c2 => is_space2 c2 c1) (fun c1 c2 c3 => is_space3 c3 c2 c1) (rev s)).

Definition TrimSpace (s : list ascii) : list ascii := trim_right (trim_left s).

(** ** time *)

(** [time.ParseInLocation] for the two layouts in use, on the bytes of the string. *)
Definition digit (c : ascii) : option Z :=
  let n := Z.of_N (N_of_ascii c) in
  if (48 <=? n)%Z && (n <=? 57)%Z then Some (n - 48)%Z else None.

(** [getnum(s, fixed)]: two digits, or one where the layout allows it. *)
Definition getnum (s : list ascii) (fixed : bool) : option (Z * list ascii) :=
  match s with
  | [] => None
  | c :: rest =>
      match digit c, rest with
      | None, _ => None
      | Some d, c' :: rest' =>
          match digit c' with
          | Some d' => Some ((10 * d + d')%Z, rest')
          | None => if fixed then None else Some (d, rest)
          end
      | Some d, [] => if fixed then None else Some (d, rest)
      end
  end.

Definition skip_colon (s : list ascii) : option (list ascii) :=
  match s with
  | ":"%char :: rest => Some rest
  | _ => None
  end.

Fixpoint digits (s : list ascii) : list Z * list ascii :=
  match s with
  | c :: rest =>
      match digit c with
      | Some d => let '(ds, rest) := digits rest in (d :: ds, rest)
      | None => ([], s)
      end
  | [] => ([], [])
  end.

Definition number (ds : list Z) : Z := fold_left (fun n d => (10 * n + d)%Z) ds 0%Z.

(** A fraction after the seconds is read although the layout has none: at most nine
    digits count. *)
Definition fraction (s : list ascii) : Z * list ascii :=
  match s with
  | c :: rest =>
      if bool_decide (c = "."%char) || bool_decide (c = ","%char) then
        match digits rest with
        | ([], _) => (0%Z, s)
        | (ds, rest) =>
            let ds := take 9 ds in
            ((number ds * 10 ^ (9 - Z.of_nat (length ds)))%Z, rest)
        end
      else (0%Z, s)
  | [] => (0%Z, s)
  end.

Definition below (bound : Z) (x : Z * list ascii) : option (Z * list ascii) :=
  if (x.1 <? bound)%Z then Some x else None.

(** The layout "15:04", and with [seconds] the layout "15:04:05". *)
Definition parse_layout (seconds : bool) (s : list ascii) : option Duration :=
  '(hour, s) ← getnum s false ≫= below 24;
  s ← skip_colon s;
  '(minute, s) ← getnum s true ≫= below 60;
  '(sec, ns, s) ←
    (if seconds then
       s ← skip_colon s;
       '(sec, s) ← getnum s true ≫= below 60;
       let '(ns, s) := fraction s in Some (sec, ns, s)
     else Some (0%Z, 0%Z, s));
  match s with
  | [] => Some (hour * Hour + minute * Minute + sec * Second + ns)%Z
  | _ => None
  end.

(** ** Text that is not trimmed *)

Definition plain (c : ascii) : Prop := is_space c = false /\ (N_of_ascii c < 128)%N.

Lemma trim_plain space2 space3 c s :
  is_space c = false -> (forall c2, space2 c c2 = false) ->
  (forall c2 c3, space3 c c2 c3 = false) -> trim space2 space3 (c :: s) = c :: s.
Proof.
  intros Hc H2 H3. simpl. rewrite Hc. destruct s as [|c2 [|c3 s]]; [done|by rewrite H2|].
  by rewrite H2, H3.
Qed.

(** Text that starts and ends with a plain character. *)
Lemma TrimSpace_plain c l d :
  plain c -> plain d -> TrimSpace (c :: l ++ [d]) = c :: l ++ [d].
Proof.
  intros [Hc Hc'] [Hd Hd']. unfold TrimSpace, trim_left. rewrite trim_plain; [|done|..].
  - unfold trim_right. change (c :: l ++ [d]) with ((c :: l) ++ [d]). rewrite rev_app_distr.
    change (rev [d] ++ rev (c :: l)) with (d :: rev (c :: l)). rewrite trim_plain; [|done|..].
    + change (rev (d :: rev (c :: l))) with (rev (rev (c :: l)) ++ [d]). by rewrite rev_involutive.
    + intros c2. unfold is_space2. apply andb_false_iff. right.
      apply orb_false_iff. split; apply N.eqb_neq; lia.
    + intros c2 c3. unfold is_space3. rewrite !orb_false_iff, !andb_false_iff, !orb_false_iff,
        !andb_false_iff, !N.eqb_neq, !N.leb_gt. lia.
  - intros c2. unfold is_space2. apply andb_false_iff. left. apply N.eqb_neq. lia.
  - intros c2 c3. unfold is_space3. rewrite !orb_false_iff, !andb_false_iff, !orb_false_iff,
      !andb_false_iff, !N.eqb_neq, !N.leb_gt. lia.
Qed.

(** ** Trimming twice *)

(** Whether a rune of white space is at the front. *)
Definition leads (space2 : ascii -> ascii -> bool) (space3 : ascii -> ascii -> ascii -> bool)
    (s : list ascii) : bool :=
  match s with
  | c1 :: c2 :: c3 :: _ => is_space c1 || space2 c1 c2 || space3 c1 c2 c3
  | [c1; c2] => is_space c1 || space2 c1 c2
  | [c1] => is_space c1
  | [] => false
  end.

Lemma trim_leads space2 space3 s : leads space2 space3 (trim space2 space3 s) = false.
Proof.
  induction s as [s IH] using (induction_ltof1 _ length). unfold ltof in IH.
  destruct s as [|c1 s1]; [done|]. simpl. destruct (is_space c1) eqn:H1; [apply IH; simpl; lia|].
  destruct s1 as [|c2 s2]; [done|]. destruct (space2 c1 c2) eqn:H2; [apply IH; simpl; lia|].
  destruct s2 as [|c3 s3]; [simpl; by rewrite H1, H2|].
  destruct (space3 c1 c2 c3) eqn:H3; [apply IH; simpl; lia|]. simpl. by rewrite H1, H2, H3.
Qed.

Lemma trim_fixed space2 space3 s : leads space2 space3 s = false -> trim space2 space3 s = s.
Proof.
  destruct s as [|c1 [|c2 [|c3 s]]]; simpl; [done|by intros ->|..].
  - intros [-> ->]%orb_false_iff. done.
  - intros [[-> ->]%orb_false_iff ->]%orb_false_iff. done.
Qed.

(** What is left after trimming is a tail. *)
Lemma trim_suffix space2 space3 s : exists front, s = front ++ trim space2 space3 s.
Proof.
  induction s as [s IH] using (induction_ltof1 _ length). unfold ltof in IH.
  destruct s as [|c1 s1]; [by exists []|]. simpl.
  destruct (is_space c1); [destruct (IH s1) as [f Hf]; [simpl; lia|]; exists (c1 :: f); simpl; by f_equal|].
  destruct s1 as [|c2 s2]; [by exists []|].
  destruct (space2 c1 c2).
  { destruct (IH s2) as [f Hf]; [simpl; lia|]. exists (c1 :: c2 :: f). simpl. by do 2 f_equal. }
  destruct s2 as [|c3 s3]; [by exists []|].
  destruct (space3 c1 c2 c3); [|by exists []].
  destruct (IH s3) as [f Hf]; [simpl; lia|]. exists (c1 :: c2 :: c3 :: f). simpl. by do 3 f_equal.
Qed.

Lemma leads_prefix space2 space3 s t :
  leads space2 space3 (s ++ t) = false -> leads space2 space3 s = false.
Proof.
  destruct s as [|c1 [|c2 [|c3 s]]], t as [|d1 [|d2 t]]; simpl; rewrite ?orb_false_iff; tauto.
Qed.

(** A trimmed text neither starts nor ends with white space. *)
Lemma TrimSpace_trimmed s : trim_left (TrimSpace s) = TrimSpace s /\ trim_right (TrimSpace s) = TrimSpace s.
Proof.
  unfold TrimSpace. set (l := trim_left s). split.
  - apply trim_fixed. unfold trim_right.
    destruct (trim_suffix (fun c1 c2 => is_space2 c2 c1) (fun c1 c2 c3 => is_space3 c3 c2 c1) (rev l))
      as [front Hf].
    apply (leads_prefix _ _ _ (rev front)). rewrite <- rev_app_distr, <- Hf, rev_involutive.
    apply trim_leads.
  - unfold trim_right. rewrite rev_involutive. f_equal. apply trim_fixed, trim_leads.
Qed.
