(* ===== verification/Text.v ===== *)
(** * Text: numbers, identifiers and binary data as text

    [strconv], [strings] and [encoding/base64] of Go as the service uses them, on the bytes
    of a string, and the texts of identifiers. *)

From Stdlib Require Import Ascii.
From S2P Require Import Prelude Domain.

Abbreviation bytes := (list ascii) (only parsing).

Definition bytes_of (s : string) : bytes := String.list_ascii_of_string s.
Definition string_of (s : bytes) : string := String.string_of_list_ascii s.

Lemma bytes_of_string_of s : bytes_of (string_of s) = s.
Proof. apply String.list_ascii_of_string_of_list_ascii. Qed.
Lemma string_of_bytes_of s : string_of (bytes_of s) = s.
Proof. apply String.string_of_list_ascii_of_string. Qed.

Lemma bytes_of_app s t : bytes_of (s ++ t)%string = bytes_of s ++ bytes_of t.
Proof. unfold bytes_of. induction s as [|c s IH]; [done|]. simpl. by rewrite IH. Qed.

(** ** strings *)

Fixpoint has_prefix (p s : bytes) : bool :=
  match p, s with
  | [], _ => true
  | c :: p, d :: s => bool_decide (c = d) && has_prefix p s
  | _ :: _, [] => false
  end.

Lemma has_prefix_drop p s : has_prefix p s = true -> s = p ++ drop (length p) s.
Proof.
  revert s. induction p as [|c p IH]; intros [|d s]; simpl; try done.
  intros [->%bool_decide_eq_true Hp]%andb_true_iff. f_equal. by apply IH.
Qed.

(** [strings.Split(s, sep)] for a separator of one byte. *)
Fixpoint split (sep : ascii) (s : bytes) : list bytes :=
  match s with
  | [] => [[]]
  | c :: s =>
      if bool_decide (c = sep) then [] :: split sep s
      else
        match split sep s with
        | part :: parts => (c :: part) :: parts
        | [] => [[c]]
        end
  end.

Lemma split_clean sep s : sep ∉ s -> split sep s = [s].
Proof.
  induction s as [|c s IH]; intros Hs; [done|]. simpl.
  rewrite bool_decide_false by (intros ->; apply Hs; left). rewrite IH; [done|].
  intros Hin. apply Hs. by right.
Qed.

Lemma split_app sep s t : sep ∉ s -> split sep (s ++ sep :: t) = s :: split sep t.
Proof.
  induction s as [|c s IH]; intros Hs; simpl.
  - by rewrite bool_decide_true.
  - rewrite bool_decide_false by (intros ->; apply Hs; left).
    rewrite IH; [done|]. intros Hin. apply Hs. by right.
Qed.

(** The separator joins the parts again, and occurs in none of them. *)
Lemma split_join sep s : exists part parts, split sep s = part :: parts /\
  s = part ++ concat (map (cons sep) parts) /\ Forall (fun p => sep ∉ p) (part :: parts).
Proof.
  induction s as [|c s (part & parts & Hs & Heq & Hall)]; simpl.
  - exists [], []. split_and!; [done|done|]. by repeat constructor; apply not_elem_of_nil.
  - rewrite Hs. case_bool_decide as Hc.
    + subst c. exists [], (part :: parts). split_and!; [done|simpl; by f_equal|].
      constructor; [apply not_elem_of_nil|done].
    + exists (c :: part), parts. split_and!; [done|simpl; by f_equal|].
      inversion Hall; subst. constructor; [|done]. by apply not_elem_of_cons.
Qed.

(** ** strconv *)

Fixpoint decimal (fuel : nat) (n : N) : bytes :=
  match fuel with
  | O => []
  | S fuel =>
      (if (n <? 10)%N then [] else decimal fuel (n / 10)%N) ++
      [ascii_of_N (48 + n `mod` 10)%N]
  end.

(** [strconv.FormatInt(n, 10)] of a 64-bit integer: at most 19 digits. *)
Definition FormatInt (n : Z) : bytes :=
  if (n <? 0)%Z then "-"%char :: decimal 20 (Z.to_N (- n)) else decimal 20 (Z.to_N n).

Definition digit_value (c : ascii) : option N :=
  let n := N_of_ascii c in
  if (48 <=? n)%N && (n <=? 57)%N then Some (n - 48)%N else None.

(** The digits of a number, most significant first. *)
Fixpoint read_digits (s : bytes) (n : N) : option N :=
  match s with
  | [] => Some n
  | c :: s => d ← digit_value c; read_digits s (10 * n + d)%N
  end.

Definition sign (s : bytes) : Z * bytes :=
  match s with
  | c :: t =>
      if bool_decide (c = "+"%char) then (1%Z, t)
      else if bool_decide (c = "-"%char) then ((-1)%Z, t) else (1%Z, s)
  | [] => (1%Z, [])
  end.

(** [strconv.ParseInt(s, 10, 64)], which [strconv.Atoi] agrees with: an optional sign,
    digits, and a value of 64 bits. *)
Definition ParseInt (s : bytes) : option Z :=
  let '(sg, s) := sign s in
  n ← match s with [] => None | _ => read_digits s 0 end;
  let z := (sg * Z.of_N n)%Z in
  if (- 2 ^ 63 <=? z)%Z && (z <? 2 ^ 63)%Z then Some z else None.

Lemma digit_value_of d : (d < 10)%N -> digit_value (ascii_of_N (48 + d)) = Some d.
Proof.
  intros Hd. unfold digit_value. rewrite N_ascii_embedding by lia.
  rewrite (proj2 (N.leb_le _ _)), (proj2 (N.leb_le (48 + d) _)) by lia. simpl. f_equal. lia.
Qed.

Lemma read_digits_app s t n : read_digits (s ++ t) n = read_digits s n ≫= read_digits t.
Proof.
  revert n. induction s as [|c s IH]; intros n; [done|]. simpl.
  destruct (digit_value c); simpl; [apply IH|done].
Qed.

(** Enough fuel gives all digits: [n < 10 ^ fuel]. *)
Lemma read_decimal fuel n : (n < 10 ^ N.of_nat fuel)%N -> (0 < fuel)%nat ->
  read_digits (decimal fuel n) 0 = Some n.
Proof.
  revert n. induction fuel as [|fuel IH]; intros n Hn Hf; [lia|]. cbn [decimal].
  pose proof (N.mod_lt n 10 ltac:(done)). pose proof (N.div_mod n 10 ltac:(done)).
  rewrite read_digits_app. destruct (N.ltb_spec n 10) as [Hlt|Hge].
  - simpl. rewrite digit_value_of by done. simpl. f_equal. rewrite N.mod_small; lia.
  - destruct fuel as [|fuel]; [simpl in Hn; lia|]. rewrite IH.
    + cbn [mbind option_bind read_digits]. rewrite digit_value_of by done.
      cbn [mbind option_bind read_digits]. f_equal. lia.
    + rewrite Nat2N.inj_succ, N.pow_succ_r' in Hn. apply N.Div0.div_lt_upper_bound. lia.
    + lia.
Qed.

Lemma decimal_cons fuel n : exists c s, decimal (S fuel) n = c :: s /\ is_Some (digit_value c).
Proof.
  revert n. induction fuel as [|fuel IH]; intros n.
  - exists (ascii_of_N (48 + n `mod` 10)), []. split; [by simpl; destruct (n <? 10)%N|].
    rewrite digit_value_of; [done|]. by apply N.mod_lt.
  - remember (S fuel) as f eqn:Hf. cbn [decimal]. destruct (N.ltb_spec n 10).
    + eexists _, []. split; [done|]. rewrite digit_value_of; [done|]. by apply N.mod_lt.
    + destruct (IH (n / 10)%N) as (c & s & -> & Hc). by exists c, (s ++ [ascii_of_N (48 + n `mod` 10)]).
Qed.

Lemma digit_not_sign c : is_Some (digit_value c) -> c <> "+"%char /\ c <> "-"%char.
Proof. intros [d Hd]. by split; intros ->. Qed.

Lemma ParseInt_FormatInt z : (- 2 ^ 63 <= z < 2 ^ 63)%Z -> ParseInt (FormatInt z) = Some z.
Proof.
  intros Hz. unfold FormatInt, ParseInt.
  assert (forall n, (n <= 2 ^ 63)%N -> read_digits (decimal 20 n) 0 = Some n) as Hread.
  { intros n Hn. apply read_decimal; [|lia]. eapply N.le_lt_trans; [exact Hn|done]. }
  destruct (Z.ltb_spec z 0).
  - cbn [sign]. rewrite bool_decide_false, bool_decide_true by done.
    destruct (decimal_cons 19 (Z.to_N (- z))) as (c & s & Heq & _).
    rewrite Hread by lia. rewrite Heq. cbn [mbind option_bind].
    replace (-1 * Z.of_N (Z.to_N (- z)))%Z with z by lia.
    by rewrite (proj2 (Z.leb_le _ _)), (proj2 (Z.ltb_lt _ _)) by lia.
  - destruct (decimal_cons 19 (Z.to_N z)) as (c & s & Heq & Hc).
    pose proof (Hread (Z.to_N z) ltac:(lia)) as Hr. rewrite Heq in *.
    destruct (digit_not_sign c Hc) as [Hp Hm].
    cbn [sign]. rewrite !bool_decide_false by done. rewrite Hr. cbn [mbind option_bind].
    replace (1 * Z.of_N (Z.to_N z))%Z with z by lia.
    by rewrite (proj2 (Z.leb_le _ _)), (proj2 (Z.ltb_lt _ _)) by lia.
Qed.

Example Atoi_ok : ParseInt (bytes_of "+42") = Some 42%Z /\ ParseInt (bytes_of "-") = None /\
  ParseInt (bytes_of "9223372036854775808") = None /\ ParseInt (bytes_of "007") = Some 7%Z.
Proof. done. Qed.

(** ** Identifiers *)

Definition hex_digit (n : N) : ascii :=
  ascii_of_N (if (n <? 10)%N then 48 + n else 87 + n).

(** The low [n] hexadecimal digits of a number, most significant first. *)
Fixpoint hex (n : nat) (x : N) : bytes :=
  match n with
  | O => []
  | S n => hex n (x / 16)%N ++ [hex_digit (x `mod` 16)%N]
  end.

(** [UUID.String]: 8-4-4-4-12 hexadecimal digits. *)
Definition uuid_String (u : uuid) : bytes :=
  let h := hex 32 u in
  take 8 h ++ ["-"%char] ++ take 4 (drop 8 h) ++ ["-"%char] ++ take 4 (drop 12 h) ++
  ["-"%char] ++ take 4 (drop 16 h) ++ ["-"%char] ++ drop 20 h.

(** ** base64.RawURLEncoding *)

Definition encodeURL : bytes :=
  bytes_of "ABCDEFGHIJKLMNOPQRSTUVWXYZabcdefghijklmnopqrstuvwxyz0123456789-_".

(** The character of a 6-bit value. *)
Definition char64 (n : N) : ascii := nth (N.to_nat (n `mod` 64)) encodeURL "A"%char.

Fixpoint index_of (c : ascii) (s : bytes) : option N :=
  match s with
  | [] => None
  | d :: s => if bool_decide (c = d) then Some 0%N else N.succ <$> index_of c s
  end.

Definition value64 (c : ascii) : option N := index_of c encodeURL.

Fixpoint EncodeToString (s : bytes) : bytes :=
  match s with
  | a :: b :: c :: s =>
      let n := (N_of_ascii a * 65536 + N_of_ascii b * 256 + N_of_ascii c)%N in
      char64 (n / 262144) :: char64 (n / 4096) :: char64 (n / 64) :: char64 n ::
      EncodeToString s
  | [a; b] =>
      let n := (N_of_ascii a * 65536 + N_of_ascii b * 256)%N in
      [char64 (n / 262144); char64 (n / 4096); char64 (n / 64)]
  | [a] =>
      let n := (N_of_ascii a * 65536)%N in
      [char64 (n / 262144); char64 (n / 4096)]
  | [] => []
  end.

Definition byte_of (n : N) : ascii := ascii_of_N (n `mod` 256).

(** Four characters make three bytes; two or three characters at the end make one or two,
    and the bits that are left over are ignored. *)
Fixpoint decode_quanta (s : bytes) : option bytes :=
  match s with
  | [] => Some []
  | a :: s =>
      a ← value64 a;
      match s with
      | [] => None
      | b :: s =>
          b ← value64 b;
          match s with
          | [] => let n := (a * 262144 + b * 4096)%N in Some [byte_of (n / 65536)]
          | c :: s =>
              c ← value64 c;
              match s with
              | [] =>
                  let n := (a * 262144 + b * 4096 + c * 64)%N in
                  Some [byte_of (n / 65536); byte_of (n / 256)]
              | d :: s =>
                  d ← value64 d;
                  let n := (a * 262144 + b * 4096 + c * 64 + d)%N in
                  rest ← decode_quanta s;
                  Some (byte_of (n / 65536) :: byte_of (n / 256) :: byte_of n :: rest)
              end
          end
      end
  end.

Definition is_newline (c : ascii) : Prop := c = "013"%char \/ c = "010"%char.
#[global] Instance is_newline_dec c : Decision (is_newline c).
Proof. unfold is_newline. apply _. Defined.

(** [DecodeString]: line breaks are skipped wherever they are. *)
Definition DecodeString (s : bytes) : option bytes :=
  decode_quanta (filter (fun c => ~ is_newline c) s).

Lemma value64_char64 n : value64 (char64 n) = Some (n `mod` 64)%N.
Proof.
  unfold char64. assert (n `mod` 64 < 64)%N as Hn by (by apply N.mod_lt).
  set (m := (n `mod` 64)%N) in *. clearbody m.
  assert (forallb (fun k => bool_decide (value64 (nth k encodeURL "A"%char) = Some (N.of_nat k)))
    (seq 0 64) = true) as Hall by by vm_compute.
  rewrite forallb_forall in Hall. specialize (Hall (N.to_nat m)).
  rewrite N2Nat.id, bool_decide_eq_true in Hall. apply Hall, in_seq. lia.
Qed.

Lemma byte_of_ascii c n : (n `mod` 256 = N_of_ascii c)%N -> byte_of n = c.
Proof. intros H. unfold byte_of. rewrite H. apply ascii_N_embedding. Qed.

Lemma N_of_ascii_bound c : (N_of_ascii c < 256)%N.
Proof. by destruct c as [[] [] [] [] [] [] [] []]. Qed.

(** Division in [N], by translation to [Z]. *)
Ltac div_mod_N :=
  apply N2Z.inj;
  repeat rewrite ?N2Z.inj_add, ?N2Z.inj_mul, ?N2Z.inj_mod, ?N2Z.inj_div;
  Z.div_mod_to_equations; lia.

(** The 6-bit values of a quantum make it up again; those of an incomplete one are the
    leading ones. *)
Lemma quantum n : (n < 16777216)%N ->
  ((n / 262144) `mod` 64 * 262144 + (n / 4096) `mod` 64 * 4096 + (n / 64) `mod` 64 * 64 +
     n `mod` 64 = n)%N.
Proof. intros Hn. div_mod_N. Qed.

Lemma quantum2 a b : (a < 256)%N -> (b < 256)%N ->
  let n := (a * 65536 + b * 256)%N in
  ((n / 262144) `mod` 64 * 262144 + (n / 4096) `mod` 64 * 4096 + (n / 64) `mod` 64 * 64 = n)%N.
Proof. intros Ha Hb n. subst n. div_mod_N. Qed.

Lemma quantum1 a : (a < 256)%N ->
  let n := (a * 65536)%N in
  ((n / 262144) `mod` 64 * 262144 + (n / 4096) `mod` 64 * 4096 = n)%N.
Proof. intros Ha n. subst n. div_mod_N. Qed.

Lemma quantum_bytes a b c : (a < 256)%N -> (b < 256)%N -> (c < 256)%N ->
  let n := (a * 65536 + b * 256 + c)%N in
  ((n / 65536) `mod` 256 = a /\ (n / 256) `mod` 256 = b /\ n `mod` 256 = c)%N.
Proof. intros Ha Hb Hc n. subst n. split_and!; div_mod_N. Qed.

Lemma decode_encode s : decode_quanta (EncodeToString s) = Some s.
Proof.
  induction s as [s IH] using (induction_ltof1 _ length). unfold ltof in IH.
  pose proof N_of_ascii_bound as Hb.
  destruct s as [|a [|b [|c s]]]; [done|..]; cbn [EncodeToString decode_quanta];
    rewrite !value64_char64; cbn [mbind option_bind].
  - rewrite quantum1 by done.
    destruct (quantum_bytes (N_of_ascii a) 0 0) as (H1 & _); [done..|].
    rewrite !N.add_0_r in H1. by rewrite (byte_of_ascii a).
  - rewrite quantum2 by done.
    destruct (quantum_bytes (N_of_ascii a) (N_of_ascii b) 0) as (H1 & H2 & _); [done..|].
    rewrite !N.add_0_r in H1, H2. by rewrite (byte_of_ascii a), (byte_of_ascii b).
  - pose proof (Hb a). pose proof (Hb b). pose proof (Hb c).
    rewrite quantum, IH by (simpl; lia). cbn [mbind option_bind].
    destruct (quantum_bytes (N_of_ascii a) (N_of_ascii b) (N_of_ascii c)) as (Ha1 & Hb1 & Hc1);
      [done..|].
    by rewrite (byte_of_ascii a), (byte_of_ascii b), (byte_of_ascii c).
Qed.

(** The characters of an encoding: no line break, no dot. *)
Lemma char64_in n : char64 n ∈ encodeURL.
Proof.
  unfold char64. apply list_elem_of_In, nth_In. pose proof (N.mod_lt n 64 ltac:(done)).
  change (length encodeURL) with 64%nat. lia.
Qed.

Lemma encoded_chars s c : c ∈ EncodeToString s -> c ∈ encodeURL.
Proof.
  induction s as [s IH] using (induction_ltof1 _ length). unfold ltof in IH.
  destruct s as [|x [|y [|z s]]]; cbn [EncodeToString]; rewrite ?elem_of_cons; intros Hc;
    destruct_or? Hc; subst; auto using char64_in; try by apply elem_of_nil in Hc.
  eapply IH; [|exact Hc]. simpl. lia.
Qed.

(** What the encoding produces is decoded to the same bytes. *)
Lemma DecodeString_EncodeToString s : DecodeString (EncodeToString s) = Some s.
Proof.
  unfold DecodeString. replace (filter _ _) with (EncodeToString s); [apply decode_encode|].
  symmetry. apply filter_all. intros c Hc%encoded_chars Hn.
  assert (forallb (fun d => negb (bool_decide (is_newline d))) encodeURL = true) as Hall by done.
  rewrite forallb_forall in Hall. specialize (Hall c (proj1 (list_elem_of_In _ _) Hc)).
  by rewrite bool_decide_true in Hall.
Qed.

Lemma encoded_no_dot s : "."%char ∉ EncodeToString s.
Proof. intros H%encoded_chars. by apply list_elem_of_In in H; vm_compute in H; destruct_or! H. Qed.
