(* ===== verification/Json.v ===== *)
(** * Json: encoding/json of Go, as the service uses it

    The scanner and the decoding of strings, byte by byte; [Unmarshal] into the fields of a
    struct as a type class, with an instance per kind of field; [Marshal]; and the round
    trip of the flat objects the service sends to itself (claims of tokens, events). *)

From Stdlib Require Import Ascii.
From S2P Require Import Prelude Domain Text.

Inductive json :=
| JNull
| JBool (b : bool)
| JNum (literal : bytes)
| JStr (s : bytes)
| JArr (l : list json)
| JObj (l : list (bytes * json)).

(** What the scanner makes of a prefix of its input.  [Exhausted] does not happen:
    [parse_total]. *)
Inductive outcome (A : Type) :=
| Done (a : A) (rest : bytes)
| Invalid
| Incomplete
| Exhausted.
Arguments Done {A} a rest.
Arguments Invalid {A}.
Arguments Incomplete {A}.
Arguments Exhausted {A}.

Definition and_then {A B} (x : outcome A) (k : A -> bytes -> outcome B) : outcome B :=
  match x with
  | Done a rest => k a rest
  | Invalid => Invalid
  | Incomplete => Incomplete
  | Exhausted => Exhausted
  end.
Notation "x '>>' f" := (and_then x f) (at level 50, left associativity) : prog_json_scope.
Declare Scope prog_json_scope.
Open Scope prog_json_scope.

Definition map_outcome {A B} (f : A -> B) (x : outcome A) : outcome B :=
  x >> fun a rest => Done (f a) rest.

(** ** Characters *)

Definition code (c : ascii) : N := N_of_ascii c.
Definition byte (n : N) : ascii := ascii_of_N n.
Definition quote_mark : ascii := byte 34.
Definition backslash : ascii := byte 92.

Definition is_ws (c : ascii) : bool :=
  ((code c =? 32) || (code c =? 9) || (code c =? 13) || (code c =? 10))%N.

Fixpoint skip_ws (s : bytes) : bytes :=
  match s with
  | c :: s' => if is_ws c then skip_ws s' else s
  | [] => []
  end.

(** ** UTF-8 *)

Definition between (lo hi : N) (c : ascii) : bool := ((lo <=? code c) && (code c <=? hi))%N.

(** The length of the well-formed multi-byte sequence at the front, as in
    [utf8.DecodeRune]. *)
Definition rune_len (s : bytes) : option nat :=
  match s with
  | c1 :: c2 :: s =>
      if between 194 223 c1 && between 128 191 c2 then Some 2%nat
      else
        match s with
        | c3 :: s =>
            if ((between 224 224 c1 && between 160 191 c2) ||
                (between 225 236 c1 && between 128 191 c2) ||
                (between 237 237 c1 && between 128 159 c2) ||
                (between 238 239 c1 && between 128 191 c2)) && between 128 191 c3
            then Some 3%nat
            else
              match s with
              | c4 :: _ =>
                  if ((between 240 240 c1 && between 144 191 c2) ||
                      (between 241 243 c1 && between 128 191 c2) ||
                      (between 244 244 c1 && between 128 143 c2)) &&
                     between 128 191 c3 && between 128 191 c4
                  then Some 4%nat else None
              | [] => None
              end
        | [] => None
        end
  | _ => None
  end.

(** U+FFFD. *)
Definition replacement : bytes := [byte 239; byte 191; byte 189].

(** The rune at the front, and what follows it; a malformed byte stands for U+FFFD. *)
Definition read_rune (s : bytes) : bytes * bytes :=
  match s with
  | [] => ([], [])
  | c :: s' =>
      if (code c <? 128)%N then ([c], s')
      else
        match rune_len s with
        | Some n => (take n s, drop n s)
        | None => (replacement, s')
        end
  end.

(** [utf8.EncodeRune] of a code point that is not a surrogate. *)
Definition encode_rune (r : N) : bytes :=
  (if r <? 128 then [byte r]
   else if r <? 2048 then [byte (192 + r / 64); byte (128 + r `mod` 64)]
   else if r <? 65536 then
     [byte (224 + r / 4096); byte (128 + (r / 64) `mod` 64); byte (128 + r `mod` 64)]
   else
     [byte (240 + r / 262144); byte (128 + (r / 4096) `mod` 64);
      byte (128 + (r / 64) `mod` 64); byte (128 + r `mod` 64)])%N.

(** ** Strings *)

Definition hex_value (c : ascii) : option N :=
  if between 48 57 c then Some (code c - 48)%N
  else if between 97 102 c then Some (code c - 87)%N
  else if between 65 70 c then Some (code c - 55)%N
  else None.

(** [n] hexadecimal digits. *)
Fixpoint read_hex (n : nat) (acc : N) (s : bytes) : outcome N :=
  match n with
  | O => Done acc s
  | S n =>
      match s with
      | [] => Incomplete
      | c :: s =>
          match hex_value c with
          | Some d => read_hex n (16 * acc + d)%N s
          | None => Invalid
          end
      end
  end.

Definition is_surrogate (r : N) : bool := ((55296 <=? r) && (r <? 57344))%N.

(** A second escape that completes a surrogate pair. *)
Definition read_low_surrogate (r : N) (s : bytes) : option (N * bytes) :=
  match s with
  | c :: d :: s =>
      if bool_decide (c = backslash) && bool_decide (d = "u"%char) then
        match read_hex 4 0 s with
        | Done r' s =>
            if ((55296 <=? r) && (r <? 56320) && (56320 <=? r') && (r' <? 57344))%N
            then Some ((65536 + (r - 55296) * 1024 + (r' - 56320))%N, s) else None
        | _ => None
        end
      else None
  | _ => None
  end.

(** What follows a backslash. *)
Definition read_escape (s : bytes) : outcome bytes :=
  match s with
  | [] => Incomplete
  | c :: s =>
      if bool_decide (c = quote_mark) || bool_decide (c = backslash) || bool_decide (c = "/"%char)
      then Done [c] s
      else if bool_decide (c = "b"%char) then Done [byte 8] s
      else if bool_decide (c = "f"%char) then Done [byte 12] s
      else if bool_decide (c = "n"%char) then Done [byte 10] s
      else if bool_decide (c = "r"%char) then Done [byte 13] s
      else if bool_decide (c = "t"%char) then Done [byte 9] s
      else if bool_decide (c = "u"%char) then
        read_hex 4 0 s >> fun r s =>
        if is_surrogate r then
          match read_low_surrogate r s with
          | Some (r, s) => Done (encode_rune r) s
          | None => Done replacement s
          end
        else Done (encode_rune r) s
      else Invalid
  end.

(** The rest of a string whose opening mark has been read. *)
Fixpoint read_string (fuel : nat) (s : bytes) : outcome bytes :=
  match fuel with
  | O => Exhausted
  | S fuel =>
      match s with
      | [] => Incomplete
      | c :: s' =>
          if bool_decide (c = quote_mark) then Done [] s'
          else if bool_decide (c = backslash) then
            read_escape s' >> fun r s' => map_outcome (app r) (read_string fuel s')
          else if (code c <? 32)%N then Invalid
          else
            let '(r, s') := read_rune s in map_outcome (app r) (read_string fuel s')
      end
  end.

(** ** Numbers and literals *)

Definition is_digit (c : ascii) : bool := between 48 57 c.

Fixpoint read_digits0 (s : bytes) : bytes * bytes :=
  match s with
  | c :: s' =>
      if is_digit c then let '(ds, rest) := read_digits0 s' in (c :: ds, rest) else ([], s)
  | [] => ([], [])
  end.

(** At least one digit. *)
Definition read_digits1 (s : bytes) : outcome bytes :=
  match s with
  | [] => Incomplete
  | c :: _ => if is_digit c then let '(ds, rest) := read_digits0 s in Done ds rest else Invalid
  end.

Definition read_int_part (s : bytes) : outcome bytes :=
  match s with
  | "0"%char :: rest => Done ["0"%char] rest
  | _ => read_digits1 s
  end.

Definition read_fraction (s : bytes) : outcome bytes :=
  match s with
  | "."%char :: rest => map_outcome (cons "."%char) (read_digits1 rest)
  | _ => Done [] s
  end.

Definition read_exponent (s : bytes) : outcome bytes :=
  match s with
  | c :: rest =>
      if bool_decide (c = "e"%char) || bool_decide (c = "E"%char) then
        match rest with
        | d :: rest' =>
            if bool_decide (d = "+"%char) || bool_decide (d = "-"%char)
            then map_outcome (app [c; d]) (read_digits1 rest')
            else map_outcome (cons c) (read_digits1 rest)
        | [] => Incomplete
        end
      else Done [] s
  | [] => Done [] s
  end.

Definition read_unsigned (s : bytes) : outcome bytes :=
  read_int_part s >> fun i s =>
  read_fraction s >> fun f s =>
  read_exponent s >> fun e s => Done (i ++ f ++ e) s.

Definition read_number (s : bytes) : outcome bytes :=
  match s with
  | "-"%char :: rest => map_outcome (cons "-"%char) (read_unsigned rest)
  | _ => read_unsigned s
  end.

Fixpoint read_literal (word : bytes) (s : bytes) : outcome unit :=
  match word with
  | [] => Done tt s
  | c :: word =>
      match s with
      | [] => Incomplete
      | d :: s => if bool_decide (c = d) then read_literal word s else Invalid
      end
  end.

(** ** Values *)

Definition max_depth : N := 10000.

Definition string_at (s : bytes) : outcome bytes := read_string (S (length s)) s.

(** [depth] containers are open.  A list of elements or members starts after the opening
    bracket or a comma, and ends with its closing bracket. *)
Fixpoint parse_value (fuel : nat) (depth : N) (s : bytes) : outcome json :=
  match fuel with
  | O => Exhausted
  | S fuel =>
      match skip_ws s with
      | [] => Incomplete
      | c :: r =>
          if bool_decide (c = "{"%char) then
            if (max_depth <=? depth)%N then Invalid
            else
              match skip_ws r with
              | [] => Incomplete
              | d :: r' =>
                  if bool_decide (d = "}"%char) then Done (JObj []) r'
                  else map_outcome JObj (parse_members fuel (depth + 1) r)
              end
          else if bool_decide (c = "["%char) then
            if (max_depth <=? depth)%N then Invalid
            else
              match skip_ws r with
              | [] => Incomplete
              | d :: r' =>
                  if bool_decide (d = "]"%char) then Done (JArr []) r'
                  else map_outcome JArr (parse_elements fuel (depth + 1) r)
              end
          else if bool_decide (c = quote_mark) then map_outcome JStr (string_at r)
          else if bool_decide (c = "t"%char) then
            map_outcome (fun _ => JBool true) (read_literal (bytes_of "rue") r)
          else if bool_decide (c = "f"%char) then
            map_outcome (fun _ => JBool false) (read_literal (bytes_of "alse") r)
          else if bool_decide (c = "n"%char) then
            map_outcome (fun _ => JNull) (read_literal (bytes_of "ull") r)
          else map_outcome JNum (read_number (c :: r))
      end
  end
with parse_members (fuel : nat) (depth : N) (s : bytes) : outcome (list (bytes * json)) :=
  match fuel with
  | O => Exhausted
  | S fuel =>
      match skip_ws s with
      | [] => Incomplete
      | c :: r =>
          if bool_decide (c = quote_mark) then
            string_at r >> fun key r =>
            match skip_ws r with
            | [] => Incomplete
            | ":"%char :: r =>
                parse_value fuel depth r >> fun v r =>
                match skip_ws r with
                | [] => Incomplete
                | ","%char :: r =>
                    map_outcome (cons (key, v)) (parse_members fuel depth r)
                | "}"%char :: r => Done [(key, v)] r
                | _ => Invalid
                end
            | _ => Invalid
            end
          else Invalid
      end
  end
with parse_elements (fuel : nat) (depth : N) (s : bytes) : outcome (list json) :=
  match fuel with
  | O => Exhausted
  | S fuel =>
      parse_value fuel depth s >> fun v r =>
      match skip_ws r with
      | [] => Incomplete
      | ","%char :: r => map_outcome (cons v) (parse_elements fuel depth r)
      | "]"%char :: r => Done [v] r
      | _ => Invalid
      end
  end.

(** A value at the front of the input. *)
Definition parse (s : bytes) : outcome json := parse_value (2 * length s + 2) 0 s.

(** ** The fuel is enough *)

Definition total {A} (n : nat) (x : outcome A) : Prop :=
  match x with
  | Done _ rest => (length rest <= n)%nat
  | Exhausted => False
  | _ => True
  end.

Lemma total_bind {A B} n m (x : outcome A) (k : A -> bytes -> outcome B) :
  total n x -> (forall a r, (length r <= n)%nat -> total m (k a r)) -> total m (x >> k).
Proof. destruct x; simpl; auto. Qed.

Lemma total_map {A B} n (f : A -> B) (x : outcome A) : total n x -> total n (map_outcome f x).
Proof. by destruct x. Qed.

Lemma total_weaken {A} n m (x : outcome A) : total n x -> (n <= m)%nat -> total m x.
Proof. destruct x; simpl; [lia|done..]. Qed.

Lemma skip_ws_length s : (length (skip_ws s) <= length s)%nat.
Proof. induction s as [|c s IH]; simpl; [lia|]. destruct (is_ws c); simpl; lia. Qed.

Lemma read_hex_total n acc s : total (length s) (read_hex n acc s).
Proof.
  revert acc s. induction n as [|n IH]; intros acc s; simpl; [lia|].
  destruct s as [|c s]; [done|]. destruct (hex_value c); [|done].
  eapply total_weaken; [apply IH|simpl; lia].
Qed.

Lemma read_low_length r s r' s' : read_low_surrogate r s = Some (r', s') -> (length s' <= length s)%nat.
Proof.
  unfold read_low_surrogate. destruct s as [|c [|d s]]; [done..|]. case_match; [|done].
  pose proof (read_hex_total 4 0 s) as Hh. destruct (read_hex 4 0 s); [|done..].
  case_match; [|done]. intros [= _ <-]. simpl in *. lia.
Qed.

Lemma read_escape_total s : total (length s) (read_escape s).
Proof.
  unfold read_escape. destruct s as [|c s]; [done|].
  repeat (case_match; [simpl; lia|]). case_match; [|done].
  eapply total_bind; [apply read_hex_total|]. intros r rest Hr.
  case_match; [|simpl; lia].
  destruct (read_low_surrogate r rest) as [[r' s']|] eqn:Hl; simpl; [|lia].
  apply read_low_length in Hl. lia.
Qed.

Lemma read_rune_length c s : (length (read_rune (c :: s)).2 <= length s)%nat.
Proof.
  unfold read_rune. case_match; [done|]. destruct (rune_len (c :: s)) as [n|] eqn:Hn; [|done].
  cbn [snd]. rewrite length_drop. simpl. enough (n <> 0)%nat by lia. intros ->.
  unfold rune_len in Hn. repeat (case_match; try done).
Qed.

Lemma read_string_total fuel s : (length s < fuel)%nat -> total (length s) (read_string fuel s).
Proof.
  revert s. induction fuel as [|fuel IH]; intros s Hf; [lia|]. cbn [read_string].
  destruct s as [|c s]; [done|]. simpl in Hf. case_bool_decide; [simpl; lia|].
  case_bool_decide.
  - eapply total_bind; [apply read_escape_total|]. intros r rest Hr.
    apply total_map. eapply total_weaken; [apply IH|]; simpl; lia.
  - destruct (code c <? 32)%N; [done|]. pose proof (read_rune_length c s) as Hr.
    destruct (read_rune (c :: s)) as [r s']. apply total_map.
    eapply total_weaken; [apply IH|]; simpl in *; lia.
Qed.

Lemma string_at_total s : total (length s) (string_at s).
Proof. apply read_string_total. lia. Qed.

Lemma read_literal_total w s : total (length s) (read_literal w s).
Proof.
  revert s. induction w as [|c w IH]; intros s; simpl; [lia|]. destruct s as [|d s]; [done|].
  case_bool_decide; [|done]. eapply total_weaken; [apply IH|simpl; lia].
Qed.

Lemma read_digits0_length s : (length (read_digits0 s).2 <= length s)%nat.
Proof.
  induction s as [|c s IH]; simpl; [lia|]. destruct (is_digit c); [|done].
  destruct (read_digits0 s). simpl in *. lia.
Qed.

(** A number takes at least one byte. *)
Lemma read_digits1_total s : total (pred (length s)) (read_digits1 s).
Proof.
  unfold read_digits1. destruct s as [|c s]; [done|]. simpl. destruct (is_digit c); [|done].
  pose proof (read_digits0_length s). destruct (read_digits0 s). simpl in *. lia.
Qed.

Lemma read_int_part_total s : total (pred (length s)) (read_int_part s).
Proof.
  unfold read_int_part. destruct s as [|c s]; [done|].
  destruct c as [[] [] [] [] [] [] [] []]; try apply read_digits1_total. simpl. lia.
Qed.

Lemma read_fraction_total s : total (length s) (read_fraction s).
Proof.
  unfold read_fraction. destruct s as [|c s]; [simpl; lia|].
  pose proof (read_digits1_total s).
  destruct c as [[] [] [] [] [] [] [] []]; try (simpl; lia).
  apply total_map. eapply total_weaken; [done|simpl; lia].
Qed.

Lemma read_exponent_total s : total (length s) (read_exponent s).
Proof.
  unfold read_exponent. destruct s as [|c s]; [simpl; lia|]. case_match; [|simpl; lia].
  destruct s as [|d s]; [done|]. pose proof (read_digits1_total s).
  pose proof (read_digits1_total (d :: s)).
  case_match; apply total_map; (eapply total_weaken; [done|simpl; lia]).
Qed.

Lemma read_unsigned_total s : total (pred (length s)) (read_unsigned s).
Proof.
  unfold read_unsigned. eapply total_bind; [apply read_int_part_total|]. intros i r Hi.
  eapply total_bind; [eapply total_weaken; [apply read_fraction_total|exact Hi]|]. intros f r' Hf.
  eapply total_bind; [eapply total_weaken; [apply read_exponent_total|exact Hf]|]. done.
Qed.

Lemma read_number_total s : total (pred (length s)) (read_number s).
Proof.
  unfold read_number. destruct s as [|c s]; [done|].
  pose proof (read_unsigned_total s). pose proof (read_unsigned_total (c :: s)).
  destruct c as [[] [] [] [] [] [] [] []]; try done.
  apply total_map. eapply total_weaken; [done|simpl; lia].
Qed.

Lemma parse_all_total fuel :
  (forall depth s, (2 * length s < fuel)%nat -> total (pred (length s)) (parse_value fuel depth s)) /\
  (forall depth s, (2 * length s < fuel)%nat -> total (length s) (parse_members fuel depth s)) /\
  (forall depth s, (2 * length s + 1 < fuel)%nat -> total (length s) (parse_elements fuel depth s)).
Proof.
  induction fuel as [|fuel (IHv & IHm & IHe)]; [split_and!; intros; lia|].
  split_and!; intros depth s Hf.
  - cbn [parse_value]. pose proof (skip_ws_length s) as Hws.
    destruct (skip_ws s) as [|c r]; [done|]. simpl in Hws.
    pose proof (skip_ws_length r) as Hws'.
    repeat (case_bool_decide; [|]).
    + case_match; [done|]. destruct (skip_ws r) as [|d r']; [done|]. simpl in Hws'.
      case_bool_decide; [simpl; lia|]. apply total_map.
      eapply total_weaken; [apply IHm|]; lia.
    + case_match; [done|]. destruct (skip_ws r) as [|d r']; [done|]. simpl in Hws'.
      case_bool_decide; [simpl; lia|]. apply total_map.
      eapply total_weaken; [apply IHe|]; lia.
    + apply total_map. eapply total_weaken; [apply string_at_total|lia].
    + apply total_map. eapply total_weaken; [apply read_literal_total|lia].
    + apply total_map. eapply total_weaken; [apply read_literal_total|lia].
    + apply total_map. eapply total_weaken; [apply read_literal_total|lia].
    + apply total_map. eapply total_weaken; [apply read_number_total|simpl; lia].
  - cbn [parse_members]. pose proof (skip_ws_length s) as Hws.
    destruct (skip_ws s) as [|c r]; [done|]. simpl in Hws. case_bool_decide; [|done].
    eapply total_bind; [apply string_at_total|]. intros key r1 H1.
    pose proof (skip_ws_length r1) as Hws1. destruct (skip_ws r1) as [|c1 r2]; [done|].
    simpl in Hws1. destruct c1 as [[] [] [] [] [] [] [] []]; try done.
    eapply total_bind; [apply IHv; lia|]. intros v r3 H3.
    pose proof (skip_ws_length r3) as Hws3. destruct (skip_ws r3) as [|c3 r4]; [done|].
    simpl in Hws3. destruct c3 as [[] [] [] [] [] [] [] []]; try done; try (simpl; lia).
    apply total_map. eapply total_weaken; [apply IHm|]; lia.
  - cbn [parse_elements]. eapply total_bind; [apply IHv; lia|]. intros v r3 H3.
    pose proof (skip_ws_length r3) as Hws3. destruct (skip_ws r3) as [|c3 r4]; [done|].
    simpl in Hws3. destruct c3 as [[] [] [] [] [] [] [] []]; try done; try (simpl; lia).
    apply total_map. eapply total_weaken; [apply IHe|]; lia.
Qed.

Lemma parse_total s : parse s <> Exhausted.
Proof.
  unfold parse. destruct (parse_all_total (2 * length s + 2)) as [Hv _].
  specialize (Hv 0%N s ltac:(lia)). by destruct (parse_value _ 0%N s).
Qed.

Example parse_document : parse (bytes_of " {} x") = Done (JObj []) (bytes_of " x") /\
  parse (bytes_of "[1, -2.5e3,true ,null]") =
    Done (JArr [JNum (bytes_of "1"); JNum (bytes_of "-2.5e3"); JBool true; JNull]) [] /\
  parse (bytes_of "[1,]") = Invalid /\ parse (bytes_of "[1") = Incomplete.
Proof. done. Qed.

(** ** Unmarshal

    [decode cur v] stores the value [v] in a variable that holds [cur]; [None] is an
    [UnmarshalTypeError]. *)
Class Decode (A : Type) := {
  zero : A;
  decode : A -> json -> option A }.

#[export] Instance decode_string : Decode string := {
  zero := EmptyString;
  decode cur v :=
    match v with
    | JNull => Some cur
    | JStr s => Some (string_of s)
    | _ => None
    end }.

#[export] Instance decode_bool : Decode bool := {
  zero := false;
  decode cur v :=
    match v with
    | JNull => Some cur
    | JBool b => Some b
    | _ => None
    end }.

(** [int] and [int64]. *)
#[export] Instance decode_int : Decode Z := {
  zero := 0%Z;
  decode cur v :=
    match v with
    | JNull => Some cur
    | JNum literal => ParseInt literal
    | _ => None
    end }.

(** A pointer. *)
#[export] Instance decode_pointer {A} `{Decode A} : Decode (option A) := {
  zero := None;
  decode cur v :=
    match v with
    | JNull => Some None
    | _ => Some <$> decode (default zero cur) v
    end }.

(** A slice: the elements it has are decoded into, and the rest is cut off. *)
Fixpoint decode_elements {A} `{Decode A} (cur : list A) (l : list json) : option (list A) :=
  match l with
  | [] => Some []
  | v :: l =>
      let '(x, cur) := match cur with x :: cur => (x, cur) | [] => (zero, []) end in
      y ← decode x v; rest ← decode_elements cur l; Some (y :: rest)
  end.

#[export] Instance decode_slice {A} `{Decode A} : Decode (list A) := {
  zero := [];
  decode cur v :=
    match v with
    | JNull => Some []
    | JArr l => decode_elements cur l
    | _ => None
    end }.

(** [foldName]: a name up to the case of its letters; the long s and the Kelvin sign are
    the runes beyond ASCII that fold to a letter. *)
Fixpoint fold_name (s : bytes) : bytes :=
  match s with
  | [] => []
  | c :: s' =>
      if between 97 122 c then byte (code c - 32) :: fold_name s'
      else
        match s' with
        | c2 :: s2 =>
            if (code c =? 197)%N && (code c2 =? 191)%N then "S"%char :: fold_name s2
            else
              match s2 with
              | c3 :: s3 =>
                  if (code c =? 226)%N && (code c2 =? 132)%N && (code c3 =? 170)%N
                  then "K"%char :: fold_name s3 else c :: fold_name s'
              | [] => c :: fold_name s'
              end
        | [] => c :: fold_name s'
        end
  end.

(** A field of a struct: its name, and how a value is stored in it. *)
Definition field (S : Type) : Type := string * (S -> json -> option S).

Definition at_field {S A} `{Decode A} (name : string) (get : S -> A) (set : A -> S -> S) : field S :=
  (name, fun s v => a ← decode (get s) v; Some (set a s)).

Fixpoint find_field {S} (same : bytes -> bool) (fields : list (field S))
    : option (S -> json -> option S) :=
  match fields with
  | [] => None
  | (name, store) :: fields =>
      if same (bytes_of name) then Some store else find_field same fields
  end.

(** The field of a key: by its exact name, or else up to case. *)
Definition field_of {S} (fields : list (field S)) (key : bytes) : option (S -> json -> option S) :=
  match find_field (fun name => bool_decide (name = key)) fields with
  | Some store => Some store
  | None => find_field (fun name => bool_decide (fold_name name = fold_name key)) fields
  end.

(** The members of an object, one after the other; unknown keys are skipped. *)
Fixpoint decode_members {S} (fields : list (field S)) (s : S) (l : list (bytes * json)) : option S :=
  match l with
  | [] => Some s
  | (key, v) :: l =>
      match field_of fields key with
      | None => decode_members fields s l
      | Some store => s ← store s v; decode_members fields s l
      end
  end.

Lemma decode_member {S} (fields : list (field S)) s key v l store :
  field_of fields key = Some store ->
  decode_members fields s ((key, v) :: l) = s ← store s v; decode_members fields s l.
Proof. intros Hf. simpl. by rewrite Hf. Qed.

Definition decode_struct {S} (fields : list (field S)) (s : S) (v : json) : option S :=
  match v with
  | JNull => Some s
  | JObj l => decode_members fields s l
  | _ => None
  end.

(** [json.Unmarshal]: one value and nothing but white space after it. *)
Definition Unmarshal {A} `{Decode A} (data : bytes) : option A :=
  match parse data with
  | Done v rest =>
      match skip_ws rest with
      | [] => decode zero v
      | _ => None
      end
  | _ => None
  end.

(** ** Marshal *)

Definition hex_low (n : N) : bytes := [hex_digit (n / 16); hex_digit (n `mod` 16)].

(** A character below 128, with the escapes of HTML. *)
Definition quote_char (c : ascii) : bytes :=
  if bool_decide (c = quote_mark) || bool_decide (c = backslash) then [backslash; c]
  else if (code c =? 8)%N then [backslash; "b"%char]
  else if (code c =? 12)%N then [backslash; "f"%char]
  else if (code c =? 10)%N then [backslash; "n"%char]
  else if (code c =? 13)%N then [backslash; "r"%char]
  else if (code c =? 9)%N then [backslash; "t"%char]
  else if (code c <? 32)%N || bool_decide (c = "<"%char) || bool_decide (c = ">"%char) ||
          bool_decide (c = "&"%char)
  then backslash :: bytes_of "u00" ++ hex_low (code c)
  else [c].

(** U+2028 and U+2029. *)
Definition line_separator (r : bytes) : option ascii :=
  if bool_decide (r = [byte 226; byte 128; byte 168]) then Some "8"%char
  else if bool_decide (r = [byte 226; byte 128; byte 169]) then Some "9"%char
  else None.

Fixpoint quote_bytes (fuel : nat) (s : bytes) : bytes :=
  match fuel, s with
  | O, _ | _, [] => []
  | S fuel, c :: s' =>
      if (code c <? 128)%N then quote_char c ++ quote_bytes fuel s'
      else
        match rune_len s with
        | None => backslash :: bytes_of "ufffd" ++ quote_bytes fuel s'
        | Some n =>
            match line_separator (take n s) with
            | Some d => backslash :: bytes_of "u202" ++ d :: quote_bytes fuel (drop n s)
            | None => take n s ++ quote_bytes fuel (drop n s)
            end
        end
  end.

Definition quote (s : bytes) : bytes := quote_mark :: quote_bytes (length s) s ++ [quote_mark].

Fixpoint separated (l : list bytes) : bytes :=
  match l with
  | [] => []
  | [s] => s
  | s :: l => s ++ ","%char :: separated l
  end.

Fixpoint print (v : json) : bytes :=
  match v with
  | JNull => bytes_of "null"
  | JBool true => bytes_of "true"
  | JBool false => bytes_of "false"
  | JNum literal => literal
  | JStr s => quote s
  | JArr l => "["%char :: separated (print <$> l) ++ ["]"%char]
  | JObj l => "{"%char :: separated ((fun kv => quote kv.1 ++ ":"%char :: print kv.2) <$> l) ++ ["}"%char]
  end.

(** Values of Go as JSON. *)
Definition of_string (s : string) : json := JStr (bytes_of s).
Definition of_int (z : Z) : json := JNum (FormatInt z).

(** ** Flat objects are read back *)

(** A character that a string holds as it is. *)
Definition plain_char (c : ascii) : bool :=
  ((32 <=? code c) && (code c <? 128))%N &&
  negb (bool_decide (c = quote_mark) || bool_decide (c = backslash) ||
        bool_decide (c = "<"%char) || bool_decide (c = ">"%char) || bool_decide (c = "&"%char)).

Definition plain (s : bytes) : Prop := forallb plain_char s = true.

Lemma plain_cons c s : plain (c :: s) -> plain_char c = true /\ plain s.
Proof. unfold plain. simpl. by intros [? ?]%andb_true_iff. Qed.

Lemma plain_Forall s : plain s <-> Forall (fun c => plain_char c = true) s.
Proof.
  unfold plain. rewrite forallb_forall, Forall_forall.
  split; intros Hs c Hc; apply Hs; by apply list_elem_of_In.
Qed.

Lemma plain_app s t : plain s -> plain t -> plain (s ++ t).
Proof. unfold plain. rewrite forallb_app. by intros -> ->. Qed.

Lemma plain_char_quoted c : plain_char c = true ->
  (code c <? 128)%N = true /\ (code c <? 32)%N = false /\ quote_char c = [c] /\
  c <> quote_mark /\ c <> backslash.
Proof. by destruct c as [[] [] [] [] [] [] [] []]. Qed.

Lemma quote_plain s : plain s -> quote s = quote_mark :: s ++ [quote_mark].
Proof.
  intros Hs. unfold quote. do 2 f_equal. induction s as [|c s IH]; [done|].
  apply plain_cons in Hs as [Hc Hs]. apply plain_char_quoted in Hc as (Hc & _ & Hq & _).
  cbn [length quote_bytes]. rewrite Hc, Hq. simpl. f_equal. by apply IH.
Qed.

Lemma read_plain fuel s rest : plain s -> (length s < fuel)%nat ->
  read_string fuel (s ++ quote_mark :: rest) = Done s rest.
Proof.
  revert s. induction fuel as [|fuel IH]; intros s Hs Hf; [lia|].
  destruct s as [|c s]; cbn [app read_string].
  { by rewrite bool_decide_true. }
  apply plain_cons in Hs as [Hc Hs]. apply plain_char_quoted in Hc as (H128 & H32 & _ & Hq & Hb).
  rewrite !bool_decide_false by done. rewrite H32. unfold read_rune. rewrite H128.
  rewrite IH; [done|done|simpl in Hf; lia].
Qed.

Lemma string_at_plain s rest : plain s -> string_at (s ++ quote_mark :: rest) = Done s rest.
Proof. intros Hs. apply read_plain; [done|]. rewrite length_app. simpl. lia. Qed.

(** The end of a number: a character that cannot continue it. *)
Definition ends_number (c : ascii) : Prop := c = ","%char \/ c = "}"%char \/ c = "]"%char.

Lemma read_digits0_all ds c rest :
  Forall (fun d => is_digit d = true) ds -> ends_number c ->
  read_digits0 (ds ++ c :: rest) = (ds, c :: rest).
Proof.
  intros Hds Hc. induction ds as [|d ds IH]; simpl.
  - by destruct Hc as [-> |[-> | ->]].
  - inversion Hds; subst. rewrite H1. by rewrite IH.
Qed.

Lemma digit_is_digit d : (d < 10)%N -> is_digit (ascii_of_N (48 + d)) = true.
Proof.
  intros Hd. unfold is_digit, between, code. rewrite N_ascii_embedding by lia.
  apply andb_true_iff. split; apply N.leb_le; lia.
Qed.

Lemma decimal_digits fuel n : Forall (fun d => is_digit d = true) (decimal fuel n).
Proof.
  revert n. induction fuel as [|fuel IH]; intros n; cbn [decimal]; [done|].
  apply Forall_app. split; [by case_match; [|apply IH]|]. constructor; [|done].
  apply digit_is_digit. by apply N.mod_lt.
Qed.

(** No number but zero starts with a zero. *)
Lemma decimal_head fuel n : (0 < n)%N -> (n < 10 ^ N.of_nat fuel)%N ->
  exists c s, decimal fuel n = c :: s /\ is_digit c = true /\ c <> "0"%char.
Proof.
  revert n. induction fuel as [|fuel IH]; intros n H0 Hn; [simpl in Hn; lia|]. cbn [decimal].
  destruct (N.ltb_spec n 10) as [Hlt|Hge].
  - rewrite N.mod_small by done. eexists _, _. split; [done|]. split; [by apply digit_is_digit|].
    intros Heq%(f_equal N_of_ascii). assert (48 + n < 256)%N as Hb by lia.
    rewrite N_ascii_embedding in Heq by done.
    change (N_of_ascii "0") with 48%N in Heq. lia.
  - rewrite Nat2N.inj_succ, N.pow_succ_r' in Hn.
    destruct (IH (n / 10)%N) as (c & s & -> & Hc & Hz).
    + apply N.div_str_pos. lia.
    + apply N.Div0.div_lt_upper_bound. lia.
    + by exists c, (s ++ [ascii_of_N (48 + n `mod` 10)]).
Qed.

Lemma read_unsigned_digits ds c rest :
  Forall (fun d => is_digit d = true) ds -> ends_number c ->
  ds = ["0"%char] \/ (exists d s, ds = d :: s /\ is_digit d = true /\ d <> "0"%char) ->
  read_unsigned (ds ++ c :: rest) = Done ds (c :: rest).
Proof.
  intros Hds Hc Hhead. unfold read_unsigned.
  assert (read_int_part (ds ++ c :: rest) = Done ds (c :: rest)) as ->.
  { destruct Hhead as [->|(d & s & -> & Hd & Hz)]; [done|].
    assert (read_digits1 ((d :: s) ++ c :: rest) = Done (d :: s) (c :: rest)) as <-.
    { unfold read_digits1. cbn [app]. rewrite Hd.
      change (d :: s ++ c :: rest) with ((d :: s) ++ c :: rest). by rewrite read_digits0_all. }
    unfold read_int_part. cbn [app].
    destruct d as [[] [] [] [] [] [] [] []]; done. }
  cbn [and_then]. destruct Hc as [-> |[-> | ->]]; cbn [read_fraction and_then read_exponent];
    rewrite !bool_decide_false by done; cbn [orb and_then]; by rewrite !app_nil_r.
Qed.

Lemma read_number_int z c rest :
  (- 2 ^ 63 <= z < 2 ^ 63)%Z -> ends_number c ->
  read_number (FormatInt z ++ c :: rest) = Done (FormatInt z) (c :: rest).
Proof.
  intros Hz Hc.
  assert (forall n, (n <= 2 ^ 63)%N -> read_unsigned (decimal 20 n ++ c :: rest) =
    Done (decimal 20 n) (c :: rest)) as Hu.
  { intros n Hn. apply read_unsigned_digits; [apply decimal_digits|done|].
    destruct (N.eq_dec n 0) as [->|H0]; [by left|right].
    apply decimal_head; [lia|]. eapply N.le_lt_trans; [exact Hn|done]. }
  unfold FormatInt, read_number. destruct (Z.ltb_spec z 0).
  - cbn [app]. by rewrite Hu by lia.
  - specialize (Hu (Z.to_N z) ltac:(lia)).
    destruct (decimal_cons 19 (Z.to_N z)) as (d & s & Heq & Hd). rewrite Heq in *. cbn [app] in *.
    destruct (digit_not_sign d Hd) as [_ Hm].
    destruct d as [[] [] [] [] [] [] [] []]; done.
Qed.

(** A member whose value is a string or an integer. *)
Definition scalar (v : json) : Prop :=
  match v with
  | JStr s => plain s
  | JNum literal => exists z, (- 2 ^ 63 <= z < 2 ^ 63)%Z /\ literal = FormatInt z
  | _ => False
  end.

Definition flat (l : list (bytes * json)) : Prop :=
  Forall (fun kv => plain kv.1 /\ scalar kv.2) l.

Lemma FormatInt_head z : exists c s, FormatInt z = c :: s /\ (is_digit c = true \/ c = "-"%char).
Proof.
  unfold FormatInt. destruct (z <? 0)%Z; [eexists _, _; split; [done|by right]|].
  destruct (decimal_cons 19 (Z.to_N z)) as (c & s & Heq & d & Hd).
  exists c, s. split; [done|left]. unfold digit_value in Hd. unfold is_digit, between, code.
  by case_match.
Qed.

Lemma parse_scalar fuel depth v c rest :
  scalar v -> ends_number c ->
  parse_value (S fuel) depth (print v ++ c :: rest) = Done v (c :: rest).
Proof.
  intros Hv Hc. destruct v as [| |literal|s| |]; try done.
  - destruct Hv as (z & Hz & ->). cbn [print].
    pose proof (read_number_int z c rest Hz Hc) as Hn.
    destruct (FormatInt_head z) as (d & s & Heq & Hd). rewrite Heq in *. cbn [app] in *.
    cbn [parse_value skip_ws].
    assert (is_ws d = false /\ d <> "{"%char /\ d <> "["%char /\ d <> quote_mark /\
      d <> "t"%char /\ d <> "f"%char /\ d <> "n"%char) as (-> & ? & ? & ? & ? & ? & ?).
    { destruct Hd as [Hd| ->]; [|done]. by destruct d as [[] [] [] [] [] [] [] []]. }
    rewrite !bool_decide_false by done. by rewrite Hn.
  - cbn [print]. rewrite quote_plain by done. cbn [app parse_value skip_ws].
    change (is_ws quote_mark) with false. cbv iota.
    rewrite !(bool_decide_false (quote_mark = _)) by done. rewrite bool_decide_true by done.
    rewrite <- app_assoc. cbn [app]. by rewrite string_at_plain.
Qed.

Definition member (kv : bytes * json) : bytes := quote kv.1 ++ ":"%char :: print kv.2.

Lemma parse_flat_members fuel depth l rest :
  flat l -> l <> [] -> (length l < fuel)%nat ->
  parse_members fuel depth (separated (member <$> l) ++ "}"%char :: rest) = Done l rest.
Proof.
  intros Hl. revert fuel. induction Hl as [|[k v] l [Hk Hv] _ IH]; intros fuel Hne Hf; [done|].
  destruct fuel as [|[|fuel]]; simpl in Hf; [lia|lia|]. simpl in Hk, Hv.
  assert (forall c t, ends_number c -> parse_members (S (S fuel)) depth (member (k, v) ++ c :: t) =
    match c with
    | ","%char => map_outcome (cons (k, v)) (parse_members (S fuel) depth t)
    | "}"%char => Done [(k, v)] t
    | _ => Invalid
    end) as Hmember.
  { intros c t Hc. unfold member. cbn [fst snd]. rewrite quote_plain by done. cbn [app].
    remember (S fuel) as f eqn:Hfuel. cbn [parse_members skip_ws].
    change (is_ws quote_mark) with false. cbv iota. rewrite bool_decide_true by done.
    rewrite <- !app_assoc. cbn [app]. rewrite string_at_plain by done. cbn [and_then skip_ws].
    change (is_ws ":"%char) with false. cbv iota. rewrite Hfuel, parse_scalar by done.
    rewrite <- Hfuel. cbn [and_then skip_ws]. by destruct Hc as [-> |[-> | ->]]. }
  destruct l as [|kv l].
  - cbn [fmap list_fmap separated]. by rewrite Hmember by (right; by left).
  - change (separated (member <$> (k, v) :: kv :: l)) with
      (member (k, v) ++ ","%char :: separated (member <$> kv :: l)). rewrite <- app_assoc. cbn [app]. rewrite Hmember by by left.
    rewrite (IH (S fuel)); [done|done|simpl in *; lia].
Qed.

(** Marshalled and read again, a flat object is what it was. *)
Lemma parse_flat l rest : flat l -> l <> [] -> parse (print (JObj l) ++ rest) = Done (JObj l) rest.
Proof.
  intros Hl Hne. unfold parse.
  assert (length l <= length (separated (member <$> l)))%nat as Hlen.
  { clear Hne. induction Hl as [|[k v] l [Hk Hv] _ IH]; [done|]. destruct l as [|kv l].
    - simpl. rewrite length_app. simpl. lia.
    - cbn [fmap list_fmap separated length] in *. rewrite length_app. simpl in *. lia. }
  set (m := separated (member <$> l)) in *.
  assert (print (JObj l) ++ rest = "{"%char :: m ++ "}"%char :: rest) as ->.
  { cbn [print]. fold member. change (fun kv => quote kv.1 ++ ":"%char :: print kv.2) with member.
    fold m. cbn [app]. by rewrite <- app_assoc. }
  assert (2 * length ("{"%char :: m ++ "}"%char :: rest) + 2 =
    S (2 * (length m + length rest) + 5))%nat as ->.
  { simpl. rewrite length_app. simpl. lia. }
  cbn [parse_value skip_ws]. change (is_ws "{"%char) with false. cbv iota.
  rewrite bool_decide_true by done. change (max_depth <=? 0)%N with false. cbv iota.
  assert (exists t, m = quote_mark :: t) as [t Ht].
  { subst m. destruct l as [|[k v] [|kv l]]; [done|..]; by eexists. }
  rewrite Ht at 1. cbn [app skip_ws]. change (is_ws quote_mark) with false. cbv iota.
  rewrite bool_decide_false by done. unfold m.
  rewrite parse_flat_members; [done|done|done|]. fold m. lia.
Qed.

Lemma Unmarshal_flat {A} `{Decode A} l :
  flat l -> l <> [] -> Unmarshal (print (JObj l)) = decode zero (JObj l).
Proof.
  intros Hl Hne. unfold Unmarshal. pose proof (parse_flat l [] Hl Hne) as Hp.
  rewrite app_nil_r in Hp. by rewrite Hp.
Qed.
