(* ===== verification/Dates.v ===== *)
(** * Dates: the calendar of the time package

    The Gregorian date of an instant, the layouts [time.RFC3339] (in UTC) and "2006-01-02",
    and their round trips. *)

From Stdlib Require Import Ascii.
From S2P Require Import Prelude Domain GoStd Text.

Definition day_length : Duration := (24 * Hour)%Z.

(** [time.Time{}]: the start of the year 1. *)
Definition zero_time : time := (-62135596800 * Second)%Z.

(** ** The calendar *)

Definition isLeap (year : Z) : bool :=
  ((year `mod` 4 =? 0) && (negb (year `mod` 100 =? 0) || (year `mod` 400 =? 0)))%Z.

Definition daysIn (month year : Z) : Z :=
  if (month =? 2)%Z then (if isLeap year then 29 else 28)%Z
  else if ((month =? 4) || (month =? 6) || (month =? 9) || (month =? 11))%Z then 30%Z
  else 31%Z.

Definition valid_date (year month day : Z) : bool :=
  ((1 <=? month) && (month <=? 12) && (1 <=? day) && (day <=? daysIn month year))%Z.

(** The days before a date, counted from 1970-01-01.  Years start in March, so that a leap
    day is the last one; 400 years have 146097 days. *)
Definition days_before (year month day : Z) : Z :=
  (let y := if month <=? 2 then year - 1 else year in
   let era := y / 400 in
   let yoe := y `mod` 400 in
   let doy := (153 * (if month <=? 2 then month + 9 else month - 3) + 2) / 5 + day - 1 in
   era * 146097 + yoe * 365 + yoe / 4 - yoe / 100 + doy - 719468)%Z.

(** Month and day of a day of the year that starts in March. *)
Definition month_day (doy : Z) : Z * Z :=
  (let mp := (5 * doy + 2) / 153 in
   (if mp <? 10 then mp + 3 else mp - 9, doy - (153 * mp + 2) / 5 + 1))%Z.

(** Centuries, periods of four years and years of a day of the era, and the day of the
    year; the last century and the last year of a period may have a day more. *)
Definition year_day (doe : Z) : Z * Z * Z * Z :=
  (let c := Z.min (doe / 36524) 3 in
   let r := doe - 36524 * c in
   let q := r / 1461 in
   let r := r - 1461 * q in
   let y := Z.min (r / 365) 3 in
   (c, q, y, r - 365 * y))%Z.

(** [Time.Date]: year, month and day of a day. *)
Definition date_of (days : Z) : Z * Z * Z :=
  (let z := days + 719468 in
   let '(c, q, y, doy) := year_day (z `mod` 146097) in
   let '(month, day) := month_day doy in
   (100 * c + 4 * q + y + z / 146097 * 400 + (if month <=? 2 then 1 else 0), month, day))%Z.

Example leap_day : date_of 19782 = (2024, 2, 29)%Z /\ days_before 2024 2 29 = 19782%Z /\
  date_of 0 = (1970, 1, 1)%Z /\ date_of (-719468) = (0, 3, 1)%Z.
Proof. done. Qed.

(** The days of a year, one by one: the 366th is 29 February. *)
Definition doy_fine (doy : Z) : bool :=
  let '(m, d) := month_day doy in
  ((1 <=? m) && (m <=? 12) && (1 <=? d) &&
   ((153 * (if m <=? 2 then m + 9 else m - 3) + 2) / 5 + d - 1 =? doy) &&
   (if doy =? 365 then (m =? 2) && (d =? 29) else d <=? daysIn m 2001))%Z.

Lemma month_day_fine doy : (0 <= doy <= 365)%Z -> doy_fine doy = true.
Proof.
  intros Hd. assert (forallb (fun k => doy_fine (Z.of_nat k)) (seq 0 366) = true) as Hall
    by by vm_compute.
  rewrite forallb_forall in Hall. specialize (Hall (Z.to_nat doy)).
  rewrite Z2Nat.id in Hall by lia. apply Hall, in_seq. lia.
Qed.

Lemma year_day_fine doe : (0 <= doe < 146097)%Z ->
  let '(c, q, y, doy) := year_day doe in
  (0 <= c <= 3 /\ 0 <= q <= 24 /\ 0 <= y <= 3 /\ 0 <= doy <= 365 /\
   doe = 36524 * c + 1461 * q + 365 * y + doy /\
   (doy = 365 -> y = 3 /\ (q < 24 \/ c = 3)))%Z.
Proof.
  intros Hdoe. unfold year_day. set (c := Z.min (doe / 36524) 3).
  assert (0 <= c <= 3 /\ 36524 * c <= doe /\
    (doe < 36524 * (c + 1) \/ c = 3 /\ doe <= 36524 * 4))%Z as (Hc & Hr1 & Hr2)
    by (subst c; Z.div_mod_to_equations; lia).
  clearbody c. set (r := (doe - 36524 * c)%Z). set (q := (r / 1461)%Z).
  assert (0 <= q <= 24 /\ 1461 * q <= r /\ r < 1461 * (q + 1))%Z as (Hq & Hq1 & Hq2)
    by (subst q r; Z.div_mod_to_equations; lia).
  clearbody q. set (r' := (r - 1461 * q)%Z). set (y := Z.min (r' / 365) 3).
  assert (0 <= y <= 3 /\ 365 * y <= r' /\ (r' < 365 * (y + 1) \/ y = 3 /\ r' <= 1460))%Z
    as (Hy & Hy1 & Hy2) by (subst y r' r; Z.div_mod_to_equations; lia).
  clearbody y. subst r r'. lia.
Qed.

(** The date of a day is a date of the calendar, and stands for that day. *)
Lemma date_of_valid days : let '(y, m, d) := date_of days in
  valid_date y m d = true /\ days_before y m d = days.
Proof.
  unfold date_of. set (z := (days + 719468)%Z).
  pose proof (Z.mod_pos_bound z 146097 ltac:(done)) as Hdoe.
  pose proof (Z.div_mod z 146097 ltac:(done)) as Hz.
  set (doe := (z `mod` 146097)%Z) in *. set (e := (z / 146097)%Z) in *.
  pose proof (year_day_fine doe Hdoe) as Hy. destruct (year_day doe) as [[[c q] y] doy].
  destruct Hy as (Hc & Hq & Hy & Hdoy & Hsum & Hlast).
  pose proof (month_day_fine doy Hdoy) as Hfine. unfold doy_fine in Hfine.
  destruct (month_day doy) as [m d]. rewrite !andb_true_iff, !Z.leb_le, Z.eqb_eq in Hfine.
  destruct Hfine as [[[[Hm1 Hm2] Hd1] Hsame] Hd2].
  set (yoe := (100 * c + 4 * q + y)%Z).
  assert (yoe / 4 = 25 * c + q /\ yoe / 100 = c)%Z as [H4 H100]
    by (subst yoe; Z.div_mod_to_equations; lia).
  split.
  - unfold valid_date. rewrite !andb_true_iff, !Z.leb_le. split_and!; [done..|].
    destruct (Z.eqb_spec doy 365) as [Heq|Hne].
    + apply andb_true_iff in Hd2 as [->%Z.eqb_eq ->%Z.eqb_eq]. destruct (Hlast Heq) as [-> Hl].
      unfold daysIn. cbn [Z.eqb Pos.eqb Z.leb Z.compare Pos.compare Pos.compare_cont].
      assert (isLeap (yoe + e * 400 + 1) = true) as ->; [|done].
      unfold isLeap. rewrite andb_true_iff, orb_true_iff, negb_true_iff, !Z.eqb_eq, Z.eqb_neq.
      subst yoe. clear -Hc Hq Hl. Z.div_mod_to_equations. lia.
    + apply Z.leb_le in Hd2. etrans; [exact Hd2|]. unfold daysIn. repeat case_match; done.
  - unfold days_before.
    assert ((if (m <=? 2)%Z then yoe + e * 400 + (if (m <=? 2)%Z then 1 else 0) - 1
      else yoe + e * 400 + (if (m <=? 2)%Z then 1 else 0)) = yoe + e * 400)%Z as ->
      by (destruct (m <=? 2)%Z; lia).
    rewrite Z.mod_add, Z.div_add, (Z.div_small yoe), (Z.mod_small yoe) by (subst yoe; lia).
    rewrite H4, H100. subst yoe. lia.
Qed.

(** ** Layouts *)

(** A number padded with zeros to [n] digits. *)
Fixpoint padded (n : nat) (x : Z) : bytes :=
  match n with
  | O => []
  | S n => padded n (x / 10)%Z ++ [ascii_of_N (48 + Z.to_N (x `mod` 10))]
  end.

Definition format_date (year month day : Z) : bytes :=
  padded 4 year ++ ["-"%char] ++ padded 2 month ++ ["-"%char] ++ padded 2 day.

(** [t.UTC().Format(time.RFC3339)], for a year of four digits. *)
Definition FormatRFC3339 (t : time) : bytes :=
  let '(year, month, day) := date_of (t / day_length)%Z in
  let s := ((t `mod` day_length) / Second)%Z in
  format_date year month day ++ ["T"%char] ++
  padded 2 (s / 3600) ++ [":"%char] ++ padded 2 ((s / 60) `mod` 60) ++ [":"%char] ++
  padded 2 (s `mod` 60) ++ ["Z"%char].

(** The year of a layout: four digits. *)
Definition read_year (s : bytes) : option (Z * bytes) :=
  match s with
  | a :: b :: c :: d :: rest =>
      a ← digit a; b ← digit b; c ← digit c; d ← digit d;
      Some ((1000 * a + 100 * b + 10 * c + d)%Z, rest)
  | _ => None
  end.

Definition skip_char (c : ascii) (s : bytes) : option bytes :=
  match s with
  | d :: rest => if bool_decide (c = d) then Some rest else None
  | [] => None
  end.

Definition read_date (s : bytes) : option (Z * Z * Z * bytes) :=
  '(year, s) ← read_year s;
  s ← skip_char "-" s;
  '(month, s) ← getnum s true;
  s ← skip_char "-" s;
  '(day, s) ← getnum s true;
  Some (year, month, day, s).

(** [time.Parse("2006-01-02", s)]. *)
Definition ParseDate (s : bytes) : option time :=
  '(year, month, day, rest) ← read_date s;
  match rest with
  | [] => if valid_date year month day then Some (days_before year month day * day_length)%Z else None
  | _ => None
  end.

Example ParseDate_ok : ParseDate (bytes_of "2024-02-29") = Some (19782 * day_length)%Z /\
  ParseDate (bytes_of "2023-02-29") = None /\ ParseDate (bytes_of "2024-2-29") = None.
Proof. done. Qed.
Example FormatRFC3339_ok :
  string_of (FormatRFC3339 (19782 * day_length + 3661 * Second)) = "2024-02-29T01:01:01Z".
Proof. done. Qed.

Lemma digit_of d : (0 <= d < 10)%Z -> digit (ascii_of_N (48 + Z.to_N d)) = Some d.
Proof.
  intros Hd. unfold digit. rewrite N_ascii_embedding by lia.
  assert (Z.of_N (48 + Z.to_N d) = 48 + d)%Z as -> by lia.
  rewrite (proj2 (Z.leb_le _ _)), (proj2 (Z.leb_le _ 57)) by lia. simpl. f_equal. lia.
Qed.

Lemma getnum_padded x rest : (0 <= x < 100)%Z -> getnum (padded 2 x ++ rest) true = Some (x, rest).
Proof.
  intros Hx. cbn [padded app].
  pose proof (Z.mod_pos_bound (x / 10) 10 ltac:(done)). pose proof (Z.mod_pos_bound x 10 ltac:(done)).
  cbn [getnum]. rewrite !digit_of by done. do 2 f_equal.
  pose proof (Z.div_mod x 10 ltac:(done)). rewrite (Z.mod_small (x / 10)); [lia|].
  split; [apply Z.div_pos; lia|apply Z.div_lt_upper_bound; lia].
Qed.

Lemma read_year_padded x rest : (0 <= x < 10000)%Z -> read_year (padded 4 x ++ rest) = Some (x, rest).
Proof.
  intros Hx. cbn [padded app read_year].
  rewrite !digit_of by (apply Z.mod_pos_bound; done). cbn [mbind option_bind].
  do 2 f_equal. Z.div_mod_to_equations. lia.
Qed.

(** What [format_date] writes is read back. *)
Lemma read_format_date y m d rest :
  (0 <= y < 10000)%Z -> valid_date y m d = true ->
  read_date (format_date y m d ++ rest) = Some (y, m, d, rest).
Proof.
  intros Hy Hv. unfold valid_date in Hv. rewrite !andb_true_iff, !Z.leb_le in Hv.
  destruct Hv as [[[Hm1 Hm2] Hd1] Hd2].
  assert (daysIn m y <= 31)%Z by (unfold daysIn; repeat case_match; lia).
  unfold read_date, format_date. rewrite <- !app_assoc, read_year_padded by done.
  cbn [mbind option_bind app skip_char]. rewrite bool_decide_true by done.
  cbn [mbind option_bind]. rewrite getnum_padded by lia. cbn [mbind option_bind app skip_char].
  rewrite bool_decide_true by done. cbn [mbind option_bind]. rewrite getnum_padded by lia. done.
Qed.

Lemma ParseDate_format_date y m d :
  (0 <= y < 10000)%Z -> valid_date y m d = true ->
  ParseDate (format_date y m d) = Some (days_before y m d * day_length)%Z.
Proof.
  intros Hy Hv. unfold ParseDate. pose proof (read_format_date y m d [] Hy Hv) as Hr.
  rewrite app_nil_r in Hr. rewrite Hr. cbn [mbind option_bind]. by rewrite Hv.
Qed.

(** ** RFC 3339 *)

(** The zone of the layout "Z07:00": [Z], or a sign, hours and minutes.  The bounds 24 and 60
    themselves are let through. *)
Definition read_zone (s : bytes) : option (Duration * bytes) :=
  match s with
  | "Z"%char :: rest => Some (0%Z, rest)
  | sg :: h1 :: h2 :: ":"%char :: m1 :: m2 :: rest =>
      '(hour, _) ← getnum [h1; h2] true;
      '(minute, _) ← getnum [m1; m2] true;
      let offset := (hour * Hour + minute * Minute)%Z in
      if (24 <? hour)%Z || (60 <? minute)%Z then None
      else if bool_decide (sg = "+"%char) then Some (offset, rest)
      else if bool_decide (sg = "-"%char) then Some ((- offset)%Z, rest)
      else None
  | _ => None
  end.

(** [time.Parse(time.RFC3339, s)]. *)
Definition ParseRFC3339 (s : bytes) : option time :=
  '(year, month, day, s) ← read_date s;
  s ← skip_char "T" s;
  '(hour, s) ← getnum s false ≫= below 24;
  s ← skip_colon s;
  '(minute, s) ← getnum s true ≫= below 60;
  s ← skip_colon s;
  '(sec, s) ← getnum s true ≫= below 60;
  let '(ns, s) := fraction s in
  '(offset, s) ← read_zone s;
  match s with
  | [] =>
      if valid_date year month day
      then Some (days_before year month day * day_length +
                 (hour * Hour + minute * Minute + sec * Second + ns) - offset)%Z
      else None
  | _ => None
  end.

Example ParseRFC3339_ok :
  ParseRFC3339 (bytes_of "2024-02-29T01:01:01Z") = Some (19782 * day_length + 3661 * Second)%Z /\
  ParseRFC3339 (bytes_of "2024-02-29T02:01:01.5+01:00") =
    Some (19782 * day_length + 3661 * Second + 500000000)%Z /\
  ParseRFC3339 (bytes_of "2023-02-29T01:01:01Z") = None /\
  ParseRFC3339 (bytes_of "2024-02-28T24:01:01Z") = None /\
  ParseRFC3339 (bytes_of "2024-02-28T01:01Z") = None.
Proof. done. Qed.

(** From 1970 to the end of the year 9999. *)
Definition four_digit_year (t : time) : Prop := (0 <= t < 2932897 * day_length)%Z.

Lemma date_of_year days : (0 <= days < 2932897)%Z -> (0 <= (date_of days).1.1 < 10000)%Z.
Proof.
  intros Hd. unfold date_of. set (z := (days + 719468)%Z).
  pose proof (Z.mod_pos_bound z 146097 ltac:(done)) as Hdoe.
  pose proof (Z.div_mod z 146097 ltac:(done)) as Hz.
  set (doe := (z `mod` 146097)%Z) in *. set (e := (z / 146097)%Z) in *. clearbody doe e.
  pose proof (year_day_fine doe Hdoe) as Hy. destruct (year_day doe) as [[[c q] y] doy].
  destruct Hy as (Hc & Hq & Hy & Hdoy & Hsum & Hlast).
  pose proof (month_day_fine doy Hdoy) as Hfine. unfold doy_fine in Hfine.
  destruct (month_day doy) as [m d] eqn:Hmd. rewrite !andb_true_iff, !Z.leb_le, Z.eqb_eq in Hfine.
  destruct Hfine as [[[[Hm1 Hm2] Hd1] Hsame] Hd2]. simpl. subst z.
  destruct (Z.leb_spec m 2).
  - split; [lia|]. assert (306 <= doy)%Z by (clear -Hsame Hm1 H Hd1; Z.div_mod_to_equations; lia). lia.
  - lia.
Qed.

Lemma getnum_lenient x rest : (0 <= x < 100)%Z -> getnum (padded 2 x ++ rest) false = Some (x, rest).
Proof.
  intros Hx. pose proof (getnum_padded x rest Hx) as Hg. cbn [padded app getnum] in *.
  by destruct (digit _) as [d|]; [destruct (digit _)|].
Qed.

(** The text of an instant is read back to the second. *)
Lemma ParseRFC3339_Format t : four_digit_year t ->
  ParseRFC3339 (FormatRFC3339 t) = Some (t - t `mod` Second)%Z.
Proof.
  intros Ht. unfold FormatRFC3339, four_digit_year in *.
  assert (0 < day_length)%Z as Hpos by done. assert (0 < Second)%Z as Hsec by done.
  assert (0 <= t / day_length < 2932897)%Z as Hdays
    by (split; [apply Z.div_pos; lia|apply Z.div_lt_upper_bound; lia]).
  pose proof (date_of_year _ Hdays) as Hyear. pose proof (date_of_valid (t / day_length)) as Hvalid.
  destruct (date_of (t / day_length)) as [[y m] d]. destruct Hvalid as [Hvalid Hsame].
  pose proof (Z.mod_pos_bound t day_length Hpos) as Hday.
  set (s := ((t `mod` day_length) / Second)%Z).
  assert (0 <= s < 86400)%Z as Hs.
  { subst s. split; [apply Z.div_pos; lia|]. apply Z.div_lt_upper_bound; [done|].
    change (Second * 86400)%Z with day_length. lia. }
  pose proof (Z.mod_pos_bound s 60 ltac:(done)) as Hs60.
  pose proof (Z.mod_pos_bound (s / 60) 60 ltac:(done)) as Hm60.
  assert (0 <= s / 3600 < 24)%Z as Hh by (split; [apply Z.div_pos; lia|apply Z.div_lt_upper_bound; lia]).
  unfold ParseRFC3339. cbn [app]. rewrite read_format_date by done.
  cbn [mbind option_bind skip_char]. rewrite bool_decide_true by done. cbn [mbind option_bind].
  rewrite getnum_lenient by lia. cbn [mbind option_bind]. unfold below. simpl fst.
  rewrite (proj2 (Z.ltb_lt _ _)) by lia. cbn [mbind option_bind skip_colon app].
  rewrite getnum_padded by lia. cbn [mbind option_bind]. simpl fst.
  rewrite (proj2 (Z.ltb_lt _ _)) by lia. cbn [mbind option_bind skip_colon app].
  rewrite getnum_padded by lia. cbn [mbind option_bind]. simpl fst.
  rewrite (proj2 (Z.ltb_lt _ _)) by lia. cbn [mbind option_bind fraction read_zone].
  rewrite !bool_decide_false by done. cbn [orb mbind option_bind]. rewrite Hvalid.
  simpl in Hsame. rewrite Hsame.
  assert (s / 3600 * Hour + (s / 60) `mod` 60 * Minute + s `mod` 60 * Second = s * Second)%Z as Hclock.
  { unfold Hour, Minute. assert (s = s / 3600 * 3600 + (s / 60) `mod` 60 * 60 + s `mod` 60)%Z
      by (Z.div_mod_to_equations; lia). lia. }
  rewrite Z.add_0_r, Hclock. unfold read_zone. cbn [mbind option_bind]. f_equal.
  pose proof (Z.div_mod t day_length ltac:(done)) as H1.
  pose proof (Z.div_mod (t `mod` day_length) Second ltac:(done)) as H2. fold s in H2.
  assert (t `mod` Second = (t `mod` day_length) `mod` Second)%Z as ->; [|lia].
  symmetry. apply Z.mod_mod_divide. by exists 86400%Z.
Qed.
