(* ===== verification/Platform.v ===== *)
(** * Platform: what the service calls and does not define

    HMAC-SHA256, bcrypt, the parser of github.com/google/uuid, the address grammar of
    net/mail and the letter case of Unicode are parameters, together with the laws some
    theorems assume of them; a sample instance satisfies the laws. *)

From Stdlib Require Import Ascii.
From S2P Require Import Prelude Domain Text.

Record Platform := {
  (** [hmac.New(sha256.New, key)], [Write(message)], [Sum(nil)]. *)
  HMAC : bytes -> bytes -> bytes;
  (** [uuid.Parse]. *)
  uuid_Parse : bytes -> option uuid;
  (** [strings.ToLower]. *)
  ToLower : bytes -> bytes;
  (** [mail.ParseAddress]: the address. *)
  ParseAddress : bytes -> option bytes;
  (** [bcrypt.GenerateFromPassword], with the salt it draws. *)
  GenerateFromPassword : bytes -> result string;
  (** [bcrypt.CompareHashAndPassword] succeeds. *)
  CompareHashAndPassword : string -> bytes -> bool }.

(** An identifier of 128 bits is read back from its text. *)
Definition parses_uuids (P : Platform) : Prop :=
  forall u : uuid, (u < 2 ^ 128)%N -> uuid_Parse P (uuid_String u) = Some u.

(** A password matches its hash. *)
Definition matches_passwords (P : Platform) : Prop :=
  forall password hash, GenerateFromPassword P password = Ok hash ->
    CompareHashAndPassword P hash password = true.

(** ** A sample *)

Definition hex_digit_value (c : ascii) : option N :=
  let n := N_of_ascii c in
  if ((48 <=? n) && (n <=? 57))%N then Some (n - 48)%N
  else if ((97 <=? n) && (n <=? 102))%N then Some (n - 87)%N
  else None.

Fixpoint hex_value (s : bytes) (acc : N) : option N :=
  match s with
  | [] => Some acc
  | c :: s => d ← hex_digit_value c; hex_value s (16 * acc + d)%N
  end.

Definition sample_Parse (s : bytes) : option uuid :=
  hex_value (filter (fun c => c <> "-"%char) s) 0%N.

Definition sample : Platform := {|
  HMAC key message := key ++ message;
  uuid_Parse := sample_Parse;
  ToLower s := s;
  ParseAddress s := Some s;
  GenerateFromPassword password := Ok (string_of ("$"%char :: password));
  CompareHashAndPassword hash password :=
    bool_decide (hash = string_of ("$"%char :: password)) |}.

Lemma hex_digit_fine n : (n < 16)%N ->
  hex_digit_value (hex_digit n) = Some n /\ hex_digit n <> "-"%char.
Proof.
  intros Hn. assert (n ∈ N.of_nat <$> seq 0 16) as Hin.
  { apply list_elem_of_fmap. exists (N.to_nat n). split; [lia|]. apply elem_of_seq. lia. }
  revert n Hn Hin. cbn. intros n _ Hin. repeat (apply elem_of_cons in Hin as [->|Hin]; [done|]).
  by apply elem_of_nil in Hin.
Qed.

Lemma hex_no_dash n x : Forall (fun c => c <> "-"%char) (hex n x).
Proof.
  revert x. induction n as [|n IH]; intros x; cbn [hex]; [done|].
  apply Forall_app. split; [apply IH|]. constructor; [|done].
  apply hex_digit_fine. by apply N.mod_lt.
Qed.

Lemma hex_value_app s t acc : hex_value (s ++ t) acc = hex_value s acc ≫= hex_value t.
Proof.
  revert acc. induction s as [|c s IH]; intros acc; [done|]. simpl.
  destruct (hex_digit_value c); simpl; [apply IH|done].
Qed.

Lemma hex_value_hex n x : (x < 16 ^ N.of_nat n)%N -> hex_value (hex n x) 0 = Some x.
Proof.
  revert x. induction n as [|n IH]; intros x Hx; [simpl in *; f_equal; lia|].
  rewrite Nat2N.inj_succ, N.pow_succ_r' in Hx. cbn [hex].
  rewrite hex_value_app, IH by (apply N.Div0.div_lt_upper_bound; lia).
  cbn [mbind option_bind hex_value].
  destruct (hex_digit_fine (x `mod` 16)) as [-> _]; [by apply N.mod_lt|].
  cbn [mbind option_bind]. f_equal. pose proof (N.div_mod x 16 ltac:(done)). lia.
Qed.

Lemma filter_no_dash s : Forall (fun c => c <> "-"%char) s -> filter (fun c => c <> "-"%char) s = s.
Proof. intros Hs. rewrite Forall_forall in Hs. by apply filter_all. Qed.

Lemma strip_dashes u : filter (fun c => c <> "-"%char) (uuid_String u) = hex 32 u.
Proof.
  unfold uuid_String. cbv zeta. pose proof (hex_no_dash 32 u) as Hall. set (h := hex 32 u) in *.
  clearbody h.
  assert (filter (fun c => c <> "-"%char) ["-"%char] = []) as Hd by done.
  rewrite !filter_app, !Hd, !app_nil_l, !filter_no_dash by auto using Forall_take, Forall_drop.
  assert (forall k n : nat, take k (drop n h) ++ drop (n + k) h = drop n h) as Hjoin.
  { intros k n. rewrite <- drop_drop. apply take_drop. }
  rewrite (Hjoin 4 16 : take 4 (drop 16 h) ++ drop 20 h = drop 16 h).
  rewrite (Hjoin 4 12 : take 4 (drop 12 h) ++ drop 16 h = drop 12 h).
  rewrite (Hjoin 4 8 : take 4 (drop 8 h) ++ drop 12 h = drop 8 h). apply take_drop.
Qed.

Lemma sample_parses_uuids : parses_uuids sample.
Proof.
  intros u Hu. change (sample_Parse (uuid_String u) = Some u). unfold sample_Parse.
  rewrite strip_dashes. apply hex_value_hex. eapply N.lt_le_trans; [exact Hu|done].
Qed.

Lemma sample_matches_passwords : matches_passwords sample.
Proof. intros p h [= <-]. cbn. by apply bool_decide_eq_true. Qed.
