(* ===== verification/Database.v ===== *)
(** * Database: the schema of migrations/ and the shape of an SQL statement

    The state of the Postgres server is one finite map per table, keyed by the primary
    key.  A statement of the repositories is a function of the server's state; what
    the server decides on its own (an infrastructure failure, the rows that other
    transactions hold locked, the order of rows that an ORDER BY leaves open, its clock and
    its calendar) is its [Answer], over which every theorem quantifies. *)

From S2P Require Import Prelude Domain.

(** A row of schedules: the values of its TIME columns, and the row as a query with
    [start_time::text] and [end_time::text] reads it. *)
Record ScheduleRow := {
  sr_start : Duration;
  sr_end : Duration;
  sr_read : Schedule }.

Record DB := {
  db_users : gmap uuid User;
  db_rooms : gmap uuid Room;
  db_schedule_rows : gmap uuid ScheduleRow;
  db_slots : gmap uuid Slot;
  db_bookings : gmap uuid Booking;
  db_waitlist : gmap uuid WaitlistEntry;
  db_reservations : gmap uuid SlotReservation;
  (** last value of the sequence behind [waitlist_entries.position BIGSERIAL] *)
  db_waitlist_seq : Z }.

Definition set_users (t : gmap uuid User) (db : DB) : DB :=
  Build_DB t (db_rooms db) (db_schedule_rows db) (db_slots db) (db_bookings db)
    (db_waitlist db) (db_reservations db) (db_waitlist_seq db).
Definition set_rooms (t : gmap uuid Room) (db : DB) : DB :=
  Build_DB (db_users db) t (db_schedule_rows db) (db_slots db) (db_bookings db)
    (db_waitlist db) (db_reservations db) (db_waitlist_seq db).
Definition set_schedule_rows (t : gmap uuid ScheduleRow) (db : DB) : DB :=
  Build_DB (db_users db) (db_rooms db) t (db_slots db) (db_bookings db)
    (db_waitlist db) (db_reservations db) (db_waitlist_seq db).
Definition set_slots (t : gmap uuid Slot) (db : DB) : DB :=
  Build_DB (db_users db) (db_rooms db) (db_schedule_rows db) t (db_bookings db)
    (db_waitlist db) (db_reservations db) (db_waitlist_seq db).
Definition set_bookings (t : gmap uuid Booking) (db : DB) : DB :=
  Build_DB (db_users db) (db_rooms db) (db_schedule_rows db) (db_slots db) t
    (db_waitlist db) (db_reservations db) (db_waitlist_seq db).
Definition set_waitlist (t : gmap uuid WaitlistEntry) (db : DB) : DB :=
  Build_DB (db_users db) (db_rooms db) (db_schedule_rows db) (db_slots db) (db_bookings db)
    t (db_reservations db) (db_waitlist_seq db).
Definition set_reservations (t : gmap uuid SlotReservation) (db : DB) : DB :=
  Build_DB (db_users db) (db_rooms db) (db_schedule_rows db) (db_slots db) (db_bookings db)
    (db_waitlist db) t (db_waitlist_seq db).
Definition set_waitlist_seq (n : Z) (db : DB) : DB :=
  Build_DB (db_users db) (db_rooms db) (db_schedule_rows db) (db_slots db) (db_bookings db)
    (db_waitlist db) (db_reservations db) n.

(** The schedules as queries read them. *)
Definition db_schedules (db : DB) : gmap uuid Schedule := sr_read <$> db_schedule_rows db.

(** What the server adds to a statement: [a_fault] is a failure of the connection or
    of the server (never a constraint violation, which the statement itself computes);
    when it reports one, [a_lost] says whether the statement had nevertheless been
    executed; [a_locked] are the rows held by other transactions, which
    FOR UPDATE SKIP LOCKED passes over; [a_order] ranks the rows that an ORDER BY does not
    tell apart, [a_returned] those of a RETURNING; [a_now] is the server's NOW(), and
    [a_next_day] adds INTERVAL '1 day' in the time zone of the session. *)
Record Answer := {
  a_fault : option string;
  a_lost : bool;
  a_locked : gset uuid;
  a_order : uuid -> Z;
  a_returned : uuid -> Z;
  a_now : time;
  a_next_day : time -> time }.

Definition sql (R : Type) : Type := Answer -> DB -> result R * DB.

(** A statement that only reads; one whose rows come in an order that is up to the server. *)
Definition query {R} (f : DB -> R) : sql R := fun _ db => (Ok (f db), db).
Definition select {R} (f : Answer -> DB -> R) : sql R := fun a db => (Ok (f a db), db).

(** ORDER BY [key]; [ID] is the key of the row that decides a tie. *)
Definition ordered {A} (a : Answer) (ID : A -> uuid) (key : A -> Z) (l : list A) : list A :=
  order_ties (fun x => a_order a (ID x)) key l.

(** The rows that row locks are about. *)
Inductive Row :=
| BookingRow (id : uuid)
| WaitlistRow (id : uuid)
| ReservationRow (id : uuid).

#[global] Instance Row_eq_dec : EqDecision Row.
Proof. solve_decision. Defined.
#[global] Instance Row_countable : Countable Row.
Proof.
  refine (inj_countable'
    (fun r => match r with
              | BookingRow i => inl i
              | WaitlistRow i => inr (inl i)
              | ReservationRow i => inr (inr i)
              end)
    (fun x => match x with
              | inl i => BookingRow i
              | inr (inl i) => WaitlistRow i
              | inr (inr i) => ReservationRow i
              end) _). by intros [].
Defined.

Definition respond {R} (a : Answer) (s : sql R) (db : DB) : result R * DB :=
  match a_fault a with
  | None => s a db
  | Some m => (Err (PlainError m), if a_lost a then (s a db).2 else db)
  end.

(** The tables go back to those of the snapshot; a sequence is not transactional and
    keeps the values it has handed out. *)
Definition restore (snapshot db : DB) : DB := set_waitlist_seq (db_waitlist_seq db) snapshot.

(** SQLSTATE codes the statements raise. *)
Definition unique_violation : string := "23505".
Definition foreign_key_violation : string := "23503".
Definition check_violation : string := "23514".
Definition exclusion_violation : string := "23P01".
Definition invalid_row_count_in_offset : string := "2201X".
Definition invalid_row_count_in_limit : string := "2201W".

(** ** The constraints declared in migrations/ *)

Definition active_booking (slot : uuid) (b : Booking) : Prop :=
  bk_SlotID b = slot /\ bk_Status b = BookingStatusActive.

Definition active_reservation (slot : uuid) (r : SlotReservation) : Prop :=
  rs_SlotID r = slot /\ rs_Status r = ReservationStatusActive.

Definition open_entry (slot user : uuid) (e : WaitlistEntry) : Prop :=
  wl_SlotID e = slot /\ wl_UserID e = user /\
  (wl_Status e = WaitlistStatusActive \/ wl_Status e = WaitlistStatusNotified).

#[global] Instance active_booking_dec slot b : Decision (active_booking slot b).
Proof. unfold active_booking. apply _. Defined.
#[global] Instance active_reservation_dec slot r : Decision (active_reservation slot r).
Proof. unfold active_reservation. apply _. Defined.
#[global] Instance open_entry_dec slot user e : Decision (open_entry slot user e).
Proof. unfold open_entry. apply _. Defined.

(** Two half-open ranges [tstzrange(start, end, '[)')] overlap. *)
Definition slots_overlap (x y : Slot) : Prop :=
  sl_RoomID x = sl_RoomID y /\
  (sl_StartTime x < sl_EndTime y)%Z /\ (sl_StartTime y < sl_EndTime x)%Z.

#[global] Instance slots_overlap_dec x y : Decision (slots_overlap x y).
Proof. unfold slots_overlap. apply _. Defined.

(** A foreign key: the rows of [t] refer to rows of the table keyed by [keys]. *)
Definition references {A B} (keys : gmap uuid B) (ref : A -> option uuid) (t : gmap uuid A)
    : Prop :=
  forall i x k, t !! i = Some x -> ref x = Some k -> is_Some (keys !! k).

(** Primary key: a row is stored under its identifier. *)
Definition primary {A} (ID : A -> uuid) (t : gmap uuid A) : Prop :=
  forall i x, t !! i = Some x -> ID x = i.

(** A (partial) unique index: rows that [clash] are the same row. *)
Definition unique_on {A} (clash : A -> A -> Prop) (t : gmap uuid A) : Prop :=
  forall i j x y, t !! i = Some x -> t !! j = Some y -> clash x y -> i = j.

Definition same_active_booking (x y : Booking) : Prop :=
  exists slot, active_booking slot x /\ active_booking slot y.
Definition same_open_entry (x y : WaitlistEntry) : Prop :=
  exists slot user, open_entry slot user x /\ open_entry slot user y.
Definition same_active_reservation (x y : SlotReservation) : Prop :=
  exists slot, active_reservation slot x /\ active_reservation slot y.

Record users_ok (t : gmap uuid User) : Prop := {
  users_pkey : primary us_ID t;
  users_email_key : unique_on (fun u v => us_Email u = us_Email v) t;
  users_role_check : forall i u, t !! i = Some u -> us_Role u = RoleAdmin \/ us_Role u = RoleUser }.

Record schedules_ok (rooms : gmap uuid Room) (t : gmap uuid ScheduleRow) : Prop := {
  schedules_pkey : primary (fun s => sc_ID (sr_read s)) t;
  schedules_room_id_fkey : references rooms (fun s => Some (sc_RoomID (sr_read s))) t;
  schedules_day_of_week_check : forall i s, t !! i = Some s -> (1 <= sc_DayOfWeek (sr_read s) <= 7)%Z;
  schedules_check : forall i s, t !! i = Some s -> (sr_start s < sr_end s)%Z;
  schedules_room_id_day_of_week_key :
    unique_on (fun x y => sc_RoomID (sr_read x) = sc_RoomID (sr_read y) /\
                          sc_DayOfWeek (sr_read x) = sc_DayOfWeek (sr_read y)) t }.

Record slots_ok (rooms : gmap uuid Room) (t : gmap uuid Slot) : Prop := {
  slots_pkey : primary sl_ID t;
  slots_check : forall i s, t !! i = Some s -> (sl_StartTime s < sl_EndTime s)%Z;
  slots_no_overlap : unique_on slots_overlap t;
  slots_room_id_fkey : references rooms (fun s => Some (sl_RoomID s)) t }.

Record bookings_ok (users : gmap uuid User) (slots : gmap uuid Slot) (t : gmap uuid Booking)
    : Prop := {
  bookings_pkey : primary bk_ID t;
  uq_bookings_active_slot : unique_on same_active_booking t;
  bookings_user_id_fkey : references users (fun b => Some (bk_UserID b)) t;
  bookings_slot_id_fkey : references slots (fun b => Some (bk_SlotID b)) t }.

Record waitlist_ok (users : gmap uuid User) (slots : gmap uuid Slot) (seq : Z)
    (t : gmap uuid WaitlistEntry) : Prop := {
  waitlist_pkey : primary wl_ID t;
  uq_waitlist_slot_user : unique_on same_open_entry t;
  waitlist_slot_id_fkey : references slots (fun e => Some (wl_SlotID e)) t;
  waitlist_user_id_fkey : references users (fun e => Some (wl_UserID e)) t;
  waitlist_position_seq : forall i e, t !! i = Some e -> (wl_Position e <= seq)%Z;
  waitlist_position_distinct : unique_on (fun x y => wl_Position x = wl_Position y) t }.

Record reservations_ok (users : gmap uuid User) (slots : gmap uuid Slot)
    (waitlist : gmap uuid WaitlistEntry) (t : gmap uuid SlotReservation) : Prop := {
  reservations_pkey : primary rs_ID t;
  uq_slot_reservations_active_slot : unique_on same_active_reservation t;
  reservations_slot_id_fkey : references slots (fun r => Some (rs_SlotID r)) t;
  reservations_user_id_fkey : references users (fun r => Some (rs_UserID r)) t;
  reservations_waitlist_fkey : references waitlist rs_WaitlistEntryID t }.

(** The schema invariant: primary keys, (partial) unique indexes, the exclusion
    constraint, CHECKs, foreign keys, and positions drawn from the sequence. *)
Record schema (db : DB) : Prop := {
  schema_users : users_ok (db_users db);
  schema_rooms : primary rm_ID (db_rooms db);
  schema_schedules : schedules_ok (db_rooms db) (db_schedule_rows db);
  schema_slots : slots_ok (db_rooms db) (db_slots db);
  schema_bookings : bookings_ok (db_users db) (db_slots db) (db_bookings db);
  schema_waitlist :
    waitlist_ok (db_users db) (db_slots db) (db_waitlist_seq db) (db_waitlist db);
  schema_reservations :
    reservations_ok (db_users db) (db_slots db) (db_waitlist db) (db_reservations db) }.
