(* ===== verification/Program.v ===== *)
(** * Program: the effects of the service and their meaning

    A handler is a program over the effects the Go code performs: an SQL statement, the
    transaction calls of the pool, reading the clock, drawing a random identifier,
    publishing an event, bumping a metric.  [run] executes a program against a [World];
    [wp] is the matching program logic, with one adequacy lemma. *)

From S2P Require Import Prelude Domain Database.

(** What leaves the process: realtime events and metrics. *)
Inductive Event :=
| EvSlotBooked (roomID slotID bookingID : uuid)
| EvSlotReleased (roomID slotID bookingID : uuid)
| EvSlotAvailable (roomID slotID : uuid)
| EvSlotReserved (roomID slotID reservationID : uuid)
| EvSlotReservationExpired (roomID slotID reservationID : uuid)
| EvWaitlistSlotReserved (roomID slotID userID reservationID waitlistEntryID : uuid)
    (expiresAt : time)
| EvReservationExpired (roomID slotID userID reservationID : uuid).

Inductive Counter :=
| BookingCreated | BookingCancelled | BookingConflict | BookingCreateError | BookingCancelError
| WaitlistJoined | WaitlistNotification | WaitlistCancelled
| ReservationCreated | ReservationConfirmed | ReservationExpired | ReservationCancelled.

#[global] Instance Event_eq_dec : EqDecision Event.
Proof. solve_decision. Defined.
#[global] Instance Counter_eq_dec : EqDecision Counter.
Proof. solve_decision. Defined.

Inductive Output :=
| Published (e : Event)
| Counted (c : Counter).

(** A transaction handle remembers the state the server would roll back to. *)
Record Tx := { tx_snapshot : DB }.

(** A statement comes with the rows it locks, as SELECT ... FOR UPDATE does. *)
Inductive effect : Type -> Type :=
| Statement {R} (locks : DB -> gset Row) (s : sql R) : effect (result R)
| Begin : effect (result Tx)
| Commit (tx : Tx) : effect (option error)
| Rollback (tx : Tx) : effect (option error)
| Now : effect time
| NewUUID : effect uuid
| Output_ (o : Output) : effect unit.

Notation Sql s := (Statement (fun _ => ∅) s).

(** SELECT ... FOR UPDATE of at most one row. *)
Definition for_update {A} (row : A -> Row) (f : DB -> option A) : effect (result (option A)) :=
  Statement (fun db => match f db with Some x => {[ row x ]} | None => ∅ end) (query f).

Inductive prog (A : Type) : Type :=
| Ret (a : A)
| Do {R} (e : effect R) (k : R -> prog A).
Arguments Ret {A} a.
Arguments Do {A R} e k.

Fixpoint bind {A B} (p : prog A) (k : A -> prog B) : prog B :=
  match p with
  | Ret a => k a
  | Do e k' => Do e (fun r => bind (k' r) k)
  end.

Definition perform {R} (e : effect R) : prog R := Do e Ret.

(** Sequencing in the error monad [prog (result A)]: an [Err] returns early, as
    [if err != nil { return err }] does. *)
Definition ok {A} (a : A) : prog (result A) := Ret (Ok a).
Definition fail {A} (e : error) : prog (result A) := Ret (Err e).

Definition bind_ok {A B} (p : prog (result A)) (k : A -> prog (result B)) : prog (result B) :=
  bind p (fun r => match r with Ok a => k a | Err e => fail e end).

(** [if err != nil { return f(err) }]. *)
Definition on_err {A} (f : error -> error) (p : prog (result A)) : prog (result A) :=
  bind p (fun r => match r with Ok a => ok a | Err e => fail (f e) end).

Definition wrap (code : ErrorCode) (message : string) (e : error) : error :=
  WrapDomainError code message (Some e).

Declare Scope prog_scope.
Delimit Scope prog_scope with prog.
Open Scope prog_scope.
Notation "'let!' x := p 'in' k" := (bind p (fun x => k))
  (at level 10, x pattern, p at level 100, k at level 200) : prog_scope.
Notation "'let?' x := p 'in' k" := (bind_ok p (fun x => k))
  (at level 10, x pattern, p at level 100, k at level 200) : prog_scope.
Notation "p ;;; k" := (bind p (fun _ => k)) (at level 100, right associativity) : prog_scope.

(** ** Execution *)

(** The environment: the server's answer to the n-th round trip, the n-th reading of
    the clock, the n-th random identifier. *)
Record Env := {
  env_answer : nat -> Answer;
  env_now : nat -> time;
  env_uuid : nat -> uuid }.

Record World := {
  w_db : DB;
  w_calls : nat;
  w_clock : nat;
  w_ids : nat;
  w_out : list Output }.

Definition after_call (db : DB) (w : World) : World :=
  Build_World db (S (w_calls w)) (w_clock w) (w_ids w) (w_out w).

Definition sem (E : Env) {R} (e : effect R) (w : World) : R * World :=
  let a := env_answer E (w_calls w) in
  match e in effect R return R * World with
  | Statement _ s => let '(r, db) := respond a s (w_db w) in (r, after_call db w)
  | Begin =>
      match a_fault a with
      | None => (Ok (Build_Tx (w_db w)), after_call (w_db w) w)
      | Some m => (Err (PlainError m), after_call (w_db w) w)
      end
  | Commit tx =>
      match a_fault a with
      | None => (None, after_call (w_db w) w)
      | Some m =>
          (Some (PlainError m),
           after_call (if a_lost a then w_db w else restore (tx_snapshot tx) (w_db w)) w)
      end
  | Rollback tx =>
      let w' := after_call (restore (tx_snapshot tx) (w_db w)) w in
      match a_fault a with
      | None => (None, w')
      | Some m => (Some (PlainError m), w')
      end
  | Now => (env_now E (w_clock w),
            Build_World (w_db w) (w_calls w) (S (w_clock w)) (w_ids w) (w_out w))
  | NewUUID => (env_uuid E (w_ids w),
            Build_World (w_db w) (w_calls w) (w_clock w) (S (w_ids w)) (w_out w))
  | Output_ o => (tt,
            Build_World (w_db w) (w_calls w) (w_clock w) (w_ids w) (w_out w ++ [o]))
  end.

Fixpoint run (E : Env) {A} (p : prog A) (w : World) : A * World :=
  match p with
  | Ret a => (a, w)
  | Do e k => let '(r, w') := sem E e w in run E (k r) w'
  end.

Lemma run_bind E {A B} (p : prog A) (k : A -> prog B) w :
  run E (bind p k) w = run E (k (run E p w).1) (run E p w).2.
Proof.
  revert w. induction p as [a|R e k' IH]; intros w; [done|]. simpl.
  destruct (sem E e w) as [r w']. apply IH.
Qed.

(** ** A program logic

    [Assm] says what a statement assumes of the environment: of the server's answers, of
    the clock and of the identifiers.  [wp] follows the program for every environment
    that satisfies it; its state is the database and the output so far. *)

Record Assm := {
  ok_answer : Answer -> Prop;
  ok_now : time -> Prop;
  ok_uuid : uuid -> Prop }.

Definition anything : Assm :=
  {| ok_answer _ := True; ok_now _ := True; ok_uuid _ := True |}.

Record respects (H : Assm) (E : Env) : Prop := {
  respects_answer : forall n, ok_answer H (env_answer E n);
  respects_now : forall n, ok_now H (env_now E n);
  respects_uuid : forall n, ok_uuid H (env_uuid E n) }.

Lemma respects_anything E : respects anything E.
Proof. by split. Qed.

Definition wp_effect (H : Assm) {R} (e : effect R)
    : (R -> DB -> list Output -> Prop) -> DB -> list Output -> Prop :=
  match e in effect R return (R -> DB -> list Output -> Prop) -> DB -> list Output -> Prop with
  | Statement _ s => fun Q db out =>
      forall a, ok_answer H a -> Q (respond a s db).1 (respond a s db).2 out
  | Begin => fun Q db out =>
      Q (Ok (Build_Tx db)) db out /\
      (forall a m, ok_answer H a -> a_fault a = Some m -> Q (Err (PlainError m)) db out)
  | Commit tx => fun Q db out =>
      Q None db out /\
      (forall a m, ok_answer H a -> a_fault a = Some m ->
        Q (Some (PlainError m)) (if a_lost a then db else restore (tx_snapshot tx) db) out)
  | Rollback tx => fun Q db out =>
      let db' := restore (tx_snapshot tx) db in
      Q None db' out /\
      (forall a m, ok_answer H a -> a_fault a = Some m -> Q (Some (PlainError m)) db' out)
  | Now => fun Q db out => forall t, ok_now H t -> Q t db out
  | NewUUID => fun Q db out => forall i, ok_uuid H i -> Q i db out
  | Output_ o => fun Q db out => Q tt db (out ++ [o])
  end.

Fixpoint wp (H : Assm) {A} (p : prog A) (Q : A -> DB -> list Output -> Prop)
    (db : DB) (out : list Output) : Prop :=
  match p with
  | Ret a => Q a db out
  | Do e k => wp_effect H e (fun r => wp H (k r) Q) db out
  end.

Section logic.
Context (H : Assm).

Lemma wp_effect_mono {R} (e : effect R) (Q Q' : R -> DB -> list Output -> Prop) db out :
  (forall r db out, Q r db out -> Q' r db out) ->
  wp_effect H e Q db out -> wp_effect H e Q' db out.
Proof. intros HQ. destruct e; simpl; naive_solver. Qed.

Lemma wp_mono {A} (p : prog A) (Q Q' : A -> DB -> list Output -> Prop) db out :
  (forall a db out, Q a db out -> Q' a db out) -> wp H p Q db out -> wp H p Q' db out.
Proof.
  intros HQ. revert db out. induction p as [a|R e k IH]; intros db out; simpl; [auto|].
  apply wp_effect_mono. intros r ? ?. apply IH.
Qed.

Lemma wp_bind {A B} (p : prog A) (k : A -> prog B) Q db out :
  wp H p (fun a => wp H (k a) Q) db out -> wp H (bind p k) Q db out.
Proof.
  revert db out. induction p as [a|R e k' IH]; intros db out; simpl; [done|].
  apply wp_effect_mono. intros r ? ?. apply IH.
Qed.

Lemma sem_wp E {R} (e : effect R) Q w :
  respects H E -> wp_effect H e Q (w_db w) (w_out w) ->
  Q (sem E e w).1 (w_db (sem E e w).2) (w_out (sem E e w).2).
Proof.
  intros HE Hwp. pose proof (respects_answer _ _ HE (w_calls w)) as Ha.
  destruct e; simpl in *.
  - specialize (Hwp _ Ha). by destruct (respond _ _ _).
  - destruct Hwp as [H0 H1]. destruct (a_fault _) eqn:Ef; simpl; eauto.
  - destruct Hwp as [H0 H1]. destruct (a_fault _) eqn:Ef; simpl; eauto.
  - destruct Hwp as [H0 H1]. destruct (a_fault _) eqn:Ef; simpl; eauto.
  - apply Hwp, (respects_now _ _ HE).
  - apply Hwp, (respects_uuid _ _ HE).
  - done.
Qed.

(** Adequacy: what [wp] establishes holds of every execution. *)
Lemma wp_run E {A} (p : prog A) Q w :
  respects H E -> wp H p Q (w_db w) (w_out w) ->
  Q (run E p w).1 (w_db (run E p w).2) (w_out (run E p w).2).
Proof.
  intros HE. revert w. induction p as [a|R e k IH]; intros w; simpl; [done|].
  intros Hwp. pose proof (sem_wp E e _ w HE Hwp) as Hs.
  destruct (sem E e w) as [r w']. by apply IH.
Qed.
End logic.
