(* ===== verification/Postgres.v ===== *)
(** * Postgres: internal/repository/postgres

    For each repository, its SQL statements as functions of the server's state (the
    constraints of migrations/ that a statement can violate are checked in the order the
    server checks them: CHECK, then the indexes in order of creation, then foreign keys),
    and the Go methods that send them. *)

From S2P Require Import Prelude Domain Database Program.

Definition has {A} (t : gmap uuid A) (i : uuid) : bool := bool_decide (is_Some (t !! i)).

(** The first row of a query, as [QueryRow] reads it; no row is [pgx.ErrNoRows]. *)
Definition first_where {A} (P : A -> Prop) `{!forall x, Decision (P x)} (t : gmap uuid A)
  : option A := head (filter P (rows t)).

Definition is_unique_violation (constraint : string) (err : error) : bool :=
  match AsPgError err with
  | Some (code, name) =>
      bool_decide (code = unique_violation) && bool_decide (name = constraint)
  | None => false
  end.

(** ** tx_manager.go *)
Definition WithinTransaction {A} (fn : prog (result A)) : prog (result A) :=
  let! tx := perform Begin in
  match tx with
  | Err err => fail (Wrapped "begin tx" err)
  | Ok tx =>
      let! r := fn in
      match r with
      | Err err =>
          let! rbErr := perform (Rollback tx) in
          match rbErr with
          | Some _ => fail (Wrapped "tx rollback failed" err)
          | None => fail err
          end
      | Ok a =>
          let! cErr := perform (Commit tx) in
          match cErr with
          | Some err => fail (Wrapped "commit tx" err)
          | None => ok a
          end
      end
  end.

(** ** booking_repo.go *)
Module BookingRepo.

Definition insert (b : Booking) : sql N := fun _ db =>
  if bool_decide (bk_Status b = BookingStatusActive) &&
     bool_decide (is_Some (first_where (active_booking (bk_SlotID b)) (db_bookings db)))
  then (Ok 0%N, db)
  else if has (db_bookings db) (bk_ID b)
  then (Err (PgError unique_violation "bookings_pkey"), db)
  else if negb (has (db_users db) (bk_UserID b))
  then (Err (PgError foreign_key_violation "bookings_user_id_fkey"), db)
  else if negb (has (db_slots db) (bk_SlotID b))
  then (Err (PgError foreign_key_violation "bookings_slot_id_fkey"), db)
  else (Ok 1%N, set_bookings (<[bk_ID b := b]> (db_bookings db)) db).

Definition Create (booking : Booking) : prog (result unit) :=
  let? affected := perform (Sql (insert booking)) in
  if (affected =? 0)%N
  then fail (NewDomainError ErrorSlotAlreadyBooked "slot already booked")
  else ok tt.

Definition GetByID (id : uuid) : prog (result (option Booking)) :=
  perform (Sql (query (fun db => db_bookings db !! id))).

Definition HasActiveBySlot (slotID : uuid) : prog (result bool) :=
  perform (Sql (query (fun db =>
    bool_decide (is_Some (first_where (active_booking slotID) (db_bookings db)))))).

Definition GetActiveBySlotForUpdate (slotID : uuid) : prog (result (option Booking)) :=
  perform (for_update (fun b => BookingRow (bk_ID b))
    (fun db => first_where (active_booking slotID) (db_bookings db))).

Definition with_Status (s : BookingStatus) (b : Booking) : Booking :=
  Build_Booking (bk_ID b) (bk_UserID b) (bk_SlotID b) s (bk_ConferenceLink b) (bk_CreatedAt b).

Definition update_cancelled (id : uuid) : sql (option Booking) := fun _ db =>
  match db_bookings db !! id with
  | Some b =>
      if bool_decide (bk_Status b = BookingStatusActive) then
        let b' := with_Status BookingStatusCancelled b in
        (Ok (Some b'), set_bookings (<[id := b']> (db_bookings db)) db)
      else (Ok None, db)
  | None => (Ok None, db)
  end.

Definition SetCancelled (id : uuid) : prog (result (option Booking)) :=
  let? updated := perform (Sql (update_cancelled id)) in
  match updated with
  | Some b => ok (Some b)
  | None => GetByID id
  end.

(** [ORDER BY created_at DESC LIMIT $1 OFFSET $2]; the server rejects a negative count. *)
Definition page_of (limit offset : Z) : sql (list Booking) := fun a db =>
  if (limit <? 0)%Z then (Err (PgError invalid_row_count_in_limit ""), db)
  else if (offset <? 0)%Z then (Err (PgError invalid_row_count_in_offset ""), db)
  else (Ok (take (Z.to_nat limit) (drop (Z.to_nat offset)
              (ordered a bk_ID (fun b => (- bk_CreatedAt b)%Z) (rows (db_bookings db))))), db).

Definition List (page pageSize : Z) : prog (result (list Booking * Z)) :=
  let? total := perform (Sql (query (fun db => Z.of_nat (size (db_bookings db))))) in
  let offset := int64 (int64 (page - 1) * pageSize) in
  let? out := perform (Sql (page_of pageSize offset)) in
  ok (out, total).

(** The rows of [bookings b JOIN slots s ON s.id = b.slot_id]. *)
Definition with_slot (db : DB) (b : Booking) : list (Booking * Slot) :=
  match db_slots db !! bk_SlotID b with
  | Some s => [(b, s)]
  | None => []
  end.

Definition future_by_user (userID : uuid) (now : time) (a : Answer) (db : DB) : list Booking :=
  (ordered a (fun bs => bk_ID bs.1) (fun bs => sl_StartTime bs.2)
     (filter (fun bs => bk_UserID bs.1 = userID /\ bk_Status bs.1 = BookingStatusActive /\
                        (sl_StartTime bs.2 >= now)%Z)
        (rows (db_bookings db) ≫= with_slot db))).*1.

Definition ListFutureByUser (userID : uuid) (now : time) : prog (result (list Booking)) :=
  perform (Sql (select (future_by_user userID now))).

End BookingRepo.

(** ** waitlist_repo.go *)
Module WaitlistRepo.

Definition with_Status (s : WaitlistStatus) (notified : option time) (e : WaitlistEntry)
    : WaitlistEntry :=
  Build_WaitlistEntry (wl_ID e) (wl_SlotID e) (wl_UserID e) s (wl_Position e)
    (wl_CreatedAt e) notified.

Definition uq_name : string := "uq_waitlist_slot_user_active_or_notified".

(** [position] is the sequence's next value, drawn even when the insert fails;
    [notified_at] is not inserted. *)
Definition insert (e : WaitlistEntry) : sql WaitlistEntry := fun _ db =>
  let pos := (db_waitlist_seq db + 1)%Z in
  let db := set_waitlist_seq pos db in
  let row := Build_WaitlistEntry (wl_ID e) (wl_SlotID e) (wl_UserID e) (wl_Status e) pos
               (wl_CreatedAt e) None in
  if has (db_waitlist db) (wl_ID e)
  then (Err (PgError unique_violation "waitlist_entries_pkey"), db)
  else if (bool_decide (wl_Status e = WaitlistStatusActive) ||
           bool_decide (wl_Status e = WaitlistStatusNotified)) &&
          bool_decide (is_Some (first_where (open_entry (wl_SlotID e) (wl_UserID e))
                                  (db_waitlist db)))
  then (Err (PgError unique_violation uq_name), db)
  else if negb (has (db_slots db) (wl_SlotID e))
  then (Err (PgError foreign_key_violation "waitlist_entries_slot_id_fkey"), db)
  else if negb (has (db_users db) (wl_UserID e))
  then (Err (PgError foreign_key_violation "waitlist_entries_user_id_fkey"), db)
  else (Ok row, set_waitlist (<[wl_ID e := row]> (db_waitlist db)) db).

Definition isWaitlistDuplicateJoin (err : error) : bool := is_unique_violation uq_name err.

Definition Join (entry : WaitlistEntry) : prog (result WaitlistEntry) :=
  on_err (fun err =>
      if isWaitlistDuplicateJoin err
      then NewDomainError ErrorWaitlistJoined "user is already in waitlist for this slot"
      else err)
    (perform (Sql (insert entry))).

Definition update_cancelled (entryID userID : uuid) : sql (option WaitlistEntry) := fun _ db =>
  match db_waitlist db !! entryID with
  | Some e =>
      if bool_decide (wl_UserID e = userID) &&
         (bool_decide (wl_Status e = WaitlistStatusActive) ||
          bool_decide (wl_Status e = WaitlistStatusNotified)) then
        let e' := with_Status WaitlistStatusCancelled (wl_NotifiedAt e) e in
        (Ok (Some e'), set_waitlist (<[entryID := e']> (db_waitlist db)) db)
      else (Ok None, db)
  | None => (Ok None, db)
  end.

Definition getByIDAndUser (entryID userID : uuid) : prog (result (option WaitlistEntry)) :=
  perform (Sql (query (fun db =>
    match db_waitlist db !! entryID with
    | Some e => if bool_decide (wl_UserID e = userID) then Some e else None
    | None => None
    end))).

Definition Leave (entryID userID : uuid) : prog (result (option WaitlistEntry * bool)) :=
  let? updated := perform (Sql (update_cancelled entryID userID)) in
  match updated with
  | Some e => ok (Some e, true)
  | None =>
      let? entry := getByIDAndUser entryID userID in
      ok (entry, false)
  end.

(** [ORDER BY position LIMIT 1 FOR UPDATE SKIP LOCKED] over the active entries. *)
Definition next_entry (locked : gset uuid) (slotID : uuid) (db : DB) : option WaitlistEntry :=
  head (order_by wl_Position
    (filter (fun e => wl_SlotID e = slotID /\ wl_Status e = WaitlistStatusActive /\
                      wl_ID e ∉ locked)
       (rows (db_waitlist db)))).

Definition claim_next (slotID : uuid) : sql (option WaitlistEntry) := fun a db =>
  match next_entry (a_locked a) slotID db with
  | Some e =>
      let e' := with_Status WaitlistStatusNotified (Some (a_now a)) e in
      (Ok (Some e'), set_waitlist (<[wl_ID e := e']> (db_waitlist db)) db)
  | None => (Ok None, db)
  end.

Definition ClaimNextForNotify (slotID : uuid) : prog (result (option WaitlistEntry)) :=
  perform (Sql (claim_next slotID)).

End WaitlistRepo.

(** ** reservation_repo.go *)
Module ReservationRepo.

Definition with_Status (s : ReservationStatus) (confirmed expired : option time)
    (r : SlotReservation) : SlotReservation :=
  Build_SlotReservation (rs_ID r) (rs_SlotID r) (rs_UserID r) (rs_WaitlistEntryID r) s
    (rs_ExpiresAt r) (rs_CreatedAt r) confirmed expired.

Definition uq_name : string := "uq_slot_reservations_active_slot".

Definition fkey_ok {A} (t : gmap uuid A) (ref : option uuid) : bool :=
  match ref with
  | Some i => has t i
  | None => true
  end.

Definition insert (r : SlotReservation) : sql SlotReservation := fun _ db =>
  if has (db_reservations db) (rs_ID r)
  then (Err (PgError unique_violation "slot_reservations_pkey"), db)
  else if bool_decide (rs_Status r = ReservationStatusActive) &&
          bool_decide (is_Some (first_where (active_reservation (rs_SlotID r))
                                  (db_reservations db)))
  then (Err (PgError unique_violation uq_name), db)
  else if negb (has (db_slots db) (rs_SlotID r))
  then (Err (PgError foreign_key_violation "slot_reservations_slot_id_fkey"), db)
  else if negb (has (db_users db) (rs_UserID r))
  then (Err (PgError foreign_key_violation "slot_reservations_user_id_fkey"), db)
  else if negb (fkey_ok (db_waitlist db) (rs_WaitlistEntryID r))
  then (Err (PgError foreign_key_violation "slot_reservations_waitlist_entry_id_fkey"), db)
  else (Ok r, set_reservations (<[rs_ID r := r]> (db_reservations db)) db).

Definition isReservationDuplicate (err : error) : bool := is_unique_violation uq_name err.

Definition Create (reservation : SlotReservation) : prog (result SlotReservation) :=
  on_err (fun err =>
      if isReservationDuplicate err
      then NewDomainError ErrorSlotReserved "slot is already reserved"
      else err)
    (perform (Sql (insert reservation))).

Definition GetByID (id : uuid) : prog (result (option SlotReservation)) :=
  perform (Sql (query (fun db => db_reservations db !! id))).

Definition GetByIDForUpdate (id : uuid) : prog (result (option SlotReservation)) :=
  perform (for_update (fun r => ReservationRow (rs_ID r)) (fun db => db_reservations db !! id)).

Definition active_by_user (userID : uuid) (now : time) (a : Answer) (db : DB)
    : list SlotReservation :=
  ordered a rs_ID rs_ExpiresAt
    (filter (fun r => rs_UserID r = userID /\ rs_Status r = ReservationStatusActive /\
                      (rs_ExpiresAt r > now)%Z)
       (rows (db_reservations db))).

Definition ListActiveByUser (userID : uuid) (now : time)
    : prog (result (list SlotReservation)) :=
  perform (Sql (select (active_by_user userID now))).

Definition GetActiveBySlot (slotID : uuid) : prog (result (option SlotReservation)) :=
  perform (Sql (query (fun db =>
    first_where (active_reservation slotID) (db_reservations db)))).

Definition GetActiveBySlotForUpdate (slotID : uuid) : prog (result (option SlotReservation)) :=
  perform (for_update (fun r => ReservationRow (rs_ID r))
    (fun db => first_where (active_reservation slotID) (db_reservations db))).

(** [UPDATE ... SET (status, ...) WHERE id = $1 AND status = 'active' RETURNING ...]. *)
Definition update_active (id : uuid) (upd : SlotReservation -> SlotReservation)
    : sql (option SlotReservation) := fun _ db =>
  match db_reservations db !! id with
  | Some r =>
      if bool_decide (rs_Status r = ReservationStatusActive)
      then (Ok (Some (upd r)), set_reservations (<[id := upd r]> (db_reservations db)) db)
      else (Ok None, db)
  | None => (Ok None, db)
  end.

Definition confirm (confirmedAt : time) (r : SlotReservation) : SlotReservation :=
  with_Status ReservationStatusConfirmed (Some confirmedAt) (rs_ExpiredAt r) r.
Definition cancel (r : SlotReservation) : SlotReservation :=
  with_Status ReservationStatusCancelled (rs_ConfirmedAt r) (rs_ExpiredAt r) r.
Definition expire (now : time) (r : SlotReservation) : SlotReservation :=
  with_Status ReservationStatusExpired (rs_ConfirmedAt r) (Some now) r.

Definition SetConfirmed (id : uuid) (confirmedAt : time)
    : prog (result (option SlotReservation)) :=
  let? updated := perform (Sql (update_active id (confirm confirmedAt))) in
  match updated with
  | Some r => ok (Some r)
  | None => GetByID id
  end.

Definition SetCancelled (id : uuid) : prog (result (option SlotReservation)) :=
  let? updated := perform (Sql (update_active id cancel)) in
  match updated with
  | Some r => ok (Some r)
  | None => GetByID id
  end.

(** The CTE of ExpireBatch: the oldest due active reservations that nobody holds. *)
Definition oldest_due (a : Answer) (now : time) (limit : nat) (db : DB) : list SlotReservation :=
  take limit (ordered a rs_ID rs_ExpiresAt
    (filter (fun r => rs_Status r = ReservationStatusActive /\ (rs_ExpiresAt r <= now)%Z /\
                      rs_ID r ∉ a_locked a)
       (rows (db_reservations db)))).

(** RETURNING lists them in any order. *)
Definition picked (a : Answer) (now : time) (limit : nat) (db : DB) : list SlotReservation :=
  order_by (fun r => a_returned a (rs_ID r)) (oldest_due a now limit db).

Definition expire_rows (now : time) (l : list SlotReservation)
    (t : gmap uuid SlotReservation) : gmap uuid SlotReservation :=
  foldr (fun r t => <[rs_ID r := expire now r]> t) t l.

Definition expire_batch (now : time) (limit : Z) : sql (list SlotReservation) := fun a db =>
  if (limit <? 0)%Z then (Err (PgError invalid_row_count_in_limit ""), db)
  else
    let l := picked a now (Z.to_nat limit) db in
    (Ok (expire now <$> l), set_reservations (expire_rows now l (db_reservations db)) db).

Definition ExpireBatch (now : time) (limit : Z) : prog (result (list SlotReservation)) :=
  perform (Sql (expire_batch now limit)).

End ReservationRepo.

(** ** slot_repo.go *)
Module SlotRepo.

Definition GetByID (slotID : uuid) : prog (result (option Slot)) :=
  perform (Sql (query (fun db => db_slots db !! slotID))).

(** From [date] to [until], which is [date + INTERVAL '1 day']. *)
Definition in_day (roomID : uuid) (date until : time) (s : Slot) : Prop :=
  sl_RoomID s = roomID /\ (sl_StartTime s >= date)%Z /\ (sl_StartTime s < until)%Z.

#[global] Instance in_day_dec roomID date until s : Decision (in_day roomID date until s).
Proof. unfold in_day. apply _. Defined.

(** LEFT JOIN of one row with the rows that match it. *)
Definition left_join {A} (l : list A) : list (option A) :=
  match l with
  | [] => [None]
  | _ => Some <$> l
  end.

Definition joined (db : DB) (s : Slot) : list (Slot * option Booking * option SlotReservation) :=
  b ← left_join (filter (active_booking (sl_ID s)) (rows (db_bookings db)));
  r ← left_join (filter (active_reservation (sl_ID s)) (rows (db_reservations db)));
  [(s, b, r)].

Definition joined_in_day (roomID : uuid) (date : time) (a : Answer) (db : DB)
    : list (Slot * option Booking * option SlotReservation) :=
  ordered a (fun x => sl_ID x.1.1) (fun x => sl_StartTime x.1.1)
    (filter (in_day roomID date (a_next_day a date)) (rows (db_slots db)) ≫= joined db).

Definition available (roomID : uuid) (date : time) (a : Answer) (db : DB) : list Slot :=
  (filter (fun x => x.1.2 = None /\ x.2 = None) (joined_in_day roomID date a db)).*1.*1.

Definition ListAvailableByRoomAndDate (roomID : uuid) (date : time)
    : prog (result (list Slot)) :=
  perform (Sql (select (available roomID date))).

(** The CASE expression of ListAllByRoomAndDate. *)
Definition slot_status (now : time) (s : Slot) (b : option Booking)
    (r : option SlotReservation) : SlotStatus :=
  if (sl_StartTime s <? now)%Z then SlotStatusPast
  else if bool_decide (is_Some b) then SlotStatusBooked
  else if bool_decide (is_Some r) then SlotStatusReserved
  else SlotStatusAvailable.

Definition view (now : time) (x : Slot * option Booking * option SlotReservation) : SlotView :=
  let '(s, b, r) := x in
  Build_SlotView (sl_ID s) (sl_RoomID s) (sl_StartTime s) (sl_EndTime s)
    (slot_status now s b r) (bk_ID <$> b) (rs_ID <$> r) (r ≫= rs_WaitlistEntryID).

Definition ListAllByRoomAndDate (roomID : uuid) (date now : time)
    : prog (result (list SlotView)) :=
  perform (Sql (select (fun a db => view now <$> joined_in_day roomID date a db))).

Definition last_start (roomID : uuid) (db : DB) : option time :=
  sl_StartTime <$> head (order_by (fun s => (- sl_StartTime s)%Z)
    (filter (fun s => sl_RoomID s = roomID) (rows (db_slots db)))).

Definition GetLastSlotStartByRoomID (roomID : uuid) : prog (result (option time)) :=
  perform (Sql (query (last_start roomID))).

(** One row of the batch: ON CONFLICT (room_id, start_time) DO NOTHING. *)
Definition insert_row (s : Slot) (db : DB) : result DB :=
  if negb (sl_StartTime s <? sl_EndTime s)%Z
  then Err (PgError check_violation "slots_check")
  else if bool_decide (is_Some (first_where
            (fun s' => sl_RoomID s' = sl_RoomID s /\ sl_StartTime s' = sl_StartTime s)
            (db_slots db)))
  then Ok db
  else if has (db_slots db) (sl_ID s)
  then Err (PgError unique_violation "slots_pkey")
  else if bool_decide (is_Some (first_where (slots_overlap s) (db_slots db)))
  then Err (PgError exclusion_violation "slots_no_overlap")
  else if negb (has (db_rooms db) (sl_RoomID s))
  then Err (PgError foreign_key_violation "slots_room_id_fkey")
  else Ok (set_slots (<[sl_ID s := s]> (db_slots db)) db).

Fixpoint insert_rows (l : list Slot) (db : DB) : result DB :=
  match l with
  | [] => Ok db
  | s :: l =>
      match insert_row s db with
      | Ok db => insert_rows l db
      | Err e => Err e
      end
  end.

(** The batch is one implicit transaction: a failing row undoes the rows before it. *)
Definition insert_batch (l : list Slot) : sql unit := fun _ db =>
  match insert_rows l db with
  | Ok db' => (Ok tt, db')
  | Err e => (Err e, db)
  end.

Definition InsertBatchIgnoreConflicts (slots : list Slot) : prog (result unit) :=
  match slots with
  | [] => ok tt
  | _ => perform (Sql (insert_batch slots))
  end.

End SlotRepo.

(** ** user_repo.go *)
Module UserRepo.

Definition by_email (email : string) (db : DB) : option User :=
  first_where (fun u => us_Email u = email) (db_users db).

Definition GetByEmail (email : string) : prog (result (option User)) :=
  perform (Sql (query (by_email email))).

Definition insert (u : User) : sql unit := fun _ db =>
  if negb (bool_decide (us_Role u = RoleAdmin) || bool_decide (us_Role u = RoleUser))
  then (Err (PgError check_violation "users_role_check"), db)
  else if has (db_users db) (us_ID u)
  then (Err (PgError unique_violation "users_pkey"), db)
  else if bool_decide (is_Some (by_email (us_Email u) db))
  then (Err (PgError unique_violation "users_email_key"), db)
  else (Ok tt, set_users (<[us_ID u := u]> (db_users db)) db).

Definition isUsersEmailUniqueViolation (err : error) : bool :=
  is_unique_violation "users_email_key" err.

Definition Create (user : User) : prog (result unit) :=
  on_err (fun err =>
      if isUsersEmailUniqueViolation err
      then NewDomainError ErrorInvalidRequest "email already exists"
      else err)
    (perform (Sql (insert user))).

End UserRepo.

(** ** room_repo.go *)
Module RoomRepo.

Definition GetByID (id : uuid) : prog (result (option Room)) :=
  perform (Sql (query (fun db => db_rooms db !! id))).

(** [capacity] is an INT column: the driver refuses a value outside 32 bits. *)
Definition int4_ok (c : option Z) : bool :=
  match c with
  | Some z => (- 2 ^ 31 <=? z)%Z && (z <? 2 ^ 31)%Z
  | None => true
  end.

Definition insert (r : Room) : sql unit := fun _ db =>
  if negb (int4_ok (rm_Capacity r))
  then (Err (PlainError "capacity is out of range for int4"), db)
  else if has (db_rooms db) (rm_ID r)
  then (Err (PgError unique_violation "rooms_pkey"), db)
  else (Ok tt, set_rooms (<[rm_ID r := r]> (db_rooms db)) db).

Definition Create (room : Room) : prog (result unit) := perform (Sql (insert room)).

Definition List : prog (result (list Room)) :=
  perform (Sql (select (fun a db =>
    ordered a rm_ID (fun r => (- rm_CreatedAt r)%Z) (rows (db_rooms db))))).

Definition with_schedule (db : DB) : list Room :=
  order_by (fun r => Z.of_N (rm_ID r))
    (filter (fun r => is_Some (first_where (fun s => sc_RoomID s = rm_ID r) (db_schedules db)))
       (rows (db_rooms db))).

Definition ListWithSchedule : prog (result (list Room)) :=
  perform (Sql (query with_schedule)).

End RoomRepo.

(** ** schedule_repo.go *)
Module ScheduleRepo.

Definition ExistsByRoomID (roomID : uuid) : prog (result bool) :=
  perform (Sql (query (fun db =>
    bool_decide (is_Some (first_where (fun s => sc_RoomID s = roomID) (db_schedules db)))))).

(** [ORDER BY room_id, day_of_week, id]. *)
Definition row_le (x y : Schedule) : Prop :=
  (sc_RoomID x < sc_RoomID y)%N \/
  sc_RoomID x = sc_RoomID y /\
    ((sc_DayOfWeek x < sc_DayOfWeek y)%Z \/
     sc_DayOfWeek x = sc_DayOfWeek y /\ (sc_ID x <= sc_ID y)%N).

#[global] Instance row_le_dec : RelDecision row_le.
Proof. intros x y. unfold row_le. apply _. Defined.

Definition by_rooms (roomIDs : list uuid) (db : DB) : list Schedule :=
  merge_sort row_le
    (filter (fun s => sc_RoomID s ∈ roomIDs) (rows (db_schedules db))).

(** [out[sch.RoomID] = append(out[sch.RoomID], sch)] for every row. *)
Definition append_row (out : gmap uuid (list Schedule)) (sch : Schedule)
    : gmap uuid (list Schedule) :=
  <[sc_RoomID sch := default [] (out !! sc_RoomID sch) ++ [sch]]> out.

Definition ListByRoomIDs (roomIDs : list uuid)
    : prog (result (gmap uuid (list Schedule))) :=
  match roomIDs with
  | [] => ok ∅
  | _ =>
      let? l := perform (Sql (query (by_rooms roomIDs))) in
      ok (fold_left append_row l ∅)
  end.

End ScheduleRepo.
