(* ===== verification/Schema.v ===== *)
(** * Schema: every statement keeps the constraints of migrations/

    [Preserves I s] says that the statement [s] keeps the database predicate [I] whatever
    the server answers.  The statements of the repositories are instances for [schema],
    and [Keeps] lifts them to whole programs. *)

From S2P Require Import Prelude Domain Database Program Postgres.

Class Preserves (I : DB -> Prop) {R} (s : sql R) : Prop :=
  preserves : forall a db, I db -> I (s a db).2.

#[export] Instance query_preserves I {R} (f : DB -> R) : Preserves I (query f).
Proof. by intros a db. Qed.
#[export] Instance select_preserves I {R} (f : Answer -> DB -> R) : Preserves I (select f).
Proof. by intros a db. Qed.

Lemma respond_preserves I {R} (s : sql R) `{Hp : !Preserves I s} a db :
  I db -> I (respond a s db).2.
Proof.
  intros Hdb. unfold respond. destruct (a_fault a); simpl; [|by apply Hp].
  destruct (a_lost a); [by apply Hp|done].
Qed.

(** ** Queries *)

Section first_where.
Context {A} (P : A -> Prop) `{Pdec : !forall x, Decision (P x)} (t : gmap uuid A).

Lemma first_where_None :
  first_where P t = None <-> forall i x, t !! i = Some x -> ~ P x.
Proof. apply head_filter_None. Qed.

Lemma first_where_Some x : first_where P t = Some x -> P x /\ exists i, t !! i = Some x.
Proof. apply head_filter_Some. Qed.

Lemma first_where_unique i x :
  (forall j y, t !! j = Some y -> P y -> j = i) ->
  t !! i = Some x -> P x -> first_where P t = Some x.
Proof.
  intros Hu Hi HP. eapply head_filter_unique; [|done|done]. intros j y Hj HPy.
  assert (j = i) as -> by eauto. congruence.
Qed.

Lemma first_where_is_Some : is_Some (first_where P t) <-> exists i x, t !! i = Some x /\ P x.
Proof.
  split; [intros [x [? [i ?]]%first_where_Some]; eauto|].
  intros (i & x & Hx & HP). apply not_eq_None_Some. rewrite first_where_None.
  intros Hn. by apply (Hn i x).
Qed.
End first_where.

Lemma has_true {A} (t : gmap uuid A) i : is_Some (t !! i) -> has t i = true.
Proof. intros H. unfold has. by rewrite bool_decide_true. Qed.
Lemma has_false {A} (t : gmap uuid A) i : t !! i = None -> has t i = false.
Proof. intros H. unfold has. rewrite H. by rewrite bool_decide_false by apply is_Some_None. Qed.

(** ** Constraints of an updated table *)

(** Case analysis on the lookups of an updated table. *)
Ltac lookups :=
  repeat match goal with
  | H : <[_ := _]> _ !! _ = Some _ |- _ =>
      apply lookup_insert_Some in H as [[? ?]|[? ?]]
  end; subst; simpl in *.

Section constraints.
Context {A B : Type}.
Implicit Types (t : gmap uuid A) (x y : A).

Lemma primary_insert (ID : A -> uuid) t x :
  primary ID t -> primary ID (<[ID x := x]> t).
Proof. intros Hp i y H. lookups; eauto. Qed.

Lemma primary_update (ID : A -> uuid) t i x :
  primary ID t -> ID x = i -> primary ID (<[i := x]> t).
Proof. intros Hp <-. by apply primary_insert. Qed.

Lemma unique_insert (clash : A -> A -> Prop) t i x :
  unique_on clash t ->
  (forall j y, t !! j = Some y -> j <> i -> clash x y \/ clash y x -> False) ->
  unique_on clash (<[i := x]> t).
Proof.
  intros Hu Hx j k y z Hj Hk Hc. lookups; eauto; exfalso; eapply Hx; eauto.
Qed.

Lemma references_insert (keys : gmap uuid B) ref t i x :
  references keys ref t -> (forall k, ref x = Some k -> is_Some (keys !! k)) ->
  references keys ref (<[i := x]> t).
Proof. intros Hr Hx j y k Hj Hk. lookups; eauto. Qed.

Lemma references_mono (keys : gmap uuid B) i v ref t :
  references keys ref t -> references (<[i := v]> keys) ref t.
Proof. intros Hr j y k Hj Hk. apply lookup_insert_is_Some'. right. eauto. Qed.
End constraints.

Lemma rows_NoDup {A} (ID : A -> uuid) (t : gmap uuid A) : primary ID t -> NoDup (rows t).
Proof.
  intros Hp. unfold rows. apply NoDup_fmap_2_strong; [|apply NoDup_map_to_list].
  intros [i x] [j y] Hi Hj Heq. simpl in Heq. subst y.
  apply elem_of_map_to_list in Hi, Hj. apply Hp in Hi, Hj. congruence.
Qed.

#[export] Hint Resolve primary_insert primary_update references_insert references_mono : svc.

Lemma set_waitlist_seq_schema db n :
  schema db -> (db_waitlist_seq db <= n)%Z -> schema (set_waitlist_seq n db).
Proof.
  intros [? ? ? ? ? [] ?] Hn. constructor; simpl; try done. constructor; try done.
  intros i e He. etransitivity; [by eapply waitlist_position_seq|done].
Qed.

Lemma restore_schema db db' :
  schema db -> (db_waitlist_seq db <= db_waitlist_seq db')%Z -> schema (restore db db').
Proof. intros. by apply set_waitlist_seq_schema. Qed.

(** The side conditions of an insert. *)
Ltac checks :=
  repeat match goal with
  | |- context [if ?b then _ else _] => destruct b eqn:?; simpl; try done
  end;
  repeat match goal with
  | H : negb _ = false |- _ => apply negb_false_iff in H
  | H : has _ _ = true |- _ => unfold has in H
  | H : has _ _ = false |- _ => unfold has in H
  | H : bool_decide _ = true |- _ => apply bool_decide_eq_true in H
  | H : bool_decide _ = false |- _ => apply bool_decide_eq_false in H
  | H : _ && _ = false |- _ => apply andb_false_iff in H
  | H : _ || _ = false |- _ => apply orb_false_iff in H as [? ?]
  | H : ~ is_Some _ |- _ => apply eq_None_not_Some in H
  end.

(** ** Statements *)

Lemma active_booking_status slot b : active_booking slot b -> bk_Status b = BookingStatusActive.
Proof. by intros []. Qed.

#[export] Instance booking_insert_preserves b : Preserves schema (BookingRepo.insert b).
Proof.
  intros a db Hs. unfold BookingRepo.insert. checks.
  destruct Hs as [? ? ? ? [] ? ?]. constructor; simpl; try done.
  constructor; eauto with svc.
  - apply unique_insert; [done|]. intros j y Hj _ Hc.
    assert (active_booking (bk_SlotID b) y /\ bk_Status b = BookingStatusActive) as [Hy Hb].
    { destruct Hc as [(s & [<- ?] & ?)|(s & ? & [<- ?])]; done. }
    destruct Heqb0 as [H|H]; apply bool_decide_eq_false in H; [done|].
    apply eq_None_not_Some in H. rewrite first_where_None in H. by eapply H.
  - apply references_insert; [done|]. by intros k [= <-].
  - apply references_insert; [done|]. by intros k [= <-].
Qed.

#[export] Instance booking_cancel_preserves id :
  Preserves schema (BookingRepo.update_cancelled id).
Proof.
  intros a db Hs. unfold BookingRepo.update_cancelled.
  destruct (db_bookings db !! id) as [b|] eqn:Hb; [|done]. checks.
  destruct Hs as [? ? ? ? [] ? ?]. constructor; simpl; try done. constructor.
  - apply primary_update; [done|]. exact (bookings_pkey id b Hb).
  - apply unique_insert; [done|]. intros j y Hj _ [(s & [? ?] & ?)|(s & ? & [? ?])]; done.
  - apply references_insert; [done|]. intros k [= <-]. by eapply bookings_user_id_fkey.
  - apply references_insert; [done|]. intros k [= <-]. by eapply bookings_slot_id_fkey.
Qed.

#[export] Instance waitlist_insert_preserves e : Preserves schema (WaitlistRepo.insert e).
Proof.
  intros a db Hs. unfold WaitlistRepo.insert.
  pose proof (set_waitlist_seq_schema db (db_waitlist_seq db + 1) Hs ltac:(lia)) as Hs'.
  checks. clear Hs'.
  destruct Hs as [? ? ? ? ? [] []]. constructor; simpl; try done.
  2: { constructor; eauto with svc. }
  constructor.
  - by apply primary_update.
  - apply unique_insert; [done|]. intros j y Hj _ Hc.
    assert (open_entry (wl_SlotID e) (wl_UserID e) y /\
      (wl_Status e = WaitlistStatusActive \/ wl_Status e = WaitlistStatusNotified)) as [Hy Hb].
    { destruct Hc as [(s & u & (<- & <- & ?) & ?)|(s & u & ? & (<- & <- & ?))]; done. }
    destruct Heqb0 as [H|H].
    + apply orb_false_iff in H as [H1 H2].
      apply bool_decide_eq_false in H1, H2. naive_solver.
    + apply bool_decide_eq_false, eq_None_not_Some in H.
      rewrite first_where_None in H. by eapply H.
  - apply references_insert; [done|]. by intros k [= <-].
  - apply references_insert; [done|]. by intros k [= <-].
  - intros i x H. lookups; [lia|]. etransitivity; [by eapply waitlist_position_seq|lia].
  - apply unique_insert; [done|]. simpl. intros j y Hj _ Hp.
    apply waitlist_position_seq in Hj. lia.
Qed.

(** Replacing an entry by one with the same slot, user and position, and no more open. *)
Lemma waitlist_update_schema db i e e' :
  schema db -> db_waitlist db !! i = Some e ->
  wl_ID e' = wl_ID e -> wl_SlotID e' = wl_SlotID e -> wl_UserID e' = wl_UserID e ->
  wl_Position e' = wl_Position e ->
  (forall slot user, open_entry slot user e' -> open_entry slot user e) ->
  schema (set_waitlist (<[i := e']> (db_waitlist db)) db).
Proof.
  intros [? ? ? ? ? [] []] Hi HID Hslot Huser Hpos Hopen. constructor; simpl; try done.
  2: { constructor; eauto with svc. }
  constructor.
  - apply primary_update; [done|]. rewrite HID. exact (waitlist_pkey i e Hi).
  - apply unique_insert; [done|]. intros j y Hj Hne Hc. apply Hne. symmetry.
    apply (uq_waitlist_slot_user _ _ e y Hi Hj).
    destruct Hc as [(s & u & ? & ?)|(s & u & ? & ?)]; exists s, u; eauto.
  - apply references_insert; [done|]. rewrite Hslot. intros k [= <-]. by eapply waitlist_slot_id_fkey.
  - apply references_insert; [done|]. rewrite Huser. intros k [= <-]. by eapply waitlist_user_id_fkey.
  - intros j x H. lookups; [rewrite Hpos|]; eauto.
  - apply unique_insert; [done|]. rewrite Hpos. intros j y Hj Hne Hp. apply Hne. symmetry.
    apply (waitlist_position_distinct _ _ e y Hi Hj). lia.
Qed.

#[export] Instance waitlist_cancel_preserves id user :
  Preserves schema (WaitlistRepo.update_cancelled id user).
Proof.
  intros a db Hs. unfold WaitlistRepo.update_cancelled.
  destruct (db_waitlist db !! id) as [e|] eqn:He; [|done]. checks.
  eapply waitlist_update_schema; eauto. intros slot u (? & ? & [|]); done.
Qed.

Lemma next_entry_Some locked slot db e :
  primary wl_ID (db_waitlist db) -> WaitlistRepo.next_entry locked slot db = Some e ->
  db_waitlist db !! wl_ID e = Some e /\ wl_SlotID e = slot /\
  wl_Status e = WaitlistStatusActive /\ (wl_ID e ∉ locked) /\
  (forall i e', db_waitlist db !! i = Some e' -> wl_SlotID e' = slot ->
     wl_Status e' = WaitlistStatusActive -> wl_ID e' ∉ locked ->
     (wl_Position e <= wl_Position e')%Z).
Proof.
  intros Hpk He. apply head_order_by in He as [He Hmin].
  apply list_elem_of_filter in He as [(? & ? & ?) He]. apply elem_of_rows in He as [i Hi].
  rewrite (Hpk _ _ Hi) in *. repeat split; try done.
  intros j e' Hj ? ? ?. apply Hmin, list_elem_of_filter.
  split; [done|]. apply elem_of_rows; eauto.
Qed.

Lemma next_entry_None locked slot db :
  WaitlistRepo.next_entry locked slot db = None <->
  forall i (e : WaitlistEntry), db_waitlist db !! i = Some e -> wl_SlotID e = slot ->
    wl_Status e = WaitlistStatusActive -> wl_ID e ∈ locked.
Proof.
  unfold WaitlistRepo.next_entry. rewrite head_order_by_None, <- head_None.
  rewrite head_filter_None. split.
  - intros H i e Hi ? ?. destruct (decide (wl_ID e ∈ locked)); [done|].
    by destruct (H i e Hi).
  - intros H i e Hi (? & ? & Hl). by apply Hl, (H i e).
Qed.

#[export] Instance waitlist_claim_preserves slot :
  Preserves schema (WaitlistRepo.claim_next slot).
Proof.
  intros a db Hs. unfold WaitlistRepo.claim_next.
  destruct (WaitlistRepo.next_entry _ _ _) as [e|] eqn:He; [|done].
  apply next_entry_Some in He as (He & Hslot & Hact & _); [|apply schema_waitlist, Hs]. simpl.
  eapply waitlist_update_schema; eauto. intros s u (? & ? & ?). repeat split; auto.
Qed.

(** Replacing a reservation by one with the same references, and no more active. *)
Lemma reservations_update_ok users slots waitlist t i r r' :
  reservations_ok users slots waitlist t -> t !! i = Some r ->
  rs_ID r' = rs_ID r -> rs_SlotID r' = rs_SlotID r -> rs_UserID r' = rs_UserID r ->
  rs_WaitlistEntryID r' = rs_WaitlistEntryID r ->
  (forall slot, active_reservation slot r' -> active_reservation slot r) ->
  reservations_ok users slots waitlist (<[i := r']> t).
Proof.
  intros [Hpk Huq Hs Hu Hw] Hi HID Hslot Huser Hentry Hact. constructor.
  - apply primary_update; [done|]. rewrite HID. exact (Hpk i r Hi).
  - apply unique_insert; [done|]. intros j y Hj Hne Hc. apply Hne. symmetry.
    apply (Huq _ _ r y Hi Hj). destruct Hc as [(s & ? & ?)|(s & ? & ?)]; exists s; eauto.
  - apply references_insert; [done|]. rewrite Hslot. intros k [= <-]. by eapply Hs.
  - apply references_insert; [done|]. rewrite Huser. intros k [= <-]. by eapply Hu.
  - apply references_insert; [done|]. rewrite Hentry. intros k Hk. by eapply Hw.
Qed.

#[export] Instance reservation_insert_preserves r :
  Preserves schema (ReservationRepo.insert r).
Proof.
  intros a db Hs. unfold ReservationRepo.insert. checks.
  destruct Hs as [? ? ? ? ? ? []]. constructor; simpl; try done. constructor.
  - by apply primary_insert.
  - apply unique_insert; [done|]. intros j y Hj _ Hc.
    assert (active_reservation (rs_SlotID r) y /\ rs_Status r = ReservationStatusActive)
      as [Hy Hr].
    { destruct Hc as [(s & [<- ?] & ?)|(s & ? & [<- ?])]; done. }
    destruct Heqb0 as [H|H]; apply bool_decide_eq_false in H; [done|].
    apply eq_None_not_Some in H. rewrite first_where_None in H. by eapply H.
  - apply references_insert; [done|]. by intros k [= <-].
  - apply references_insert; [done|]. by intros k [= <-].
  - apply references_insert; [done|]. intros k Hk. rewrite Hk in Heqb3. simpl in Heqb3.
    by apply bool_decide_eq_true in Heqb3.
Qed.

(** What the three updates of a reservation have in common. *)
Record deactivates (upd : SlotReservation -> SlotReservation) : Prop := {
  deactivates_ID : forall r, rs_ID (upd r) = rs_ID r;
  deactivates_SlotID : forall r, rs_SlotID (upd r) = rs_SlotID r;
  deactivates_UserID : forall r, rs_UserID (upd r) = rs_UserID r;
  deactivates_entry : forall r, rs_WaitlistEntryID (upd r) = rs_WaitlistEntryID r;
  deactivates_status : forall r, rs_Status (upd r) <> ReservationStatusActive }.

Lemma confirm_deactivates t : deactivates (ReservationRepo.confirm t).
Proof. done. Qed.
Lemma cancel_deactivates : deactivates ReservationRepo.cancel.
Proof. done. Qed.
Lemma expire_deactivates t : deactivates (ReservationRepo.expire t).
Proof. done. Qed.
#[export] Hint Resolve confirm_deactivates cancel_deactivates expire_deactivates : svc.

Lemma deactivates_ok users slots waitlist t i r upd :
  deactivates upd -> reservations_ok users slots waitlist t -> t !! i = Some r ->
  reservations_ok users slots waitlist (<[i := upd r]> t).
Proof.
  intros [] Ht Hi. eapply reservations_update_ok; eauto.
  intros slot [_ H]. by apply deactivates_status0 in H.
Qed.

Lemma reservation_update_preserves id upd :
  deactivates upd -> Preserves schema (ReservationRepo.update_active id upd).
Proof.
  intros Hupd a db Hs. unfold ReservationRepo.update_active.
  destruct (db_reservations db !! id) as [r|] eqn:Hr; [|done]. checks.
  destruct Hs. constructor; simpl; try done. by apply deactivates_ok.
Qed.

#[export] Instance reservation_confirm_preserves id t :
  Preserves schema (ReservationRepo.update_active id (ReservationRepo.confirm t)).
Proof. auto using reservation_update_preserves with svc. Qed.

#[export] Instance reservation_cancel_preserves id :
  Preserves schema (ReservationRepo.update_active id ReservationRepo.cancel).
Proof. auto using reservation_update_preserves with svc. Qed.

Lemma elem_of_picked a now limit db r :
  r ∈ ReservationRepo.picked a now limit db ->
  (exists i, db_reservations db !! i = Some r) /\ rs_Status r = ReservationStatusActive /\
  (rs_ExpiresAt r <= now)%Z /\ rs_ID r ∉ a_locked a.
Proof.
  intros H. apply elem_of_order_by, elem_of_take in H as (k & H & _). apply list_elem_of_lookup_2 in H.
  apply elem_of_order_ties, list_elem_of_filter in H as [(? & ? & ?) Hr].
  by apply elem_of_rows in Hr.
Qed.

Lemma expire_rows_ok now l t0 users slots waitlist :
  reservations_ok users slots waitlist t0 ->
  (forall r, r ∈ l -> exists i, t0 !! i = Some r) ->
  reservations_ok users slots waitlist (ReservationRepo.expire_rows now l t0) /\
  (forall i r, ReservationRepo.expire_rows now l t0 !! i = Some r ->
     exists r0, t0 !! i = Some r0 /\ (r = r0 \/ r = ReservationRepo.expire now r0)).
Proof.
  intros Ht Hl. induction l as [|x l IH]; simpl; [by eauto 6|].
  destruct IH as [Hok Hin]; [by intros r Hr; apply Hl; right|].
  destruct (Hl x) as [i Hi]; [left|].
  assert (rs_ID x = i) as <- by exact (reservations_pkey _ _ _ _ Ht i x Hi).
  split; [|by intros j r H; lookups; eauto].
  destruct (ReservationRepo.expire_rows now l t0 !! rs_ID x) as [y|] eqn:Hy.
  - destruct (Hin _ _ Hy) as (r0 & H0 & Hr). rewrite Hi in H0. injection H0 as <-.
    replace (ReservationRepo.expire now x) with (ReservationRepo.expire now y)
      by by destruct Hr as [->| ->].
    apply deactivates_ok; auto with svc.
  - exfalso. clear Hin Hok. revert Hy. apply not_eq_None_Some.
    clear Hl. induction l as [|z l IH]; simpl; [by eauto|].
    apply lookup_insert_is_Some'. by right.
Qed.

#[export] Instance reservation_expire_preserves now limit :
  Preserves schema (ReservationRepo.expire_batch now limit).
Proof.
  intros a db Hs. unfold ReservationRepo.expire_batch. checks.
  destruct Hs. constructor; simpl; try done.
  apply expire_rows_ok; [done|]. intros r Hr. by apply elem_of_picked in Hr as [? _].
Qed.

Lemma slots_overlap_sym x y : slots_overlap x y -> slots_overlap y x.
Proof. intros (? & ? & ?). by repeat split. Qed.

Lemma slot_insert_row_schema s db db' :
  schema db -> SlotRepo.insert_row s db = Ok db' -> schema db'.
Proof.
  intros Hs. unfold SlotRepo.insert_row. checks; [by intros [= <-]|].
  intros [= <-]. destruct Hs as [? ? ? [] [] [] []]. apply eq_None_not_Some in Heqb0 as Hk.
  constructor; simpl; try done; constructor; eauto with svc.
  - intros i x Hx. lookups; [lia|]. by eapply slots_check.
  - apply unique_insert; [done|]. intros j y Hj _ Hc.
    assert (slots_overlap s y) as Hy by (destruct Hc; auto using slots_overlap_sym).
    rewrite first_where_None in Heqb2. by eapply Heqb2.
  - apply references_insert; [done|]. by intros k [= <-].
Qed.

Lemma slot_insert_rows_schema l db db' :
  schema db -> SlotRepo.insert_rows l db = Ok db' -> schema db'.
Proof.
  revert db. induction l as [|s l IH]; intros db Hs; simpl; [by intros [= <-]|].
  destruct (SlotRepo.insert_row s db) eqn:E; [|done].
  apply IH. by eapply slot_insert_row_schema.
Qed.

#[export] Instance slot_batch_preserves l : Preserves schema (SlotRepo.insert_batch l).
Proof.
  intros a db Hs. unfold SlotRepo.insert_batch.
  destruct (SlotRepo.insert_rows l db) eqn:E; simpl; [|done].
  by eapply slot_insert_rows_schema.
Qed.

#[export] Instance user_insert_preserves u : Preserves schema (UserRepo.insert u).
Proof.
  intros a db Hs. unfold UserRepo.insert. checks.
  destruct Hs as [[] ? ? ? [] [] []]. constructor; simpl; try done; constructor; eauto with svc.
  - apply unique_insert; [done|]. intros j y Hj _ Hc.
    unfold UserRepo.by_email in *. rewrite first_where_None in Heqb1.
    eapply Heqb1; [done|]. by destruct Hc.
  - intros i x Hx. lookups; [|by eapply users_role_check].
    apply orb_true_iff in Heqb as [H|H]; apply bool_decide_eq_true in H; auto.
Qed.

#[export] Instance room_insert_preserves r : Preserves schema (RoomRepo.insert r).
Proof.
  intros a db Hs. unfold RoomRepo.insert. checks.
  destruct Hs as [? ? [] [] ? ? ?]. constructor; simpl; try done.
  - by apply primary_insert.
  - constructor; eauto with svc.
  - constructor; eauto with svc.
Qed.

(** ** From statements to programs *)

(** The sequence behind [position] never goes back. *)
Class Grows {R} (s : sql R) : Prop :=
  grows : forall a db, (db_waitlist_seq db <= db_waitlist_seq (s a db).2)%Z.

Ltac grow := intros ? ?; cbv delta [query]; simpl; repeat case_match; simpl; lia.

#[export] Instance query_grows {R} (f : DB -> R) : Grows (query f).
Proof. intros a db. simpl. lia. Qed.
#[export] Instance select_grows {R} (f : Answer -> DB -> R) : Grows (select f).
Proof. intros a db. simpl. lia. Qed.
#[export] Instance booking_insert_grows b : Grows (BookingRepo.insert b).
Proof. unfold BookingRepo.insert. grow. Qed.
#[export] Instance booking_cancel_grows id : Grows (BookingRepo.update_cancelled id).
Proof. unfold BookingRepo.update_cancelled. grow. Qed.
#[export] Instance booking_page_grows l o : Grows (BookingRepo.page_of l o).
Proof. unfold BookingRepo.page_of. grow. Qed.
#[export] Instance waitlist_insert_grows e : Grows (WaitlistRepo.insert e).
Proof. unfold WaitlistRepo.insert. grow. Qed.
#[export] Instance waitlist_cancel_grows i u : Grows (WaitlistRepo.update_cancelled i u).
Proof. unfold WaitlistRepo.update_cancelled. grow. Qed.
#[export] Instance waitlist_claim_grows s : Grows (WaitlistRepo.claim_next s).
Proof. unfold WaitlistRepo.claim_next. grow. Qed.
#[export] Instance reservation_insert_grows r : Grows (ReservationRepo.insert r).
Proof. unfold ReservationRepo.insert. grow. Qed.
#[export] Instance reservation_update_grows i f : Grows (ReservationRepo.update_active i f).
Proof. unfold ReservationRepo.update_active. grow. Qed.
#[export] Instance reservation_expire_grows t l : Grows (ReservationRepo.expire_batch t l).
Proof. unfold ReservationRepo.expire_batch. grow. Qed.
#[export] Instance user_insert_grows u : Grows (UserRepo.insert u).
Proof. unfold UserRepo.insert. grow. Qed.
#[export] Instance room_insert_grows r : Grows (RoomRepo.insert r).
Proof. unfold RoomRepo.insert. grow. Qed.

Lemma slot_rows_seq l db db' :
  SlotRepo.insert_rows l db = Ok db' -> db_waitlist_seq db' = db_waitlist_seq db.
Proof.
  revert db. induction l as [|s l IH]; intros db; simpl; [by intros [= <-]|].
  unfold SlotRepo.insert_row. intros H.
  repeat case_match; simplify_eq; by rewrite (IH _ H).
Qed.

#[export] Instance slot_batch_grows l : Grows (SlotRepo.insert_batch l).
Proof.
  intros a db. unfold SlotRepo.insert_batch.
  destruct (SlotRepo.insert_rows l db) eqn:E; simpl; [|lia].
  by rewrite (slot_rows_seq _ _ _ E).
Qed.

#[export] Instance booking_page_preserves l o : Preserves schema (BookingRepo.page_of l o).
Proof. intros a db Hs. unfold BookingRepo.page_of. checks. Qed.

(** How the database may change: constraints are kept, the sequence only grows. *)
Definition evolves (db db' : DB) : Prop :=
  (schema db -> schema db') /\ (db_waitlist_seq db <= db_waitlist_seq db')%Z.

#[export] Instance evolves_preorder : PreOrder evolves.
Proof.
  split; [by split|]. intros db1 db2 db3 [H1 H1'] [H2 H2']. split; [by auto|lia].
Qed.

Lemma respond_evolves {R} (s : sql R) `{!Preserves schema s, !Grows s} a db :
  evolves db (respond a s db).2.
Proof.
  split; [by apply respond_preserves|]. unfold respond.
  destruct (a_fault a); [destruct (a_lost a)|]; simpl; try apply grows; lia.
Qed.

Lemma restore_evolves db db' : evolves db db' -> evolves db (restore db db').
Proof. intros [? ?]. split; [|done]. intros. by apply restore_schema. Qed.

(** A program keeps the schema from every database, in every environment. *)
Class Keeps {A} (p : prog A) : Prop :=
  keeps : forall E w, evolves (w_db w) (w_db (run E p w).2).

#[export] Instance ret_keeps {A} (a : A) : Keeps (Ret a).
Proof. by intros E w. Qed.

Lemma bind_keeps {A B} (p : prog A) (k : A -> prog B) :
  Keeps p -> (forall a, Keeps (k a)) -> Keeps (bind p k).
Proof. intros Hp Hk E w. rewrite run_bind. etransitivity; [apply Hp|apply Hk]. Qed.

#[export] Instance sql_keeps {R} locks (s : sql R) `{!Preserves schema s, !Grows s} :
  Keeps (perform (Statement locks s)).
Proof.
  intros E w. simpl. pose proof (respond_evolves s (env_answer E (w_calls w)) (w_db w)) as H.
  by destruct (respond _ _ _).
Qed.

#[export] Instance now_keeps : Keeps (perform Now).
Proof. by intros E w. Qed.
#[export] Instance uuid_keeps : Keeps (perform NewUUID).
Proof. by intros E w. Qed.
#[export] Instance output_keeps o : Keeps (perform (Output_ o)).
Proof. by intros E w. Qed.

Lemma bind_ok_keeps {A B} (p : prog (result A)) (k : A -> prog (result B)) :
  Keeps p -> (forall a, Keeps (k a)) -> Keeps (bind_ok p k).
Proof. intros Hp Hk. apply bind_keeps; [done|]. intros [a|e]; [apply Hk|apply ret_keeps]. Qed.

Lemma on_err_keeps {A} f (p : prog (result A)) : Keeps p -> Keeps (on_err f p).
Proof. intros Hp. apply bind_keeps; [done|]. intros [a|e]; apply ret_keeps. Qed.

Lemma tx_keeps {A} (fn : prog (result A)) : Keeps fn -> Keeps (WithinTransaction fn).
Proof.
  intros Hfn E w. unfold WithinTransaction. rewrite run_bind.
  destruct (run E (perform Begin) w) as [tx w1] eqn:H1. simpl in H1.
  assert (w_db w1 = w_db w /\ forall t, tx = Ok t -> tx_snapshot t = w_db w) as [Hw1 Htx].
  { destruct (a_fault _); injection H1 as <- <-; split; try done. by intros t [= <-]. }
  clear H1. destruct tx as [tx|err]; simpl; [|by rewrite Hw1].
  specialize (Htx tx eq_refl). specialize (Hfn E w1). rewrite run_bind.
  destruct (run E fn w1) as [r w2]; simpl in *. rewrite Hw1 in Hfn.
  destruct r as [a|err]; simpl; destruct (a_fault (env_answer E (w_calls w2))); simpl;
    try rewrite Htx; try destruct (a_lost _); simpl; auto using restore_evolves.
Qed.

#[export] Hint Resolve bind_keeps bind_ok_keeps on_err_keeps tx_keeps : svc.

(** Decompose a handler down to its statements. *)
Ltac keep :=
  repeat first
    [ apply bind_ok_keeps; [|intros ?] | apply on_err_keeps | apply tx_keeps
    | apply bind_keeps; [|intros ?] | apply _ | case_match | progress simpl ].

(** ** The repositories *)

#[export] Instance fail_keeps {A} e : Keeps (@fail A e).
Proof. apply ret_keeps. Qed.
#[export] Instance ok_keeps {A} (a : A) : Keeps (ok a).
Proof. apply ret_keeps. Qed.

#[export] Instance booking_create_keeps b : Keeps (BookingRepo.Create b).
Proof. unfold BookingRepo.Create. keep. Qed.
#[export] Instance booking_get_keeps i : Keeps (BookingRepo.GetByID i).
Proof. apply sql_keeps; apply _. Qed.
#[export] Instance booking_active_keeps i : Keeps (BookingRepo.GetActiveBySlotForUpdate i).
Proof. apply sql_keeps; apply _. Qed.
#[export] Instance booking_cancelled_keeps i : Keeps (BookingRepo.SetCancelled i).
Proof. unfold BookingRepo.SetCancelled. keep. Qed.
#[export] Instance booking_list_keeps p s : Keeps (BookingRepo.List p s).
Proof. unfold BookingRepo.List. keep. Qed.
#[export] Instance booking_future_keeps u t : Keeps (BookingRepo.ListFutureByUser u t).
Proof. apply sql_keeps; apply _. Qed.
#[export] Instance waitlist_join_keeps e : Keeps (WaitlistRepo.Join e).
Proof. unfold WaitlistRepo.Join. keep. Qed.
#[export] Instance waitlist_get_keeps i u : Keeps (WaitlistRepo.getByIDAndUser i u).
Proof. apply sql_keeps; apply _. Qed.
#[export] Instance waitlist_leave_keeps i u : Keeps (WaitlistRepo.Leave i u).
Proof. unfold WaitlistRepo.Leave. keep. Qed.
#[export] Instance waitlist_claim_keeps s : Keeps (WaitlistRepo.ClaimNextForNotify s).
Proof. apply sql_keeps; apply _. Qed.
#[export] Instance reservation_create_keeps r : Keeps (ReservationRepo.Create r).
Proof. unfold ReservationRepo.Create. keep. Qed.
#[export] Instance reservation_get_keeps i : Keeps (ReservationRepo.GetByID i).
Proof. apply sql_keeps; apply _. Qed.
#[export] Instance reservation_get_update_keeps i : Keeps (ReservationRepo.GetByIDForUpdate i).
Proof. apply sql_keeps; apply _. Qed.
#[export] Instance reservation_active_keeps i :
  Keeps (ReservationRepo.GetActiveBySlotForUpdate i).
Proof. apply sql_keeps; apply _. Qed.
#[export] Instance reservation_list_keeps u t : Keeps (ReservationRepo.ListActiveByUser u t).
Proof. apply sql_keeps; apply _. Qed.
#[export] Instance reservation_confirmed_keeps i t : Keeps (ReservationRepo.SetConfirmed i t).
Proof. unfold ReservationRepo.SetConfirmed. keep. Qed.
#[export] Instance reservation_cancelled_keeps i : Keeps (ReservationRepo.SetCancelled i).
Proof. unfold ReservationRepo.SetCancelled. keep. Qed.
#[export] Instance reservation_batch_keeps t l : Keeps (ReservationRepo.ExpireBatch t l).
Proof. apply sql_keeps; apply _. Qed.
#[export] Instance slot_get_keeps i : Keeps (SlotRepo.GetByID i).
Proof. apply sql_keeps; apply _. Qed.
#[export] Instance slot_available_keeps r d : Keeps (SlotRepo.ListAvailableByRoomAndDate r d).
Proof. apply sql_keeps; apply _. Qed.
#[export] Instance slot_all_keeps r d t : Keeps (SlotRepo.ListAllByRoomAndDate r d t).
Proof. apply sql_keeps; apply _. Qed.
#[export] Instance slot_last_keeps r : Keeps (SlotRepo.GetLastSlotStartByRoomID r).
Proof. apply sql_keeps; apply _. Qed.
#[export] Instance slot_insert_keeps l : Keeps (SlotRepo.InsertBatchIgnoreConflicts l).
Proof. unfold SlotRepo.InsertBatchIgnoreConflicts. keep. Qed.
#[export] Instance user_get_keeps e : Keeps (UserRepo.GetByEmail e).
Proof. apply sql_keeps; apply _. Qed.
#[export] Instance user_create_keeps u : Keeps (UserRepo.Create u).
Proof. unfold UserRepo.Create. keep. Qed.
#[export] Instance room_get_keeps i : Keeps (RoomRepo.GetByID i).
Proof. apply sql_keeps; apply _. Qed.
#[export] Instance room_create_keeps r : Keeps (RoomRepo.Create r).
Proof. apply sql_keeps; apply _. Qed.
#[export] Instance room_list_keeps : Keeps RoomRepo.List.
Proof. apply sql_keeps; apply _. Qed.
#[export] Instance room_scheduled_keeps : Keeps RoomRepo.ListWithSchedule.
Proof. apply sql_keeps; apply _. Qed.
