(* ===== verification/Usecase.v ===== *)
(** * Usecase: what the use cases share

    The event publisher and metrics interfaces the services are constructed with, and the
    program-logic rules for statements and transactions. *)

From S2P Require Import Prelude Domain Database Program Postgres.

(** ** Publishers and metrics

    The two implementations of the [EventPublisher] interfaces: the no-op publisher, and
    the Redis publisher that main installs, whose calls leave the process. *)
Inductive EventPublisher :=
| noopEventPublisher
| redisPublisher.

Definition publish (p : EventPublisher) (ev : Event) : prog unit :=
  match p with
  | noopEventPublisher => Ret tt
  | redisPublisher => perform (Output_ (Published ev))
  end.

(** The two implementations of the metrics interfaces. *)
Inductive Metrics :=
| noopMetrics
| prometheusMetrics.

Definition inc (m : Metrics) (c : Counter) : prog unit :=
  match m with
  | noopMetrics => Ret tt
  | prometheusMetrics => perform (Output_ (Counted c))
  end.

(** The package-level counters of internal/observability/metrics. *)
Definition observe (c : Counter) : prog unit := perform (Output_ (Counted c)).

Definition defaultReservationTTL : Duration := (5 * Minute)%Z.

Definition published (p : EventPublisher) (ev : Event) : list Output :=
  match p with
  | noopEventPublisher => []
  | redisPublisher => [Published ev]
  end.

Definition counted (m : Metrics) (c : Counter) : list Output :=
  match m with
  | noopMetrics => []
  | prometheusMetrics => [Counted c]
  end.

(** ** Rules *)

(** Some answer the environment may give is a failure. *)
Definition may_fail (H : Assm) : Prop := exists a m, ok_answer H a /\ a_fault a = Some m.

(** No failures, no rows locked by others, a frozen clock, identifiers in [fresh]. *)
Definition calm (t : time) (fresh : uuid -> Prop) : Assm := {|
  ok_answer a := a_fault a = None /\ a_locked a = ∅;
  ok_now := eq t;
  ok_uuid := fresh |}.

Lemma calm_never_fails t fresh : ~ may_fail (calm t fresh).
Proof. intros (a & m & [Ha _] & Hm). simpl in *. congruence. Qed.

(** The tables are those of [db]. *)
Definition unchanged (db db' : DB) : Prop := db' = restore db db'.

Lemma unchanged_refl db : unchanged db db.
Proof. by destruct db. Qed.
Lemma unchanged_restore db db' : unchanged db (restore db db').
Proof. done. Qed.
#[export] Hint Resolve unchanged_refl unchanged_restore : svc.

(** A transaction either ran to its end with [Post], or changed nothing; after a failed
    COMMIT the caller cannot know which. *)
Definition tx_outcome {A} (Post : A -> DB -> Prop) (db : DB) (r : result A) (db' : DB) : Prop :=
  match r with
  | Ok a => Post a db'
  | Err e => unchanged db db' \/
             exists m a, e = Wrapped "commit tx" (PlainError m) /\ Post a db'
  end.

Section rules.
Context (H : Assm).

Lemma wp_publish p ev Q db out :
  Q tt db (out ++ published p ev) -> wp H (publish p ev) Q db out.
Proof. destruct p; simpl; [by rewrite app_nil_r|done]. Qed.

Lemma wp_inc m c Q db out : Q tt db (out ++ counted m c) -> wp H (inc m c) Q db out.
Proof. destruct m; simpl; [by rewrite app_nil_r|done]. Qed.

Lemma wp_query {R A} locks (f : DB -> R) (k : result R -> prog A) Q db out :
  (may_fail H -> forall m, wp H (k (Err (PlainError m))) Q db out) ->
  wp H (k (Ok (f db))) Q db out ->
  wp H (Do (Statement locks (query f)) k) Q db out.
Proof.
  intros Hf Hk a Ha. unfold respond. destruct (a_fault a) as [m|] eqn:E; [|done].
  simpl. replace (if a_lost a then db else db) with db by by destruct (a_lost a).
  apply Hf. by exists a, m.
Qed.

Lemma wp_sql {R A} locks (s : sql R) (k : result R -> prog A) Q db out :
  (may_fail H -> forall a m, wp H (k (Err (PlainError m))) Q db out /\
     wp H (k (Err (PlainError m))) Q (s a db).2 out) ->
  (forall a, ok_answer H a -> wp H (k (s a db).1) Q (s a db).2 out) ->
  wp H (Do (Statement locks s) k) Q db out.
Proof.
  intros Hf Hk a Ha. unfold respond. destruct (a_fault a) as [m|] eqn:E; [|by apply Hk].
  simpl. destruct (Hf (ex_intro _ a (ex_intro _ m (conj Ha E))) a m).
  by destruct (a_lost a).
Qed.

Lemma wp_select {R A} locks (f : Answer -> DB -> R) (k : result R -> prog A) Q db out :
  (may_fail H -> forall m, wp H (k (Err (PlainError m))) Q db out) ->
  (forall a, ok_answer H a -> wp H (k (Ok (f a db))) Q db out) ->
  wp H (Do (Statement locks (select f)) k) Q db out.
Proof. intros Hf Hk. apply wp_sql; [intros Hm a m; split; by apply Hf|exact Hk]. Qed.

Lemma wp_tx {A} (fn : prog (result A)) (Q : result A -> DB -> list Output -> Prop) db out :
  (may_fail H -> forall m, Q (Err (Wrapped "begin tx" (PlainError m))) db out) ->
  wp H fn (fun r db' out' =>
    match r with
    | Ok a => Q (Ok a) db' out' /\
        (may_fail H -> forall m db'', db'' = db' \/ db'' = restore db db' ->
          Q (Err (Wrapped "commit tx" (PlainError m))) db'' out')
    | Err e => Q (Err e) (restore db db') out' /\
        (may_fail H -> Q (Err (Wrapped "tx rollback failed" e)) (restore db db') out')
    end) db out ->
  wp H (WithinTransaction fn) Q db out.
Proof.
  intros Hb Hfn. unfold WithinTransaction. apply wp_bind. simpl. split.
  - apply wp_bind. eapply wp_mono; [|exact Hfn].
    intros [a|e] db' out' [HQ Hf]; simpl; (split; [done|]); intros a' m Ha Hm.
    + apply Hf; [by exists a', m|]. destruct (a_lost a'); auto.
    + apply Hf. by exists a', m.
  - intros a m Ha Hm. apply Hb. by exists a, m.
Qed.

Lemma wp_tx_outcome {A} (fn : prog (result A)) (Post : A -> DB -> Prop) db out :
  wp H fn (fun r db' out' => out' = out /\
    match r with Ok a => Post a db' | Err _ => True end) db out ->
  wp H (WithinTransaction fn) (fun r db' out' => out' = out /\ tx_outcome Post db r db') db out.
Proof.
  intros Hfn. apply wp_tx; [simpl; auto with svc|].
  eapply wp_mono; [|exact Hfn]. intros [a|e] db' out' [-> HP]; simpl.
  - split; [done|]. intros _ m db'' Hdb''. split; [done|].
    destruct Hdb'' as [->| ->]; [|by auto with svc]. right. eauto.
  - split; [by auto with svc|]. intros _. split; [done|]. auto with svc.
Qed.
End rules.

Lemma wp_ret H {A} (a : A) Q db out : Q a db out -> wp H (Ret a) Q db out.
Proof. done. Qed.

Lemma wp_now H {A} (k : time -> prog A) Q db out :
  (forall t, ok_now H t -> wp H (k t) Q db out) -> wp H (Do Now k) Q db out.
Proof. done. Qed.

Lemma wp_uuid H {A} (k : uuid -> prog A) Q db out :
  (forall i, ok_uuid H i -> wp H (k i) Q db out) -> wp H (Do NewUUID k) Q db out.
Proof. done. Qed.

Lemma wp_output H {A} o (k : unit -> prog A) Q db out :
  wp H (k tt) Q db (out ++ [o]) -> wp H (Do (Output_ o) k) Q db out.
Proof. done. Qed.

#[global] Arguments first_where : simpl never.
#[global] Arguments query : simpl never.
#[global] Arguments select : simpl never.
#[global] Arguments int64 : simpl never.
#[global] Arguments restore : simpl never.
#[global] Arguments wp : simpl never.

(** Symbolic execution: [norm] exposes the next effect of a program, [step] executes it;
    the branches in which the statement fails are closed with [auto]. *)
Ltac norm := repeat (progress (
  cbv beta iota zeta delta [bind_ok on_err perform for_update fail ok
    BookingRepo.Create BookingRepo.GetByID BookingRepo.GetActiveBySlotForUpdate
    BookingRepo.SetCancelled BookingRepo.ListFutureByUser BookingRepo.List
    WaitlistRepo.Join WaitlistRepo.Leave WaitlistRepo.getByIDAndUser
    WaitlistRepo.ClaimNextForNotify
    ReservationRepo.Create ReservationRepo.GetByID ReservationRepo.GetByIDForUpdate
    ReservationRepo.GetActiveBySlotForUpdate ReservationRepo.SetConfirmed
    ReservationRepo.SetCancelled ReservationRepo.ListActiveByUser ReservationRepo.ExpireBatch
    SlotRepo.GetByID fst snd andb negb]; cbn [bind])).

Ltac step :=
  norm;
  lazymatch goal with
  | |- wp _ (Ret _) _ _ _ => apply wp_ret
  | |- wp _ (Do Now _) _ _ _ => apply wp_now; intros ?now ?Hnow
  | |- wp _ (Do NewUUID _) _ _ _ => apply wp_uuid; intros ?id ?Hid
  | |- wp _ (Do (Output_ _) _) _ _ _ => apply wp_output
  | |- wp _ (Do (Statement _ (query _)) _) _ _ _ =>
      apply wp_query; [intros ?Hf ?m; norm; apply wp_ret; by auto with svc|]
  | |- wp _ (Do (Statement _ _) _) _ _ _ =>
      apply wp_sql;
      [intros ?Hf ?a ?m; split; norm; apply wp_ret; by auto with svc|intros ?a ?Ha]
  | |- wp _ (bind (publish _ _) _) _ _ _ => apply wp_bind, wp_publish
  | |- wp _ (bind (inc _ _) _) _ _ _ => apply wp_bind, wp_inc
  end; norm.

(** ** Programs that touch neither the database nor the outside *)

Class Inert {A} (p : prog A) : Prop :=
  inert : forall H (Q : A -> DB -> list Output -> Prop) db out,
    (forall a, Q a db out) -> wp H p Q db out.

#[export] Instance ret_inert {A} (a : A) : Inert (Ret a).
Proof. intros H Q db out HQ. apply HQ. Qed.
#[export] Instance ok_inert {A} (a : A) : Inert (ok a).
Proof. apply ret_inert. Qed.
#[export] Instance fail_inert {A} e : Inert (@fail A e).
Proof. apply ret_inert. Qed.
#[export] Instance now_inert : Inert (perform Now).
Proof. intros H Q db out HQ t _. apply HQ. Qed.
#[export] Instance uuid_inert : Inert (perform NewUUID).
Proof. intros H Q db out HQ i _. apply HQ. Qed.
Lemma bind_inert {A B} (p : prog A) (k : A -> prog B) :
  Inert p -> (forall a, Inert (k a)) -> Inert (bind p k).
Proof. intros Hp Hk H Q db out HQ. apply wp_bind, Hp. intros a. by apply Hk. Qed.

Ltac inertly :=
  repeat first [ apply bind_inert; [|intros ?] | apply _ | case_match | progress cbn beta iota ].

(** What an inert program leaves behind. *)
Lemma run_inert {A} (p : prog A) E w : Inert p ->
  w_db (run E p w).2 = w_db w /\ w_out (run E p w).2 = w_out w.
Proof.
  intros Hp. apply (wp_run anything E p (fun _ db out => db = w_db w /\ out = w_out w));
    [apply respects_anything|]. by apply Hp.
Qed.

(** ** Execution with a server that answers every call *)

Definition steady (E : Env) : Prop := forall n, a_fault (env_answer E n) = None.

Section steady.
Context (E : Env) (HE : steady E).

Lemma run_sql {R A} locks (s : sql R) (k : result R -> prog A) w :
  run E (Do (Statement locks s) k) w =
    let x := s (env_answer E (w_calls w)) (w_db w) in run E (k x.1) (after_call x.2 w).
Proof. simpl. unfold respond. rewrite HE. by destruct (s _ _). Qed.

Lemma run_query {R A} locks (f : DB -> R) (k : result R -> prog A) w :
  run E (Do (Statement locks (query f)) k) w = run E (k (Ok (f (w_db w)))) (after_call (w_db w) w).
Proof. by rewrite run_sql. Qed.

Lemma run_select {R A} locks (f : Answer -> DB -> R) (k : result R -> prog A) w :
  run E (Do (Statement locks (select f)) k) w =
    run E (k (Ok (f (env_answer E (w_calls w)) (w_db w)))) (after_call (w_db w) w).
Proof. by rewrite run_sql. Qed.

Lemma run_now {A} (k : time -> prog A) w :
  run E (Do Now k) w = run E (k (env_now E (w_clock w)))
    (Build_World (w_db w) (w_calls w) (S (w_clock w)) (w_ids w) (w_out w)).
Proof. done. Qed.

Lemma run_uuid {A} (k : uuid -> prog A) w :
  run E (Do NewUUID k) w = run E (k (env_uuid E (w_ids w)))
    (Build_World (w_db w) (w_calls w) (w_clock w) (S (w_ids w)) (w_out w)).
Proof. done. Qed.

(** A transaction whose body succeeds is committed. *)
Lemma run_tx {A} (fn : prog (result A)) a w w' :
  run E fn (after_call (w_db w) w) = (Ok a, w') ->
  run E (WithinTransaction fn) w = (Ok a, after_call (w_db w') w').
Proof.
  intros Hfn. unfold WithinTransaction. rewrite run_bind. simpl. rewrite HE. simpl.
  rewrite run_bind, Hfn. simpl. by rewrite HE.
Qed.
End steady.

(** Identifiers are drawn from an ever later position. *)
Lemma run_ids_mono E {A} (p : prog A) w : (w_ids w <= w_ids (run E p w).2)%nat.
Proof.
  revert w. induction p as [a|R e k IH]; intros w; simpl; [done|].
  assert (w_ids w <= w_ids (sem E e w).2)%nat as He
    by (destruct e; simpl; repeat case_match; simpl; lia).
  destruct (sem E e w) as [r w'] eqn:Hsem. simpl in He. specialize (IH r w'). lia.
Qed.
