(* ===== verification/Handover.v ===== *)
(** * Handover: passing a freed slot to the head of its waitlist

    CancelBooking, CancelReservation and ExpireDue all end by claiming the next waitlist
    entry of the freed slot and creating a reservation for its user.  [handover] is what
    those two statements do to the database. *)

From S2P Require Import Prelude Domain Database Program Postgres Schema Usecase.

Definition notified (t : time) (e : WaitlistEntry) : WaitlistEntry :=
  WaitlistRepo.with_Status WaitlistStatusNotified (Some t) e.

Definition reserve (id slotID : uuid) (e : WaitlistEntry) (now : time) (ttl : Duration)
    : SlotReservation :=
  {| rs_ID := id; rs_SlotID := slotID; rs_UserID := wl_UserID e;
     rs_WaitlistEntryID := Some (wl_ID e); rs_Status := ReservationStatusActive;
     rs_ExpiresAt := now + ttl; rs_CreatedAt := now;
     rs_ConfirmedAt := None; rs_ExpiredAt := None |}%Z.

Definition handed_over (t : time) (e : WaitlistEntry) (r : SlotReservation) (db : DB) : DB :=
  set_reservations (<[rs_ID r := r]> (db_reservations db))
    (set_waitlist (<[wl_ID e := notified t e]> (db_waitlist db)) db).

Inductive handover (H : Assm) (ttl : Duration) (slotID : uuid) (db : DB)
  : option (WaitlistEntry * SlotReservation) -> DB -> Prop :=
| handover_nobody a :
    ok_answer H a ->
    WaitlistRepo.next_entry (a_locked a) slotID db = None ->
    handover H ttl slotID db None db
| handover_to a e id now :
    ok_answer H a ->
    WaitlistRepo.next_entry (a_locked a) slotID db = Some e ->
    db_reservations db !! id = None ->
    first_where (active_reservation slotID) (db_reservations db) = None ->
    let e' := notified (a_now a) e in
    let r := reserve id slotID e' now ttl in
    handover H ttl slotID db (Some (e', r)) (handed_over (a_now a) e r db).

(** The insert of a reservation succeeds exactly by adding the row. *)
Lemma reservation_insert_inv r a db :
  (exists e, ReservationRepo.insert r a db = (Err e, db)) \/
  (ReservationRepo.insert r a db =
     (Ok r, set_reservations (<[rs_ID r := r]> (db_reservations db)) db) /\
   db_reservations db !! rs_ID r = None /\
   (rs_Status r = ReservationStatusActive ->
    first_where (active_reservation (rs_SlotID r)) (db_reservations db) = None)).
Proof.
  unfold ReservationRepo.insert. repeat case_match; try (left; by eauto).
  right. split; [done|]. unfold has in *. split.
  - apply eq_None_not_Some. by apply bool_decide_eq_false in H.
  - intros Hact. apply andb_false_iff in H0 as [H0|H0]; apply bool_decide_eq_false in H0;
      [done|]. by apply eq_None_not_Some.
Qed.

(** The insert of a booking: no row for a taken slot, an error, or the new row. *)
Lemma booking_insert_inv b a db :
  bk_Status b = BookingStatusActive ->
  (is_Some (first_where (active_booking (bk_SlotID b)) (db_bookings db)) /\
   BookingRepo.insert b a db = (Ok 0%N, db)) \/
  (exists e, BookingRepo.insert b a db = (Err e, db) /\ AsDomainError e = None) \/
  (BookingRepo.insert b a db = (Ok 1%N, set_bookings (<[bk_ID b := b]> (db_bookings db)) db) /\
   db_bookings db !! bk_ID b = None /\
   first_where (active_booking (bk_SlotID b)) (db_bookings db) = None).
Proof.
  intros Hact. unfold BookingRepo.insert. rewrite bool_decide_true by done. simpl.
  case_bool_decide as Hs; [by left|]. right. apply eq_None_not_Some in Hs.
  repeat case_match; try (left; by eauto). right. split_and!; try done.
  unfold has in *. apply eq_None_not_Some. by apply bool_decide_eq_false in H.
Qed.

Section rules.
Context (H : Assm).

Lemma wp_claim {A} slotID (k : result (option WaitlistEntry) -> prog A) Q db out :
  (forall m db', wp H (k (Err (PlainError m))) Q db' out) ->
  (forall a, ok_answer H a -> WaitlistRepo.next_entry (a_locked a) slotID db = None ->
     wp H (k (Ok None)) Q db out) ->
  (forall a e, ok_answer H a -> WaitlistRepo.next_entry (a_locked a) slotID db = Some e ->
     wp H (k (Ok (Some (notified (a_now a) e)))) Q
       (set_waitlist (<[wl_ID e := notified (a_now a) e]> (db_waitlist db)) db) out) ->
  wp H (Do (Sql (WaitlistRepo.claim_next slotID)) k) Q db out.
Proof.
  intros Hf Hn Hs. apply wp_sql; [by auto|]. intros a Ha. unfold WaitlistRepo.claim_next.
  destruct (WaitlistRepo.next_entry _ _ _) as [e|] eqn:E; simpl; eauto.
Qed.

Lemma wp_reserve {A} r (k : result SlotReservation -> prog A) Q db out :
  (forall e db', wp H (k (Err e)) Q db' out) ->
  (db_reservations db !! rs_ID r = None ->
   (rs_Status r = ReservationStatusActive ->
    first_where (active_reservation (rs_SlotID r)) (db_reservations db) = None) ->
   wp H (k (Ok r)) Q (set_reservations (<[rs_ID r := r]> (db_reservations db)) db) out) ->
  wp H (Do (Sql (ReservationRepo.insert r)) k) Q db out.
Proof.
  intros Hf Hs. apply wp_sql; [by auto|]. intros a _.
  destruct (reservation_insert_inv r a db) as [[e ->]|(-> & ? & ?)]; simpl; auto.
Qed.

Lemma wp_book {A} b (k : result N -> prog A) Q db out :
  bk_Status b = BookingStatusActive ->
  (forall e db', wp H (k (Err e)) Q db' out) ->
  wp H (k (Ok 0%N)) Q db out ->
  (db_bookings db !! bk_ID b = None ->
   first_where (active_booking (bk_SlotID b)) (db_bookings db) = None ->
   wp H (k (Ok 1%N)) Q (set_bookings (<[bk_ID b := b]> (db_bookings db)) db) out) ->
  wp H (Do (Sql (BookingRepo.insert b)) k) Q db out.
Proof.
  intros Hact Hf H0 Hs. apply wp_sql; [by auto|]. intros a _.
  destruct (booking_insert_inv b a db Hact) as [[? ->]|[(e & -> & ?)|(-> & ? & ?)]];
    simpl; auto.
Qed.
End rules.

(** One handover per freed reservation, in order. *)
Inductive handovers (H : Assm) (ttl : Duration)
  : list SlotReservation -> DB -> list (option (WaitlistEntry * SlotReservation)) -> DB -> Prop :=
| handovers_nil db : handovers H ttl [] db [] db
| handovers_cons r l db o db1 os db2 :
    handover H ttl (rs_SlotID r) db o db1 ->
    handovers H ttl l db1 os db2 ->
    handovers H ttl (r :: l) db (o :: os) db2.

(** A handover touches neither the slots nor the bookings, users and rooms. *)
Lemma handover_frame H ttl slotID db o db' :
  handover H ttl slotID db o db' ->
  db_slots db' = db_slots db /\ db_bookings db' = db_bookings db /\
  db_users db' = db_users db /\ db_rooms db' = db_rooms db /\
  db_schedules db' = db_schedules db /\ db_waitlist_seq db' = db_waitlist_seq db.
Proof. by destruct 1. Qed.

(** It keeps the reservations there are. *)
Lemma handover_keeps H ttl slot db o db' :
  handover H ttl slot db o db' -> db_reservations db ⊆ db_reservations db'.
Proof. destruct 1; [done|]. by apply insert_subseteq. Qed.

Lemma handovers_keep H ttl l db os db' :
  handovers H ttl l db os db' -> db_reservations db ⊆ db_reservations db'.
Proof. induction 1; [done|]. etrans; [by eapply handover_keeps|done]. Qed.
