(* ===== verification/Booking.v ===== *)
(** * Booking: internal/usecase/booking/service.go

    The booking use case.  [Service] keeps which repositories are configured (their
    pointers are nil or not), the publisher, the metrics and the reservation TTL. *)

From S2P Require Import Prelude Domain Database Program Postgres Schema Usecase Handover.

Record Service := {
  waitlists : bool;
  reservations : bool;
  events : option EventPublisher;
  metrics : option Metrics;
  reservationTTL : Duration }.

Definition eventPublisher (s : Service) : EventPublisher :=
  match events s with
  | None => noopEventPublisher
  | Some p => p
  end.

Definition bookingMetrics (s : Service) : Metrics :=
  match metrics s with
  | None => noopMetrics
  | Some m => m
  end.

(** [events ...EventPublisher]: the first one given, unless it is nil. *)
Definition NewService (evs : list (option EventPublisher)) : Service :=
  let publisher :=
    match evs with
    | Some p :: _ => p
    | _ => noopEventPublisher
    end in
  {| waitlists := false; reservations := false; events := Some publisher;
     metrics := Some noopMetrics; reservationTTL := defaultReservationTTL |}.

Definition WithWaitlistRepository (s : Service) : Service :=
  {| waitlists := true; reservations := reservations s; events := events s;
     metrics := metrics s; reservationTTL := reservationTTL s |}.

Definition WithReservationRepository (ttl : Duration) (s : Service) : Service :=
  {| waitlists := waitlists s; reservations := true; events := events s;
     metrics := metrics s;
     reservationTTL := if (0 <? ttl)%Z then ttl else reservationTTL s |}.

Definition WithMetrics (m : option Metrics) (s : Service) : Service :=
  {| waitlists := waitlists s; reservations := reservations s; events := events s;
     metrics := match m with Some _ => m | None => metrics s end;
     reservationTTL := reservationTTL s |}.

Definition reservationTTLValue (s : Service) : Duration :=
  if (0 <? reservationTTL s)%Z then reservationTTL s else defaultReservationTTL.

(** ** CreateBooking *)

Definition create_booking_tx (s : Service) (user : User) (slotID : uuid) (now : time)
    : prog (result (Booking * uuid)) :=
  let? slot := on_err (wrap ErrorInternalError "get slot") (SlotRepo.GetByID slotID) in
  match slot with
  | None => fail (NewDomainError ErrorSlotNotFound "slot not found")
  | Some slot =>
      if (sl_StartTime slot <? now)%Z
      then fail (NewDomainError ErrorInvalidRequest "cannot create booking for past slot")
      else
        let? _ :=
          if reservations s then
            let? activeReservation :=
              on_err (wrap ErrorInternalError "check slot reservation")
                (ReservationRepo.GetActiveBySlotForUpdate slotID) in
            match activeReservation with
            | Some _ => fail (NewDomainError ErrorSlotReserved "slot is reserved")
            | None => ok tt
            end
          else ok tt in
        let! id := perform NewUUID in
        let created :=
          {| bk_ID := id; bk_UserID := us_ID user; bk_SlotID := slotID;
             bk_Status := BookingStatusActive; bk_ConferenceLink := None;
             bk_CreatedAt := now |} in
        let? _ :=
          on_err (fun err =>
              if has_code ErrorSlotAlreadyBooked err then err
              else wrap ErrorInternalError "create booking" err)
            (BookingRepo.Create created) in
        ok (created, sl_RoomID slot)
  end.

Definition CreateBooking (s : Service) (user : User) (slotID : uuid)
    (createConferenceLink : bool) : prog (result Booking) :=
  if bool_decide (us_Role user <> RoleUser) then
    inc (bookingMetrics s) BookingCreateError ;;;
    fail (NewDomainError ErrorForbidden "booking is allowed only for user role")
  else
    let! now := perform Now in
    let! r := WithinTransaction (create_booking_tx s user slotID now) in
    match r with
    | Err err =>
        (if has_code ErrorSlotAlreadyBooked err || has_code ErrorSlotReserved err
         then inc (bookingMetrics s) BookingConflict
         else inc (bookingMetrics s) BookingCreateError) ;;;
        fail err
    | Ok (created, roomID) =>
        inc (bookingMetrics s) BookingCreated ;;;
        publish (eventPublisher s) (EvSlotBooked roomID (bk_SlotID created) (bk_ID created)) ;;;
        ok created
    end.

(** ** CancelBooking *)

(** What the transaction of CancelBooking leaves in the variables it captures. *)
Record CancelVars := {
  cv_result : Booking;
  cv_roomID : uuid;
  cv_slotReleased : bool;
  cv_notifiedEntry : option WaitlistEntry;
  cv_createdReservation : option SlotReservation }.

(** The reservation created for the first user of the waitlist. *)
Definition reservation_for (s : Service) (id slotID : uuid) (entry : WaitlistEntry)
    (now : time) : SlotReservation :=
  {| rs_ID := id; rs_SlotID := slotID; rs_UserID := wl_UserID entry;
     rs_WaitlistEntryID := Some (wl_ID entry); rs_Status := ReservationStatusActive;
     rs_ExpiresAt := now + reservationTTLValue s; rs_CreatedAt := now;
     rs_ConfirmedAt := None; rs_ExpiredAt := None |}%Z.

Definition cancel_booking_tx (s : Service) (user : User) (bookingID : uuid)
    : prog (result CancelVars) :=
  let? existing := on_err (wrap ErrorInternalError "get booking")
    (BookingRepo.GetByID bookingID) in
  match existing with
  | None => fail (NewDomainError ErrorBookingNotFound "booking not found")
  | Some existing =>
      if bool_decide (bk_UserID existing <> us_ID user)
      then fail (NewDomainError ErrorForbidden "cannot cancel another user's booking")
      else
        let wasActive := bool_decide (bk_Status existing = BookingStatusActive) in
        let? updated := on_err (wrap ErrorInternalError "cancel booking")
          (BookingRepo.SetCancelled bookingID) in
        match updated with
        | None => fail (NewDomainError ErrorBookingNotFound "booking not found")
        | Some updated =>
            let? slot := on_err (wrap ErrorInternalError "get slot")
              (SlotRepo.GetByID (bk_SlotID updated)) in
            let roomID := match slot with Some slot => sl_RoomID slot | None => uuid_Nil end in
            if wasActive then
              if waitlists s then
                let? entry := on_err (wrap ErrorInternalError "claim waitlist entry")
                  (WaitlistRepo.ClaimNextForNotify (bk_SlotID updated)) in
                match entry with
                | Some e =>
                    if reservations s then
                      let! reservationNow := perform Now in
                      let! id := perform NewUUID in
                      let? created :=
                        on_err (wrap ErrorInternalError "create slot reservation")
                          (ReservationRepo.Create
                             (reservation_for s id (bk_SlotID updated) e reservationNow)) in
                      ok (Build_CancelVars updated roomID true (Some e) (Some created))
                    else fail (NewDomainError ErrorInternalError
                                 "reservation repository is not configured")
                | None => ok (Build_CancelVars updated roomID true None None)
                end
              else ok (Build_CancelVars updated roomID true None None)
            else ok (Build_CancelVars updated roomID false None None)
        end
  end.

Definition CancelBooking (s : Service) (user : User) (bookingID : uuid)
    : prog (result Booking) :=
  if bool_decide (us_Role user <> RoleUser) then
    inc (bookingMetrics s) BookingCancelError ;;;
    fail (NewDomainError ErrorForbidden "cancel is allowed only for user role")
  else
    let! r := WithinTransaction (cancel_booking_tx s user bookingID) in
    match r with
    | Err err => inc (bookingMetrics s) BookingCancelError ;;; fail err
    | Ok v =>
        let result := cv_result v in
        inc (bookingMetrics s) BookingCancelled ;;;
        (if cv_slotReleased v && negb (cv_roomID v =? uuid_Nil)%N then
           match cv_createdReservation v, cv_notifiedEntry v with
           | Some createdReservation, Some notifiedEntry =>
               observe WaitlistNotification ;;;
               observe ReservationCreated ;;;
               publish (eventPublisher s) (EvSlotReserved (cv_roomID v) (bk_SlotID result)
                 (rs_ID createdReservation)) ;;;
               publish (eventPublisher s) (EvWaitlistSlotReserved (cv_roomID v)
                 (bk_SlotID result) (wl_UserID notifiedEntry) (rs_ID createdReservation)
                 (wl_ID notifiedEntry) (rs_ExpiresAt createdReservation))
           | _, _ =>
               publish (eventPublisher s)
                 (EvSlotReleased (cv_roomID v) (bk_SlotID result) (bk_ID result))
           end
         else Ret tt) ;;;
        ok result
    end.

(** ** ListBookings, ListMyBookings *)

Definition ListBookings (user : User) (page pageSize : Z)
    : prog (result (list Booking * Pagination)) :=
  if bool_decide (us_Role user <> RoleAdmin)
  then fail (NewDomainError ErrorForbidden "admin only")
  else if (page <=? 0)%Z || (pageSize <=? 0)%Z
  then fail (NewDomainError ErrorInvalidRequest "page and pageSize must be > 0")
  else if (100 <? pageSize)%Z
  then fail (NewDomainError ErrorInvalidRequest "pageSize must be <= 100")
  else
    let? x := on_err (wrap ErrorInternalError "list bookings")
      (BookingRepo.List page pageSize) in
    ok (x.1, {| pg_Page := page; pg_PageSize := pageSize; pg_Total := x.2 |}).

Definition ListMyBookings (user : User) : prog (result (list Booking)) :=
  if bool_decide (us_Role user <> RoleUser)
  then fail (NewDomainError ErrorForbidden "only user role can access own bookings")
  else
    let! now := perform Now in
    on_err (wrap ErrorInternalError "list my bookings")
      (BookingRepo.ListFutureByUser (us_ID user) now).

(** ** What the transactions do *)

(** A committed CreateBooking: the slot exists and is not past, nobody holds it, and the
    only change is the new active booking. *)
Definition booked (s : Service) (user : User) (slotID : uuid) (now : time) (db : DB)
    (x : Booking * uuid) (db' : DB) : Prop :=
  exists slot,
    db_slots db !! slotID = Some slot /\ (now <= sl_StartTime slot)%Z /\
    (reservations s = true ->
       first_where (active_reservation slotID) (db_reservations db) = None) /\
    first_where (active_booking slotID) (db_bookings db) = None /\
    db_bookings db !! bk_ID x.1 = None /\
    x = ({| bk_ID := bk_ID x.1; bk_UserID := us_ID user; bk_SlotID := slotID;
            bk_Status := BookingStatusActive; bk_ConferenceLink := None;
            bk_CreatedAt := now |}, sl_RoomID slot) /\
    db' = set_bookings (<[bk_ID x.1 := x.1]> (db_bookings db)) db.

Lemma create_booking_tx_spec H s user slotID now db out :
  wp H (create_booking_tx s user slotID now) (fun r db' out' => out' = out /\
    match r with Ok x => booked s user slotID now db x db' | Err _ => True end) db out.
Proof.
  unfold create_booking_tx. step.
  destruct (db_slots db !! slotID) as [slot|] eqn:Hslot; [|by step].
  destruct (Z.ltb_spec (sl_StartTime slot) now); [by step|].
  destruct (reservations s) eqn:Hres; norm.
  1: step; destruct (first_where (active_reservation slotID) _) eqn:Hr; [by step|norm].
  all: step; apply wp_book; simpl; [done|by intros; step|by step|]; intros Hnew Hb; step;
    split; [done|]; exists slot; split_and!; simpl; auto; by rewrite ?Hres.
Qed.

(** A committed CancelBooking: nothing for a booking that is already cancelled; else the
    booking is cancelled and, with a waitlist, the slot is handed over. *)
Inductive cancelled (H : Assm) (s : Service) (user : User) (bookingID : uuid) (db : DB)
  : CancelVars -> DB -> Prop :=
| cancelled_already b room :
    db_bookings db !! bookingID = Some b -> bk_UserID b = us_ID user ->
    bk_Status b = BookingStatusCancelled ->
    cancelled H s user bookingID db (Build_CancelVars b room false None None) db
| cancelled_now b room o db' :
    db_bookings db !! bookingID = Some b -> bk_UserID b = us_ID user ->
    bk_Status b = BookingStatusActive ->
    room = match db_slots db !! bk_SlotID b with
           | Some slot => sl_RoomID slot | None => uuid_Nil end ->
    let b' := BookingRepo.with_Status BookingStatusCancelled b in
    let db1 := set_bookings (<[bookingID := b']> (db_bookings db)) db in
    (if waitlists s
     then reservations s = false /\ o = None /\ db' = db1 /\
          (exists a, ok_answer H a /\
             WaitlistRepo.next_entry (a_locked a) (bk_SlotID b) db1 = None) \/
          reservations s = true /\
          handover H (reservationTTLValue s) (bk_SlotID b) db1 o db'
     else o = None /\ db' = db1) ->
    cancelled H s user bookingID db
      (Build_CancelVars b' room true (fst <$> o) (snd <$> o)) db'.

Lemma cancel_booking_tx_spec H s user bookingID db out :
  wp H (cancel_booking_tx s user bookingID) (fun r db' out' => out' = out /\
    match r with Ok v => cancelled H s user bookingID db v db' | Err _ => True end) db out.
Proof.
  unfold cancel_booking_tx. step.
  destruct (db_bookings db !! bookingID) as [b|] eqn:Hb; [|by step].
  case_bool_decide as Huser; [by step|].
  step. unfold BookingRepo.update_cancelled. rewrite Hb.
  case_bool_decide as Hact; norm.
  2: { step. rewrite Hb. norm. step. step. split; [done|]. apply cancelled_already; try done.
       by destruct (bk_Status b). }
  set (b' := BookingRepo.with_Status BookingStatusCancelled b).
  step. destruct (waitlists s) eqn:Hw; norm.
  2: { step. split; [done|]. eapply (cancelled_now H s user bookingID db b _ None); eauto.
       by rewrite Hw. }
  apply wp_claim; [by intros; step| |].
  - intros a0 Ha0 Hn. step. split; [done|].
    eapply (cancelled_now H s user bookingID db b _ None); eauto. rewrite Hw.
    destruct (reservations s); [right|left]; eauto 6 using handover_nobody.
  - intros a0 e Ha0 He. norm. destruct (reservations s) eqn:Hr; [|by step].
    norm. apply wp_now. intros now Hnow. apply wp_uuid. intros id Hid. norm.
    apply wp_reserve; [by intros; step|]. simpl. intros Hfresh Hfree. step. split; [done|].
    eapply (cancelled_now H s user bookingID db b _ (Some (_, _))); eauto. rewrite Hw.
    right. split; [done|]. by eapply handover_to; auto.
Qed.
