(* ===== verification/Waitlist.v ===== *)
(** * Waitlist: internal/usecase/waitlist/service.go *)

From S2P Require Import Prelude Domain Database Program Postgres Schema Usecase Handover.

Definition join_waitlist_tx (user : User) (slotID : uuid) : prog (result WaitlistEntry) :=
  let? slot := on_err (wrap ErrorInternalError "get slot") (SlotRepo.GetByID slotID) in
  match slot with
  | None => fail (NewDomainError ErrorSlotNotFound "slot not found")
  | Some slot =>
      let! now := perform Now in
      if (sl_StartTime slot <? now)%Z
      then fail (NewDomainError ErrorInvalidRequest "cannot join waitlist for past slot")
      else
        let? activeBooking := on_err (wrap ErrorInternalError "check slot booking")
          (BookingRepo.GetActiveBySlotForUpdate slotID) in
        match activeBooking with
        | None => fail (NewDomainError ErrorSlotNotBooked "slot is not booked")
        | Some b =>
            if bool_decide (bk_UserID b = us_ID user)
            then fail (NewDomainError ErrorInvalidRequest "cannot join waitlist for own booking")
            else
              let! id := perform NewUUID in
              let! createdAt := perform Now in
              let entry :=
                {| wl_ID := id; wl_SlotID := slotID; wl_UserID := us_ID user;
                   wl_Status := WaitlistStatusActive; wl_Position := 0;
                   wl_CreatedAt := createdAt; wl_NotifiedAt := None |} in
              on_err (fun err =>
                  if has_code ErrorWaitlistJoined err then err
                  else wrap ErrorInternalError "join waitlist" err)
                (WaitlistRepo.Join entry)
        end
  end.

Definition JoinWaitlist (user : User) (slotID : uuid) : prog (result WaitlistEntry) :=
  if bool_decide (us_Role user <> RoleUser)
  then fail (NewDomainError ErrorForbidden "waitlist is allowed only for user role")
  else
    let? joined := WithinTransaction (join_waitlist_tx user slotID) in
    observe WaitlistJoined ;;;
    ok joined.

Definition leave_waitlist_tx (user : User) (entryID : uuid)
    : prog (result (WaitlistEntry * bool)) :=
  let? x := on_err (wrap ErrorInternalError "leave waitlist")
    (WaitlistRepo.Leave entryID (us_ID user)) in
  let '(entry, didChange) := x in
  match entry with
  | None => fail (NewDomainError ErrorWaitlistNotFound "waitlist entry not found")
  | Some entry => ok (entry, didChange)
  end.

Definition LeaveWaitlist (user : User) (entryID : uuid) : prog (result WaitlistEntry) :=
  if bool_decide (us_Role user <> RoleUser)
  then fail (NewDomainError ErrorForbidden "waitlist is allowed only for user role")
  else
    let? x := WithinTransaction (leave_waitlist_tx user entryID) in
    (if x.2 then observe WaitlistCancelled else Ret tt) ;;;
    ok x.1.

(** ** What the transactions do *)

(** A committed JoinWaitlist: the slot is booked by someone else, the user has no open
    entry for it, and the new entry takes the next position. *)
Definition joined (user : User) (slotID : uuid) (db : DB) (e : WaitlistEntry) (db' : DB)
    : Prop :=
  exists slot b now,
    db_slots db !! slotID = Some slot /\ (now <= sl_StartTime slot)%Z /\
    first_where (active_booking slotID) (db_bookings db) = Some b /\
    bk_UserID b <> us_ID user /\
    db_waitlist db !! wl_ID e = None /\
    first_where (open_entry slotID (us_ID user)) (db_waitlist db) = None /\
    e = {| wl_ID := wl_ID e; wl_SlotID := slotID; wl_UserID := us_ID user;
           wl_Status := WaitlistStatusActive; wl_Position := db_waitlist_seq db + 1;
           wl_CreatedAt := wl_CreatedAt e; wl_NotifiedAt := None |}%Z /\
    db' = set_waitlist (<[wl_ID e := e]> (db_waitlist db))
            (set_waitlist_seq (db_waitlist_seq db + 1) db).

(** The insert of an entry fails without touching a table, or adds it at the end. *)
Lemma waitlist_insert_inv e a db :
  wl_Status e = WaitlistStatusActive ->
  let seq := (db_waitlist_seq db + 1)%Z in
  let row := Build_WaitlistEntry (wl_ID e) (wl_SlotID e) (wl_UserID e) WaitlistStatusActive seq
               (wl_CreatedAt e) None in
  (exists err, WaitlistRepo.insert e a db = (Err err, set_waitlist_seq seq db)) \/
  (WaitlistRepo.insert e a db =
     (Ok row, set_waitlist (<[wl_ID e := row]> (db_waitlist db)) (set_waitlist_seq seq db)) /\
   db_waitlist db !! wl_ID e = None /\
   first_where (open_entry (wl_SlotID e) (wl_UserID e)) (db_waitlist db) = None).
Proof.
  intros Hact seq row. unfold WaitlistRepo.insert. rewrite Hact.
  rewrite bool_decide_true by done. simpl. unfold has.
  repeat (case_bool_decide; simpl; [try (left; by eauto)|try (left; by eauto)]).
  right. by rewrite <- !eq_None_not_Some in *.
Qed.

Lemma join_waitlist_tx_spec H user slotID db out :
  wp H (join_waitlist_tx user slotID) (fun r db' out' => out' = out /\
    match r with Ok e => joined user slotID db e db' | Err _ => True end) db out.
Proof.
  unfold join_waitlist_tx. step.
  destruct (db_slots db !! slotID) as [slot|] eqn:Hslot; [|by step]. step.
  destruct (Z.ltb_spec (sl_StartTime slot) now); [by step|]. step.
  destruct (first_where (active_booking slotID) (db_bookings db)) as [b|] eqn:Hb; [|by step].
  case_bool_decide; [by step|]. step. step. step.
  destruct (waitlist_insert_inv
    {| wl_ID := id; wl_SlotID := slotID; wl_UserID := us_ID user;
       wl_Status := WaitlistStatusActive; wl_Position := 0; wl_CreatedAt := now0;
       wl_NotifiedAt := None |} a db eq_refl) as [[err ->]|(-> & Hnew & Hopen)];
    simpl in *; norm; step; [done|]. split; [done|]. exists slot, b, now. by split_and!.
Qed.

(** A committed LeaveWaitlist: the user's own entry, closed if it was open. *)
Definition left_waitlist (user : User) (entryID : uuid) (db : DB) (x : WaitlistEntry * bool)
    (db' : DB) : Prop :=
  exists e, db_waitlist db !! entryID = Some e /\ wl_UserID e = us_ID user /\
    (if bool_decide (wl_Status e = WaitlistStatusActive \/ wl_Status e = WaitlistStatusNotified)
     then let e' := WaitlistRepo.with_Status WaitlistStatusCancelled (wl_NotifiedAt e) e in
          x = (e', true) /\ db' = set_waitlist (<[entryID := e']> (db_waitlist db)) db
     else x = (e, false) /\ db' = db).

Lemma leave_waitlist_tx_spec H user entryID db out :
  wp H (leave_waitlist_tx user entryID) (fun r db' out' => out' = out /\
    match r with Ok x => left_waitlist user entryID db x db' | Err _ => True end) db out.
Proof.
  unfold leave_waitlist_tx. step. unfold WaitlistRepo.update_cancelled, left_waitlist.
  destruct (db_waitlist db !! entryID) as [e|] eqn:He; norm.
  2: { step. rewrite He. by step. }
  case_bool_decide as Hu; norm.
  2: { step. rewrite He. rewrite bool_decide_false by done. by step. }
  destruct (bool_decide (wl_Status e = WaitlistStatusActive) || _) eqn:Hopen; norm.
  - step. split; [done|]. exists e. rewrite bool_decide_true; [done|].
    apply orb_true_iff in Hopen as [H1|H1]; apply bool_decide_eq_true in H1; auto.
  - step. rewrite He. rewrite bool_decide_true by done. step. split; [done|]. exists e.
    rewrite bool_decide_false; [done|]. intros H1. apply orb_false_iff in Hopen as [H2 H3].
    apply bool_decide_eq_false in H2, H3. naive_solver.
Qed.
