(* ===== verification/Reservation.v ===== *)
(** * Reservation: internal/usecase/reservation/service.go

    Confirming, cancelling and expiring the temporary reservations of waitlisted users. *)

From S2P Require Import Prelude Domain Database Program Postgres Schema Usecase Handover.

Definition defaultExpirationBatchLimit : Z := 100.

Record Service := {
  waitlists : bool;
  events : EventPublisher;
  metrics : option Metrics;
  reservationTTL : Duration }.

Definition NewService (waitlists : bool) (events : option EventPublisher)
    (reservationTTL : Duration) : Service :=
  {| waitlists := waitlists;
     events := match events with None => noopEventPublisher | Some p => p end;
     metrics := Some noopMetrics;
     reservationTTL :=
       if (reservationTTL <=? 0)%Z then defaultReservationTTL else reservationTTL |}.

Definition WithMetrics (m : option Metrics) (s : Service) : Service :=
  {| waitlists := waitlists s; events := events s;
     metrics := match m with Some _ => m | None => metrics s end;
     reservationTTL := reservationTTL s |}.

Definition reservationMetrics (s : Service) : Metrics :=
  match metrics s with
  | None => noopMetrics
  | Some m => m
  end.

Definition reservationTTLValue (s : Service) : Duration :=
  if (0 <? reservationTTL s)%Z then reservationTTL s else defaultReservationTTL.

Definition ListMyActiveReservations (user : User) : prog (result (list SlotReservation)) :=
  if bool_decide (us_Role user <> RoleUser)
  then fail (NewDomainError ErrorForbidden
               "list active reservations is allowed only for user role")
  else
    let! now := perform Now in
    on_err (wrap ErrorInternalError "list active reservations")
      (ReservationRepo.ListActiveByUser (us_ID user) now).

(** ** ConfirmReservation *)

Definition confirm_reservation_tx (user : User) (reservationID : uuid) (now : time)
    : prog (result (Booking * SlotReservation * uuid)) :=
  let? existing := on_err (wrap ErrorInternalError "get reservation")
    (ReservationRepo.GetByIDForUpdate reservationID) in
  match existing with
  | None => fail (NewDomainError ErrorReservationNotFound "reservation not found")
  | Some existing =>
      if bool_decide (rs_UserID existing <> us_ID user)
      then fail (NewDomainError ErrorForbidden "cannot confirm another user's reservation")
      else if bool_decide (rs_Status existing <> ReservationStatusActive)
      then fail (NewDomainError ErrorInvalidRequest "reservation is not active")
      else if negb (now <? rs_ExpiresAt existing)%Z
      then fail (NewDomainError ErrorInvalidRequest "reservation is expired")
      else
        let? activeBooking := on_err (wrap ErrorInternalError "check active booking")
          (BookingRepo.GetActiveBySlotForUpdate (rs_SlotID existing)) in
        match activeBooking with
        | Some _ => fail (NewDomainError ErrorSlotAlreadyBooked "slot already booked")
        | None =>
            let? slot := on_err (wrap ErrorInternalError "get slot")
              (SlotRepo.GetByID (rs_SlotID existing)) in
            match slot with
            | None => fail (NewDomainError ErrorSlotNotFound "slot not found")
            | Some slot =>
                if (sl_StartTime slot <? now)%Z
                then fail (NewDomainError ErrorInvalidRequest
                             "cannot confirm reservation for past slot")
                else
                  let! id := perform NewUUID in
                  let createdBooking :=
                    {| bk_ID := id; bk_UserID := us_ID user;
                       bk_SlotID := rs_SlotID existing; bk_Status := BookingStatusActive;
                       bk_ConferenceLink := None; bk_CreatedAt := now |} in
                  let? _ :=
                    on_err (fun err =>
                        if has_code ErrorSlotAlreadyBooked err then err
                        else wrap ErrorInternalError "create booking" err)
                      (BookingRepo.Create createdBooking) in
                  let? updated := on_err (wrap ErrorInternalError "confirm reservation")
                    (ReservationRepo.SetConfirmed (rs_ID existing) now) in
                  match updated with
                  | None => fail (NewDomainError ErrorReservationNotFound
                                    "reservation not found")
                  | Some updated => ok (createdBooking, updated, sl_RoomID slot)
                  end
            end
        end
  end.

Definition ConfirmReservation (s : Service) (user : User) (reservationID : uuid)
    : prog (result (Booking * SlotReservation)) :=
  if bool_decide (us_Role user <> RoleUser)
  then fail (NewDomainError ErrorForbidden "confirm reservation is allowed only for user role")
  else
    let! now := perform Now in
    let? x := WithinTransaction (confirm_reservation_tx user reservationID now) in
    let '(createdBooking, confirmed, roomID) := x in
    inc (reservationMetrics s) ReservationConfirmed ;;;
    (if negb (roomID =? uuid_Nil)%N
     then publish (events s)
            (EvSlotBooked roomID (bk_SlotID createdBooking) (bk_ID createdBooking))
     else Ret tt) ;;;
    ok (createdBooking, confirmed).

(** ** CancelReservation *)

Record CancelVars := {
  cv_cancelled : SlotReservation;
  cv_changed : bool;
  cv_roomID : uuid;
  cv_notifiedEntry : option WaitlistEntry;
  cv_nextReservation : option SlotReservation }.

Definition reservation_for (s : Service) (id slotID : uuid) (entry : WaitlistEntry)
    (now : time) : SlotReservation :=
  {| rs_ID := id; rs_SlotID := slotID; rs_UserID := wl_UserID entry;
     rs_WaitlistEntryID := Some (wl_ID entry); rs_Status := ReservationStatusActive;
     rs_ExpiresAt := now + reservationTTLValue s; rs_CreatedAt := now;
     rs_ConfirmedAt := None; rs_ExpiredAt := None |}%Z.

Definition cancel_reservation_tx (s : Service) (user : User) (reservationID : uuid)
    (now : time) : prog (result CancelVars) :=
  let? existing := on_err (wrap ErrorInternalError "get reservation")
    (ReservationRepo.GetByIDForUpdate reservationID) in
  match existing with
  | None => fail (NewDomainError ErrorReservationNotFound "reservation not found")
  | Some existing =>
      if bool_decide (rs_UserID existing <> us_ID user)
      then fail (NewDomainError ErrorForbidden "cannot cancel another user's reservation")
      else
        let? slot := on_err (wrap ErrorInternalError "get slot")
          (SlotRepo.GetByID (rs_SlotID existing)) in
        let roomID := match slot with Some slot => sl_RoomID slot | None => uuid_Nil end in
        if bool_decide (rs_Status existing <> ReservationStatusActive)
        then ok (Build_CancelVars existing false roomID None None)
        else
          let? updated := on_err (wrap ErrorInternalError "cancel reservation")
            (ReservationRepo.SetCancelled (rs_ID existing)) in
          match updated with
          | None => fail (NewDomainError ErrorReservationNotFound "reservation not found")
          | Some updated =>
              if negb (waitlists s) then ok (Build_CancelVars updated true roomID None None)
              else
                let? entry := on_err (wrap ErrorInternalError "claim next waitlist entry")
                  (WaitlistRepo.ClaimNextForNotify (rs_SlotID existing)) in
                match entry with
                | None => ok (Build_CancelVars updated true roomID None None)
                | Some e =>
                    let! id := perform NewUUID in
                    let? next := on_err (wrap ErrorInternalError "create next reservation")
                      (ReservationRepo.Create
                         (reservation_for s id (rs_SlotID existing) e now)) in
                    ok (Build_CancelVars updated true roomID (Some e) (Some next))
                end
          end
  end.

Definition CancelReservation (s : Service) (user : User) (reservationID : uuid)
    : prog (result SlotReservation) :=
  if bool_decide (us_Role user <> RoleUser)
  then fail (NewDomainError ErrorForbidden "cancel reservation is allowed only for user role")
  else
    let! now := perform Now in
    let? v := WithinTransaction (cancel_reservation_tx s user reservationID now) in
    if negb (cv_changed v) then ok (cv_cancelled v)
    else
      inc (reservationMetrics s) ReservationCancelled ;;;
      match cv_nextReservation v, cv_notifiedEntry v with
      | Some nextReservation, Some notifiedEntry =>
          observe WaitlistNotification ;;;
          inc (reservationMetrics s) ReservationCreated ;;;
          (if negb (cv_roomID v =? uuid_Nil)%N
           then publish (events s) (EvSlotReserved (cv_roomID v)
                  (rs_SlotID (cv_cancelled v)) (rs_ID nextReservation))
           else Ret tt) ;;;
          publish (events s) (EvWaitlistSlotReserved (cv_roomID v)
            (rs_SlotID (cv_cancelled v)) (wl_UserID notifiedEntry) (rs_ID nextReservation)
            (wl_ID notifiedEntry) (rs_ExpiresAt nextReservation)) ;;;
          ok (cv_cancelled v)
      | _, _ =>
          (if negb (cv_roomID v =? uuid_Nil)%N
           then publish (events s)
                  (EvSlotAvailable (cv_roomID v) (rs_SlotID (cv_cancelled v)))
           else Ret tt) ;;;
          ok (cv_cancelled v)
      end.

(** ** ExpireDue *)

Record Replacement := {
  rp_roomID : uuid;
  rp_waitlist : WaitlistEntry;
  rp_reservation : SlotReservation }.

(** The variables the transaction of ExpireDue fills: [slotRooms], [slotHasReplacement]
    and [replacements]; a missing key of a Go map reads as the zero value. *)
Record ExpireVars := {
  ev_slotRooms : gmap uuid uuid;
  ev_slotHasReplacement : gmap uuid bool;
  ev_replacements : list Replacement }.

Definition room_of (v : ExpireVars) (slotID : uuid) : uuid :=
  default uuid_Nil (ev_slotRooms v !! slotID).
Definition has_replacement (v : ExpireVars) (slotID : uuid) : bool :=
  default false (ev_slotHasReplacement v !! slotID).

Definition with_room (slotID : uuid) (slot : option Slot) (v : ExpireVars) : ExpireVars :=
  match slot with
  | Some slot =>
      Build_ExpireVars (<[slotID := sl_RoomID slot]> (ev_slotRooms v))
        (ev_slotHasReplacement v) (ev_replacements v)
  | None => v
  end.

Definition with_replacement (slotID : uuid) (entry : WaitlistEntry) (created : SlotReservation)
    (v : ExpireVars) : ExpireVars :=
  Build_ExpireVars (ev_slotRooms v) (<[slotID := true]> (ev_slotHasReplacement v))
    (ev_replacements v ++ [Build_Replacement (room_of v slotID) entry created]).

(** [for _, item := range expired { ... }]. *)
Fixpoint expire_loop (s : Service) (now : time) (expired : list SlotReservation)
    (v : ExpireVars) : prog (result ExpireVars) :=
  match expired with
  | [] => ok v
  | item :: rest =>
      let? slot := on_err (wrap ErrorInternalError "get slot")
        (SlotRepo.GetByID (rs_SlotID item)) in
      let v := with_room (rs_SlotID item) slot v in
      if negb (waitlists s) then expire_loop s now rest v
      else
        let? entry := on_err (wrap ErrorInternalError "claim next waitlist entry")
          (WaitlistRepo.ClaimNextForNotify (rs_SlotID item)) in
        match entry with
        | None => expire_loop s now rest v
        | Some e =>
            let! id := perform NewUUID in
            let? created :=
              on_err (wrap ErrorInternalError "create reservation for next waitlist user")
                (ReservationRepo.Create (reservation_for s id (rs_SlotID item) e now)) in
            expire_loop s now rest (with_replacement (rs_SlotID item) e created v)
        end
  end.

Definition expire_due_tx (s : Service) (now : time) (limit : Z)
    : prog (result (list SlotReservation * ExpireVars)) :=
  let? expired := on_err (wrap ErrorInternalError "expire reservations")
    (ReservationRepo.ExpireBatch now limit) in
  let? v := expire_loop s now expired (Build_ExpireVars ∅ ∅ []) in
  ok (expired, v).

Fixpoint announce_expired (s : Service) (v : ExpireVars) (expired : list SlotReservation)
    : prog unit :=
  match expired with
  | [] => Ret tt
  | item :: rest =>
      inc (reservationMetrics s) ReservationExpired ;;;
      let roomID := room_of v (rs_SlotID item) in
      publish (events s)
        (EvReservationExpired roomID (rs_SlotID item) (rs_UserID item) (rs_ID item)) ;;;
      (if negb (roomID =? uuid_Nil)%N then
         publish (events s) (EvSlotReservationExpired roomID (rs_SlotID item) (rs_ID item)) ;;;
         (if negb (has_replacement v (rs_SlotID item))
          then publish (events s) (EvSlotAvailable roomID (rs_SlotID item))
          else Ret tt)
       else Ret tt) ;;;
      announce_expired s v rest
  end.

Fixpoint announce_replacements (s : Service) (l : list Replacement) : prog unit :=
  match l with
  | [] => Ret tt
  | item :: rest =>
      let r := rp_reservation item in
      observe WaitlistNotification ;;;
      inc (reservationMetrics s) ReservationCreated ;;;
      (if negb (rp_roomID item =? uuid_Nil)%N
       then publish (events s) (EvSlotReserved (rp_roomID item) (rs_SlotID r) (rs_ID r))
       else Ret tt) ;;;
      publish (events s) (EvWaitlistSlotReserved (rp_roomID item) (rs_SlotID r)
        (wl_UserID (rp_waitlist item)) (rs_ID r) (wl_ID (rp_waitlist item))
        (rs_ExpiresAt r)) ;;;
      announce_replacements s rest
  end.

Definition ExpireDue (s : Service) (limit : Z) : prog (result unit) :=
  let limit := if (limit <=? 0)%Z then defaultExpirationBatchLimit else limit in
  let! now := perform Now in
  let? x := WithinTransaction (expire_due_tx s now limit) in
  let '(expired, v) := x in
  match expired with
  | [] => ok tt
  | _ =>
      announce_expired s v expired ;;;
      announce_replacements s (ev_replacements v) ;;;
      ok tt
  end.

(** ** What the transactions do *)

(** A committed ConfirmReservation: the user's own active, unexpired reservation of a
    free, not past slot becomes a booking. *)
Definition confirmed (user : User) (reservationID : uuid) (now : time) (db : DB)
    (x : Booking * SlotReservation * uuid) (db' : DB) : Prop :=
  let '(b, r', room) := x in
  exists r slot,
    db_reservations db !! reservationID = Some r /\ rs_UserID r = us_ID user /\
    rs_Status r = ReservationStatusActive /\ (now < rs_ExpiresAt r)%Z /\
    first_where (active_booking (rs_SlotID r)) (db_bookings db) = None /\
    db_slots db !! rs_SlotID r = Some slot /\ (now <= sl_StartTime slot)%Z /\
    db_bookings db !! bk_ID b = None /\
    b = {| bk_ID := bk_ID b; bk_UserID := us_ID user; bk_SlotID := rs_SlotID r;
           bk_Status := BookingStatusActive; bk_ConferenceLink := None;
           bk_CreatedAt := now |} /\
    r' = ReservationRepo.confirm now r /\ room = sl_RoomID slot /\
    db' = set_reservations (<[reservationID := r']> (db_reservations db))
            (set_bookings (<[bk_ID b := b]> (db_bookings db)) db).

Lemma confirm_reservation_tx_spec H user rid now db out :
  schema db ->
  wp H (confirm_reservation_tx user rid now) (fun r db' out' => out' = out /\
    match r with Ok x => confirmed user rid now db x db' | Err _ => True end) db out.
Proof.
  intros Hs. unfold confirm_reservation_tx. step.
  destruct (db_reservations db !! rid) as [r|] eqn:Hr; [|by step].
  assert (rs_ID r = rid) as Hrid
    by exact (reservations_pkey _ _ _ _ (schema_reservations _ Hs) rid r Hr).
  case_bool_decide as Hu; [by step|]. case_bool_decide as Hact; [by step|].
  destruct (Z.ltb_spec now (rs_ExpiresAt r)) as [Hexp|]; norm; [|by step]. step.
  destruct (first_where _ (db_bookings db)) as [b|] eqn:Hb; [by step|]. step.
  destruct (db_slots db !! rs_SlotID r) as [slot|] eqn:Hslot; [|by step].
  destruct (Z.ltb_spec (sl_StartTime slot) now); [by step|]. step.
  apply wp_book; simpl; [done|by intros; step|by step|]. intros Hnew _. norm.
  rewrite Hrid. step. unfold ReservationRepo.update_active; simpl. rewrite Hr.
  rewrite bool_decide_true by done. step. split; [done|].
  exists r, slot. by split_and!.
Qed.

(** A committed CancelReservation: nothing for a reservation that is not active; else it
    is cancelled and, with a waitlist, the slot is handed over. *)
Inductive cancelled (H : Assm) (s : Service) (user : User) (rid : uuid) (now : time) (db : DB)
  : CancelVars -> DB -> Prop :=
| cancelled_already r room :
    db_reservations db !! rid = Some r -> rs_UserID r = us_ID user ->
    rs_Status r <> ReservationStatusActive ->
    cancelled H s user rid now db (Build_CancelVars r false room None None) db
| cancelled_now r room o db' :
    db_reservations db !! rid = Some r -> rs_UserID r = us_ID user ->
    rs_Status r = ReservationStatusActive ->
    room = match db_slots db !! rs_SlotID r with
           | Some slot => sl_RoomID slot | None => uuid_Nil end ->
    let r' := ReservationRepo.cancel r in
    let db1 := set_reservations (<[rid := r']> (db_reservations db)) db in
    (if waitlists s
     then handover H (reservationTTLValue s) (rs_SlotID r) db1 o db'
     else o = None /\ db' = db1) ->
    cancelled H s user rid now db
      (Build_CancelVars r' true room (fst <$> o) (snd <$> o)) db'.

Lemma cancel_reservation_tx_spec H s user rid now db out :
  schema db ->
  wp H (cancel_reservation_tx s user rid now) (fun r db' out' => out' = out /\
    match r with Ok v => cancelled H s user rid now db v db' | Err _ => True end) db out.
Proof.
  intros Hs. unfold cancel_reservation_tx. step.
  destruct (db_reservations db !! rid) as [r|] eqn:Hr; [|by step].
  assert (rs_ID r = rid) as Hrid
    by exact (reservations_pkey _ _ _ _ (schema_reservations _ Hs) rid r Hr).
  case_bool_decide as Hu; [by step|]. step.
  case_bool_decide as Hact; [step; split; [done|]; by apply cancelled_already|].
  norm. rewrite Hrid. step.
  unfold ReservationRepo.update_active. rewrite Hr, bool_decide_true by done. norm.
  destruct (waitlists s) eqn:Hw; norm.
  2: { step. split; [done|].
       eapply (cancelled_now H s user rid now db r _ None); eauto. by rewrite Hw. }
  apply wp_claim; [by intros; step| |].
  - intros a0 Ha0 Hn. step. split; [done|].
    eapply (cancelled_now H s user rid now db r _ None); eauto. rewrite Hw.
    by eapply handover_nobody.
  - intros a0 e Ha0 He. step. apply wp_reserve; [by intros; step|]. simpl.
    intros Hfresh Hfree. step. split; [done|].
    eapply (cancelled_now H s user rid now db r _ (Some (_, _))); eauto. rewrite Hw.
    by eapply handover_to; auto.
Qed.

(** The captured variables after the loop, from what was handed over for each item. *)
Fixpoint expire_vars (slots : gmap uuid Slot) (expired : list SlotReservation)
    (os : list (option (WaitlistEntry * SlotReservation))) (v : ExpireVars) : ExpireVars :=
  match expired, os with
  | item :: rest, o :: os =>
      let slotID := rs_SlotID item in
      let v := with_room slotID (slots !! slotID) v in
      expire_vars slots rest os
        (match o with
         | Some (e, created) => with_replacement slotID e created v
         | None => v
         end)
  | _, _ => v
  end.

Definition looped (H : Assm) (s : Service) (l : list SlotReservation) (v : ExpireVars)
    (db : DB) (v' : ExpireVars) (db' : DB) : Prop :=
  exists os, v' = expire_vars (db_slots db) l os v /\
    (if waitlists s then handovers H (reservationTTLValue s) l db os db'
     else os = (fun _ => None) <$> l /\ db' = db).

Lemma expire_loop_spec H s now l v db out :
  wp H (expire_loop s now l v) (fun r db' out' => out' = out /\
    match r with Ok v' => looped H s l v db v' db' | Err _ => True end) db out.
Proof.
  revert v db. induction l as [|item l IH]; intros v db; cbn [expire_loop].
  { step. split; [done|]. exists []. split; [done|]. destruct (waitlists s); [constructor|done]. }
  step. set (v1 := with_room _ _ v).
  destruct (waitlists s) eqn:Hw; norm.
  2: { eapply wp_mono; [|apply (IH v1)]. intros r db' out' [-> Hr]. split; [done|].
       destruct r as [v'|]; [|done]. destruct Hr as (os & -> & Hos). rewrite Hw in Hos.
       destruct Hos as [-> ->]. exists (None :: ((fun _ => None) <$> l)).
       by rewrite Hw. }
  apply wp_claim; [by intros; step| |].
  - intros a Ha Hn. norm. eapply wp_mono; [|apply (IH v1)].
    intros r db' out' [-> Hr]. split; [done|]. destruct r as [v'|]; [|done].
    destruct Hr as (os & -> & Hos). rewrite Hw in Hos. exists (None :: os). rewrite Hw.
    split; [done|]. econstructor; [|done]. by eapply handover_nobody.
  - intros a e Ha He. norm. apply wp_uuid. intros id Hid. norm.
    apply wp_reserve; [by intros; step|]. simpl. intros Hfresh Hfree. norm.
    eapply wp_mono; [|apply IH]. intros r db' out' [-> Hr]. split; [done|].
    destruct r as [v'|]; [|done]. destruct Hr as (os & -> & Hos). rewrite Hw in Hos.
    eexists (Some (_, _) :: os). rewrite Hw. split; [done|]. econstructor; [|done].
    by eapply handover_to; auto.
Qed.

Definition batch_expired (now : time) (l : list SlotReservation) (db : DB) : DB :=
  set_reservations (ReservationRepo.expire_rows now l (db_reservations db)) db.

(** A committed ExpireDue: the picked reservations are expired, then each freed slot is
    handed over. *)
Definition expired_due (H : Assm) (s : Service) (now : time) (limit : Z) (db : DB)
    (x : list SlotReservation * ExpireVars) (db' : DB) : Prop :=
  exists a, ok_answer H a /\
    let l := ReservationRepo.picked a now (Z.to_nat limit) db in
    x.1 = ReservationRepo.expire now <$> l /\
    looped H s x.1 (Build_ExpireVars ∅ ∅ []) (batch_expired now l db) x.2 db'.

Lemma expire_due_tx_spec H s now limit db out :
  wp H (expire_due_tx s now limit) (fun r db' out' => out' = out /\
    match r with Ok x => expired_due H s now limit db x db' | Err _ => True end) db out.
Proof.
  unfold expire_due_tx. step. unfold ReservationRepo.expire_batch.
  destruct (limit <? 0)%Z; norm; [by step|]. apply wp_bind.
  eapply wp_mono; [|apply expire_loop_spec]. intros r db' out' [-> Hr].
  destruct r as [v|err]; norm; apply wp_ret; (split; [done|]); [|done].
  exists a. by split_and!.
Qed.
