(* ===== verification/Invariant.v ===== *)
(** * Invariant: what the use cases keep true of bookings, reservations and waitlists

    [coherent] is what no constraint of the schema expresses: a slot is never both booked
    and reserved, every reservation stems from a waitlist entry of the same slot and user,
    an entry gives rise to one reservation at most, and status and time stamps agree.
    [queue_ok] is the promise made to waiting users: while somebody waits for a slot, the
    slot is held, so that it cannot be taken past the queue. *)

From S2P Require Import Prelude Domain Database Program Postgres Schema Usecase Handover.
From S2P Require Booking Waitlist Reservation.

Definition stamped (r : SlotReservation) : Prop :=
  (rs_Status r = ReservationStatusConfirmed <-> is_Some (rs_ConfirmedAt r)) /\
  (rs_Status r = ReservationStatusExpired <-> is_Some (rs_ExpiredAt r)).

Definition stems_from (waitlist : gmap uuid WaitlistEntry) (r : SlotReservation) : Prop :=
  exists i e, rs_WaitlistEntryID r = Some i /\ waitlist !! i = Some e /\
    wl_SlotID e = rs_SlotID r /\ wl_UserID e = rs_UserID r /\
    wl_Status e <> WaitlistStatusActive.

Record coherent (db : DB) : Prop := {
  co_entries : primary wl_ID (db_waitlist db);
  co_reservations : primary rs_ID (db_reservations db);
  co_exclusive : forall i j b r slot,
    db_bookings db !! i = Some b -> db_reservations db !! j = Some r ->
    active_booking slot b -> active_reservation slot r -> False;
  co_stems : forall j r, db_reservations db !! j = Some r -> stems_from (db_waitlist db) r;
  co_once : unique_on (fun r r' => rs_WaitlistEntryID r = rs_WaitlistEntryID r')
              (db_reservations db);
  co_stamped : forall j r, db_reservations db !! j = Some r -> stamped r;
  co_entry : forall i e, db_waitlist db !! i = Some e ->
    wl_Status e <> WaitlistStatusExpired /\
    (wl_Status e = WaitlistStatusActive -> wl_NotifiedAt e = None) /\
    (wl_Status e = WaitlistStatusNotified -> is_Some (wl_NotifiedAt e)) }.

Definition held (db : DB) (slot : uuid) : Prop :=
  (exists i b, db_bookings db !! i = Some b /\ active_booking slot b) \/
  (exists j r, db_reservations db !! j = Some r /\ active_reservation slot r).

(** Every active waitlist entry is for a held slot, except perhaps for slots in [S]. *)
Definition queue_ok (S : uuid -> Prop) (db : DB) : Prop :=
  forall i e, db_waitlist db !! i = Some e -> wl_Status e = WaitlistStatusActive ->
    S (wl_SlotID e) \/ held db (wl_SlotID e).

(** ** Steps on the bookings *)

Lemma coherent_seq db n : coherent db -> coherent (set_waitlist_seq n db).
Proof. by intros []. Qed.

Lemma coherent_add_booking db b :
  coherent db ->
  (forall j r, db_reservations db !! j = Some r -> ~ active_reservation (bk_SlotID b) r) ->
  coherent (set_bookings (<[bk_ID b := b]> (db_bookings db)) db).
Proof.
  intros [] Hfree. constructor; simpl; try done.
  intros i j x r slot Hx Hr Hb. lookups; [|by eauto]. destruct Hb as [<- _]. by eapply Hfree.
Qed.

Lemma queue_add_booking S db b :
  queue_ok S db -> db_bookings db !! bk_ID b = None ->
  queue_ok S (set_bookings (<[bk_ID b := b]> (db_bookings db)) db).
Proof.
  intros Hq Hnew i e Hi He. destruct (Hq i e Hi He) as [?|[(j & x & Hx & ?)|?]]; [by left|..].
  - right. left. exists j, x. simpl. split; [|done].
    rewrite lookup_insert_ne; [done|]. congruence.
  - right. by right.
Qed.

Lemma coherent_cancel_booking db id b :
  coherent db -> db_bookings db !! id = Some b ->
  coherent (set_bookings
    (<[id := BookingRepo.with_Status BookingStatusCancelled b]> (db_bookings db)) db).
Proof.
  intros [] Hb. constructor; simpl; try done.
  intros i j x r slot Hx Hr Hact. lookups; [|by eauto]. by destruct Hact.
Qed.

Lemma queue_cancel_booking S db id b :
  queue_ok S db -> db_bookings db !! id = Some b ->
  queue_ok (fun s => s = bk_SlotID b \/ S s) (set_bookings
    (<[id := BookingRepo.with_Status BookingStatusCancelled b]> (db_bookings db)) db).
Proof.
  intros Hq Hb i e Hi He. destruct (Hq i e Hi He) as [?|[(j & x & Hx & ?)|?]].
  - by left; right.
  - destruct (decide (j = id)) as [->|].
    + left; left. rewrite Hb in Hx. injection Hx as ->. symmetry. apply H.
    + right; left. exists j, x. simpl. by rewrite lookup_insert_ne.
  - right. by right.
Qed.

(** ** Steps on the waitlist *)

Lemma stems_from_insert waitlist i e e' r :
  stems_from waitlist r ->
  (waitlist !! i = Some e ->
     wl_SlotID e' = wl_SlotID e /\ wl_UserID e' = wl_UserID e /\
     wl_Status e' <> WaitlistStatusActive) ->
  (waitlist !! i = None \/ waitlist !! i = Some e) ->
  stems_from (<[i := e']> waitlist) r.
Proof.
  intros (k & x & Hk & Hx & ? & ? & ?) Hsame Hi. exists k.
  destruct (decide (k = i)) as [->|].
  - destruct Hi as [Hi|Hi]; [congruence|]. rewrite Hi in Hx. injection Hx as ->.
    destruct (Hsame Hi) as (? & ? & ?). exists e'. rewrite lookup_insert_eq.
    split_and!; congruence.
  - exists x. by rewrite lookup_insert_ne.
Qed.

Lemma coherent_add_entry db e :
  coherent db -> db_waitlist db !! wl_ID e = None ->
  wl_Status e = WaitlistStatusActive -> wl_NotifiedAt e = None ->
  coherent (set_waitlist (<[wl_ID e := e]> (db_waitlist db)) db).
Proof.
  intros [] Hnew Hst Hnot. constructor; simpl; eauto using primary_insert.
  - intros j r Hr. eapply (stems_from_insert _ _ e); eauto. congruence.
  - intros i x Hx. lookups; [|by eauto]. rewrite Hst. done.
Qed.

Lemma queue_add_entry S db e :
  queue_ok S db -> held db (wl_SlotID e) ->
  queue_ok S (set_waitlist (<[wl_ID e := e]> (db_waitlist db)) db).
Proof. intros Hq Hh i x Hx Hact. simpl in Hx. lookups; [by right|]. by apply (Hq i). Qed.

(** An entry moves on to [notified] or [cancelled]. *)
Lemma coherent_move_entry db i e e' :
  coherent db -> db_waitlist db !! i = Some e ->
  wl_ID e' = wl_ID e -> wl_SlotID e' = wl_SlotID e -> wl_UserID e' = wl_UserID e ->
  (wl_Status e' = WaitlistStatusCancelled \/
   wl_Status e' = WaitlistStatusNotified /\ is_Some (wl_NotifiedAt e')) ->
  coherent (set_waitlist (<[i := e']> (db_waitlist db)) db).
Proof.
  intros [] Hi HID Hslot Huser Hst. constructor; simpl; eauto.
  - apply primary_update; [done|]. rewrite HID. by apply co_entries0.
  - intros j r Hr. eapply (stems_from_insert _ _ e); eauto. intros _.
    split_and!; [done..|]. destruct Hst as [->|[-> _]]; done.
  - intros j x Hx. lookups; [|by eauto]. destruct Hst as [->|[-> ?]]; done.
Qed.

Lemma queue_move_entry S db i e' :
  queue_ok S db -> wl_Status e' <> WaitlistStatusActive ->
  queue_ok S (set_waitlist (<[i := e']> (db_waitlist db)) db).
Proof. intros Hq Hst j x Hx Hact. simpl in Hx. lookups; [done|]. by apply (Hq j). Qed.

(** ** Steps on the reservations *)

Lemma coherent_add_reservation db r :
  coherent db -> db_reservations db !! rs_ID r = None ->
  rs_Status r = ReservationStatusActive -> stamped r -> stems_from (db_waitlist db) r ->
  (forall i b, db_bookings db !! i = Some b -> ~ active_booking (rs_SlotID r) b) ->
  (forall j r', db_reservations db !! j = Some r' ->
     rs_WaitlistEntryID r' <> rs_WaitlistEntryID r) ->
  coherent (set_reservations (<[rs_ID r := r]> (db_reservations db)) db).
Proof.
  intros [] Hnew Hact Hst Hfrom Hfree Honce.
  constructor; simpl; eauto using primary_insert.
  - intros i j b x slot Hb Hx Hbk Hr. lookups; [|by eauto].
    destruct Hr as [<- _]. by eapply Hfree.
  - intros j x Hx. lookups; eauto.
  - apply unique_insert; [done|]. intros j x Hj _ [Hx|Hx]; by apply Honce in Hj.
  - intros j x Hx. lookups; eauto.
Qed.

(** Reservations that are replaced row by row by deactivated ones. *)
Definition deactivated (t t' : gmap uuid SlotReservation) : Prop :=
  forall j r', t' !! j = Some r' ->
    exists r, t !! j = Some r /\ rs_ID r' = rs_ID r /\
      rs_SlotID r' = rs_SlotID r /\ rs_WaitlistEntryID r' = rs_WaitlistEntryID r /\
      rs_UserID r' = rs_UserID r /\
      (r' = r \/ rs_Status r' <> ReservationStatusActive) /\ (stamped r -> stamped r').

Lemma coherent_deactivate db t :
  coherent db -> deactivated (db_reservations db) t -> coherent (set_reservations t db).
Proof.
  intros [] Ht. constructor; simpl; eauto.
  - intros j r' Hr'. destruct (Ht j r' Hr') as (r & Hr & -> & _). by apply co_reservations0.
  - intros i j b r' slot Hb Hr' Hbk Hact.
    destruct (Ht j r' Hr') as (r & Hr & _ & _ & _ & _ & [->|Hne] & _); [by eauto|].
    by destruct Hact.
  - intros j r' Hr'. destruct (Ht j r' Hr') as (r & Hr & _ & Hs & He & Hu & _ & _).
    unfold stems_from. rewrite Hs, He, Hu. by apply (co_stems0 j).
  - intros i j x y Hx Hy Heq.
    destruct (Ht i x Hx) as (x0 & Hx0 & _ & _ & Hxe & _).
    destruct (Ht j y Hy) as (y0 & Hy0 & _ & _ & Hye & _).
    apply (co_once0 i j x0 y0); [done..|]. congruence.
  - intros j r' Hr'. destruct (Ht j r' Hr') as (r & Hr & _ & _ & _ & _ & _ & Hst). eauto.
Qed.

Lemma deactivated_update t i r upd :
  t !! i = Some r -> deactivates upd -> (stamped r -> stamped (upd r)) ->
  deactivated t (<[i := upd r]> t).
Proof.
  intros Hi [] Hst j x Hx. lookups.
  - exists r. split_and!; auto.
  - exists x. split_and!; auto.
Qed.

Lemma queue_deactivate (S : uuid -> Prop) db i r r' :
  queue_ok S db -> db_reservations db !! i = Some r ->
  queue_ok (fun s => s = rs_SlotID r \/ S s)
    (set_reservations (<[i := r']> (db_reservations db)) db).
Proof.
  intros Hq Hi j e Hj He. destruct (Hq j e Hj He) as [?|[?|(k & x & Hx & Hact)]].
  - by left; right.
  - by right; left.
  - destruct (decide (k = i)) as [->|].
    + left; left. rewrite Hi in Hx. injection Hx as ->. symmetry. apply Hact.
    + right; right. exists k, x. simpl. by rewrite lookup_insert_ne.
Qed.

(** ** Handover *)

Lemma handover_coherent H ttl slot db o db' :
  coherent db ->
  (forall i b, db_bookings db !! i = Some b -> ~ active_booking slot b) ->
  handover H ttl slot db o db' -> coherent db'.
Proof.
  intros Hc Hfree. destruct 1 as [|a e id now Ha He Hnew Hnone e' r]; [done|].
  apply next_entry_Some in He as (He & Hslot & Hact & _ & _); [|apply Hc].
  apply (coherent_add_reservation
    (set_waitlist (<[wl_ID e := e']> (db_waitlist db)) db) r); simpl; try done.
  - apply (coherent_move_entry db _ e); auto.
  - split; split; first [by intros [=]|by intros []].
  - exists (wl_ID e), e'. rewrite lookup_insert_eq. by split_and!.
  - intros j r' Hr' Heq. destruct (co_stems _ Hc j r' Hr') as (k & x & Hk & Hx & _ & _ & Hne).
    rewrite Heq in Hk. injection Hk as <-. rewrite He in Hx. by injection Hx as ->.
Qed.

(** With no row locked by others, the handover leaves no waiting user of a free slot. *)
Lemma handover_queue H ttl slot S db o db' :
  (forall a, ok_answer H a -> a_locked a = ∅) ->
  primary wl_ID (db_waitlist db) ->
  queue_ok (fun s => s = slot \/ S s) db -> handover H ttl slot db o db' -> queue_ok S db'.
Proof.
  intros Hl Hpk Hq. destruct 1 as [a Ha Hn|a e id now Ha He Hnew Hnone e' r].
  - intros i e Hi He. destruct (Hq i e Hi He) as [[Hs|?]|?]; [|by left|by right].
    rewrite next_entry_None in Hn. specialize (Hn i e Hi Hs He). rewrite Hl in Hn by done.
    by apply not_elem_of_empty in Hn.
  - apply next_entry_Some in He as (He & Hslot & Hact & _ & _); [|done].
    intros i x Hx Hxact. simpl in Hx. lookups; [done|].
    destruct (Hq i x) as [[Hs|?]|[Hb|(j & y & Hy & Hyact)]]; [done..| |by left| |].
    + right; right. exists id, r. simpl. rewrite lookup_insert_eq. split; [done|].
      rewrite Hs. by split.
    + right; by left.
    + right; right. exists j, y. simpl. rewrite lookup_insert_ne; [done|]. congruence.
Qed.

Lemma handovers_coherent H ttl l db os db' :
  coherent db ->
  (forall r i b, r ∈ l -> db_bookings db !! i = Some b -> ~ active_booking (rs_SlotID r) b) ->
  handovers H ttl l db os db' -> coherent db'.
Proof.
  intros Hc Hfree Hh. induction Hh as [|r l db o db1 os db2 H1 _ IH]; [done|].
  apply IH.
  - eapply handover_coherent; [done| |done]. intros i b. apply Hfree. left.
  - apply handover_frame in H1 as (_ & -> & _). intros r' i b Hr'. apply Hfree. by right.
Qed.

Lemma handover_primary H ttl slot db o db' :
  primary wl_ID (db_waitlist db) -> handover H ttl slot db o db' ->
  primary wl_ID (db_waitlist db').
Proof. intros Hpk. destruct 1; [done|]. by apply primary_update. Qed.

Lemma handovers_queue H ttl l (S : uuid -> Prop) db os db' :
  (forall a, ok_answer H a -> a_locked a = ∅) ->
  primary wl_ID (db_waitlist db) ->
  queue_ok (fun s => s ∈ rs_SlotID <$> l \/ S s) db ->
  handovers H ttl l db os db' -> queue_ok S db'.
Proof.
  intros Hl Hpk Hq Hh. induction Hh as [db|r l db o db1 os db2 H1 _ IH].
  - intros i e Hi He. destruct (Hq i e Hi He) as [[Hs|?]|?]; [|by left|by right].
    by apply not_elem_of_nil in Hs.
  - apply IH; [by eapply handover_primary|]. eapply handover_queue; [done..| |done].
    intros i e Hi He. destruct (Hq i e Hi He) as [[Hs|?]|?]; [|by left; right; right|by right].
    apply elem_of_cons in Hs as [->|Hs]; left; [by left|by right; left].
Qed.

(** ** The transactions keep the invariants *)

Definition queue_fine (db : DB) : Prop := queue_ok (fun _ => False) db.

Definition unlocked (H : Assm) : Prop := forall a, ok_answer H a -> a_locked a = ∅.

Lemma booked_coherent s user slotID now db x db' :
  coherent db -> Booking.reservations s = true ->
  Booking.booked s user slotID now db x db' -> coherent db'.
Proof.
  intros Hc Hres (slot & _ & _ & Hr & _ & _ & Hx & ->). destruct x as [b room].
  apply coherent_add_booking; [done|]. intros j r Hj. injection Hx as -> _. simpl.
  specialize (Hr Hres). rewrite first_where_None in Hr. eauto.
Qed.

Lemma booked_queue s user slotID now db x db' :
  queue_fine db -> Booking.booked s user slotID now db x db' -> queue_fine db'.
Proof. intros Hq (slot & _ & _ & _ & _ & Hnew & _ & ->). by apply queue_add_booking. Qed.

(** After the cancellation nobody has the slot booked. *)
Lemma cancelled_slot_free db id b :
  unique_on same_active_booking (db_bookings db) ->
  db_bookings db !! id = Some b -> bk_Status b = BookingStatusActive ->
  forall i x,
    <[id := BookingRepo.with_Status BookingStatusCancelled b]> (db_bookings db) !! i = Some x ->
    ~ active_booking (bk_SlotID b) x.
Proof.
  intros Huq Hb Hact i x Hx Hx'. lookups; [by destruct Hx'|].
  assert (i = id); [|done]. apply (Huq i id x b); [done..|]. by exists (bk_SlotID b).
Qed.

Lemma booking_cancelled_coherent H s user id db v db' :
  schema db -> coherent db -> Booking.cancelled H s user id db v db' -> coherent db'.
Proof.
  intros Hs Hc. destruct 1 as [|b room o db' Hb Hu Hact Hroom b' db1 Hh]; [done|].
  assert (coherent db1) as Hc1 by by apply coherent_cancel_booking.
  destruct (Booking.waitlists s); [|by destruct Hh as [_ ->]].
  destruct Hh as [(_ & _ & -> & _)|[_ Hh]]; [done|].
  eapply handover_coherent; [exact Hc1| |exact Hh]. intros i x Hx.
  eapply cancelled_slot_free; [apply schema_bookings, Hs|done..].
Qed.

Lemma booking_cancelled_queue H s user id db v db' :
  unlocked H -> Booking.waitlists s = true -> coherent db -> queue_fine db ->
  Booking.cancelled H s user id db v db' -> queue_fine db'.
Proof.
  intros Hl Hw Hc Hq. destruct 1 as [|b room o db' Hb Hu Hact Hroom b' db1 Hh]; [done|].
  assert (queue_ok (fun s => s = bk_SlotID b \/ False) db1) as Hq1
    by by apply queue_cancel_booking.
  rewrite Hw in Hh. eapply handover_queue; [exact Hl| |exact Hq1|].
  - apply Hc.
  - destruct Hh as [(_ & -> & -> & a & Ha & Hn)|[_ Hh]]; [|exact Hh].
    by eapply handover_nobody.
Qed.

Lemma joined_coherent user slotID db e db' :
  coherent db -> Waitlist.joined user slotID db e db' -> coherent db'.
Proof.
  intros Hc (slot & b & now & _ & _ & _ & _ & Hnew & _ & He & ->).
  assert (coherent (set_waitlist_seq (db_waitlist_seq db + 1) db)) as Hc1
    by by apply coherent_seq.
  apply (coherent_add_entry _ e Hc1 Hnew); by rewrite He.
Qed.

Lemma joined_queue user slotID db e db' :
  queue_fine db -> Waitlist.joined user slotID db e db' -> queue_fine db'.
Proof.
  intros Hq (slot & b & now & _ & _ & Hb & _ & _ & _ & He & ->).
  assert (queue_fine (set_waitlist_seq (db_waitlist_seq db + 1) db)) as Hq1 by exact Hq.
  apply (queue_add_entry _ _ e Hq1). rewrite He. simpl.
  apply first_where_Some in Hb as [Hb [i Hi]]. left. by exists i, b.
Qed.

Lemma left_coherent user id db x db' :
  coherent db -> Waitlist.left_waitlist user id db x db' -> coherent db'.
Proof.
  intros Hc (e & He & _ & Hx). case_bool_decide; destruct Hx as [_ ->]; [|done].
  apply (coherent_move_entry db id e); auto.
Qed.

Lemma left_queue user id db x db' :
  queue_fine db -> Waitlist.left_waitlist user id db x db' -> queue_fine db'.
Proof.
  intros Hq (e & He & _ & Hx). case_bool_decide; destruct Hx as [_ ->]; [|done].
  by apply queue_move_entry.
Qed.

Lemma queue_settle (S : uuid -> Prop) db slot :
  queue_ok (fun s => s = slot \/ S s) db -> held db slot -> queue_ok S db.
Proof.
  intros Hq Hh i e Hi He. destruct (Hq i e Hi He) as [[->|?]|?]; [by right|by left|by right].
Qed.

Lemma confirmed_coherent user rid now db x db' :
  schema db -> coherent db -> Reservation.confirmed user rid now db x db' -> coherent db'.
Proof.
  intros Hs Hc. destruct x as [[b r'] room].
  intros (r & slot & Hr & _ & Hact & _ & _ & _ & _ & _ & Hb & -> & _ & ->).
  set (dbR := set_reservations (<[rid := ReservationRepo.confirm now r]> (db_reservations db)) db).
  assert (stamped r) as Hst by by eapply co_stamped.
  assert (coherent dbR) as HcR.
  { apply coherent_deactivate; [done|]. apply deactivated_update; [done|auto with svc|].
    intros _. split; simpl; [split; [by eexists|done]|]. rewrite <- (proj2 Hst), Hact. done. }
  apply (coherent_add_booking dbR b HcR). intros j y Hj Hy. rewrite Hb in Hy. simpl in Hj, Hy.
  lookups; [by destruct Hy|].
  assert (j = rid); [|done].
  apply (uq_slot_reservations_active_slot _ _ _ _ (schema_reservations _ Hs) j rid y r);
    [done..|]. by exists (rs_SlotID r).
Qed.

Lemma confirmed_queue user rid now db x db' :
  queue_fine db -> Reservation.confirmed user rid now db x db' -> queue_fine db'.
Proof.
  intros Hq. destruct x as [[b r'] room].
  intros (r & slot & Hr & _ & _ & _ & _ & _ & _ & Hnew & Hb & -> & _ & ->).
  eapply (queue_settle _ _ (rs_SlotID r)).
  - eapply (queue_add_booking _ (set_reservations _ db) b); [|done].
    by apply queue_deactivate.
  - left. exists (bk_ID b), b. simpl. rewrite lookup_insert_eq. by rewrite Hb.
Qed.

Lemma reservation_cancelled_coherent H s user rid now db v db' :
  coherent db -> Reservation.cancelled H s user rid now db v db' -> coherent db'.
Proof.
  intros Hc. destruct 1 as [|r room o db' Hr Hu Hact Hroom r' db1 Hh]; [done|].
  assert (coherent db1) as Hc1.
  { apply coherent_deactivate; [done|]. apply deactivated_update; [done|auto with svc|].
    intros [H1 H2]. split; simpl; [rewrite <- H1|rewrite <- H2]; by rewrite Hact. }
  destruct (Reservation.waitlists s); [|by destruct Hh as [_ ->]].
  eapply handover_coherent; [exact Hc1| |exact Hh]. intros i b Hb Hbk.
  by eapply (co_exclusive _ Hc i rid b r).
Qed.

Lemma reservation_cancelled_queue H s user rid now db v db' :
  unlocked H -> Reservation.waitlists s = true -> coherent db -> queue_fine db ->
  Reservation.cancelled H s user rid now db v db' -> queue_fine db'.
Proof.
  intros Hl Hw Hc Hq. destruct 1 as [|r room o db' Hr Hu Hact Hroom r' db1 Hh]; [done|].
  rewrite Hw in Hh. eapply handover_queue; [exact Hl| | |exact Hh]; [by apply Hc|].
  by apply queue_deactivate.
Qed.

(** ** The expired batch *)

Lemma expire_rows_other now l t k :
  k ∉ rs_ID <$> l -> ReservationRepo.expire_rows now l t !! k = t !! k.
Proof.
  induction l as [|r l IH]; intros Hk; simpl; [done|].
  apply not_elem_of_cons in Hk as [Hne Hk]. rewrite lookup_insert_ne by done. by apply IH.
Qed.

Lemma picked_stored a now limit db r :
  primary rs_ID (db_reservations db) -> r ∈ ReservationRepo.picked a now limit db ->
  db_reservations db !! rs_ID r = Some r /\ rs_Status r = ReservationStatusActive /\
  (rs_ExpiresAt r <= now)%Z.
Proof.
  intros Hpk Hr. apply elem_of_picked in Hr as ([i Hi] & ? & ? & _).
  by rewrite (Hpk i r Hi).
Qed.

Lemma batch_deactivated a now limit db :
  schema db -> coherent db ->
  let l := ReservationRepo.picked a now limit db in
  deactivated (db_reservations db) (ReservationRepo.expire_rows now l (db_reservations db)).
Proof.
  intros Hs Hc l j r' Hr'.
  assert (forall r, r ∈ l -> exists i, db_reservations db !! i = Some r) as Hl.
  { intros r Hr. apply picked_stored in Hr as [? _]; [by eexists|apply Hc]. }
  destruct (decide (j ∈ rs_ID <$> l)) as [Hj|Hj].
  - destruct (proj2 (expire_rows_ok now l _ _ _ _ (schema_reservations _ Hs) Hl) j r' Hr')
      as (r & Hr & Hr'').
    apply list_elem_of_fmap in Hj as (x & -> & Hx).
    apply picked_stored in Hx as (Hx & Hact & _); [|apply Hc].
    rewrite Hr in Hx. injection Hx as ->. exists x. destruct Hr'' as [->| ->].
    + split_and!; auto.
    + split_and!; auto. intros [Hst _]. split; simpl; [|by split].
      rewrite <- Hst, Hact. done.
  - rewrite expire_rows_other in Hr' by done. exists r'. split_and!; auto.
Qed.

Lemma batch_queue (S : uuid -> Prop) now l db :
  queue_ok S db -> (forall r, r ∈ l -> db_reservations db !! rs_ID r = Some r) ->
  queue_ok (fun s => s ∈ rs_SlotID <$> l \/ S s) (Reservation.batch_expired now l db).
Proof.
  intros Hq Hl i e Hi He. destruct (Hq i e Hi He) as [?|[?|(k & x & Hx & Hact)]].
  - by left; right.
  - by right; left.
  - destruct (decide (k ∈ rs_ID <$> l)) as [Hk|Hk].
    + left; left. apply list_elem_of_fmap in Hk as (r & -> & Hr).
      apply list_elem_of_fmap. exists r. split; [|done].
      rewrite (Hl r Hr) in Hx. injection Hx as ->. symmetry. apply Hact.
    + right; right. exists k, x. simpl. by rewrite expire_rows_other.
Qed.

Lemma expired_coherent H s now limit db x db' :
  schema db -> coherent db -> Reservation.expired_due H s now limit db x db' -> coherent db'.
Proof.
  intros Hs Hc (a & Ha & Hx & os & _ & Hos). simpl in *.
  set (l := ReservationRepo.picked _ _ _ _) in *.
  assert (coherent (Reservation.batch_expired now l db)) as Hc1
    by (apply coherent_deactivate; [done|by apply batch_deactivated]).
  destruct (Reservation.waitlists s); [|by destruct Hos as [_ ->]].
  eapply handovers_coherent; [exact Hc1| |exact Hos]. rewrite Hx.
  intros r' i b Hr' Hb Hbk. apply list_elem_of_fmap in Hr' as (r & -> & Hr).
  apply picked_stored in Hr as (Hr & Hact & _); [|apply Hc].
  by eapply (co_exclusive _ Hc i (rs_ID r) b r).
Qed.

Lemma expired_queue H s now limit db x db' :
  unlocked H -> Reservation.waitlists s = true -> coherent db -> queue_fine db ->
  Reservation.expired_due H s now limit db x db' -> queue_fine db'.
Proof.
  intros Hl Hw Hc Hq (a & Ha & Hx & os & _ & Hos). simpl in *. rewrite Hw in Hos.
  eapply handovers_queue; [exact Hl| | |exact Hos]; [by apply Hc|]. rewrite Hx.
  rewrite <- list_fmap_compose. apply batch_queue; [done|].
  intros r Hr. by apply picked_stored in Hr as [? _]; [|apply Hc].
Qed.
