(* ===== verification/System.v ===== *)
(** * System: the service as main assembles it

    cmd/app/main.go wires one booking, one waitlist and one reservation service over the
    same repositories.  [serve] runs a request (or a tick of the expiration worker) to its
    end, [step] lets any request run in any admissible environment, and [reachable] is
    what such runs lead to from a database in which nothing is booked yet. *)

From S2P Require Import Prelude Domain Database Program Postgres Schema Usecase Handover Invariant.
From S2P Require Booking Waitlist Reservation.

(** The settings of config.Config the use cases depend on. *)
Record Settings := {
  ReservationTTL : Duration;
  ReservationExpireBatch : Z }.

Definition bookingService (cfg : Settings) : Booking.Service :=
  Booking.WithMetrics (Some prometheusMetrics)
    (Booking.WithReservationRepository (ReservationTTL cfg)
      (Booking.WithWaitlistRepository
        (Booking.NewService [Some redisPublisher]))).

Definition reservationService (cfg : Settings) : Reservation.Service :=
  Reservation.WithMetrics (Some prometheusMetrics)
    (Reservation.NewService true (Some redisPublisher) (ReservationTTL cfg)).

(** The calls of the HTTP handlers into the use cases, and the worker's tick. *)
Inductive Request :=
| ReqCreateBooking (user : User) (slotID : uuid) (createConferenceLink : bool)
| ReqCancelBooking (user : User) (bookingID : uuid)
| ReqListBookings (user : User) (page pageSize : Z)
| ReqListMyBookings (user : User)
| ReqJoinWaitlist (user : User) (slotID : uuid)
| ReqLeaveWaitlist (user : User) (entryID : uuid)
| ReqConfirmReservation (user : User) (reservationID : uuid)
| ReqCancelReservation (user : User) (reservationID : uuid)
| ReqListMyActiveReservations (user : User)
| TickExpireDue.

Definition answered {A} (p : prog (result A)) : prog (result unit) := let? _ := p in ok tt.

Definition serve (cfg : Settings) (req : Request) : prog (result unit) :=
  match req with
  | ReqCreateBooking user slotID link =>
      answered (Booking.CreateBooking (bookingService cfg) user slotID link)
  | ReqCancelBooking user id => answered (Booking.CancelBooking (bookingService cfg) user id)
  | ReqListBookings user page pageSize => answered (Booking.ListBookings user page pageSize)
  | ReqListMyBookings user => answered (Booking.ListMyBookings user)
  | ReqJoinWaitlist user slotID => answered (Waitlist.JoinWaitlist user slotID)
  | ReqLeaveWaitlist user id => answered (Waitlist.LeaveWaitlist user id)
  | ReqConfirmReservation user id =>
      answered (Reservation.ConfirmReservation (reservationService cfg) user id)
  | ReqCancelReservation user id =>
      answered (Reservation.CancelReservation (reservationService cfg) user id)
  | ReqListMyActiveReservations user => answered (Reservation.ListMyActiveReservations user)
  | TickExpireDue =>
      answered (Reservation.ExpireDue (reservationService cfg) (ReservationExpireBatch cfg))
  end.

(** Requests run one after the other; [H] is assumed of each environment. *)
Inductive step (H : Assm) (cfg : Settings) (w w' : World) : Prop :=
| step_serve E req : respects H E -> w' = (run E (serve cfg req) w).2 -> step H cfg w w'.

Definition fresh_start (db : DB) : Prop :=
  schema db /\ db_bookings db = ∅ /\ db_waitlist db = ∅ /\ db_reservations db = ∅.

Inductive reachable (H : Assm) (cfg : Settings) : World -> Prop :=
| reachable_start w : fresh_start (w_db w) -> reachable H cfg w
| reachable_step w w' : reachable H cfg w -> step H cfg w w' -> reachable H cfg w'.

(** ** Every handler keeps the schema *)

#[export] Instance publish_keeps p ev : Keeps (publish p ev).
Proof. destruct p; apply _. Qed.
#[export] Instance inc_keeps m c : Keeps (inc m c).
Proof. destruct m; apply _. Qed.
#[export] Instance observe_keeps c : Keeps (observe c).
Proof. apply output_keeps. Qed.
Lemma expire_loop_keeps s now l v : Keeps (Reservation.expire_loop s now l v).
Proof. revert v. induction l; intros v; cbn [Reservation.expire_loop]; keep; auto. Qed.
Lemma announce_expired_keeps s v l : Keeps (Reservation.announce_expired s v l).
Proof. induction l; cbn [Reservation.announce_expired Reservation.announce_replacements]; keep; auto. Qed.
Lemma announce_replacements_keeps s l : Keeps (Reservation.announce_replacements s l).
Proof. induction l; cbn [Reservation.announce_expired Reservation.announce_replacements]; keep; auto. Qed.
#[export] Existing Instance expire_loop_keeps.
#[export] Existing Instance announce_expired_keeps.
#[export] Existing Instance announce_replacements_keeps.

Lemma serve_keeps cfg req : Keeps (serve cfg req).
Proof.
  unfold serve, answered. destruct req; unfold
    Booking.CreateBooking, Booking.create_booking_tx, Booking.CancelBooking,
    Booking.cancel_booking_tx, Booking.ListBookings, Booking.ListMyBookings,
    Waitlist.JoinWaitlist, Waitlist.join_waitlist_tx, Waitlist.LeaveWaitlist,
    Waitlist.leave_waitlist_tx, Reservation.ConfirmReservation,
    Reservation.confirm_reservation_tx, Reservation.CancelReservation,
    Reservation.cancel_reservation_tx, Reservation.ListMyActiveReservations,
    Reservation.ExpireDue, Reservation.expire_due_tx.
  all: keep.
Qed.

(** ** Every handler keeps the invariants *)

(** A program that leaves the database alone. *)
Class Silent {A} (p : prog A) : Prop :=
  silent : forall H (Q : A -> DB -> list Output -> Prop) db out,
    (forall a out', Q a db out') -> wp H p Q db out.

#[export] Instance ret_silent {A} (a : A) : Silent (Ret a).
Proof. intros H Q db out HQ. apply HQ. Qed.
#[export] Instance ok_silent {A} (a : A) : Silent (ok a).
Proof. apply ret_silent. Qed.
#[export] Instance fail_silent {A} e : Silent (@fail A e).
Proof. apply ret_silent. Qed.
#[export] Instance publish_silent p ev : Silent (publish p ev).
Proof. intros H Q db out HQ. apply wp_publish, HQ. Qed.
#[export] Instance inc_silent m c : Silent (inc m c).
Proof. intros H Q db out HQ. apply wp_inc, HQ. Qed.
#[export] Instance observe_silent c : Silent (observe c).
Proof. intros H Q db out HQ. apply HQ. Qed.
Lemma bind_silent {A B} (p : prog A) (k : A -> prog B) :
  Silent p -> (forall a, Silent (k a)) -> Silent (bind p k).
Proof. intros Hp Hk H Q db out HQ. apply wp_bind, Hp. intros a out'. by apply Hk. Qed.

Ltac silence :=
  repeat first [ apply bind_silent; [|intros ?] | apply _ | case_match | progress cbn beta iota ].

Lemma announce_expired_silent s v l : Silent (Reservation.announce_expired s v l).
Proof. induction l; cbn [Reservation.announce_expired]; silence; auto. Qed.
Lemma announce_replacements_silent s l : Silent (Reservation.announce_replacements s l).
Proof. induction l; cbn [Reservation.announce_replacements]; silence; auto. Qed.
#[export] Existing Instance announce_expired_silent.
#[export] Existing Instance announce_replacements_silent.

(** The invariant of the handlers; the queue part needs that no rows are locked. *)
Definition inv (H : Assm) (db : DB) : Prop := coherent db /\ (unlocked H -> queue_fine db).

Lemma inv_seq H n db : inv H db -> inv H (set_waitlist_seq n db).
Proof. intros [Hc Hq]. split; [by apply coherent_seq|exact Hq]. Qed.

(** A transaction whose committed body establishes [I], followed by a silent program;
    [I] holds of the unchanged tables, which are what a failure leaves. *)
Lemma wp_tx_post H {A B} (I : DB -> Prop) (fn : prog (result A)) (k : result A -> prog B) db out :
  (forall n, I (set_waitlist_seq n db)) ->
  (forall r, Silent (k r)) ->
  wp H fn (fun r db' out' => out' = out /\ match r with Ok _ => I db' | Err _ => True end)
    db out ->
  wp H (bind (WithinTransaction fn) k) (fun _ db' _ => I db') db out.
Proof.
  intros Hi Hk Hfn.
  assert (I db) as Hdb by (specialize (Hi (db_waitlist_seq db)); by destruct db).
  apply wp_bind, wp_tx; [intros _ m; apply Hk; by intros|].
  eapply wp_mono; [|exact Hfn]. intros [a|e] db' out' [-> HP].
  - split; [by apply Hk; intros|]. intros _ m db'' [->| ->]; apply Hk; intros; [done|]. apply Hi.
  - split; [|intros _]; apply Hk; intros; apply Hi.
Qed.

Lemma wp_tx_inv H {A B} (fn : prog (result A)) (k : result A -> prog B) db out :
  inv H db ->
  (forall r, Silent (k r)) ->
  wp H fn (fun r db' out' => out' = out /\ match r with Ok _ => inv H db' | Err _ => True end)
    db out ->
  wp H (bind (WithinTransaction fn) k) (fun _ db' _ => inv H db') db out.
Proof. intros Hi. apply wp_tx_post. intros n. by apply inv_seq. Qed.

(** The specification of a transaction body, with its post-condition weakened. *)
Lemma tx_post_mono H {A} (fn : prog (result A)) (P P' : A -> DB -> Prop) db out :
  (forall a db', P a db' -> P' a db') ->
  wp H fn (fun r db' out' => out' = out /\ match r with Ok a => P a db' | Err _ => True end)
    db out ->
  wp H fn (fun r db' out' => out' = out /\ match r with Ok a => P' a db' | Err _ => True end)
    db out.
Proof. intros HP. apply wp_mono. intros [a|e] db' out' [-> ?]; auto. Qed.

Lemma wp_silent H {A} (p : prog A) (I : DB -> Prop) db out :
  Silent p -> I db -> wp H p (fun _ db' _ => I db') db out.
Proof. intros Hp HI. by apply Hp. Qed.

(** Reading handlers: a query, then a silent continuation. *)
Lemma wp_read H {R A} (f : Answer -> DB -> R) (k : result R -> prog A) (I : DB -> Prop) db out :
  (forall r, Silent (k r)) -> I db ->
  wp H (bind (perform (Sql (select f))) k) (fun _ db' _ => I db') db out.
Proof. intros Hk HI. apply wp_select; intros; by apply Hk. Qed.

(** The reading handlers leave the database alone. *)
Section readers.
Context (H : Assm) (I : DB -> Prop) (db : DB) (out : list Output) (Hi : I db).

Local Abbreviation leaves p := (wp H p (fun _ db' _ => I db') db out).

Lemma list_bookings_reads user page pageSize : leaves (Booking.ListBookings user page pageSize).
Proof.
  unfold Booking.ListBookings, BookingRepo.List.
  repeat case_match; try solve [apply wp_silent; [by silence|done]].
  apply wp_query; [intros; norm; by apply wp_silent; [silence|]|]. norm.
  assert (forall l o a, (BookingRepo.page_of l o a db).2 = db) as Hro
    by (intros; unfold BookingRepo.page_of; by repeat case_match).
  apply wp_sql; [intros _ a m; rewrite Hro; split|intros a _; rewrite Hro]; norm;
    by apply wp_silent; [silence|].
Qed.

Lemma list_my_bookings_reads user : leaves (Booking.ListMyBookings user).
Proof.
  unfold Booking.ListMyBookings. case_bool_decide; [by apply wp_silent; [silence|]|].
  apply wp_now. intros now _. by apply wp_read; [intros; silence|].
Qed.

Lemma list_reservations_reads user : leaves (Reservation.ListMyActiveReservations user).
Proof.
  unfold Reservation.ListMyActiveReservations.
  case_bool_decide; [by apply wp_silent; [silence|]|].
  apply wp_now. intros now _. by apply wp_read; [intros; silence|].
Qed.
End readers.

Section handlers.
Context (H : Assm) (cfg : Settings) (db : DB) (out : list Output).
Context (Hs : schema db) (Hi : inv H db).

Local Abbreviation keeps_inv p := (wp H p (fun _ db' _ => inv H db') db out).

Ltac tx_inv spec :=
  apply wp_tx_inv; [exact Hi|intros; silence|];
  eapply tx_post_mono; [|apply spec]; [intros ? ? ?|..]; try exact Hs.

Lemma create_booking_inv user slotID link :
  keeps_inv (Booking.CreateBooking (bookingService cfg) user slotID link).
Proof.
  unfold Booking.CreateBooking. case_bool_decide; [by apply wp_silent; [silence|]|].
  apply wp_now. intros now _. tx_inv Booking.create_booking_tx_spec. destruct Hi as [Hc Hq].
  split; [eapply booked_coherent; eauto; done|]. intros Hl. by eapply booked_queue; [apply Hq|].
Qed.

Lemma cancel_booking_inv user id :
  keeps_inv (Booking.CancelBooking (bookingService cfg) user id).
Proof.
  unfold Booking.CancelBooking. case_bool_decide; [by apply wp_silent; [silence|]|].
  tx_inv Booking.cancel_booking_tx_spec. destruct Hi as [Hc Hq].
  split; [by eapply booking_cancelled_coherent|].
  intros Hl. eapply booking_cancelled_queue; eauto. done.
Qed.

Lemma join_waitlist_inv user slotID : keeps_inv (Waitlist.JoinWaitlist user slotID).
Proof.
  unfold Waitlist.JoinWaitlist. case_bool_decide; [by apply wp_silent; [silence|]|].
  tx_inv Waitlist.join_waitlist_tx_spec. destruct Hi as [Hc Hq].
  split; [by eapply joined_coherent|]. intros Hl. by eapply joined_queue; [apply Hq|].
Qed.

Lemma leave_waitlist_inv user id : keeps_inv (Waitlist.LeaveWaitlist user id).
Proof.
  unfold Waitlist.LeaveWaitlist. case_bool_decide; [by apply wp_silent; [silence|]|].
  tx_inv Waitlist.leave_waitlist_tx_spec. destruct Hi as [Hc Hq].
  split; [by eapply left_coherent|]. intros Hl. by eapply left_queue; [apply Hq|].
Qed.

Lemma confirm_reservation_inv s user id :
  keeps_inv (Reservation.ConfirmReservation s user id).
Proof.
  unfold Reservation.ConfirmReservation. case_bool_decide; [by apply wp_silent; [silence|]|].
  apply wp_now. intros now _. tx_inv Reservation.confirm_reservation_tx_spec.
  destruct Hi as [Hc Hq]. split; [by eapply confirmed_coherent|].
  intros Hl. by eapply confirmed_queue; [apply Hq|].
Qed.

Lemma cancel_reservation_inv user id :
  keeps_inv (Reservation.CancelReservation (reservationService cfg) user id).
Proof.
  unfold Reservation.CancelReservation. case_bool_decide; [by apply wp_silent; [silence|]|].
  apply wp_now. intros now _. tx_inv Reservation.cancel_reservation_tx_spec.
  destruct Hi as [Hc Hq]. split; [by eapply reservation_cancelled_coherent|].
  intros Hl. eapply reservation_cancelled_queue; eauto. done.
Qed.

Lemma expire_due_inv limit :
  keeps_inv (Reservation.ExpireDue (reservationService cfg) limit).
Proof.
  unfold Reservation.ExpireDue. apply wp_now. intros now _.
  tx_inv Reservation.expire_due_tx_spec. destruct Hi as [Hc Hq].
  split; [by eapply expired_coherent|]. intros Hl. eapply expired_queue; eauto. done.
Qed.

Lemma serve_inv req : keeps_inv (serve cfg req).
Proof.
  unfold serve, answered. destruct req; apply wp_bind;
    eapply (wp_mono H _ (fun _ db' _ => inv H db')); try (intros [] ? ? ?; by apply wp_ret);
    auto using create_booking_inv, cancel_booking_inv, join_waitlist_inv,
      leave_waitlist_inv, confirm_reservation_inv, cancel_reservation_inv, expire_due_inv,
      list_bookings_reads, list_my_bookings_reads, list_reservations_reads.
Qed.
End handlers.

Lemma fresh_start_inv H db : fresh_start db -> inv H db.
Proof.
  intros (Hs & Hb & Hw & Hr). split.
  - constructor.
    + apply schema_waitlist, Hs.
    + apply schema_reservations, Hs.
    + intros i j b r slot. by rewrite Hb, lookup_empty.
    + intros j r. by rewrite Hr, lookup_empty.
    + intros i j r r'. by rewrite Hr, lookup_empty.
    + intros j r. by rewrite Hr, lookup_empty.
    + intros i e. by rewrite Hw, lookup_empty.
  - intros _ i e. by rewrite Hw, lookup_empty.
Qed.

Lemma reachable_inv H cfg w : reachable H cfg w -> schema (w_db w) /\ inv H (w_db w).
Proof.
  induction 1 as [w Hw|w w' _ [Hs Hi] Hstep].
  - split; [apply Hw|by apply fresh_start_inv].
  - destruct Hstep as [E req HE ->]. split.
    + by apply (serve_keeps cfg req E w).
    + by apply (wp_run H E (serve cfg req) (fun _ db' _ => inv H db') w HE), serve_inv.
Qed.
