(* ===== verification/Scenario.v ===== *)
(** * Scenario: a small concrete deployment

    One room with two slots, an administrator and three users, an environment in which
    nothing fails, and the worlds a few requests lead to.  The witnesses of the theorems
    evaluate on it. *)

From S2P Require Import Prelude Domain Database Program Postgres Schema Usecase Handover.
From S2P Require Import Invariant System.

Definition user (id : N) (email : string) (role : UserRole) : User :=
  {| us_ID := id; us_Email := email; us_PasswordHash := None; us_Role := role;
     us_CreatedAt := 0 |}.

Definition alice : User := user 1 "alice@example.com" RoleUser.
Definition bob : User := user 2 "bob@example.com" RoleUser.
Definition carol : User := user 3 "carol@example.com" RoleUser.
Definition root : User := user 4 "root@example.com" RoleAdmin.

Definition blue_room : Room :=
  {| rm_ID := 10; rm_Name := "blue"; rm_Description := None; rm_Capacity := Some 4%Z;
     rm_CreatedAt := 0 |}.

Definition morning : Slot :=
  {| sl_ID := 20; sl_RoomID := 10; sl_StartTime := 32400 * Second; sl_EndTime := 34200 * Second;
     sl_CreatedAt := 0 |}.
Definition noon : Slot :=
  {| sl_ID := 21; sl_RoomID := 10; sl_StartTime := 43200 * Second; sl_EndTime := 45000 * Second;
     sl_CreatedAt := 0 |}.

Definition db0 : DB :=
  {| db_users := {[ 1%N := alice; 2%N := bob; 3%N := carol; 4%N := root ]};
     db_rooms := {[ 10%N := blue_room ]};
     db_schedule_rows := ∅;
     db_slots := {[ 20%N := morning; 21%N := noon ]};
     db_bookings := ∅; db_waitlist := ∅; db_reservations := ∅; db_waitlist_seq := 0 |}.

(** A server in UTC that lists ties in the order of the table. *)
Definition answer : Answer :=
  {| a_fault := None; a_lost := false; a_locked := ∅; a_order _ := 0; a_returned _ := 0;
     a_now := 3600 * Second; a_next_day d := d + Day |}%Z.

(** One hour past midnight; identifiers are numbered from 1000. *)
Definition one_am : time := (3600 * Second)%Z.
Definition env : Env :=
  {| env_answer _ := answer; env_now _ := one_am; env_uuid n := (1000 + N.of_nat n)%N |}.
Definition quiet : Assm := calm one_am (fun _ => True).

(** The same day at 02:00, when a reservation made at 01:00 has expired. *)
Definition two_am : time := (7200 * Second)%Z.
Definition late : Env :=
  {| env_answer _ := answer; env_now _ := two_am; env_uuid n := (1000 + N.of_nat n)%N |}.

Definition start : World :=
  {| w_db := db0; w_calls := 0; w_clock := 0; w_ids := 0; w_out := [] |}.

Definition settings : Settings :=
  {| ReservationTTL := 300 * Second; ReservationExpireBatch := 100 |}.

Definition then_ (E : Env) (w : World) (req : Request) : World :=
  (run E (serve settings req) w).2.
Definition after (E : Env) (reqs : list Request) (w : World) : World :=
  fold_left (then_ E) reqs w.

(** Alice books the morning slot; Bob and Carol queue for it. *)
Definition queued : World :=
  after env [ReqCreateBooking alice 20 false; ReqJoinWaitlist bob 20; ReqJoinWaitlist carol 20]
    start.
(** Alice cancels: the slot is reserved for Bob. *)
Definition offered : World := after env [ReqCancelBooking alice 1000] queued.

Lemma env_quiet : respects quiet env.
Proof. by split. Qed.

Lemma quiet_unlocked : unlocked quiet.
Proof. by intros a [_ Ha]. Qed.

(** Case analysis on the rows of a table that is given row by row. *)
Ltac each_row :=
  repeat match goal with
  | H : (∅ : gmap _ _) !! _ = Some _ |- _ => by rewrite lookup_empty in H
  | H : {[_ := _]} !! _ = Some _ |- _ => apply lookup_singleton_Some in H as [<- <-]
  | H : <[_ := _]> _ !! _ = Some _ |- _ => apply lookup_insert_Some in H as [[<- <-]|[_ H]]
  end.

Lemma db0_schema : schema db0.
Proof.
  constructor; simpl; try (constructor; intros ?; intros; by each_row).
  - constructor; [intros i u ?|intros i j u v ? ?|intros i u ?]; each_row; simpl; auto; done.
  - intros i r ?. by each_row.
  - constructor; [intros i s ?|intros i s ?|intros i j s s' ? ? (_ & ? & ?)|intros i s k ? [= <-]];
      each_row; simpl in *; unfold Second in *; try done; try lia. all: eauto.
Qed.

Lemma start_fresh : fresh_start (w_db start).
Proof. split; [exact db0_schema|done]. Qed.

Lemma after_reachable H E reqs w :
  respects H E -> reachable H settings w -> reachable H settings (after E reqs w).
Proof.
  intros HE. revert w. induction reqs as [|req reqs IH]; intros w Hw; [done|].
  apply IH. apply (reachable_step _ _ w); [done|]. by exists E req.
Qed.

Lemma queued_reachable : reachable quiet settings queued.
Proof. apply after_reachable; [apply env_quiet|]. apply reachable_start, start_fresh. Qed.
Lemma offered_reachable : reachable quiet settings offered.
Proof. apply after_reachable; [apply env_quiet|apply queued_reachable]. Qed.
