(* ===== verification/Machine.v ===== *)
(** * Machine: the abstract life of one slot, and the service as its refinement

    [SlotState] is what a user sees of a slot: who holds it, and who waits for it, in
    order.  [slot_step] is the contract of the service: which actor may move a slot how.
    [slot_state] reads that state off the tables, and every request moves every slot by
    at most one step of its actor.  The contract is strict about the queue as long as no
    transaction holds waitlist entries locked; SKIP LOCKED passes over those that are. *)

From S2P Require Import Prelude Domain Database Program Postgres Schema Usecase Handover.
From S2P Require Import Invariant System Scenario.
From S2P Require Booking Waitlist Reservation.

(** ** The abstract machine *)

Inductive Holder :=
| Free
| BookedBy (user : uuid)
| ReservedFor (user : uuid).

Record SlotState := {
  holder : Holder;
  queue : list uuid }.

(** A slot that lost its holder goes to the first of its queue, or stays free when nobody
    queues.  Where entries may be [skipped], it goes to somebody of the queue or to nobody. *)
Inductive settled (skipped : Prop) (q : list uuid) : SlotState -> Prop :=
| settled_for q1 u q2 :
    q = q1 ++ u :: q2 -> q1 = [] \/ skipped ->
    settled skipped q {| holder := ReservedFor u; queue := q1 ++ q2 |}
| settled_free : q = [] \/ skipped -> settled skipped q {| holder := Free; queue := q |}.

(** Who acts: a user, or the expiration worker. *)
Inductive Actor :=
| User_ (user : uuid)
| Worker.

Inductive slot_step (skipped : Prop) : Actor -> SlotState -> SlotState -> Prop :=
| slot_book u q :
    q = [] \/ skipped ->
    slot_step skipped (User_ u) {| holder := Free; queue := q |} {| holder := BookedBy u; queue := q |}
| slot_join u v q :
    u <> v -> u ∉ q ->
    slot_step skipped (User_ u) {| holder := BookedBy v; queue := q |}
      {| holder := BookedBy v; queue := q ++ [u] |}
| slot_leave u h q1 q2 :
    slot_step skipped (User_ u) {| holder := h; queue := q1 ++ u :: q2 |}
      {| holder := h; queue := q1 ++ q2 |}
| slot_release u q s :
    settled skipped q s -> slot_step skipped (User_ u) {| holder := BookedBy u; queue := q |} s
| slot_confirm u q :
    slot_step skipped (User_ u) {| holder := ReservedFor u; queue := q |}
      {| holder := BookedBy u; queue := q |}
| slot_decline u q s :
    settled skipped q s -> slot_step skipped (User_ u) {| holder := ReservedFor u; queue := q |} s
| slot_expire u q s :
    settled skipped q s -> slot_step skipped Worker {| holder := ReservedFor u; queue := q |} s.

Definition slot_moves (skipped : Prop) (actor : Actor) (s s' : SlotState) : Prop :=
  s' = s \/ slot_step skipped actor s s'.

(** ** Reading the abstract state off the tables *)

Definition holder_of (db : DB) (slot : uuid) : Holder :=
  match first_where (active_booking slot) (db_bookings db) with
  | Some b => BookedBy (bk_UserID b)
  | None =>
      match first_where (active_reservation slot) (db_reservations db) with
      | Some r => ReservedFor (rs_UserID r)
      | None => Free
      end
  end.

Definition waiting (slot : uuid) (e : WaitlistEntry) : Prop :=
  wl_SlotID e = slot /\ wl_Status e = WaitlistStatusActive.

#[global] Instance waiting_dec slot e : Decision (waiting slot e).
Proof. unfold waiting. apply _. Defined.

Definition entries (slot : uuid) (t : gmap uuid WaitlistEntry) : list WaitlistEntry :=
  order_by wl_Position (filter (waiting slot) (rows t)).

Definition slot_state (db : DB) (slot : uuid) : SlotState :=
  {| holder := holder_of db slot; queue := wl_UserID <$> entries slot (db_waitlist db) |}.

Definition actor_of (req : Request) : Actor :=
  match req with
  | ReqCreateBooking user _ _ | ReqCancelBooking user _ | ReqListBookings user _ _
  | ReqListMyBookings user | ReqJoinWaitlist user _ | ReqLeaveWaitlist user _
  | ReqConfirmReservation user _ | ReqCancelReservation user _
  | ReqListMyActiveReservations user => User_ (us_ID user)
  | TickExpireDue => Worker
  end.

(** ** The queue of a slot *)

Definition distinct (t : gmap uuid WaitlistEntry) : Prop :=
  unique_on (fun x y => wl_Position x = wl_Position y) t.

Section entries.
Context (slot : uuid) (t : gmap uuid WaitlistEntry) (Hd : distinct t).

Lemma elem_of_entries e :
  e ∈ entries slot t <-> waiting slot e /\ exists i, t !! i = Some e.
Proof. unfold entries. by rewrite elem_of_order_by, list_elem_of_filter, elem_of_rows. Qed.

(** A list with the waiting entries, in order of position, is the queue. *)
Lemma entries_unique l :
  l ≡ₚ filter (waiting slot) (rows t) -> StronglySorted (key_le wl_Position) l ->
  entries slot t = l.
Proof.
  intros Hp Hs. apply order_by_unique; [|done..].
  intros x y Hx Hy Heq. apply list_elem_of_filter in Hx as [_ Hx], Hy as [_ Hy].
  apply elem_of_rows in Hx as [i Hx], Hy as [j Hy].
  assert (i = j) as -> by by eapply Hd. congruence.
Qed.

Lemma entries_perm : entries slot t ≡ₚ filter (waiting slot) (rows t).
Proof. apply order_by_Permutation. Qed.

Lemma entries_sorted : StronglySorted (key_le wl_Position) (entries slot t).
Proof. apply order_by_ssorted. Qed.
End entries.

Lemma distinct_update t i e e' :
  distinct t -> t !! i = Some e -> wl_Position e' = wl_Position e -> distinct (<[i := e']> t).
Proof.
  intros Hd Hi Hp. apply unique_insert; [done|]. rewrite Hp. intros j y Hj Hne Hc.
  apply Hne. symmetry. apply (Hd i j e y); [done..|lia].
Qed.

Lemma distinct_add t i e :
  distinct t -> (forall j x, t !! j = Some x -> (wl_Position x < wl_Position e)%Z) ->
  distinct (<[i := e]> t).
Proof.
  intros Hd Hp. apply unique_insert; [done|]. simpl. intros j y Hj _ Hc.
  apply Hp in Hj. lia.
Qed.

(** A new entry with the greatest position goes to the end of its queue. *)
Lemma entries_add slot t i e :
  distinct t -> t !! i = None ->
  (forall j x, t !! j = Some x -> (wl_Position x < wl_Position e)%Z) ->
  wl_Status e = WaitlistStatusActive ->
  entries slot (<[i := e]> t) =
    if decide (wl_SlotID e = slot) then entries slot t ++ [e] else entries slot t.
Proof.
  intros Hd Hi Hp Hact. pose proof (distinct_add t i e Hd Hp) as Hd'.
  apply entries_unique; [done|..].
  - rewrite rows_insert, filter_cons by done. unfold waiting at 2.
    destruct (decide (wl_SlotID e = slot)) as [Hs|Hs].
    + rewrite decide_True by done. rewrite Permutation_app_comm. simpl. f_equiv. apply entries_perm.
    + rewrite decide_False by naive_solver. apply entries_perm.
  - case_decide; [|apply entries_sorted]. apply StronglySorted_app. split_and!.
    + intros x y Hx Hy. apply list_elem_of_singleton in Hy as ->.
      apply elem_of_entries in Hx as [_ [j Hj]]. unfold key_le. apply Hp in Hj. lia.
    + apply entries_sorted.
    + repeat constructor.
Qed.

(** An entry that stops waiting leaves its queue; the others keep their order. *)
Lemma entries_stop slot t i e e' q1 q2 :
  distinct t -> t !! i = Some e -> wl_Position e' = wl_Position e ->
  wl_Status e' <> WaitlistStatusActive -> entries slot t = q1 ++ e :: q2 ->
  entries slot (<[i := e']> t) = q1 ++ q2.
Proof.
  intros Hd Hi Hp Hne Hq.
  assert (waiting slot e) as Hw.
  { apply (elem_of_entries slot t). rewrite Hq. apply elem_of_app. right. left. }
  apply entries_unique; [by eapply distinct_update|..].
  - rewrite rows_update, filter_cons, decide_False by (intros []; done).
    pose proof (entries_perm slot t) as Hperm.
    rewrite Hq, (rows_delete t i e Hi), filter_cons, decide_True in Hperm by done.
    rewrite <- Permutation_middle in Hperm. by apply Permutation_cons_inv in Hperm.
  - pose proof (entries_sorted slot t) as Hs. rewrite Hq in Hs.
    apply StronglySorted_app in Hs as (Hlt & Hs1 & Hs2).
    apply StronglySorted_cons in Hs2 as [_ Hs2]. apply StronglySorted_app. split_and!; [|done..].
    intros x y Hx Hy. apply Hlt; [done|by right].
Qed.

(** An update of an entry that does not wait for the slot, before or after. *)
Lemma entries_other slot t i e e' :
  distinct t -> t !! i = Some e -> wl_Position e' = wl_Position e ->
  ~ waiting slot e -> ~ waiting slot e' -> entries slot (<[i := e']> t) = entries slot t.
Proof.
  intros Hd Hi Hp Hne Hne'. apply entries_unique; [by eapply distinct_update| |apply entries_sorted].
  rewrite rows_update, filter_cons, decide_False by done.
  rewrite entries_perm, (rows_delete t i e Hi), filter_cons, decide_False by done. done.
Qed.

(** With no row locked, the claimed entry is the head of the queue. *)
Lemma next_entry_head slot db :
  WaitlistRepo.next_entry ∅ slot db = head (entries slot (db_waitlist db)).
Proof.
  unfold WaitlistRepo.next_entry, entries. do 2 f_equal.
  apply list_filter_iff. intros e. unfold waiting. set_solver.
Qed.

(** ** The holder of a slot *)

Definition holds (db : DB) (slot : uuid) (h : Holder) : Prop :=
  match h with
  | BookedBy u => exists i b, db_bookings db !! i = Some b /\ active_booking slot b /\ bk_UserID b = u
  | ReservedFor u =>
      exists j r, db_reservations db !! j = Some r /\ active_reservation slot r /\ rs_UserID r = u
  | Free => ~ held db slot
  end.

Lemma held_by_booking db slot i b :
  db_bookings db !! i = Some b -> active_booking slot b -> holds db slot (BookedBy (bk_UserID b)).
Proof. intros. by exists i, b. Qed.
Lemma held_by_reservation db slot j r :
  db_reservations db !! j = Some r -> active_reservation slot r ->
  holds db slot (ReservedFor (rs_UserID r)).
Proof. intros. by exists j, r. Qed.

Definition exclusive (db : DB) : Prop :=
  unique_on same_active_booking (db_bookings db) /\
  unique_on same_active_reservation (db_reservations db) /\
  forall i j b r slot, db_bookings db !! i = Some b -> db_reservations db !! j = Some r ->
    active_booking slot b -> active_reservation slot r -> False.

Lemma schema_exclusive db : schema db -> coherent db -> exclusive db.
Proof.
  intros Hs Hc. split_and!; [apply schema_bookings, Hs|apply schema_reservations, Hs|].
  by apply co_exclusive.
Qed.

Lemma holds_holder db slot : holds db slot (holder_of db slot).
Proof.
  unfold holder_of. destruct (first_where _ (db_bookings db)) as [b|] eqn:Hb.
  { apply first_where_Some in Hb as [Hb [i Hi]]. by eapply held_by_booking. }
  destruct (first_where _ (db_reservations db)) as [r|] eqn:Hr.
  { apply first_where_Some in Hr as [Hr [j Hj]]. by eapply held_by_reservation. }
  rewrite first_where_None in Hb. rewrite first_where_None in Hr. intros [(i & b & Hi & H)|(j & r & Hj & H)]; naive_solver.
Qed.

Lemma holds_unique db slot h h' : exclusive db -> holds db slot h -> holds db slot h' -> h = h'.
Proof.
  intros (Hb & Hr & Hx).
  destruct h as [|u|u], h' as [|v|v]; simpl; try done; unfold held; try naive_solver.
  - intros (i & b & Hi & Hib & <-) (j & b' & Hj & Hjb & <-).
    assert (i = j) as -> by (eapply Hb; eauto; by exists slot). congruence.
  - intros (i & b & Hi & Hib & <-) (j & b' & Hj & Hjb & <-).
    assert (i = j) as -> by (eapply Hr; eauto; by exists slot). congruence.
Qed.

Lemma holder_is db slot h : exclusive db -> holds db slot h -> holder_of db slot = h.
Proof. intros Hx Hh. eapply holds_unique; eauto using holds_holder. Qed.

Lemma free_not_held db slot : exclusive db -> holder_of db slot = Free <-> ~ held db slot.
Proof.
  intros Hx. split.
  - intros Hf. pose proof (holds_holder db slot) as Hh. by rewrite Hf in Hh.
  - intros Hh. by apply holder_is.
Qed.

(** ** Freeing slots *)

(** [db1] is [db] without the active rows of the slots in [S]. *)
Record freed (S : uuid -> Prop) (db db1 : DB) : Prop := {
  freed_waitlist : db_waitlist db1 = db_waitlist db;
  freed_bookings : forall i b slot, active_booking slot b ->
    db_bookings db1 !! i = Some b <-> db_bookings db !! i = Some b /\ ~ S slot;
  freed_reservations : forall j r slot, active_reservation slot r ->
    db_reservations db1 !! j = Some r <-> db_reservations db !! j = Some r /\ ~ S slot }.

Lemma freed_exclusive S db db1 : exclusive db -> freed S db db1 -> exclusive db1.
Proof.
  intros (Hb & Hr & Hx) [_ Hfb Hfr]. split_and!.
  - intros i j b b' Hi Hj (s & Hs & Hs'). apply (Hfb _ _ s) in Hi, Hj; [|done..].
    destruct Hi, Hj. eapply Hb; eauto. by exists s.
  - intros i j b b' Hi Hj (s & Hs & Hs'). apply (Hfr _ _ s) in Hi, Hj; [|done..].
    destruct Hi, Hj. eapply Hr; eauto. by exists s.
  - intros i j b r s Hi Hj Hs Hs'. apply (Hfb _ _ s) in Hi; [|done].
    apply (Hfr _ _ s) in Hj; [|done]. destruct Hi, Hj. eauto.
Qed.

Lemma freed_free S db db1 slot : exclusive db -> freed S db db1 -> S slot -> holder_of db1 slot = Free.
Proof.
  intros Hx Hf HS. apply free_not_held; [by eapply freed_exclusive|].
  intros [(i & b & Hi & Hb)|(j & r & Hj & Hr)].
  - apply (freed_bookings _ _ _ Hf _ _ slot) in Hi; naive_solver.
  - apply (freed_reservations _ _ _ Hf _ _ slot) in Hj; naive_solver.
Qed.

Lemma freed_other S db db1 slot :
  exclusive db -> freed S db db1 -> ~ S slot -> slot_state db1 slot = slot_state db slot.
Proof.
  intros Hx Hf HS. unfold slot_state. rewrite (freed_waitlist _ _ _ Hf). f_equal.
  apply holder_is; [by eapply freed_exclusive|].
  pose proof (holds_holder db slot) as Hh. destruct (holder_of db slot) as [|u|u]; simpl in *.
  - intros Hd. apply Hh. destruct Hd as [(i & b & Hi & Hb)|(j & r & Hj & Hr)].
    + left. exists i, b. split; [|done]. by apply (freed_bookings _ _ _ Hf i b slot Hb).
    + right. exists j, r. split; [|done]. by apply (freed_reservations _ _ _ Hf j r slot Hr).
  - destruct Hh as (i & b & Hi & Hb & Hu). exists i, b. split; [|done].
    by apply (freed_bookings _ _ _ Hf i b slot Hb).
  - destruct Hh as (i & b & Hi & Hb & Hu). exists i, b. split; [|done].
    by apply (freed_reservations _ _ _ Hf i b slot Hb).
Qed.

Lemma freed_queue S db db1 slot : freed S db db1 -> queue (slot_state db1 slot) = queue (slot_state db slot).
Proof. intros Hf. simpl. by rewrite (freed_waitlist _ _ _ Hf). Qed.

(** ** Handing over *)

(** What is assumed of the database when a slot is handed over. *)
Record sound (db : DB) : Prop := {
  sound_exclusive : exclusive db;
  sound_entries : primary wl_ID (db_waitlist db);
  sound_positions : distinct (db_waitlist db) }.

Lemma schema_sound db : schema db -> coherent db -> sound db.
Proof.
  intros Hs Hc. split; [by apply schema_exclusive|apply schema_waitlist, Hs..].
Qed.

Lemma freed_sound S db db1 : sound db -> freed S db db1 -> sound db1.
Proof.
  intros [] Hf. split; [by eapply freed_exclusive|by rewrite (freed_waitlist _ _ _ Hf)..].
Qed.

Section handover.
Context (H : Assm) (ttl : Duration).
Local Abbreviation skipped := (~ unlocked H).

Lemma locks_skip a : ok_answer H a -> a_locked a = ∅ \/ skipped.
Proof. intros Ha. destruct (decide (a_locked a = ∅)) as [|Hne]; [by left|right; auto]. Qed.

(** The claimed entry is in the queue of the slot, at its head unless entries are skipped. *)
Lemma claimed_head slot db a e :
  distinct (db_waitlist db) -> primary wl_ID (db_waitlist db) ->
  ok_answer H a -> WaitlistRepo.next_entry (a_locked a) slot db = Some e ->
  exists q1 q2, entries slot (db_waitlist db) = q1 ++ e :: q2 /\ (q1 = [] \/ skipped).
Proof.
  intros Hd Hp Ha He. destruct (locks_skip a Ha) as [Hnone|Hskip].
  - rewrite Hnone, next_entry_head in He. destruct (entries _ _) as [|x q]; [done|].
    injection He as ->. exists [], q. split; [done|by left].
  - apply next_entry_Some in He as (He & ? & ? & _); [|done].
    assert (e ∈ entries slot (db_waitlist db)) as Hin by (apply elem_of_entries; split; [done|by eexists]).
    apply list_elem_of_split in Hin as (q1 & q2 & Hq). exists q1, q2. split; [done|by right].
Qed.

Lemma handover_sound slot db o db' :
  sound db -> holder_of db slot = Free -> handover H ttl slot db o db' -> sound db'.
Proof.
  intros [Hx Hp Hd] Hfree. destruct 1 as [|a e id now Ha He Hnew Hnone e' r]; [done|].
  rewrite free_not_held in Hfree by done. apply next_entry_Some in He as (He & Hslot & _); [|done].
  destruct Hx as (Hb & Hr & Hx). split; [|by apply primary_update|by eapply distinct_update].
  assert (forall j x s, db_reservations db !! j = Some x -> active_reservation s x ->
            active_reservation s r -> False) as Hfresh.
  { intros j x s Hj Hxa [<- _]. apply Hfree. right. by exists j, x. }
  split_and!; simpl; [done|..].
  - apply unique_insert; [done|]. intros j x Hj _ [(s & ? & ?)|(s & ? & ?)]; eauto.
  - intros i j b x s Hi Hj Hbs Hxs. lookups; [|by eauto].
    destruct Hxs as [<- _]. apply Hfree. left. by exists i, b.
Qed.

(** The freed slot is settled. *)
Lemma handover_settles slot db o db' :
  sound db -> holder_of db slot = Free -> handover H ttl slot db o db' ->
  settled skipped (queue (slot_state db slot)) (slot_state db' slot).
Proof.
  intros Hs Hfree Hh. pose proof (handover_sound _ _ _ _ Hs Hfree Hh) as Hs'.
  destruct Hs as [Hx Hp Hd]. unfold slot_state; simpl.
  destruct Hh as [a Ha Hn|a e id now Ha He Hnew Hnone e' r].
  - rewrite Hfree. apply settled_free. destruct (locks_skip a Ha) as [Hl|]; [left|by right].
    rewrite Hl, next_entry_head in Hn. by destruct (entries _ _).
  - destruct (claimed_head _ _ _ _ Hd Hp Ha He) as (q1 & q2 & Hq & Hhead).
    apply next_entry_Some in He as (He & Hslot & _); [|done].
    assert (entries slot (db_waitlist (handed_over (a_now a) e r db)) = q1 ++ q2) as ->
      by by apply (entries_stop slot _ _ e e').
    rewrite Hq, !fmap_app, fmap_cons.
    replace (holder_of _ slot) with (ReservedFor (wl_UserID e)).
    + eapply settled_for; [done|]. destruct Hhead as [->|?]; [by left|by right].
    + symmetry. apply holder_is; [apply Hs'|]. exists id, r. simpl. by rewrite lookup_insert_eq.
Qed.

Lemma handover_other slot db o db' slot' :
  sound db -> holder_of db slot = Free -> handover H ttl slot db o db' -> slot' <> slot ->
  slot_state db' slot' = slot_state db slot'.
Proof.
  intros Hs Hfree Hh Hne. pose proof (handover_sound _ _ _ _ Hs Hfree Hh) as Hs'.
  destruct Hs as [Hx Hp Hd]. destruct Hh as [|a e id now Ha He Hnew Hnone e' r]; [done|].
  apply next_entry_Some in He as (He & Hslot & _); [|done]. unfold slot_state. f_equal.
  - apply holder_is; [apply Hs'|]. pose proof (holds_holder db slot') as Hh.
    destruct (holder_of db slot') as [|u|u]; simpl in *.
    + intros [Hb|(j & x & Hj & Hxa)]; [by apply Hh; left|]. simpl in Hj. lookups.
      * by destruct Hxa.
      * apply Hh. right. by exists j, x.
    + done.
    + destruct Hh as (j & x & Hj & ? & ?). exists j, x. rewrite lookup_insert_ne; [done|].
      congruence.
  - simpl. rewrite (entries_other slot' _ _ e e'); try done.
    + intros [? _]. congruence.
    + intros [Hs2 _]. simpl in Hs2. congruence.
Qed.

Lemma handovers_state l db os db' :
  sound db -> NoDup (rs_SlotID <$> l) -> (forall s, s ∈ rs_SlotID <$> l -> holder_of db s = Free) ->
  handovers H ttl l db os db' ->
  forall s, if decide (s ∈ rs_SlotID <$> l) then settled skipped (queue (slot_state db s)) (slot_state db' s)
    else slot_state db' s = slot_state db s.
Proof.
  intros Hs Hnd Hfree Hh. induction Hh as [db|r l db o db1 os db2 H1 _ IH]; intros s; [done|].
  rewrite fmap_cons in *. apply NoDup_cons in Hnd as [Hnin Hnd].
  assert (holder_of db (rs_SlotID r) = Free) as Hr by (apply Hfree; left).
  assert (forall s, s <> rs_SlotID r -> slot_state db1 s = slot_state db s) as Hsame
    by (intros; by eapply handover_other).
  assert (forall s, s ∈ rs_SlotID <$> l -> holder_of db1 s = Free) as Hfree1.
  { intros s' Hs'. assert (s' <> rs_SlotID r) as Hne by (intros ->; done).
    specialize (Hsame s' Hne). injection Hsame as -> _. apply Hfree. by right. }
  specialize (IH (handover_sound _ _ _ _ Hs Hr H1) Hnd Hfree1 s).
  destruct (decide (s = rs_SlotID r)) as [->|Hne].
  - rewrite decide_False in IH by done. rewrite decide_True, IH by left. by eapply handover_settles.
  - rewrite (Hsame s Hne) in IH. case_decide as Hin.
    + rewrite decide_True by by right. done.
    + rewrite decide_False by (intros [|]%elem_of_cons; done). done.
Qed.
End handover.

(** ** What each transaction does to the slots *)

Lemma settle_moves skipped actor u (s s' : SlotState) :
  settled skipped (queue s) s' ->
  (holder s = ReservedFor u /\ (actor = User_ u \/ actor = Worker) \/
   holder s = BookedBy u /\ actor = User_ u) ->
  slot_moves skipped actor s s'.
Proof.
  destruct s as [h q]; simpl. intros Hs [[-> [->| ->]]|[-> ->]]; right; by constructor.
Qed.

(** Nobody waits for a free slot. *)
Lemma free_without_queue db slot :
  exclusive db -> queue_fine db -> holder_of db slot = Free ->
  slot_state db slot = {| holder := Free; queue := [] |}.
Proof.
  intros Hx Hq Hfree. unfold slot_state. rewrite Hfree. f_equal.
  destruct (entries _ _) as [|e q] eqn:He; [done|].
  destruct (proj1 (elem_of_entries slot (db_waitlist db) e)) as [[Hsl Hact] [i Hi]];
    [rewrite He; left|].
  apply free_not_held in Hfree; [|done].
  destruct (Hq i e Hi Hact) as [[]|?]. by rewrite Hsl in *.
Qed.

(** The slot of a new booking was free. *)
Lemma booked_free s user slotID now db x db' :
  Booking.reservations s = true -> exclusive db -> queue_fine db ->
  Booking.booked s user slotID now db x db' ->
  slot_state db slotID = {| holder := Free; queue := [] |}.
Proof.
  intros Hres Hx Hq (sl & _ & _ & Hr & Hb & _). specialize (Hr Hres).
  apply free_without_queue; [done..|]. unfold holder_of. by rewrite Hb, Hr.
Qed.

(** A new active booking of a slot that nobody holds changes the holder of that slot. *)
Lemma add_booking_holder db b slot :
  exclusive (set_bookings (<[bk_ID b := b]> (db_bookings db)) db) ->
  db_bookings db !! bk_ID b = None -> bk_Status b = BookingStatusActive ->
  holder_of (set_bookings (<[bk_ID b := b]> (db_bookings db)) db) slot =
    if decide (slot = bk_SlotID b) then BookedBy (bk_UserID b) else holder_of db slot.
Proof.
  intros Hx Hnew Hact. apply holder_is; [done|]. destruct (decide _) as [->|Hne].
  - exists (bk_ID b), b. simpl. by rewrite lookup_insert_eq.
  - pose proof (holds_holder db slot) as Hh. destruct (holder_of db slot) as [|u|u]; simpl in *.
    + intros [(i & y & Hi & Hy)|?]; [|by apply Hh; right]. simpl in Hi. lookups.
      * by destruct Hy.
      * apply Hh. left. by exists i, y.
    + destruct Hh as (i & y & Hi & ? & ?). exists i, y. rewrite lookup_insert_ne; [done|].
      congruence.
    + done.
Qed.

Lemma booked_moves (skipped : Prop) s user slotID now db x db' slot :
  Booking.reservations s = true -> exclusive db -> exclusive db' ->
  (holder_of db slotID = Free -> queue (slot_state db slotID) = [] \/ skipped) ->
  Booking.booked s user slotID now db x db' ->
  slot_moves skipped (User_ (us_ID user)) (slot_state db slot) (slot_state db' slot).
Proof.
  intros Hres Hx Hx' Hq (sl & _ & _ & Hr & Hb & Hnew & Heq & ->).
  assert (holder_of db slotID = Free) as Hfree by (unfold holder_of; by rewrite Hb, Hr).
  specialize (Hq Hfree). destruct x as [b room]. simpl in *. injection Heq as Heq _.
  assert (bk_SlotID b = slotID /\ bk_UserID b = us_ID user /\ bk_Status b = BookingStatusActive)
    as (Hslot & Huser & Hact) by by rewrite Heq.
  unfold slot_state at 2. rewrite add_booking_holder, Hslot, Huser by done. simpl.
  destruct (decide _) as [->|Hne]; [|by left].
  right. unfold slot_state. rewrite Hfree. by constructor.
Qed.

Lemma booking_cancel_freed db id b :
  exclusive db -> db_bookings db !! id = Some b -> bk_Status b = BookingStatusActive ->
  freed (eq (bk_SlotID b)) db (set_bookings
    (<[id := BookingRepo.with_Status BookingStatusCancelled b]> (db_bookings db)) db).
Proof.
  intros (Hu & _ & Hx) Hb Hact. split; simpl; [done|..].
  - intros i x slot Hxa. split.
    + intros Hi. lookups; [by destruct Hxa|]. split; [done|]. intros <-.
      assert (i = id); [|done]. eapply Hu; eauto. by exists (bk_SlotID b).
    + intros [Hi Hne]. rewrite lookup_insert_ne; [done|]. intros <-. apply Hne.
      rewrite Hb in Hi. injection Hi as ->. by destruct Hxa.
  - intros j r slot Hr. split; [|by intros []]. intros Hj. split; [done|]. intros <-.
    by eapply (Hx id j b r).
Qed.

Lemma reservation_stop_freed db id r r' :
  exclusive db -> db_reservations db !! id = Some r -> rs_Status r = ReservationStatusActive ->
  rs_Status r' <> ReservationStatusActive ->
  freed (eq (rs_SlotID r)) db (set_reservations (<[id := r']> (db_reservations db)) db).
Proof.
  intros (_ & Hu & Hx) Hr Hact Hne. split; simpl; [done|..].
  - intros i b slot Hb. split; [|by intros []]. intros Hi. split; [done|]. intros <-.
    by eapply (Hx i id b r).
  - intros i x slot Hxa. split.
    + intros Hi. lookups; [by destruct Hxa|]. split; [done|]. intros <-.
      assert (i = id); [|done]. eapply Hu; eauto. by exists (rs_SlotID r).
    + intros [Hi Hns]. rewrite lookup_insert_ne; [done|]. intros <-. apply Hns.
      rewrite Hr in Hi. injection Hi as ->. by destruct Hxa.
Qed.

(** Freeing the slot of [u] and handing it over is one step of the slot. *)
Lemma free_and_settle H ttl actor u slotID db db1 o db' slot :
  sound db -> freed (eq slotID) db db1 -> handover H ttl slotID db1 o db' ->
  (holds db slotID (ReservedFor u) /\ (actor = User_ u \/ actor = Worker) \/
   holds db slotID (BookedBy u) /\ actor = User_ u) ->
  slot_moves (~ unlocked H) actor (slot_state db slot) (slot_state db' slot).
Proof.
  intros Hs Hf Hh Hact.
  assert (sound db1) as Hs1 by by eapply freed_sound.
  assert (holder_of db1 slotID = Free) as Hfree by (eapply freed_free; eauto; apply Hs).
  destruct (decide (slot = slotID)) as [->|Hne].
  - eapply settle_moves.
    + rewrite <- (freed_queue _ _ _ _ Hf). by eapply handover_settles.
    + destruct Hact as [[? ?]|[? ?]]; [left|right]; (split; [|eassumption]);
        apply holder_is; auto; apply Hs.
  - left. rewrite (handover_other H ttl slotID db1 o db') by done.
    eapply freed_other; eauto. apply Hs.
Qed.

Lemma booking_cancelled_moves H s user id db v db' slot :
  Booking.waitlists s = true -> sound db ->
  Booking.cancelled H s user id db v db' ->
  slot_moves (~ unlocked H) (User_ (us_ID user)) (slot_state db slot) (slot_state db' slot).
Proof.
  intros Hw Hs. destruct 1 as [|b room o db' Hb Hu Hact Hroom b' db1 Hh]; [by left|].
  rewrite Hw in Hh.
  assert (exists ttl, handover H ttl (bk_SlotID b) db1 o db') as [ttl Hh'].
  { destruct Hh as [(_ & -> & -> & a & Ha & Hn)|[_ Hh]]; [|by eexists].
    exists 0%Z. by eapply handover_nobody. }
  eapply (free_and_settle H ttl _ (us_ID user)); [done| |exact Hh'|].
  - apply booking_cancel_freed; [apply Hs|done..].
  - right. split; [|done]. exists id, b. by split_and!.
Qed.

Lemma reservation_cancelled_moves H s user rid now db v db' slot :
  Reservation.waitlists s = true -> sound db ->
  Reservation.cancelled H s user rid now db v db' ->
  slot_moves (~ unlocked H) (User_ (us_ID user)) (slot_state db slot) (slot_state db' slot).
Proof.
  intros Hw Hs. destruct 1 as [|r room o db' Hr Hu Hact Hroom r' db1 Hh]; [by left|].
  rewrite Hw in Hh. eapply (free_and_settle H _ _ (us_ID user)); [done| |exact Hh|].
  - by apply reservation_stop_freed; [apply Hs|..].
  - left. split; [|by left]. exists rid, r. by split_and!.
Qed.

Lemma joined_moves skipped user slotID db e db' slot :
  schema db -> Waitlist.joined user slotID db e db' ->
  slot_moves skipped (User_ (us_ID user)) (slot_state db slot) (slot_state db' slot).
Proof.
  intros Hs (sl & b & now & _ & _ & Hb & Hne & Hnew & Hopen & He & ->).
  assert (entries slot (<[wl_ID e := e]> (db_waitlist db)) =
    if decide (wl_SlotID e = slot) then entries slot (db_waitlist db) ++ [e]
    else entries slot (db_waitlist db)) as Hq.
  { apply entries_add; [apply schema_waitlist, Hs|done|..|by rewrite He].
    intros j x Hj. rewrite He. simpl.
    pose proof (waitlist_position_seq _ _ _ _ (schema_waitlist _ Hs) j x Hj). lia. }
  assert (wl_SlotID e = slotID /\ wl_UserID e = us_ID user) as [Hsl Huser] by by rewrite He.
  unfold slot_state. simpl. rewrite Hq, Hsl.
  destruct (decide (slotID = slot)) as [<-|]; [right|by left].
  unfold holder_of. simpl. rewrite Hb, fmap_app. simpl. rewrite Huser. apply slot_join; [done|].
  intros Hin. apply list_elem_of_fmap in Hin as (x & Hx & Hxe).
  apply elem_of_entries in Hxe as [[? ?] [i Hi]]. rewrite first_where_None in Hopen.
  apply (Hopen i x Hi). split_and!; auto.
Qed.

Lemma left_moves skipped user id db x db' slot :
  distinct (db_waitlist db) -> Waitlist.left_waitlist user id db x db' ->
  slot_moves skipped (User_ (us_ID user)) (slot_state db slot) (slot_state db' slot).
Proof.
  intros Hd (e & He & Hu & Hx). case_bool_decide as Hopen; destruct Hx as [_ ->]; [|by left].
  unfold slot_state. simpl. destruct (decide (waiting slot e)) as [Hw|Hw].
  - assert (e ∈ entries slot (db_waitlist db)) as Hin by (apply elem_of_entries; eauto).
    apply list_elem_of_split in Hin as (q1 & q2 & Hq).
    rewrite (entries_stop slot _ id e _ q1 q2), Hq, !fmap_app, fmap_cons by done.
    right. rewrite <- Hu. apply slot_leave.
  - left. rewrite (entries_other slot _ id e); try done. by intros [].
Qed.

Lemma confirmed_moves skipped user rid now db x db' slot :
  exclusive db -> exclusive db' -> Reservation.confirmed user rid now db x db' ->
  slot_moves skipped (User_ (us_ID user)) (slot_state db slot) (slot_state db' slot).
Proof.
  intros Hx Hx'. destruct x as [[b r'] room].
  intros (r & sl & Hr & Hu & Hact & _ & Hfree & _ & _ & Hnew & Hb & -> & _ & ->).
  set (db1 := set_reservations (<[rid := ReservationRepo.confirm now r]> (db_reservations db)) db).
  assert (freed (eq (rs_SlotID r)) db db1) as Hf by by apply reservation_stop_freed.
  assert (bk_SlotID b = rs_SlotID r /\ bk_UserID b = us_ID user /\
          bk_Status b = BookingStatusActive) as (Hslot & Huser & Hba) by by rewrite Hb.
  replace (set_reservations _ _) with
    (set_bookings (<[bk_ID b := b]> (db_bookings db1)) db1) in * by done.
  unfold slot_state at 2. rewrite add_booking_holder, Hslot, Huser by done.
  destruct (decide _) as [->|Hne].
  - right. unfold slot_state. rewrite (holder_is db _ (ReservedFor (us_ID user)) Hx).
    + apply slot_confirm.
    + exists rid, r. by split_and!.
  - left. simpl. rewrite <- (freed_other _ _ _ slot Hx Hf) by congruence. done.
Qed.

(** ** The expired batch *)

Lemma picked_slots_NoDup a now limit db :
  schema db -> NoDup (rs_SlotID <$> ReservationRepo.picked a now limit db).
Proof.
  intros Hs. destruct (schema_reservations _ Hs) as [Hp Huq _ _ _].
  apply NoDup_fmap_2_strong.
  - intros x y Hx Hy Heq. apply picked_stored in Hx as (Hx & ? & _); [|done].
    apply picked_stored in Hy as (Hy & ? & _); [|done].
    assert (rs_ID x = rs_ID y) as Hxy; [|rewrite Hxy in *; congruence].
    eapply Huq; eauto. by exists (rs_SlotID x).
  - unfold ReservationRepo.picked, ReservationRepo.oldest_due, ordered. rewrite order_by_Permutation.
    eapply sublist_NoDup; [|apply sublist_take]. rewrite order_ties_Permutation. apply NoDup_filter, (rows_NoDup rs_ID), Hp.
Qed.

Lemma expire_rows_in now l t k :
  k ∈ rs_ID <$> l ->
  exists r, r ∈ l /\ rs_ID r = k /\
    ReservationRepo.expire_rows now l t !! k = Some (ReservationRepo.expire now r).
Proof.
  induction l as [|r l IH]; simpl; [by intros ?%elem_of_nil|]. intros Hk.
  destruct (decide (k = rs_ID r)) as [->|Hne].
  - exists r. rewrite lookup_insert_eq. split; [left|done].
  - rewrite lookup_insert_ne by done. apply elem_of_cons in Hk as [?|Hk]; [done|].
    destruct (IH Hk) as (x & ? & ? & ?). exists x. split; [by right|done].
Qed.

Lemma batch_freed a now limit db :
  schema db -> coherent db ->
  let l := ReservationRepo.picked a now limit db in
  freed (fun s => s ∈ rs_SlotID <$> l) db (Reservation.batch_expired now l db).
Proof.
  intros Hs Hc l. destruct (schema_reservations _ Hs) as [Hp Huq _ _ _].
  split; simpl; [done|..].
  - intros i b slot Hb. split; [|by intros []]. intros Hi. split; [done|]. intros Hin.
    apply list_elem_of_fmap in Hin as (r & -> & Hr). apply picked_stored in Hr as (Hr & Hact & _); [|done].
    by eapply (co_exclusive _ Hc i (rs_ID r) b r).
  - intros j r slot Hr. split.
    + intros Hj. destruct (decide (j ∈ rs_ID <$> l)) as [Hin|Hnin].
      { destruct (expire_rows_in now l (db_reservations db) j Hin) as (x & _ & _ & Hx).
        rewrite Hx in Hj. injection Hj as <-. by destruct Hr. }
      rewrite expire_rows_other in Hj by done. split; [done|]. intros Hin. apply Hnin.
      apply list_elem_of_fmap in Hin as (x & -> & Hx). apply list_elem_of_fmap. exists x.
      split; [|done]. apply picked_stored in Hx as (Hx & Hact & _); [|done].
      eapply Huq; eauto. by exists (rs_SlotID x).
    + intros [Hj Hnin]. rewrite expire_rows_other; [done|]. intros Hin. apply Hnin.
      apply list_elem_of_fmap in Hin as (x & -> & Hx). apply list_elem_of_fmap. exists x.
      split; [|done]. apply picked_stored in Hx as (Hx' & _); [|done].
      rewrite Hx' in Hj. injection Hj as ->. by destruct Hr.
Qed.

(** The rows of the batch, after it. *)
Lemma batch_row a now limit db r :
  primary rs_ID (db_reservations db) -> r ∈ ReservationRepo.picked a now limit db ->
  db_reservations (Reservation.batch_expired now (ReservationRepo.picked a now limit db) db)
    !! rs_ID r = Some (ReservationRepo.expire now r).
Proof.
  intros Hpk Hr. simpl. set (l := ReservationRepo.picked _ _ _ _) in *.
  destruct (expire_rows_in now l (db_reservations db) (rs_ID r)) as (x & Hx & Hid & ->);
    [by apply list_elem_of_fmap_2|].
  apply picked_stored in Hr as (Hr & _), Hx as (Hx & _); [|done..]. congruence.
Qed.

Lemma expired_moves H s now limit db x db' slot :
  Reservation.waitlists s = true -> schema db -> coherent db ->
  Reservation.expired_due H s now limit db x db' ->
  slot_moves (~ unlocked H) Worker (slot_state db slot) (slot_state db' slot).
Proof.
  intros Hw Hs Hc (a & Ha & Hx & os & _ & Hos). simpl in *. rewrite Hw in Hos.
  pose proof (batch_freed a now (Z.to_nat limit) db Hs Hc) as Hf.
  pose proof (schema_sound _ Hs Hc) as Hsd.
  assert (rs_SlotID <$> x.1 =
    rs_SlotID <$> ReservationRepo.picked a now (Z.to_nat limit) db) as Hslots.
  { rewrite Hx, <- list_fmap_compose. by apply list_fmap_ext. }
  pose proof (fun Hnd Hfree => handovers_state H _ _ _ _ _ (freed_sound _ _ _ Hsd Hf) Hnd Hfree Hos slot) as Hst.
  rewrite Hslots in Hst. specialize (Hst (picked_slots_NoDup _ _ _ _ Hs)). case_decide as Hin.
  - pose proof Hin as Hin'. apply list_elem_of_fmap in Hin' as (r & -> & Hr).
    apply picked_stored in Hr as (Hr & Hact & _); [|apply Hc].
    apply (settle_moves _ _ (rs_UserID r)).
    + rewrite <- (freed_queue _ _ _ _ Hf). apply Hst. intros s' Hs'. by eapply freed_free; [apply Hsd|exact Hf|].
    + left. split; [|by right]. apply holder_is; [apply Hsd|]. by exists (rs_ID r), r.
  - left. rewrite Hst; [by eapply freed_other; [apply Hsd|exact Hf|]|].
    intros s' Hs'. by eapply freed_free; [apply Hsd|exact Hf|].
Qed.

(** ** Every request refines the machine *)

Definition moved (skipped : Prop) (actor : Actor) (db db' : DB) : Prop :=
  exclusive db' -> forall slot, slot_moves skipped actor (slot_state db slot) (slot_state db' slot).

Lemma moved_seq skipped actor db n : moved skipped actor db (set_waitlist_seq n db).
Proof. intros _ slot. by left. Qed.

Section handlers.
Context (H : Assm) (cfg : Settings) (db : DB) (out : list Output).
Context (Hs : schema db) (Hi : inv H db).
Local Abbreviation skipped := (~ unlocked H).

Lemma free_or_skipped slot :
  exclusive db -> holder_of db slot = Free -> queue (slot_state db slot) = [] \/ skipped.
Proof.
  intros Hx Hfree. destruct (decide (queue (slot_state db slot) = [])) as [|Hne]; [by left|right].
  intros Hl. destruct Hi as [_ Hq]. by rewrite (free_without_queue db slot Hx (Hq Hl) Hfree) in Hne.
Qed.

Ltac tx_moved spec :=
  apply wp_tx_post; [intros n; apply moved_seq|intros; silence|];
  eapply tx_post_mono; [|apply spec]; [intros ? ? ? Hx' slot|..]; try exact Hs;
  destruct (Hi) as [Hc _]; pose proof (schema_sound _ Hs Hc) as Hsd.

Lemma serve_moves req : wp H (serve cfg req) (fun _ db' _ => moved skipped (actor_of req) db db') db out.
Proof.
  assert (forall actor, moved skipped actor db db) as Hrefl by (intros actor _ slot; by left).
  unfold serve, answered. destruct req; apply wp_bind; simpl actor_of;
    eapply (wp_mono H _ (fun _ db' _ => moved skipped _ db db')); try (intros [] ? ? ?; by apply wp_ret);
    auto using list_bookings_reads, list_my_bookings_reads, list_reservations_reads.
  - unfold Booking.CreateBooking. case_bool_decide; [by apply wp_silent; [silence|]|].
    apply wp_now. intros now _. tx_moved Booking.create_booking_tx_spec.
    eapply booked_moves; eauto; first [done|apply Hsd|apply free_or_skipped, Hsd].
  - unfold Booking.CancelBooking. case_bool_decide; [by apply wp_silent; [silence|]|].
    tx_moved Booking.cancel_booking_tx_spec. eapply booking_cancelled_moves; eauto. done.
  - unfold Waitlist.JoinWaitlist. case_bool_decide; [by apply wp_silent; [silence|]|].
    tx_moved Waitlist.join_waitlist_tx_spec. by eapply joined_moves.
  - unfold Waitlist.LeaveWaitlist. case_bool_decide; [by apply wp_silent; [silence|]|].
    tx_moved Waitlist.leave_waitlist_tx_spec. eapply left_moves; eauto. apply Hsd.
  - unfold Reservation.ConfirmReservation. case_bool_decide; [by apply wp_silent; [silence|]|].
    apply wp_now. intros now _. tx_moved Reservation.confirm_reservation_tx_spec.
    eapply confirmed_moves; eauto. apply Hsd.
  - unfold Reservation.CancelReservation. case_bool_decide; [by apply wp_silent; [silence|]|].
    apply wp_now. intros now _. tx_moved Reservation.cancel_reservation_tx_spec.
    eapply reservation_cancelled_moves; eauto. done.
  - unfold Reservation.ExpireDue. apply wp_now. intros now _.
    tx_moved Reservation.expire_due_tx_spec. eapply expired_moves; eauto. done.
Qed.
End handlers.


