(* ===== verification/Effects.v ===== *)
(** * Effects: what each operation returns, stores and publishes

    For every state-changing operation, one specification over all environments: on
    success the transaction took place and the listed outputs left the process, in that
    order; on an error no event left the process and the tables are as before, except
    that a failed COMMIT may have been executed. *)

From S2P Require Import Prelude Domain Database Program Postgres Schema Usecase Handover.
From S2P Require Import System.
From S2P Require Booking Waitlist Reservation.

Definition lost_commit (e : error) : Prop := exists m, e = Wrapped "commit tx" (PlainError m).

(** [Post] is what a committed transaction establishes, [Bad] what is known of the errors
    the operation itself decides on. *)
Definition effect_of (H : Assm) {V A} (Post : V -> DB -> Prop) (Bad : error -> Prop)
    (answer : V -> A) (speech : V -> list Output) (grumbles : error -> list Output)
    (db : DB) (out : list Output) (r : result A) (db' : DB) (out' : list Output) : Prop :=
  match r with
  | Ok a => exists v, Post v db' /\ a = answer v /\ out' = out ++ speech v
  | Err e => out' = out ++ grumbles e /\
      (unchanged db db' /\ (Bad e \/ may_fail H) \/
       may_fail H /\ lost_commit e /\ exists v, Post v db')
  end.

(** The specification of the body of a transaction. *)
Definition tx_spec (H : Assm) {V} (fn : prog (result V)) (Post : V -> DB -> Prop)
    (Bad : error -> Prop) (db : DB) : Prop :=
  forall out, wp H fn (fun r db' out' => out' = out /\
    match r with Ok v => Post v db' | Err e => Bad e end) db out.

Lemma tx_spec_mono H {V} (fn : prog (result V)) (P Post : V -> DB -> Prop) Bad db :
  tx_spec H fn P Bad db -> (forall v db', P v db' -> Post v db') -> tx_spec H fn Post Bad db.
Proof.
  intros Hfn HP out. eapply wp_mono; [|exact (Hfn out)]. intros [v|e] db' out' [-> ?]; auto.
Qed.

(** A program that only produces outputs. *)
Class Says {A} (p : prog A) (a : A) (o : list Output) : Prop :=
  says : forall H (Q : A -> DB -> list Output -> Prop) db out,
    Q a db (out ++ o) -> wp H p Q db out.

Lemma ret_says {A} (a : A) : Says (Ret a) a [].
Proof. intros H Q db out HQ. rewrite app_nil_r in HQ. exact HQ. Qed.
Lemma publish_says p ev : Says (publish p ev) tt (published p ev).
Proof. intros H Q db out HQ. by apply wp_publish. Qed.
Lemma inc_says m c : Says (inc m c) tt (counted m c).
Proof. intros H Q db out HQ. by apply wp_inc. Qed.
Lemma observe_says c : Says (observe c) tt [Counted c].
Proof. intros H Q db out HQ. exact HQ. Qed.

Lemma bind_says {A B} (p : prog A) (k : A -> prog B) a b o1 o2 :
  Says p a o1 -> Says (k a) b o2 -> Says (bind p k) b (o1 ++ o2).
Proof.
  intros Hp Hk H Q db out HQ. apply wp_bind, Hp, Hk. by rewrite <- app_assoc.
Qed.

Lemma if_says {A} (b : bool) (p q : prog A) a o1 o2 :
  Says p a o1 -> Says q a o2 -> Says (if b then p else q) a (if b then o1 else o2).
Proof. by destruct b. Qed.

Lemma says_eq {A} (p : prog A) a o o' : Says p a o -> o = o' -> Says p a o'.
Proof. by intros ? <-. Qed.

(** Reads the outputs off a program, then compares them with the expected ones. *)
Ltac speak :=
  eapply says_eq;
  [repeat first
     [ apply ret_says | apply publish_says | apply inc_says | apply observe_says
     | eassumption | eapply if_says | eapply bind_says ]
  |].

(** A transaction followed by a program that only speaks. *)
Lemma wp_operation H {V A} (fn : prog (result V)) (k : result V -> prog (result A)) Post Bad
    answer speech grumbles db out :
  tx_spec H fn Post Bad db ->
  (forall v, Says (k (Ok v)) (Ok (answer v)) (speech v)) ->
  (forall e, Says (k (Err e)) (Err e) (grumbles e)) ->
  wp H (bind (WithinTransaction fn) k) (effect_of H Post Bad answer speech grumbles db out) db out.
Proof.
  intros Hfn Hok Herr. apply wp_bind, wp_tx.
  - intros Hf m. apply Herr. split; [done|]. left. auto with svc.
  - eapply wp_mono; [|exact (Hfn out)]. intros [v|e] db' out' [-> HP].
    + split; [apply Hok; by exists v|]. intros Hf m db'' Hdb. apply Herr. split; [done|].
      destruct Hdb as [->| ->]; [right|left; auto with svc].
      split; [done|]. split; [by exists m|by exists v].
    + split; [|intros Hf]; apply Herr; (split; [done|]); left; auto with svc.
Qed.

(** A request that is refused before anything happens. *)
Lemma wp_refused H {V A} (p : prog (result A)) e (Post : V -> DB -> Prop) Bad answer speech
    grumbles db out :
  Bad e -> Says p (Err e) (grumbles e) ->
  wp H p (effect_of H Post Bad answer speech grumbles db out) db out.
Proof. intros Hb Hp. apply Hp. split; [done|]. left. auto with svc. Qed.

Lemma effect_mono H {V A} (Post Post' : V -> DB -> Prop) Bad (answer : V -> A) speech grumbles
    db out r db' out' :
  (forall v db', Post v db' -> Post' v db') ->
  effect_of H Post Bad answer speech grumbles db out r db' out' ->
  effect_of H Post' Bad answer speech grumbles db out r db' out'.
Proof.
  intros HP. destruct r as [a|e]; simpl; [intros (v & ? & ?); eauto|].
  intros [? [?|(? & ? & v & ?)]]; eauto 8.
Qed.

(** ** Booking *)

Section booking.
Import Booking.

Definition create_says (s : Service) (x : Booking * uuid) : list Output :=
  counted (bookingMetrics s) BookingCreated ++
  published (eventPublisher s) (EvSlotBooked x.2 (bk_SlotID x.1) (bk_ID x.1)).

Definition create_grumbles (s : Service) (e : error) : list Output :=
  counted (bookingMetrics s)
    (if has_code ErrorSlotAlreadyBooked e || has_code ErrorSlotReserved e
     then BookingConflict else BookingCreateError).

Lemma create_booking_effect H s user slotID link Post Bad db out :
  (us_Role user <> RoleUser ->
   Bad (NewDomainError ErrorForbidden "booking is allowed only for user role")) ->
  (forall now, ok_now H now -> us_Role user = RoleUser ->
   tx_spec H (create_booking_tx s user slotID now) Post Bad db) ->
  wp H (CreateBooking s user slotID link)
    (effect_of H Post Bad fst (create_says s) (create_grumbles s) db out) db out.
Proof.
  intros Hrole Htx. unfold CreateBooking. case_bool_decide.
  - eapply wp_refused; [by apply Hrole|]. speak. by rewrite app_nil_r.
  - apply wp_now. intros now Hnow.
    apply wp_operation; [by apply Htx|intros [b room]|intros e]; speak.
    + by rewrite app_nil_r.
    + rewrite app_nil_r. unfold create_grumbles. by case_match.
Qed.

(** What CancelBooking says of a slot it gave up. *)
Definition release_says (s : Service) (v : CancelVars) : list Output :=
  match cv_createdReservation v, cv_notifiedEntry v with
  | Some r, Some e =>
      [Counted WaitlistNotification; Counted ReservationCreated] ++
      published (eventPublisher s)
        (EvSlotReserved (cv_roomID v) (bk_SlotID (cv_result v)) (rs_ID r)) ++
      published (eventPublisher s)
        (EvWaitlistSlotReserved (cv_roomID v) (bk_SlotID (cv_result v)) (wl_UserID e)
           (rs_ID r) (wl_ID e) (rs_ExpiresAt r))
  | _, _ =>
      published (eventPublisher s)
        (EvSlotReleased (cv_roomID v) (bk_SlotID (cv_result v)) (bk_ID (cv_result v)))
  end.

Definition cancel_says (s : Service) (v : CancelVars) : list Output :=
  counted (bookingMetrics s) BookingCancelled ++
  (if cv_slotReleased v && negb (cv_roomID v =? uuid_Nil)%N then release_says s v else []).

Lemma cancel_booking_effect H s user id Post Bad db out :
  (us_Role user <> RoleUser ->
   Bad (NewDomainError ErrorForbidden "cancel is allowed only for user role")) ->
  (us_Role user = RoleUser -> tx_spec H (cancel_booking_tx s user id) Post Bad db) ->
  wp H (CancelBooking s user id)
    (effect_of H Post Bad cv_result (cancel_says s)
       (fun _ => counted (bookingMetrics s) BookingCancelError) db out) db out.
Proof.
  intros Hrole Htx. unfold CancelBooking. case_bool_decide.
  - eapply wp_refused; [by apply Hrole|]. speak. by rewrite app_nil_r.
  - apply wp_operation; [by apply Htx|intros v|intros e].
    2: { speak. by rewrite app_nil_r. }
    unfold cancel_says, release_says.
    destruct (cv_createdReservation v), (cv_notifiedEntry v); speak; rewrite app_nil_r; done.
Qed.

(** The same with what the transaction is known to do. *)
Lemma create_booking_does H s user slotID link db out :
  wp H (CreateBooking s user slotID link)
    (effect_of H (fun x db' => exists now, ok_now H now /\ booked s user slotID now db x db')
       (fun _ => True) fst (create_says s) (create_grumbles s) db out) db out.
Proof.
  apply create_booking_effect; [done|]. intros now Hnow _.
  apply (tx_spec_mono _ _ (booked s user slotID now db)); [|eauto].
  intros out'. apply create_booking_tx_spec.
Qed.

Lemma cancel_booking_does H s user id db out :
  wp H (CancelBooking s user id)
    (effect_of H (cancelled H s user id db) (fun _ => True) cv_result (cancel_says s)
       (fun _ => counted (bookingMetrics s) BookingCancelError) db out) db out.
Proof.
  apply cancel_booking_effect; [done|]. intros _ out'. apply cancel_booking_tx_spec.
Qed.
End booking.

(** ** Waitlist *)

Section waitlist.
Import Waitlist.

Lemma join_waitlist_effect H user slotID Post Bad db out :
  (us_Role user <> RoleUser ->
   Bad (NewDomainError ErrorForbidden "waitlist is allowed only for user role")) ->
  (us_Role user = RoleUser -> tx_spec H (join_waitlist_tx user slotID) Post Bad db) ->
  wp H (JoinWaitlist user slotID)
    (effect_of H Post Bad id (fun _ => [Counted WaitlistJoined]) (fun _ => []) db out) db out.
Proof.
  intros Hrole Htx. unfold JoinWaitlist.
  case_bool_decide; [eapply wp_refused; [by apply Hrole|speak; done]|].
  apply wp_operation; [by apply Htx|intros e; speak; done..].
Qed.

Lemma leave_waitlist_effect H user entryID Post Bad db out :
  (us_Role user <> RoleUser ->
   Bad (NewDomainError ErrorForbidden "waitlist is allowed only for user role")) ->
  (us_Role user = RoleUser -> tx_spec H (leave_waitlist_tx user entryID) Post Bad db) ->
  wp H (LeaveWaitlist user entryID)
    (effect_of H Post Bad fst (fun x => if x.2 then [Counted WaitlistCancelled] else [])
       (fun _ => []) db out) db out.
Proof.
  intros Hrole Htx. unfold LeaveWaitlist.
  case_bool_decide; [eapply wp_refused; [by apply Hrole|speak; done]|].
  apply wp_operation; [by apply Htx|intros x|intros e; speak; done].
  speak. by rewrite app_nil_r.
Qed.

Lemma join_waitlist_does H user slotID db out :
  wp H (JoinWaitlist user slotID)
    (effect_of H (joined user slotID db) (fun _ => True) id
       (fun _ => [Counted WaitlistJoined]) (fun _ => []) db out) db out.
Proof. apply join_waitlist_effect; [done|]. intros _ out'. apply join_waitlist_tx_spec. Qed.

Lemma leave_waitlist_does H user entryID db out :
  wp H (LeaveWaitlist user entryID)
    (effect_of H (left_waitlist user entryID db) (fun _ => True) fst
       (fun x => if x.2 then [Counted WaitlistCancelled] else []) (fun _ => []) db out) db out.
Proof. apply leave_waitlist_effect; [done|]. intros _ out'. apply leave_waitlist_tx_spec. Qed.
End waitlist.

(** ** Reservation *)

Section reservation.
Import Reservation.

Definition confirm_says (s : Service) (x : Booking * SlotReservation * uuid) : list Output :=
  counted (reservationMetrics s) ReservationConfirmed ++
  (if negb (x.2 =? uuid_Nil)%N
   then published (events s) (EvSlotBooked x.2 (bk_SlotID x.1.1) (bk_ID x.1.1)) else []).

Lemma confirm_reservation_effect H s user rid Post Bad db out :
  (us_Role user <> RoleUser -> Bad (NewDomainError ErrorForbidden
     "confirm reservation is allowed only for user role")) ->
  (forall now, ok_now H now -> us_Role user = RoleUser ->
   tx_spec H (confirm_reservation_tx user rid now) Post Bad db) ->
  wp H (ConfirmReservation s user rid)
    (effect_of H Post Bad fst (confirm_says s) (fun _ => []) db out) db out.
Proof.
  intros Hrole Htx. unfold ConfirmReservation.
  case_bool_decide; [eapply wp_refused; [by apply Hrole|speak; done]|].
  apply wp_now. intros now Hnow.
  apply wp_operation; [by apply Htx|intros [[b r] room]|intros e];
    speak; [by rewrite app_nil_r|done].
Qed.

(** What CancelReservation says of a slot it gave up. *)
Definition decline_says (s : Service) (v : CancelVars) : list Output :=
  let slotID := rs_SlotID (cv_cancelled v) in
  match cv_nextReservation v, cv_notifiedEntry v with
  | Some r, Some e =>
      [Counted WaitlistNotification] ++ counted (reservationMetrics s) ReservationCreated ++
      (if negb (cv_roomID v =? uuid_Nil)%N
       then published (events s) (EvSlotReserved (cv_roomID v) slotID (rs_ID r)) else []) ++
      published (events s)
        (EvWaitlistSlotReserved (cv_roomID v) slotID (wl_UserID e) (rs_ID r) (wl_ID e)
           (rs_ExpiresAt r))
  | _, _ =>
      if negb (cv_roomID v =? uuid_Nil)%N
      then published (events s) (EvSlotAvailable (cv_roomID v) slotID) else []
  end.

Definition reservation_cancel_says (s : Service) (v : CancelVars) : list Output :=
  if cv_changed v
  then counted (reservationMetrics s) ReservationCancelled ++ decline_says s v
  else [].

Lemma cancel_reservation_effect H s user rid Post Bad db out :
  (us_Role user <> RoleUser -> Bad (NewDomainError ErrorForbidden
     "cancel reservation is allowed only for user role")) ->
  (forall now, ok_now H now -> us_Role user = RoleUser ->
   tx_spec H (cancel_reservation_tx s user rid now) Post Bad db) ->
  wp H (CancelReservation s user rid)
    (effect_of H Post Bad cv_cancelled (reservation_cancel_says s) (fun _ => []) db out) db out.
Proof.
  intros Hrole Htx. unfold CancelReservation.
  case_bool_decide; [eapply wp_refused; [by apply Hrole|speak; done]|].
  apply wp_now. intros now Hnow.
  apply wp_operation; [by apply Htx|intros v|intros e; speak; done].
  unfold reservation_cancel_says, decline_says. destruct (cv_changed v); cbn [negb]; [|speak; done].
  destruct (cv_nextReservation v), (cv_notifiedEntry v); speak; rewrite app_nil_r; done.
Qed.

(** One block of outputs per expired reservation, then one per replacement. *)
Definition expired_says (s : Service) (v : ExpireVars) (item : SlotReservation)
    : list Output :=
  let roomID := room_of v (rs_SlotID item) in
  counted (reservationMetrics s) ReservationExpired ++
  published (events s)
    (EvReservationExpired roomID (rs_SlotID item) (rs_UserID item) (rs_ID item)) ++
  (if negb (roomID =? uuid_Nil)%N
   then published (events s) (EvSlotReservationExpired roomID (rs_SlotID item) (rs_ID item)) ++
        (if negb (has_replacement v (rs_SlotID item))
         then published (events s) (EvSlotAvailable roomID (rs_SlotID item)) else [])
   else []).

Definition replacement_says (s : Service) (item : Replacement) : list Output :=
  let r := rp_reservation item in
  [Counted WaitlistNotification] ++ counted (reservationMetrics s) ReservationCreated ++
  (if negb (rp_roomID item =? uuid_Nil)%N
   then published (events s) (EvSlotReserved (rp_roomID item) (rs_SlotID r) (rs_ID r))
   else []) ++
  published (events s)
    (EvWaitlistSlotReserved (rp_roomID item) (rs_SlotID r) (wl_UserID (rp_waitlist item))
       (rs_ID r) (wl_ID (rp_waitlist item)) (rs_ExpiresAt r)).

Definition expire_says (s : Service) (x : list SlotReservation * ExpireVars) : list Output :=
  match x.1 with
  | [] => []
  | _ => (x.1 ≫= expired_says s x.2) ++ (ev_replacements x.2 ≫= replacement_says s)
  end.

Lemma announce_expired_says s v l : Says (announce_expired s v l) tt (l ≫= expired_says s v).
Proof.
  induction l as [|item l IH]; cbn [announce_expired]; speak; [done|]. cbn.
  unfold expired_says. by rewrite <- !app_assoc.
Qed.

Lemma announce_replacements_says s l :
  Says (announce_replacements s l) tt (l ≫= replacement_says s).
Proof.
  induction l as [|item l IH]; cbn [announce_replacements]; speak; [done|]. cbn.
  unfold replacement_says. simpl. by rewrite <- !app_assoc.
Qed.

Definition batch_limit (limit : Z) : Z :=
  if (limit <=? 0)%Z then defaultExpirationBatchLimit else limit.

(** What follows the transaction of ExpireDue. *)
Definition announce_all (s : Service) (x : list SlotReservation * ExpireVars)
    : prog (result unit) :=
  let '(expired, v) := x in
  match expired with
  | [] => ok tt
  | _ =>
      announce_expired s v expired ;;;
      announce_replacements s (ev_replacements v) ;;;
      ok tt
  end.

Lemma announce_all_says s x : Says (announce_all s x) (Ok tt) (expire_says s x).
Proof.
  destruct x as [[|item l] v]; [speak; done|].
  eapply says_eq; [eapply bind_says; [apply announce_expired_says|]; eapply bind_says;
    [apply announce_replacements_says|apply ret_says]|]. by rewrite app_nil_r.
Qed.

Lemma expire_due_unfold s limit :
  ExpireDue s limit =
    Do Now (fun now => let? x := WithinTransaction (expire_due_tx s now (batch_limit limit)) in
                       announce_all s x).
Proof. done. Qed.

Lemma expire_due_effect H s limit Post Bad db out :
  (forall now, ok_now H now -> tx_spec H (expire_due_tx s now (batch_limit limit)) Post Bad db) ->
  wp H (ExpireDue s limit)
    (effect_of H Post Bad (fun _ => tt) (expire_says s) (fun _ => []) db out) db out.
Proof.
  intros Htx. rewrite expire_due_unfold. apply wp_now. intros now Hnow.
  apply wp_operation; [by apply Htx|apply announce_all_says|intros e; speak; done].
Qed.

Lemma confirm_reservation_does H s user rid db out :
  schema db ->
  wp H (ConfirmReservation s user rid)
    (effect_of H (fun x db' => exists now, ok_now H now /\ confirmed user rid now db x db')
       (fun _ => True) fst (confirm_says s) (fun _ => []) db out) db out.
Proof.
  intros Hs. apply confirm_reservation_effect; [done|]. intros now Hnow _.
  apply (tx_spec_mono _ _ (confirmed user rid now db)); [|eauto].
  intros out'. by apply confirm_reservation_tx_spec.
Qed.

Lemma cancel_reservation_does H s user rid db out :
  schema db ->
  wp H (CancelReservation s user rid)
    (effect_of H (fun v db' => exists now, ok_now H now /\ cancelled H s user rid now db v db')
       (fun _ => True) cv_cancelled (reservation_cancel_says s) (fun _ => []) db out) db out.
Proof.
  intros Hs. apply cancel_reservation_effect; [done|]. intros now Hnow _.
  apply (tx_spec_mono _ _ (cancelled H s user rid now db)); [|eauto].
  intros out'. by apply cancel_reservation_tx_spec.
Qed.

Lemma expire_due_does H s limit db out :
  wp H (ExpireDue s limit)
    (effect_of H (fun x db' => exists now, ok_now H now /\
         expired_due H s now (batch_limit limit) db x db')
       (fun _ => True) (fun _ => tt) (expire_says s) (fun _ => []) db out) db out.
Proof.
  apply expire_due_effect. intros now Hnow.
  apply (tx_spec_mono _ _ (expired_due H s now (batch_limit limit) db)); [|eauto].
  intros out'. apply expire_due_tx_spec.
Qed.
End reservation.

(** ** Failures, whatever the request *)

Definition quietly (out out' : list Output) : Prop :=
  exists l, out' = out ++ l /\ forall ev, Published ev ∉ l.

(** An error leaves no event and, up to a commit whose answer was lost, no change. *)
Definition clean_failure {A} (db : DB) (out : list Output) (r : result A) (db' : DB)
    (out' : list Output) : Prop :=
  match r with
  | Ok _ => True
  | Err e => quietly out out' /\ (unchanged db db' \/ lost_commit e)
  end.

Lemma counted_quiet m c ev : Published ev ∉ counted m c.
Proof. destruct m; simpl; [apply not_elem_of_nil|]. by intros [=]%list_elem_of_singleton. Qed.

Lemma effect_clean H {V A} (Post : V -> DB -> Prop) Bad (answer : V -> A) speech grumbles db out
    r db' out' :
  (forall e ev, Published ev ∉ grumbles e) ->
  effect_of H Post Bad answer speech grumbles db out r db' out' -> clean_failure db out r db' out'.
Proof.
  intros Hg. destruct r as [a|e]; simpl; [done|]. intros [-> Hdb]. split.
  - exists (grumbles e). split; [done|]. apply Hg.
  - destruct Hdb as [[? _]|(_ & ? & _)]; auto.
Qed.

Lemma wp_answered H {A} (p : prog (result A)) db out :
  wp H p (clean_failure db out) db out -> wp H (answered p) (clean_failure db out) db out.
Proof.
  intros Hp. apply wp_bind. eapply wp_mono; [|exact Hp].
  intros [a|e] db' out' Hr; by apply wp_ret.
Qed.

Section readers.
Context (H : Assm) (db : DB) (out : list Output).

Local Abbreviation clean p := (wp H p (clean_failure db out) db out).

Lemma refused_clean {A} e : clean (@fail A e).
Proof.
  apply wp_ret. split; [|left; auto with svc]. exists []. rewrite app_nil_r.
  split; [done|]. intros ev. apply not_elem_of_nil.
Qed.

Lemma list_bookings_clean user page pageSize : clean (Booking.ListBookings user page pageSize).
Proof.
  unfold Booking.ListBookings, BookingRepo.List.
  case_bool_decide; [by apply refused_clean|]. do 2 (case_match; [by apply refused_clean|]).
  apply wp_query; [intros; norm; apply refused_clean|]. norm.
  assert (forall l o a, (BookingRepo.page_of l o a db).2 = db) as Hro
    by (intros; unfold BookingRepo.page_of; by repeat case_match).
  apply wp_sql; [intros _ a m; rewrite Hro; split|intros a _; rewrite Hro]; norm;
    [apply refused_clean..|].
  case_match; [by apply wp_ret|apply refused_clean].
Qed.

Lemma list_mine_clean {A} user e f (q : time -> Answer -> DB -> A) :
  clean (if bool_decide (us_Role user <> RoleUser) then fail e
         else let! now := perform Now in on_err f (perform (Sql (select (q now))))).
Proof.
  case_bool_decide; [apply refused_clean|]. apply wp_now. intros now _.
  apply wp_select; [intros; norm; apply refused_clean|done].
Qed.
End readers.

Lemma serve_clean H cfg req db out :
  schema db -> wp H (serve cfg req) (clean_failure db out) db out.
Proof.
  intros Hs. destruct req; apply wp_answered;
    try (apply list_bookings_clean || apply list_mine_clean);
    (eapply wp_mono;
     [|first [ apply create_booking_does | apply cancel_booking_does
             | apply join_waitlist_does | apply leave_waitlist_does
             | by apply confirm_reservation_does | by apply cancel_reservation_does
             | apply expire_due_does ]]);
    intros ? ? ?; apply effect_clean; intros; first [apply counted_quiet|apply not_elem_of_nil].
Qed.
