(* ===== verification/Safety.v ===== *)
(** * Safety: what holds of every reachable database *)

From S2P Require Import Prelude Domain Database Program Postgres Schema Usecase Handover.
From S2P Require Import Invariant System Scenario Machine Effects.
From S2P Require Booking Waitlist Reservation.

(** The rows that hold a slot. *)
Inductive Holding :=
| ByBooking (bookingID : uuid)
| ByReservation (reservationID : uuid).

Definition holding (db : DB) (slot : uuid) (h : Holding) : Prop :=
  match h with
  | ByBooking i => exists b, db_bookings db !! i = Some b /\ active_booking slot b
  | ByReservation j => exists r, db_reservations db !! j = Some r /\ active_reservation slot r
  end.

(** The two tables together give a slot one holder. *)
Lemma exclusive_holder db slot h h' :
  exclusive db -> holding db slot h -> holding db slot h' -> h = h'.
Proof.
  intros (Hb & Hr & Hx). destruct h as [i|i], h' as [j|j]; intros (x & Hi & Hx1) (y & Hj & Hy1); simpl.
  - f_equal. eapply Hb; eauto. by exists slot.
  - by edestruct Hx.
  - by edestruct Hx.
  - f_equal. eapply Hr; eauto. by exists slot.
Qed.

(** C1. Whatever requests were served one after the other and whatever failed meanwhile, a
    slot is held by at most one booking or reservation: it is never booked twice, reserved
    twice, or both. *)
Theorem slot_has_one_holder H cfg w slot h h' :
  reachable H cfg w -> holding (w_db w) slot h -> holding (w_db w) slot h' -> h = h'.
Proof.
  intros Hw. destruct (reachable_inv H cfg w Hw) as [Hs [Hc _]].
  by apply exclusive_holder, schema_exclusive.
Qed.

Lemma slot_has_one_holder_witness :
  holding (w_db offered) 20 (ByReservation 1003) /\ ByReservation 1003 = ByReservation 1003.
Proof.
  assert (holding (w_db offered) 20 (ByReservation 1003)) as Hh
    by (eexists; split; [by vm_compute|by vm_compute]).
  split; [done|].
  exact (slot_has_one_holder quiet settings offered 20 _ _ offered_reachable Hh Hh).
Defined.

(** Nobody overtakes the queue: when a booking succeeds, no user was waiting for the
    slot (as long as no row is locked by a concurrent transaction). *)
Theorem nobody_books_past_the_queue H cfg E w user slotID link b :
  unlocked H -> respects H E -> reachable H cfg w ->
  (run E (Booking.CreateBooking (bookingService cfg) user slotID link) w).1 = Ok b ->
  slot_state (w_db w) slotID = {| holder := Free; queue := [] |}.
Proof.
  intros Hl HE Hw Hok. destruct (reachable_inv H cfg w Hw) as [Hs [Hc Hq]].
  pose proof (wp_run H E _ _ w HE (create_booking_does H (bookingService cfg) user slotID link
    (w_db w) (w_out w))) as Heff.
  rewrite Hok in Heff. destruct Heff as (x & (now & _ & Hb) & _).
  eapply (booked_free (bookingService cfg)); [done|by apply schema_exclusive|by apply Hq|exact Hb].
Qed.

Lemma nobody_books_past_the_queue_witness :
  (run env (Booking.CreateBooking (bookingService settings) carol 21 false) start).1 =
    Ok {| bk_ID := 1000; bk_UserID := 3; bk_SlotID := 21; bk_Status := BookingStatusActive;
          bk_ConferenceLink := None; bk_CreatedAt := one_am |} /\
  slot_state (w_db start) 21 = {| holder := Free; queue := [] |}.
Proof.
  assert ((run env (Booking.CreateBooking (bookingService settings) carol 21 false) start).1 =
    Ok {| bk_ID := 1000; bk_UserID := 3; bk_SlotID := 21; bk_Status := BookingStatusActive;
          bk_ConferenceLink := None; bk_CreatedAt := one_am |}) as Hok by by vm_compute.
  split; [exact Hok|].
  exact (nobody_books_past_the_queue quiet settings env start carol 21 false _ quiet_unlocked
    env_quiet (reachable_start _ _ _ start_fresh) Hok).
Defined.

(** C4. Requests that are served one after the other, so that no claim finds a waitlist entry
    or a reservation locked by another transaction and skips it, never leave a slot idle with
    a queue: while users wait for a slot, somebody holds it. *)
Theorem waiting_users_wait_for_held_slots H cfg w i e :
  unlocked H -> reachable H cfg w ->
  db_waitlist (w_db w) !! i = Some e -> wl_Status e = WaitlistStatusActive ->
  exists h, holding (w_db w) (wl_SlotID e) h.
Proof.
  intros Hl Hw Hi He. destruct (reachable_inv H cfg w Hw) as [_ [_ Hq]].
  destruct (Hq Hl i e Hi He) as [[]|[(j & b & Hj & Hb)|(j & r & Hj & Hr)]].
  - exists (ByBooking j). by exists b.
  - exists (ByReservation j). by exists r.
Qed.

Lemma waiting_users_wait_for_held_slots_witness :
  exists e, db_waitlist (w_db offered) !! 1002%N = Some e /\ wl_UserID e = 3%N /\
    exists h, holding (w_db offered) (wl_SlotID e) h.
Proof.
  eexists. split; [by vm_compute|]. split; [done|].
  eapply (waiting_users_wait_for_held_slots quiet settings offered 1002);
    [exact quiet_unlocked|exact offered_reachable|by vm_compute|done].
Defined.

(** Every reservation goes back to a waitlist entry of the same slot and user that has
    left the queue, no two reservations to the same one; a reservation carries a
    confirmation time exactly when it is confirmed and an expiration time exactly when it
    has expired. *)
Theorem reservations_stem_from_the_queue H cfg w j r :
  reachable H cfg w -> db_reservations (w_db w) !! j = Some r ->
  (exists i e, rs_WaitlistEntryID r = Some i /\ db_waitlist (w_db w) !! i = Some e /\
     wl_SlotID e = rs_SlotID r /\ wl_UserID e = rs_UserID r /\
     wl_Status e <> WaitlistStatusActive) /\
  (forall j' r', db_reservations (w_db w) !! j' = Some r' ->
     rs_WaitlistEntryID r' = rs_WaitlistEntryID r -> j' = j) /\
  (rs_Status r = ReservationStatusConfirmed <-> is_Some (rs_ConfirmedAt r)) /\
  (rs_Status r = ReservationStatusExpired <-> is_Some (rs_ExpiredAt r)).
Proof.
  intros Hw Hr. destruct (reachable_inv H cfg w Hw) as [_ [Hc _]].
  destruct (co_stamped _ Hc j r Hr). split_and!; try done.
  - exact (co_stems _ Hc j r Hr).
  - intros j' r' Hr' Heq. by apply (co_once _ Hc j' j r' r).
Qed.

Lemma reservations_stem_from_the_queue_witness :
  exists r, db_reservations (w_db offered) !! 1003%N = Some r /\
    exists i e, rs_WaitlistEntryID r = Some i /\ db_waitlist (w_db offered) !! i = Some e /\
      wl_UserID e = rs_UserID r.
Proof.
  eexists. split; [by vm_compute|].
  edestruct (reservations_stem_from_the_queue quiet settings offered 1003)
    as [(i & e & ? & ? & ? & ? & ?) _]; [exact offered_reachable|by vm_compute|].
  exists i, e. split_and!; done.
Defined.

(** Every constraint of the migrations holds of every reachable database, whatever
    fails on the way: keys, partial unique indexes, references, positions. *)
Theorem constraints_always_hold H cfg w : reachable H cfg w -> schema (w_db w).
Proof. intros Hw. by destruct (reachable_inv H cfg w Hw). Qed.

Lemma constraints_always_hold_witness : schema (w_db offered).
Proof. exact (constraints_always_hold quiet settings offered offered_reachable). Defined.

(** C7. A request that fails leaves every table as it was; the one exception is a COMMIT
    whose answer was lost, which the error reports.  It publishes no event in any case. *)
Theorem failed_requests_change_nothing H cfg E req w e :
  reachable H cfg w -> respects H E -> (run E (serve cfg req) w).1 = Err e ->
  (unchanged (w_db w) (w_db (run E (serve cfg req) w).2) \/ lost_commit e) /\
  exists l, w_out (run E (serve cfg req) w).2 = w_out w ++ l /\ forall ev, Published ev ∉ l.
Proof.
  intros Hw HE Herr. destruct (reachable_inv H cfg w Hw) as [Hs _].
  pose proof (wp_run H E _ _ w HE (serve_clean H cfg req (w_db w) (w_out w) Hs)) as Hc.
  rewrite Herr in Hc. by destruct Hc.
Qed.

Lemma failed_requests_change_nothing_witness :
  exists e, (run env (serve settings (ReqCreateBooking carol 20 false)) offered).1 = Err e /\
    AsDomainError e = Some (ErrorSlotReserved, "slot is reserved") /\
    (unchanged (w_db offered)
       (w_db (run env (serve settings (ReqCreateBooking carol 20 false)) offered).2) \/
     lost_commit e) /\
    exists l, w_out (run env (serve settings (ReqCreateBooking carol 20 false)) offered).2 =
      w_out offered ++ l /\ forall ev, Published ev ∉ l.
Proof.
  eexists. split; [by vm_compute|]. split; [done|].
  apply (failed_requests_change_nothing quiet settings env (ReqCreateBooking carol 20 false)
    offered); [exact offered_reachable|exact env_quiet|by vm_compute].
Defined.

(** In particular it publishes no event. *)
Theorem failed_requests_publish_nothing H cfg E req w e :
  reachable H cfg w -> respects H E -> (run E (serve cfg req) w).1 = Err e ->
  exists l, w_out (run E (serve cfg req) w).2 = w_out w ++ l /\ forall ev, Published ev ∉ l.
Proof.
  intros Hw HE Herr. destruct (reachable_inv H cfg w Hw) as [Hs _].
  pose proof (wp_run H E _ _ w HE (serve_clean H cfg req (w_db w) (w_out w) Hs)) as Hc.
  rewrite Herr in Hc. apply Hc.
Qed.

Lemma failed_requests_publish_nothing_witness :
  exists e, (run env (serve settings (ReqCreateBooking carol 20 false)) offered).1 = Err e /\
    exists l, w_out (run env (serve settings (ReqCreateBooking carol 20 false)) offered).2 =
      w_out offered ++ l /\ forall ev, Published ev ∉ l.
Proof.
  eexists. split; [by vm_compute|].
  eapply (failed_requests_publish_nothing quiet settings env (ReqCreateBooking carol 20 false)
    offered); [exact offered_reachable|exact env_quiet|by vm_compute].
Defined.
