(* ===== verification/Decisions.v ===== *)
(** * Decisions: when a request succeeds, and with which code it is refused

    In an environment where nothing fails (and identifiers are fresh) the reply to a
    request is a function of the database: the tables below read it off the abstract
    state of the slot.  In particular, a request ends in an internal error only where it would
    store a row for a user that has none, as the users of a dummy login have before they are
    seeded. *)

From S2P Require Import Prelude Domain Database Program Postgres Schema Usecase Handover.
From S2P Require Import Invariant System Scenario Machine Effects.
From S2P Require Booking Waitlist Reservation.

Inductive Reply :=
| Accepted
| Refused (c : ErrorCode)
| Broken.

Definition refusal (e : error) : Reply :=
  match AsDomainError e with
  | Some (c, _) => Refused c
  | None => Broken
  end.

Definition reply {A} (r : result A) : Reply :=
  match r with
  | Ok _ => Accepted
  | Err e => refusal e
  end.

(** ** The tables *)

Definition for_users (user : User) (r : Reply) : Reply :=
  if bool_decide (us_Role user = RoleUser) then r else Refused ErrorForbidden.

(** A row for [user] is refused by a foreign key when the user is not stored. *)
Definition stored_for (db : DB) (user : User) : Reply :=
  if has (db_users db) (us_ID user) then Accepted else Refused ErrorInternalError.

Definition book_reply (db : DB) (now : time) (user : User) (slotID : uuid) : Reply :=
  for_users user
    match db_slots db !! slotID with
    | None => Refused ErrorSlotNotFound
    | Some slot =>
        if (sl_StartTime slot <? now)%Z then Refused ErrorInvalidRequest
        else
          match holder_of db slotID with
          | Free => stored_for db user
          | BookedBy _ => Refused ErrorSlotAlreadyBooked
          | ReservedFor _ => Refused ErrorSlotReserved
          end
    end.

Definition cancel_reply (db : DB) (user : User) (bookingID : uuid) : Reply :=
  for_users user
    match db_bookings db !! bookingID with
    | None => Refused ErrorBookingNotFound
    | Some b => if (bk_UserID b =? us_ID user)%N then Accepted else Refused ErrorForbidden
    end.

Definition join_reply (db : DB) (now : time) (user : User) (slotID : uuid) : Reply :=
  for_users user
    match db_slots db !! slotID with
    | None => Refused ErrorSlotNotFound
    | Some slot =>
        if (sl_StartTime slot <? now)%Z then Refused ErrorInvalidRequest
        else
          match holder_of db slotID with
          | BookedBy u =>
              if (u =? us_ID user)%N then Refused ErrorInvalidRequest
              else
                match first_where (open_entry slotID (us_ID user)) (db_waitlist db) with
                | Some _ => Refused ErrorWaitlistJoined
                | None => stored_for db user
                end
          | Free | ReservedFor _ => Refused ErrorSlotNotBooked
          end
    end.

Definition leave_reply (db : DB) (user : User) (entryID : uuid) : Reply :=
  for_users user
    match db_waitlist db !! entryID with
    | None => Refused ErrorWaitlistNotFound
    | Some e => if (wl_UserID e =? us_ID user)%N then Accepted else Refused ErrorWaitlistNotFound
    end.

Definition confirm_reply (db : DB) (now : time) (user : User) (rid : uuid) : Reply :=
  for_users user
    match db_reservations db !! rid with
    | None => Refused ErrorReservationNotFound
    | Some r =>
        if negb (rs_UserID r =? us_ID user)%N then Refused ErrorForbidden
        else if bool_decide (rs_Status r = ReservationStatusActive) && (now <? rs_ExpiresAt r)%Z
        then
          match db_slots db !! rs_SlotID r with
          | Some slot =>
              if (sl_StartTime slot <? now)%Z then Refused ErrorInvalidRequest else Accepted
          | None => Broken
          end
        else Refused ErrorInvalidRequest
    end.

Definition decline_reply (db : DB) (user : User) (rid : uuid) : Reply :=
  for_users user
    match db_reservations db !! rid with
    | None => Refused ErrorReservationNotFound
    | Some r => if (rs_UserID r =? us_ID user)%N then Accepted else Refused ErrorForbidden
    end.

(** ** Rules *)

(** Identifiers that no table uses yet. *)
Definition unused (db : DB) (i : uuid) : Prop :=
  db_bookings db !! i = None /\ db_waitlist db !! i = None /\ db_reservations db !! i = None.

Lemma effect_reply H {V A} (Post : V -> DB -> Prop) (answer : V -> A) speech grumbles db out v
    r db' out' :
  ~ may_fail H ->
  effect_of H (fun x db' => Post x db' /\ v = Accepted) (fun e => refusal e = v) answer speech
    grumbles db out r db' out' ->
  reply r = v.
Proof.
  intros Hf. destruct r as [a|e]; simpl; [by intros (x & [_ ->] & _)|].
  intros [_ [[_ [?|?]]|[? _]]]; done.
Qed.

Lemma for_users_other user v : us_Role user <> RoleUser -> Refused ErrorForbidden = for_users user v.
Proof. intros H. unfold for_users. by rewrite bool_decide_false. Qed.
Lemma for_users_user user v : us_Role user = RoleUser -> for_users user v = v.
Proof. intros H. unfold for_users. by rewrite bool_decide_true. Qed.

(** The three inserts, when the identifier is fresh and the references exist. *)
Lemma booking_insert_fresh b a db :
  bk_Status b = BookingStatusActive -> db_bookings db !! bk_ID b = None ->
  is_Some (db_slots db !! bk_SlotID b) ->
  BookingRepo.insert b a db =
    match first_where (active_booking (bk_SlotID b)) (db_bookings db) with
    | Some _ => (Ok 0%N, db)
    | None =>
        if has (db_users db) (bk_UserID b)
        then (Ok 1%N, set_bookings (<[bk_ID b := b]> (db_bookings db)) db)
        else (Err (PgError foreign_key_violation "bookings_user_id_fkey"), db)
    end.
Proof.
  intros Hact Hid Hsl. unfold BookingRepo.insert.
  rewrite (bool_decide_true (bk_Status b = _)), (has_false (db_bookings db)), (has_true (db_slots db)) by done.
  simpl. destruct (first_where _ _); [done|]. by destruct (has (db_users db) _).
Qed.

Lemma reservation_insert_fresh r a db :
  db_reservations db !! rs_ID r = None ->
  first_where (active_reservation (rs_SlotID r)) (db_reservations db) = None ->
  is_Some (db_slots db !! rs_SlotID r) -> is_Some (db_users db !! rs_UserID r) ->
  (forall i, rs_WaitlistEntryID r = Some i -> is_Some (db_waitlist db !! i)) ->
  ReservationRepo.insert r a db =
    (Ok r, set_reservations (<[rs_ID r := r]> (db_reservations db)) db).
Proof.
  intros Hid Hfree Hsl Hu Hw. unfold ReservationRepo.insert.
  rewrite has_false, !has_true, Hfree by done. rewrite (bool_decide_false (is_Some None)) by
    apply is_Some_None. rewrite andb_false_r.
  replace (ReservationRepo.fkey_ok _ _) with true; [done|].
  destruct (rs_WaitlistEntryID r) as [i|]; [|done]. simpl. symmetry. apply has_true. eauto.
Qed.

Lemma waitlist_insert_fresh e a db :
  wl_Status e = WaitlistStatusActive -> db_waitlist db !! wl_ID e = None ->
  is_Some (db_slots db !! wl_SlotID e) ->
  let seq := (db_waitlist_seq db + 1)%Z in
  let row := Build_WaitlistEntry (wl_ID e) (wl_SlotID e) (wl_UserID e) WaitlistStatusActive seq
               (wl_CreatedAt e) None in
  WaitlistRepo.insert e a db =
    match first_where (open_entry (wl_SlotID e) (wl_UserID e)) (db_waitlist db) with
    | Some _ => (Err (PgError unique_violation WaitlistRepo.uq_name), set_waitlist_seq seq db)
    | None =>
        if has (db_users db) (wl_UserID e)
        then (Ok row, set_waitlist (<[wl_ID e := row]> (db_waitlist db)) (set_waitlist_seq seq db))
        else (Err (PgError foreign_key_violation "waitlist_entries_user_id_fkey"), set_waitlist_seq seq db)
    end.
Proof.
  intros Hact Hid Hsl seq row. unfold WaitlistRepo.insert. rewrite Hact. simpl.
  rewrite (has_false (db_waitlist db)), (has_true (db_slots db)) by done. simpl.
  destruct (first_where _ _); [done|]. by destruct (has (db_users db) _).
Qed.

(** Nothing stands in the way of the reservation of a claimed entry. *)
Lemma reserve_succeeds db slot locked e t id now ttl a :
  schema db -> WaitlistRepo.next_entry locked slot db = Some e ->
  db_reservations db !! id = None -> holder_of db slot = Free ->
  let r := reserve id slot (notified t e) now ttl in
  ReservationRepo.insert r a
    (set_waitlist (<[wl_ID e := notified t e]> (db_waitlist db)) db) =
  (Ok r, handed_over t e r db).
Proof.
  intros Hs He Hid Hfree r. apply next_entry_Some in He as (He & Hslot & _);
    [|apply schema_waitlist, Hs].
  destruct (schema_waitlist _ Hs) as [_ _ Hfs Hfu _ _].
  apply reservation_insert_fresh; simpl; [done|..].
  - unfold holder_of in Hfree. destruct (first_where _ (db_bookings db)); [done|].
    by destruct (first_where _ (db_reservations db)).
  - rewrite <- Hslot. by eapply Hfs.
  - by eapply Hfu.
  - intros i [= <-]. by rewrite lookup_insert_eq.
Qed.

(** Executes the insert of a reservation by the instance [spec] of [reserve_succeeds]. *)
Ltac reserves spec :=
  lazymatch goal with
  | |- context [ReservationRepo.insert ?r ?a ?d] =>
      let E := fresh in
      eassert (ReservationRepo.insert r a d = _) as E; [apply spec|rewrite E; clear E]
  end.

(** Symbolic execution in a calm environment: no statement fails. *)
Ltac calm :=
  norm;
  lazymatch goal with
  | |- wp _ (Ret _) _ _ _ => apply wp_ret; (split; [done|])
  | |- wp _ (Do Now _) _ _ _ => apply wp_now; intros ?now ?Hnow
  | |- wp _ (Do NewUUID _) _ _ _ => apply wp_uuid; intros ?id ?Hid
  | |- wp _ (Do (Statement _ (query _)) _) _ _ _ =>
      apply wp_query; [intros ?Hf; by destruct (calm_never_fails _ _ Hf)|]
  | |- wp _ (Do (Statement _ _) _) _ _ _ =>
      apply wp_sql; [intros ?Hf; by destruct (calm_never_fails _ _ Hf)|intros ?a ?Ha]
  end; norm.

Section decisions.
Context (db : DB) (Hs : schema db) (Hc : coherent db) (now : time).

Local Abbreviation quietly := (calm now (unused db)).

Lemma booked_slot slot b :
  first_where (active_booking slot) (db_bookings db) = Some b ->
  holder_of db slot = BookedBy (bk_UserID b).
Proof. intros Hb. unfold holder_of. by rewrite Hb. Qed.

Lemma reserved_slot slot r :
  first_where (active_reservation slot) (db_reservations db) = Some r ->
  holder_of db slot = ReservedFor (rs_UserID r).
Proof.
  intros Hr. apply first_where_Some in Hr as [Hr [j Hj]].
  apply holder_is; [by apply schema_exclusive|]. by eapply held_by_reservation.
Qed.

Lemma create_booking_tx_decides s user slotID :
  Booking.reservations s = true -> us_Role user = RoleUser ->
  tx_spec quietly (Booking.create_booking_tx s user slotID now)
    (fun _ _ => True /\ book_reply db now user slotID = Accepted)
    (fun e => refusal e = book_reply db now user slotID) db.
Proof.
  intros Hres Hrole out. unfold book_reply. rewrite for_users_user by done.
  unfold Booking.create_booking_tx. calm.
  destruct (db_slots db !! slotID) as [slot|] eqn:Hslot; [|by calm].
  destruct (sl_StartTime slot <? now)%Z; [by calm|]. rewrite Hres. calm.
  destruct (first_where (active_reservation slotID) _) as [r|] eqn:Hr.
  { calm. by rewrite (reserved_slot _ _ Hr). }
  calm. calm. rewrite booking_insert_fresh by (done || apply Hid || by rewrite Hslot).
  simpl. destruct (first_where (active_booking slotID) _) as [b|] eqn:Hb; simpl.
  - calm. by rewrite (booked_slot _ _ Hb).
  - assert (holder_of db slotID = Free) as -> by (unfold holder_of; by rewrite Hb, Hr).
    unfold stored_for. simpl. destruct (has (db_users db) (us_ID user)); simpl; by calm.
Qed.

Lemma cancel_booking_tx_decides s user id :
  Booking.waitlists s = true -> Booking.reservations s = true -> us_Role user = RoleUser ->
  tx_spec quietly (Booking.cancel_booking_tx s user id)
    (fun _ _ => True /\ cancel_reply db user id = Accepted)
    (fun e => refusal e = cancel_reply db user id) db.
Proof.
  intros Hw Hres Hrole out. unfold cancel_reply. rewrite for_users_user by done.
  unfold Booking.cancel_booking_tx. calm.
  destruct (db_bookings db !! id) as [b|] eqn:Hb; [|by calm].
  case_bool_decide as Hu. { calm. by destruct (N.eqb_spec (bk_UserID b) (us_ID user)). }
  rewrite (proj2 (N.eqb_eq _ _)) by (by destruct (decide (bk_UserID b = us_ID user))).
  calm. pose proof (booking_cancel_preserves id a db Hs) as Hs1. revert Hs1.
  unfold BookingRepo.update_cancelled. rewrite Hb.
  case_bool_decide as Hact; norm; [|intros _; calm; rewrite Hb; norm; calm; by calm].
  intros Hs1. calm. rewrite Hw. calm. unfold WaitlistRepo.claim_next.
  destruct (WaitlistRepo.next_entry _ _ _) as [e|] eqn:He; norm; [|by calm].
  rewrite Hres. calm. calm. calm.
  reserves (reserve_succeeds _ (bk_SlotID b) (a_locked a0) e (a_now a0) id0 now0
    (Booking.reservationTTLValue s) a1 Hs1 He).
  - apply Hid.
  - eapply freed_free; [|by apply booking_cancel_freed; [apply schema_exclusive|..]|done].
    by apply schema_exclusive.
  - norm. by calm.
Qed.

Lemma holder_free_or_reserved slot :
  first_where (active_booking slot) (db_bookings db) = None ->
  holder_of db slot = Free \/ exists u, holder_of db slot = ReservedFor u.
Proof. intros Hb. unfold holder_of. rewrite Hb. destruct (first_where _ (db_reservations db)); eauto. Qed.

Lemma join_waitlist_tx_decides user slotID :
  us_Role user = RoleUser ->
  tx_spec quietly (Waitlist.join_waitlist_tx user slotID)
    (fun _ _ => True /\ join_reply db now user slotID = Accepted)
    (fun e => refusal e = join_reply db now user slotID) db.
Proof.
  intros Hrole out. unfold join_reply. rewrite for_users_user by done.
  unfold Waitlist.join_waitlist_tx. calm.
  destruct (db_slots db !! slotID) as [slot|] eqn:Hslot; [|by calm]. calm.
  simpl in Hnow. subst now0.
  destruct (sl_StartTime slot <? now)%Z; [by calm|]. calm.
  destruct (first_where (active_booking slotID) _) as [b|] eqn:Hb.
  2: { calm. by destruct (holder_free_or_reserved _ Hb) as [->|[u ->]]. }
  rewrite (booked_slot _ _ Hb).
  case_bool_decide as Hown; [calm; by rewrite (proj2 (N.eqb_eq _ _))|].
  rewrite (proj2 (N.eqb_neq _ _)) by done. calm. calm. calm.
  rewrite waitlist_insert_fresh by (done || apply Hid || by rewrite Hslot). simpl.
  destruct (first_where (open_entry _ _) _) as [e|]; [by calm|].
  unfold stored_for. simpl. destruct (has (db_users db) (us_ID user)); simpl; by calm.
Qed.

Lemma leave_waitlist_tx_decides user id :
  us_Role user = RoleUser ->
  tx_spec quietly (Waitlist.leave_waitlist_tx user id)
    (fun _ _ => True /\ leave_reply db user id = Accepted)
    (fun e => refusal e = leave_reply db user id) db.
Proof.
  intros Hrole out. unfold leave_reply. rewrite for_users_user by done.
  unfold Waitlist.leave_waitlist_tx. calm. unfold WaitlistRepo.update_cancelled.
  destruct (db_waitlist db !! id) as [e|] eqn:He; norm.
  2: { calm. rewrite He. by calm. }
  destruct (N.eqb_spec (wl_UserID e) (us_ID user)) as [Hu|Hu].
  - rewrite !(bool_decide_true (wl_UserID e = _)) by done. norm.
    destruct (_ || _); norm; calm; [done|]. rewrite He, bool_decide_true by done. by calm.
  - rewrite !(bool_decide_false (wl_UserID e = _)) by done. norm. calm.
    rewrite He, bool_decide_false by done. by calm.
Qed.

Lemma confirm_reservation_tx_decides user rid :
  us_Role user = RoleUser ->
  tx_spec quietly (Reservation.confirm_reservation_tx user rid now)
    (fun _ _ => True /\ confirm_reply db now user rid = Accepted)
    (fun e => refusal e = confirm_reply db now user rid) db.
Proof.
  intros Hrole out. unfold confirm_reply. rewrite for_users_user by done.
  unfold Reservation.confirm_reservation_tx. calm.
  destruct (db_reservations db !! rid) as [r|] eqn:Hr; [|by calm].
  destruct (N.eqb_spec (rs_UserID r) (us_ID user)) as [Hu|Hu]; simpl.
  2: { rewrite bool_decide_true by done. by calm. }
  rewrite bool_decide_false by (intros H; done).
  destruct (decide (rs_Status r = ReservationStatusActive)) as [Hact|Hact].
  2: { rewrite bool_decide_true, bool_decide_false by done. by calm. }
  rewrite bool_decide_false, bool_decide_true by (done || (intros H; done)). simpl.
  destruct (now <? rs_ExpiresAt r)%Z; norm; [|by calm]. calm.
  destruct (first_where (active_booking (rs_SlotID r)) _) as [b|] eqn:Hb.
  { apply first_where_Some in Hb as [Hb [i Hi]]. destruct (co_exclusive _ Hc i rid b r _ Hi Hr Hb). by split. }
  calm. destruct (reservations_slot_id_fkey _ _ _ _ (schema_reservations _ Hs) rid r _ Hr eq_refl)
    as [slot Hslot]. rewrite Hslot.
  destruct (sl_StartTime slot <? now)%Z; [by calm|]. calm. calm.
  rewrite booking_insert_fresh by (done || apply Hid || (simpl; by rewrite Hslot)). simpl. rewrite Hb.
  rewrite (has_true (db_users db)).
  2: { rewrite <- Hu. by eapply (reservations_user_id_fkey _ _ _ _ (schema_reservations _ Hs)). }
  simpl. norm.
  calm. unfold ReservationRepo.update_active. simpl.
  rewrite (reservations_pkey _ _ _ _ (schema_reservations _ Hs) rid r Hr), Hr.
  rewrite bool_decide_true by done. norm. by calm.
Qed.

Lemma cancel_reservation_tx_decides s user rid :
  Reservation.waitlists s = true -> us_Role user = RoleUser ->
  tx_spec quietly (Reservation.cancel_reservation_tx s user rid now)
    (fun _ _ => True /\ decline_reply db user rid = Accepted)
    (fun e => refusal e = decline_reply db user rid) db.
Proof.
  intros Hw Hrole out. unfold decline_reply. rewrite for_users_user by done.
  unfold Reservation.cancel_reservation_tx. calm.
  destruct (db_reservations db !! rid) as [r|] eqn:Hr; [|by calm].
  case_bool_decide as Hu. { calm. by destruct (N.eqb_spec (rs_UserID r) (us_ID user)). }
  rewrite (proj2 (N.eqb_eq _ _)) by (by destruct (decide (rs_UserID r = us_ID user))).
  calm. case_bool_decide as Hact; [by calm|]. norm. calm.
  rewrite (reservations_pkey _ _ _ _ (schema_reservations _ Hs) rid r Hr).
  pose proof (reservation_cancel_preserves rid a db Hs) as Hs1. revert Hs1.
  unfold ReservationRepo.update_active. rewrite Hr.
  rewrite bool_decide_true by (by destruct (decide (rs_Status r = ReservationStatusActive))).
  norm. intros Hs1. rewrite Hw. norm. calm. unfold WaitlistRepo.claim_next.
  destruct (WaitlistRepo.next_entry _ _ _) as [e|] eqn:He; norm; [|by calm].
  calm. calm.
  reserves (reserve_succeeds _ (rs_SlotID r) (a_locked a0) e (a_now a0) id now
    (Reservation.reservationTTLValue s) a1 Hs1 He).
  - simpl. rewrite lookup_insert_None. split; [apply Hid|].
    intros ->. destruct Hid as (_ & _ & Hid). congruence.
  - assert (rs_Status r = ReservationStatusActive) as Hst
      by by destruct (decide (rs_Status r = ReservationStatusActive)).
    eapply freed_free; [|by apply (reservation_stop_freed db rid r (ReservationRepo.cancel r));
      [apply schema_exclusive|..]|done].
    by apply schema_exclusive.
  - norm. by calm.
Qed.
End decisions.
(** ** The decisions *)

(** From the decision of a transaction body to that of the whole operation. *)
Lemma decided H cfg w E now {V A} (p : prog (result A)) (answer : V -> A) speech grumbles v :
  reachable H cfg w -> respects (calm now (unused (w_db w))) E ->
  (schema (w_db w) -> coherent (w_db w) ->
   wp (calm now (unused (w_db w))) p
     (effect_of (calm now (unused (w_db w))) (fun _ _ => True /\ v = Accepted)
        (fun e => refusal e = v) answer speech grumbles (w_db w) (w_out w))
     (w_db w) (w_out w)) ->
  reply (run E p w).1 = v.
Proof.
  intros Hw HE Hp. destruct (reachable_inv H cfg w Hw) as [Hs [Hc _]].
  refine (wp_run _ _ _ (fun r _ _ => reply r = v) w HE _).
  eapply wp_mono; [|by apply Hp].
  intros r db' out'. apply (effect_reply _ (fun _ _ => True)), calm_never_fails.
Qed.

(** C9. At one reading of the clock, when nothing fails, no row is locked and identifiers
    are fresh, CreateBooking succeeds exactly when a user who is stored asks for a slot
    that exists, has not started, and is free; otherwise the code says which of these
    failed, an internal error that only the user's row is missing. *)
Theorem create_booking_decision H cfg w E now user slotID link :
  reachable H cfg w -> respects (calm now (unused (w_db w))) E ->
  reply (run E (Booking.CreateBooking (bookingService cfg) user slotID link) w).1 =
    book_reply (w_db w) now user slotID.
Proof.
  intros Hw HE. eapply (decided H cfg w E now); [done..|]. intros Hs Hc.
  apply create_booking_effect; [intros Hr; by apply for_users_other|].
  intros ? <- Hr. by apply create_booking_tx_decides.
Qed.

(** A calm hour with identifiers that nothing uses. *)
Definition calm_env : Env :=
  {| env_answer _ := answer; env_now _ := one_am; env_uuid n := (5000 + N.of_nat n)%N |}.

Definition small (db : DB) : Prop :=
  map_Forall (fun i _ => (i < 5000)%N) (db_bookings db) /\
  map_Forall (fun i _ => (i < 5000)%N) (db_waitlist db) /\
  map_Forall (fun i _ => (i < 5000)%N) (db_reservations db).

#[global] Instance small_dec db : Decision (small db).
Proof. unfold small. apply _. Defined.

Lemma calm_env_ok db : small db -> respects (calm one_am (unused db)) calm_env.
Proof.
  intros (Hb & Hw & Hr). split; [done|done|]. intros n. simpl.
  split_and!; apply eq_None_not_Some; intros [x Hx].
  - apply Hb in Hx. lia.
  - apply Hw in Hx. lia.
  - apply Hr in Hx. lia.
Qed.

(** In [queued] the noon slot is free, and the morning slot is booked. *)
Lemma create_booking_decision_witness :
  reply (run calm_env (Booking.CreateBooking (bookingService settings) carol 21 false) queued).1 =
    Accepted /\
  reply (run calm_env (Booking.CreateBooking (bookingService settings) carol 20 false) queued).1 =
    Refused ErrorSlotAlreadyBooked.
Proof.
  assert (respects (calm one_am (unused (w_db queued))) calm_env) as HE
    by (apply calm_env_ok, (bool_decide_unpack _); by vm_compute).
  split; (etrans;
    [apply (create_booking_decision quiet settings queued calm_env one_am);
      [exact queued_reachable|exact HE]|by vm_compute]).
Defined.

(** C10. At one reading of the clock, when nothing fails, no row is locked and identifiers
    are fresh, CancelBooking succeeds exactly for the user's own bookings, cancelled ones
    included; nothing about the waitlist can make it fail. *)
Theorem cancel_booking_decision H cfg w E now user id :
  reachable H cfg w -> respects (calm now (unused (w_db w))) E ->
  reply (run E (Booking.CancelBooking (bookingService cfg) user id) w).1 =
    cancel_reply (w_db w) user id.
Proof.
  intros Hw HE. eapply (decided H cfg w E now); [done..|]. intros Hs Hc.
  apply cancel_booking_effect; [intros Hr; by apply for_users_other|].
  intros Hr. by apply cancel_booking_tx_decides.
Qed.

Lemma cancel_booking_decision_witness :
  reply (run calm_env (Booking.CancelBooking (bookingService settings) alice 1000) queued).1 =
    Accepted /\
  reply (run calm_env (Booking.CancelBooking (bookingService settings) bob 1000) queued).1 =
    Refused ErrorForbidden.
Proof.
  assert (respects (calm one_am (unused (w_db queued))) calm_env) as HE
    by (apply calm_env_ok, (bool_decide_unpack _); by vm_compute).
  split; (etrans;
    [apply (cancel_booking_decision quiet settings queued calm_env one_am);
      [exact queued_reachable|exact HE]|by vm_compute]).
Defined.

(** C11. At one reading of the clock, when nothing fails, no row is locked and identifiers
    are fresh, JoinWaitlist succeeds exactly for a slot that has not started and is booked
    by somebody else, when the user has no open entry for it and is stored; otherwise the
    code says which of these failed, an internal error that only the user's row is
    missing. *)
Theorem join_waitlist_decision H cfg w E now user slotID :
  reachable H cfg w -> respects (calm now (unused (w_db w))) E ->
  reply (run E (Waitlist.JoinWaitlist user slotID) w).1 = join_reply (w_db w) now user slotID.
Proof.
  intros Hw HE. eapply (decided H cfg w E now); [done..|]. intros Hs Hc.
  apply join_waitlist_effect; [intros Hr; by apply for_users_other|].
  intros Hr. by apply join_waitlist_tx_decides.
Qed.

(** A user with a token and without a row. *)
Definition stranger : User := user 9 "stranger@example.com" RoleUser.

Lemma join_waitlist_decision_witness :
  reply (run calm_env (Waitlist.JoinWaitlist bob 20) queued).1 = Refused ErrorWaitlistJoined /\
  reply (run calm_env (Waitlist.JoinWaitlist bob 21) queued).1 = Refused ErrorSlotNotBooked /\
  reply (run calm_env (Waitlist.JoinWaitlist stranger 20) queued).1 = Refused ErrorInternalError.
Proof.
  assert (respects (calm one_am (unused (w_db queued))) calm_env) as HE
    by (apply calm_env_ok, (bool_decide_unpack _); by vm_compute).
  split; [|split]; (etrans;
    [apply (join_waitlist_decision quiet settings queued calm_env one_am);
      [exact queued_reachable|exact HE]|by vm_compute]).
Defined.

(** C12. At one reading of the clock, when nothing fails, no row is locked and identifiers
    are fresh, LeaveWaitlist succeeds exactly for the user's own entries, whatever their
    state; an entry of another user is reported as missing. *)
Theorem leave_waitlist_decision H cfg w E now user id :
  reachable H cfg w -> respects (calm now (unused (w_db w))) E ->
  reply (run E (Waitlist.LeaveWaitlist user id) w).1 = leave_reply (w_db w) user id.
Proof.
  intros Hw HE. eapply (decided H cfg w E now); [done..|]. intros Hs Hc.
  apply leave_waitlist_effect; [intros Hr; by apply for_users_other|].
  intros Hr. by apply leave_waitlist_tx_decides.
Qed.

Lemma leave_waitlist_decision_witness :
  reply (run calm_env (Waitlist.LeaveWaitlist bob 1001) queued).1 = Accepted /\
  reply (run calm_env (Waitlist.LeaveWaitlist bob 1002) queued).1 = Refused ErrorWaitlistNotFound.
Proof.
  assert (respects (calm one_am (unused (w_db queued))) calm_env) as HE
    by (apply calm_env_ok, (bool_decide_unpack _); by vm_compute).
  split; (etrans;
    [apply (leave_waitlist_decision quiet settings queued calm_env one_am);
      [exact queued_reachable|exact HE]|by vm_compute]).
Defined.

(** C13. At one reading of the clock, when nothing fails, no row is locked and identifiers
    are fresh, ConfirmReservation succeeds exactly for the user's own active reservation
    before it expires and before the slot starts: the slot of a live reservation is never
    found booked or missing. *)
Theorem confirm_reservation_decision H cfg w E now user id :
  reachable H cfg w -> respects (calm now (unused (w_db w))) E ->
  reply (run E (Reservation.ConfirmReservation (reservationService cfg) user id) w).1 =
    confirm_reply (w_db w) now user id.
Proof.
  intros Hw HE. eapply (decided H cfg w E now); [done..|]. intros Hs Hc.
  apply confirm_reservation_effect; [intros Hr; by apply for_users_other|].
  intros ? <- Hr. by apply confirm_reservation_tx_decides.
Qed.

Lemma confirm_reservation_decision_witness :
  reply (run calm_env (Reservation.ConfirmReservation (reservationService settings) bob 1003)
    offered).1 = Accepted /\
  reply (run calm_env (Reservation.ConfirmReservation (reservationService settings) carol 1003)
    offered).1 = Refused ErrorForbidden.
Proof.
  assert (respects (calm one_am (unused (w_db offered))) calm_env) as HE
    by (apply calm_env_ok, (bool_decide_unpack _); by vm_compute).
  split; (etrans;
    [apply (confirm_reservation_decision quiet settings offered calm_env one_am);
      [exact offered_reachable|exact HE]|by vm_compute]).
Defined.

(** C14. At one reading of the clock, when nothing fails, no row is locked and identifiers
    are fresh, CancelReservation succeeds exactly for the user's own reservations, in
    every state; passing the slot on never makes it fail. *)
Theorem cancel_reservation_decision H cfg w E now user id :
  reachable H cfg w -> respects (calm now (unused (w_db w))) E ->
  reply (run E (Reservation.CancelReservation (reservationService cfg) user id) w).1 =
    decline_reply (w_db w) user id.
Proof.
  intros Hw HE. eapply (decided H cfg w E now); [done..|]. intros Hs Hc.
  apply cancel_reservation_effect; [intros Hr; by apply for_users_other|].
  intros ? <- Hr. by apply cancel_reservation_tx_decides.
Qed.

Lemma cancel_reservation_decision_witness :
  reply (run calm_env (Reservation.CancelReservation (reservationService settings) bob 1003)
    offered).1 = Accepted /\
  reply (run calm_env (Reservation.CancelReservation (reservationService settings) bob 9)
    offered).1 = Refused ErrorReservationNotFound.
Proof.
  assert (respects (calm one_am (unused (w_db offered))) calm_env) as HE
    by (apply calm_env_ok, (bool_decide_unpack _); by vm_compute).
  split; (etrans;
    [apply (cancel_reservation_decision quiet settings offered calm_env one_am);
      [exact offered_reachable|exact HE]|by vm_compute]).
Defined.
