(* ===== verification/Announcements.v ===== *)
(** * Announcements: what the realtime events say is true, and nothing goes unsaid

    After a request that succeeded, every event it published describes the database it
    left behind, and every slot that changed hands was announced. *)

From S2P Require Import Prelude Domain Database Program Postgres Schema Usecase Handover.
From S2P Require Import Invariant System Scenario Machine Effects.
From S2P Require Booking Waitlist Reservation.

(** ** What an event claims *)

Definition in_room (db : DB) (slot room : uuid) : Prop :=
  exists s, db_slots db !! slot = Some s /\ sl_RoomID s = room.

Definition event_slot (ev : Event) : uuid :=
  match ev with
  | EvSlotBooked _ slot _ | EvSlotReleased _ slot _ | EvSlotAvailable _ slot
  | EvSlotReserved _ slot _ | EvSlotReservationExpired _ slot _
  | EvWaitlistSlotReserved _ slot _ _ _ _ | EvReservationExpired _ slot _ _ => slot
  end.

Definition event_room (ev : Event) : uuid :=
  match ev with
  | EvSlotBooked room _ _ | EvSlotReleased room _ _ | EvSlotAvailable room _
  | EvSlotReserved room _ _ | EvSlotReservationExpired room _ _
  | EvWaitlistSlotReserved room _ _ _ _ _ | EvReservationExpired room _ _ _ => room
  end.

Definition claim (db : DB) (ev : Event) : Prop :=
  match ev with
  | EvSlotBooked _ slot id =>
      exists b, db_bookings db !! id = Some b /\ active_booking slot b
  | EvSlotReleased _ slot id =>
      holder_of db slot = Free /\
      exists b, db_bookings db !! id = Some b /\ bk_SlotID b = slot /\
        bk_Status b = BookingStatusCancelled
  | EvSlotAvailable _ slot => holder_of db slot = Free
  | EvSlotReserved _ slot id =>
      exists r, db_reservations db !! id = Some r /\ active_reservation slot r
  | EvWaitlistSlotReserved _ slot user id entry expiresAt =>
      exists r, db_reservations db !! id = Some r /\ active_reservation slot r /\
        rs_UserID r = user /\ rs_WaitlistEntryID r = Some entry /\ rs_ExpiresAt r = expiresAt
  | EvSlotReservationExpired _ slot id =>
      exists r, db_reservations db !! id = Some r /\ rs_SlotID r = slot /\
        rs_Status r = ReservationStatusExpired
  | EvReservationExpired _ slot user id =>
      exists r, db_reservations db !! id = Some r /\ rs_SlotID r = slot /\
        rs_Status r = ReservationStatusExpired /\ rs_UserID r = user
  end.

Definition true_in (db : DB) (ev : Event) : Prop :=
  in_room db (event_slot ev) (event_room ev) /\ claim db ev.

Definition truthful (db : DB) (l : list Output) : Prop :=
  forall ev, Published ev ∈ l -> true_in db ev.

Definition covers (db db' : DB) (l : list Output) : Prop :=
  forall slot, holder_of db' slot <> holder_of db slot ->
    exists ev, Published ev ∈ l /\ event_slot ev = slot.

(** Rooms are never identified by the nil uuid, which the services take for "unknown". *)
Definition real_rooms (db : DB) : Prop :=
  forall i s, db_slots db !! i = Some s -> sl_RoomID s <> uuid_Nil.

Definition honest (db db' : DB) (l : list Output) : Prop :=
  truthful db' l /\ (real_rooms db -> covers db db' l).

Lemma truthful_nil db : truthful db [].
Proof. by intros ev ?%elem_of_nil. Qed.

Lemma truthful_app db l1 l2 : truthful db l1 -> truthful db l2 -> truthful db (l1 ++ l2).
Proof. intros H1 H2 ev [?|?]%elem_of_app; auto. Qed.

Lemma truthful_counted db c l : truthful db l -> truthful db (Counted c :: l).
Proof. by intros Hl ev [|?]%elem_of_cons; [|apply Hl]. Qed.

Lemma truthful_published db ev l :
  true_in db ev -> truthful db l -> truthful db (Published ev :: l).
Proof. by intros Ht Hl ev' [[= ->]|?]%elem_of_cons; [|apply Hl]. Qed.

Lemma truthful_if db (b : bool) l :
  (b = true -> truthful db l) -> truthful db (if b then l else []).
Proof. destruct b; [auto|]. intros _. apply truthful_nil. Qed.

Lemma truthful_bind {A} db (f : A -> list Output) l :
  (forall x, x ∈ l -> truthful db (f x)) -> truthful db (l ≫= f).
Proof. intros Hf ev Hev. apply list_elem_of_bind in Hev as (x & Hev & Hx). by apply (Hf x). Qed.

Ltac truthful :=
  repeat match goal with
  | |- truthful _ _ =>
      first
        [ apply truthful_nil | apply truthful_counted | apply truthful_published
        | apply truthful_app | apply truthful_if; intros ?Hb ]
  end.

(** Some output is an event for the slot. *)
Ltac announced :=
  eexists; split;
  [repeat first [apply list_elem_of_here | apply list_elem_of_further]|done].

Lemma honest_same db l : truthful db l -> honest db db l.
Proof. intros Ht. split; [done|]. intros _ slot Hne. by destruct Hne. Qed.

(** ** What a handover leaves behind *)

Definition outcome (db : DB) (slot : uuid)
    (o : option (WaitlistEntry * SlotReservation)) : Prop :=
  match o with
  | None => holder_of db slot = Free
  | Some (e, r) =>
      db_reservations db !! rs_ID r = Some r /\ active_reservation slot r /\
      rs_UserID r = wl_UserID e /\ rs_WaitlistEntryID r = Some (wl_ID e)
  end.

Section outcomes.
Context (H : Assm) (ttl : Duration).

Lemma handover_outcome slot db o db' :
  holder_of db slot = Free -> handover H ttl slot db o db' -> outcome db' slot o.
Proof.
  intros Hf. destruct 1 as [|a e id now Ha He Hnew Hnone e' r]; [done|].
  simpl. by rewrite lookup_insert_eq.
Qed.

Lemma outcome_mono db db' slot o :
  db_reservations db ⊆ db_reservations db' -> holder_of db' slot = holder_of db slot ->
  outcome db slot o -> outcome db' slot o.
Proof.
  intros Hsub Hh. destruct o as [[e r]|]; simpl; [|congruence].
  intros [Hr ?]. split; [by eapply lookup_weaken|done].
Qed.

Lemma handovers_outcomes l db os db' :
  sound db -> NoDup (rs_SlotID <$> l) -> (forall s, s ∈ rs_SlotID <$> l -> holder_of db s = Free) ->
  handovers H ttl l db os db' ->
  Forall2 (fun item => outcome db' (rs_SlotID item)) l os /\
  (forall s, s ∉ rs_SlotID <$> l -> holder_of db' s = holder_of db s) /\
  db_reservations db ⊆ db_reservations db'.
Proof.
  intros Hs Hnd Hfree Hh. induction Hh as [db|r l db o db1 os db2 H1 _ IH]; [by auto|].
  rewrite fmap_cons in *. apply NoDup_cons in Hnd as [Hnin Hnd].
  assert (holder_of db (rs_SlotID r) = Free) as Hr by (apply Hfree; left).
  assert (forall s, s <> rs_SlotID r -> holder_of db1 s = holder_of db s) as Hsame.
  { intros s Hne. pose proof (handover_other _ _ _ _ _ _ s Hs Hr H1 Hne) as Hst. by injection Hst. }
  destruct IH as (Ho & Hrest & Hsub); [by eapply handover_sound|done| |].
  { intros s Hin. rewrite Hsame; [apply Hfree; by right|by intros ->]. }
  split_and!.
  - constructor; [|done]. apply (outcome_mono db1); [done|by apply Hrest|].
    by eapply handover_outcome.
  - intros s Hnot. rewrite not_elem_of_cons in Hnot. destruct Hnot as [Hne Hnot].
    rewrite Hrest, Hsame by done. done.
  - etrans; [by eapply handover_keeps|done].
Qed.

Lemma handovers_slots l db os db' : handovers H ttl l db os db' -> db_slots db' = db_slots db.
Proof.
  induction 1 as [|r l db o db1 os db2 H1 _ IH]; [done|].
  rewrite IH. by apply handover_frame in H1 as [? _].
Qed.
End outcomes.

(** ** Booking *)

Lemma real_room db slot room : real_rooms db -> in_room db slot room -> (room =? uuid_Nil)%N = false.
Proof. intros Hr (s & Hs & <-). apply N.eqb_neq. by eapply Hr. Qed.

Lemma booked_honest cfg user slotID now db x db' :
  exclusive db' -> Booking.booked (bookingService cfg) user slotID now db x db' ->
  honest db db' (create_says (bookingService cfg) x).
Proof.
  intros Hx (sl & Hsl & _ & _ & _ & Hnew & Heq & ->). destruct x as [b room]. simpl in *.
  injection Heq as Hb ->.
  assert (bk_SlotID b = slotID /\ bk_Status b = BookingStatusActive) as [Hslot Hact]
    by by rewrite Hb.
  unfold create_says. cbn. split.
  - truthful. split; [exists sl; simpl; by rewrite Hslot|]. exists b. simpl. by rewrite lookup_insert_eq.
  - intros _ slot Hne. rewrite add_booking_holder in Hne by done.
    destruct (decide _) as [->|]; [announced|done].
Qed.

Lemma booking_cancelled_honest H cfg user id db v db' :
  schema db -> coherent db -> Booking.cancelled H (bookingService cfg) user id db v db' ->
  honest db db' (cancel_says (bookingService cfg) v).
Proof.
  intros Hs Hc. pose proof (schema_sound _ Hs Hc) as Hsd.
  destruct 1 as [b room Hb Hu Hact|b room o db' Hb Hu Hact Hroom b' db1 [(? & _)|[_ Hh]]];
    [apply honest_same; unfold cancel_says; cbn; truthful|done|].
  pose proof (booking_cancel_freed _ _ _ (sound_exclusive _ Hsd) Hb Hact) as Hf.
  fold b' db1 in Hf.
  assert (sound db1) as Hs1 by by eapply freed_sound.
  assert (holder_of db1 (bk_SlotID b) = Free) as Hfree by (eapply freed_free; eauto; apply Hsd).
  destruct (bookings_slot_id_fkey _ _ _ (schema_bookings _ Hs) id b _ Hb eq_refl) as [sl Hsl].
  rewrite Hsl in Hroom. subst room.
  pose proof (handover_frame _ _ _ _ _ _ Hh) as (Hslots & Hbk & _).
  pose proof (handover_outcome _ _ _ _ _ _ Hfree Hh) as Ho.
  assert (in_room db' (bk_SlotID b) (sl_RoomID sl)) as Hin by (exists sl; by rewrite Hslots).
  assert (db_bookings db' !! id = Some b') as Hb' by (rewrite Hbk; apply lookup_insert_eq).
  assert (bk_ID b = id) as Hid by exact (bookings_pkey _ _ _ (schema_bookings _ Hs) id b Hb).
  unfold cancel_says. cbn. split.
  - truthful. destruct o as [[e r]|]; cbn in *; truthful; (split; [exact Hin|]).
    + destruct Ho as (Hr & Hra & _). by exists r.
    + destruct Ho as (Hr & Hra & Hru & Hre). by exists r.
    + split; [done|]. exists b'. by rewrite Hid.
  - intros Hreal slot Hne. rewrite (real_room db (bk_SlotID b)); [|done|by exists sl].
    destruct (decide (slot = bk_SlotID b)) as [->|Hns].
    + destruct o as [[e r]|]; cbn; announced.
    + destruct Hne. pose proof (handover_other _ _ _ _ _ _ slot Hs1 Hfree Hh Hns) as Hst.
      rewrite (freed_other _ _ _ slot (sound_exclusive _ Hsd) Hf) in Hst by done.
      by injection Hst.
Qed.

(** ** Reservation *)

Lemma confirmed_honest cfg user rid now db x db' :
  exclusive db -> exclusive db' -> Reservation.confirmed user rid now db x db' ->
  honest db db' (confirm_says (reservationService cfg) x).
Proof.
  intros Hx Hx'. destruct x as [[b r'] room].
  intros (r & sl & Hr & Hu & Hact & _ & Hfree & Hsl & _ & Hnew & Hb & -> & -> & ->).
  set (db1 := set_reservations (<[rid := ReservationRepo.confirm now r]> (db_reservations db)) db).
  assert (freed (eq (rs_SlotID r)) db db1) as Hf by by apply reservation_stop_freed.
  assert (bk_SlotID b = rs_SlotID r /\ bk_Status b = BookingStatusActive) as (Hslot & Hba)
    by by rewrite Hb.
  replace (set_reservations _ _) with
    (set_bookings (<[bk_ID b := b]> (db_bookings db1)) db1) in * by done.
  pose proof (fun slot => add_booking_holder db1 b slot Hx' Hnew Hba) as Hholder.
  unfold confirm_says. cbn. split.
  - truthful. split; [exists sl; simpl; by rewrite Hslot|]. exists b. simpl.
    by rewrite lookup_insert_eq.
  - intros Hreal slot Hne. rewrite (real_room db (bk_SlotID b)); [|done|exists sl; by rewrite Hslot].
    specialize (Hholder slot). destruct (decide _) as [->|Hns]; [cbn; announced|].
    destruct Hne. etrans; [exact Hholder|].
    pose proof (freed_other _ _ _ slot Hx Hf ltac:(congruence)) as Hst. by injection Hst.
Qed.

Lemma reservation_cancelled_honest H cfg user rid now db v db' :
  schema db -> coherent db ->
  Reservation.cancelled H (reservationService cfg) user rid now db v db' ->
  honest db db' (reservation_cancel_says (reservationService cfg) v).
Proof.
  intros Hs Hc. pose proof (schema_sound _ Hs Hc) as Hsd.
  destruct 1 as [r room Hr Hu Hact|r room o db' Hr Hu Hact Hroom r' db1 Hh];
    [apply honest_same; unfold reservation_cancel_says; cbn; truthful|]. cbn in Hh.
  assert (freed (eq (rs_SlotID r)) db db1) as Hf
    by by apply reservation_stop_freed; [apply Hsd|..].
  assert (sound db1) as Hs1 by by eapply freed_sound.
  assert (holder_of db1 (rs_SlotID r) = Free) as Hfree by (eapply freed_free; eauto; apply Hsd).
  destruct (reservations_slot_id_fkey _ _ _ _ (schema_reservations _ Hs) rid r _ Hr eq_refl)
    as [sl Hsl].
  rewrite Hsl in Hroom. subst room.
  pose proof (handover_frame _ _ _ _ _ _ Hh) as (Hslots & _).
  pose proof (handover_outcome _ _ _ _ _ _ Hfree Hh) as Ho.
  assert (in_room db' (rs_SlotID r) (sl_RoomID sl)) as Hin by (exists sl; by rewrite Hslots).
  unfold reservation_cancel_says. cbn. split.
  - truthful. destruct o as [[e x]|]; cbn in *; truthful; (split; [exact Hin|]).
    + destruct Ho as (Hx & Hxa & _). by exists x.
    + destruct Ho as (Hx & Hxa & Hru & Hre). by exists x.
    + done.
  - intros Hreal slot Hne. destruct (decide (slot = rs_SlotID r)) as [->|Hns].
    + unfold decline_says. cbn. rewrite (real_room db (rs_SlotID r)); [|done|by exists sl].
      destruct o as [[e x]|]; cbn; announced.
    + destruct Hne. pose proof (handover_other _ _ _ _ _ _ slot Hs1 Hfree Hh Hns) as Hst.
      rewrite (freed_other _ _ _ slot (sound_exclusive _ Hsd) Hf) in Hst by done.
      by injection Hst.
Qed.

(** ** The expired batch *)

Section vars.
Context (slots : gmap uuid Slot).
Implicit Types (v : Reservation.ExpireVars) (os : list (option (WaitlistEntry * SlotReservation))).

(** Slots that are not in the rest of the batch keep their entries. *)
Lemma expire_vars_rest l os v s :
  s ∉ rs_SlotID <$> l ->
  Reservation.room_of (Reservation.expire_vars slots l os v) s = Reservation.room_of v s /\
  Reservation.has_replacement (Reservation.expire_vars slots l os v) s =
    Reservation.has_replacement v s.
Proof.
  revert os v. induction l as [|r l IH]; intros [|o os] v; try done.
  rewrite fmap_cons, not_elem_of_cons. cbn [Reservation.expire_vars]. intros [Hne Hnin].
  destruct (IH os (match o with
    | Some (e, created) => Reservation.with_replacement (rs_SlotID r) e created
        (Reservation.with_room (rs_SlotID r) (slots !! rs_SlotID r) v)
    | None => Reservation.with_room (rs_SlotID r) (slots !! rs_SlotID r) v end) Hnin) as [-> ->].
  unfold Reservation.room_of, Reservation.has_replacement.
  destruct o as [[e x]|], (slots !! rs_SlotID r); simpl; rewrite ?lookup_insert_ne by done; done.
Qed.

(** What the loop recorded of one item, and of its replacement. *)
Lemma expire_vars_item P l os v item :
  Forall2 P l os -> NoDup (rs_SlotID <$> l) -> item ∈ l ->
  (forall s, s ∈ rs_SlotID <$> l -> Reservation.has_replacement v s = false) ->
  is_Some (slots !! rs_SlotID item) ->
  let v' := Reservation.expire_vars slots l os v in
  exists o, P item o /\
    Reservation.room_of v' (rs_SlotID item) = from_option sl_RoomID uuid_Nil (slots !! rs_SlotID item) /\
    Reservation.has_replacement v' (rs_SlotID item) = bool_decide (is_Some o).
Proof.
  intros Hall. revert v. induction Hall as [|r o l os HP _ IH]; intros v Hnd Hin Hno [sl Hsl];
    [by apply elem_of_nil in Hin|].
  rewrite fmap_cons in Hnd. apply NoDup_cons in Hnd as [Hnin Hnd].
  simpl. apply elem_of_cons in Hin as [->|Hin].
  - exists o. split; [done|].
    destruct (expire_vars_rest l os (match o with
      | Some (e, created) => Reservation.with_replacement (rs_SlotID r) e created
          (Reservation.with_room (rs_SlotID r) (slots !! rs_SlotID r) v)
      | None => Reservation.with_room (rs_SlotID r) (slots !! rs_SlotID r) v end) _ Hnin)
      as [-> ->].
    rewrite Hsl. unfold Reservation.room_of, Reservation.has_replacement.
    destruct o as [[e x]|]; simpl; rewrite !lookup_insert_eq; [done|]. split; [done|].
    apply Hno. rewrite fmap_cons. left.
  - apply IH; [done|done| |by exists sl].
    intros s Hs. assert (s <> rs_SlotID r) as Hne by (intros ->; done).
    unfold Reservation.has_replacement.
    destruct o as [[e x]|], (slots !! rs_SlotID r); simpl; rewrite ?lookup_insert_ne by done;
      apply Hno; rewrite fmap_cons; by right.
Qed.

Lemma expire_vars_replacements (P : SlotReservation -> option (WaitlistEntry * SlotReservation) -> Prop)
    l os v rp :
  Forall2 P l os -> rp ∈ Reservation.ev_replacements (Reservation.expire_vars slots l os v) ->
  (forall item, item ∈ l -> is_Some (slots !! rs_SlotID item)) ->
  rp ∈ Reservation.ev_replacements v \/
  exists item, item ∈ l /\ P item (Some (Reservation.rp_waitlist rp, Reservation.rp_reservation rp)) /\
    Reservation.rp_roomID rp = from_option sl_RoomID uuid_Nil (slots !! rs_SlotID item).
Proof.
  intros Hall. revert v. induction Hall as [|r o l os HP _ IH]; intros v Hin Hsl; [by left|].
  simpl in Hin. apply IH in Hin as [Hin|(item & Hin & ?)].
  - destruct (Hsl r) as [sl Hr]; [left|]. rewrite Hr in Hin.
    destruct o as [[e x]|]; simpl in Hin; [|by left].
    apply elem_of_app in Hin as [Hin|Hin]; [by left|]. apply list_elem_of_singleton in Hin as ->.
    right. exists r. split_and!; [left|done|]. unfold Reservation.room_of. simpl.
    by rewrite lookup_insert_eq, Hr.
  - right. exists item. split; [by right|done].
  - intros item Hitem. apply Hsl. by right.
Qed.
End vars.

(** The slots of the expired reservations are announced. *)
Lemma expire_says_slot cfg x slot : slot ∈ rs_SlotID <$> x.1 ->
  exists ev, Published ev ∈ expire_says (reservationService cfg) x /\ event_slot ev = slot.
Proof.
  intros (item & -> & Hin)%list_elem_of_fmap.
  exists (EvReservationExpired (Reservation.room_of x.2 (rs_SlotID item)) (rs_SlotID item)
    (rs_UserID item) (rs_ID item)). split; [|done].
  unfold expire_says. destruct x.1; [by apply elem_of_nil in Hin|].
  apply elem_of_app. left. apply list_elem_of_bind. exists item. split; [|done]. right. left.
Qed.

(** The rows of a batch, as long as the reservations are kept. *)
Lemma expired_items a now limit db db' item :
  schema db -> coherent db ->
  let l := ReservationRepo.picked a now limit db in
  db_reservations (Reservation.batch_expired now l db) ⊆ db_reservations db' ->
  item ∈ ReservationRepo.expire now <$> l ->
  is_Some (db_slots db !! rs_SlotID item) /\ db_reservations db' !! rs_ID item = Some item /\
  rs_Status item = ReservationStatusExpired.
Proof.
  intros Hs Hc l Hkeep Hin. apply list_elem_of_fmap in Hin as (r & -> & Hr).
  pose proof Hr as Hr'. apply picked_stored in Hr' as (Hr' & _); [|apply Hc].
  split_and!; [|eapply lookup_weaken; [|exact Hkeep]; exact (batch_row _ _ _ _ r (co_reservations _ Hc) Hr)|done].
  exact (reservations_slot_id_fkey _ _ _ _ (schema_reservations _ Hs) _ r _ Hr' eq_refl).
Qed.

Lemma expired_honest H cfg now limit db x db' :
  schema db -> coherent db ->
  Reservation.expired_due H (reservationService cfg) now limit db x db' ->
  honest db db' (expire_says (reservationService cfg) x).
Proof.
  intros Hs Hc (a & Ha & Hx & os & Hv & Hos). cbn in Hos.
  set (l := ReservationRepo.picked a now (Z.to_nat limit) db) in *.
  set (db1 := Reservation.batch_expired now l db) in *.
  pose proof (batch_freed a now (Z.to_nat limit) db Hs Hc) as Hf.
  cbv zeta in Hf. fold l db1 in Hf. pose proof (schema_sound _ Hs Hc) as Hsd.
  assert (rs_SlotID <$> x.1 = rs_SlotID <$> l) as Hslots
    by (rewrite Hx, <- list_fmap_compose; by apply list_fmap_ext).
  pose proof (picked_slots_NoDup a now (Z.to_nat limit) db Hs) as Hnd.
  fold l in Hnd. rewrite <- Hslots in Hnd, Hf.
  assert (db_slots db' = db_slots db) as Hsl by exact (handovers_slots _ _ _ _ _ _ Hos).
  eapply handovers_outcomes in Hos as (Ho & Hrest & Hkeep);
    [|by eapply freed_sound|done|by intros s Hin; eapply freed_free; [apply Hsd|exact Hf|]].
  assert (forall item, item ∈ x.1 -> is_Some (db_slots db !! rs_SlotID item) /\
    db_reservations db' !! rs_ID item = Some item /\ rs_Status item = ReservationStatusExpired)
    as Hitem.
  { intros item Hin. rewrite Hx in Hin. by eapply expired_items. }
  split.
  - unfold expire_says. destruct x.1 as [|item0 rest] eqn:Hx1; [truthful|]. rewrite <- Hx1 in *.
    apply truthful_app; apply truthful_bind.
    + intros item Hin. destruct (Hitem item Hin) as ([sl Hsli] & Hrow & Hst).
      destruct (expire_vars_item (db_slots db) _ x.1 os (Reservation.Build_ExpireVars ∅ ∅ []) item
        Ho Hnd Hin) as (o & Hout & Hroom & Hrep); [done|by exists sl|].
      unfold expired_says. rewrite Hv. cbn. rewrite Hroom, Hrep, Hsli. cbn.
      assert (in_room db' (rs_SlotID item) (sl_RoomID sl)) as Hin' by (exists sl; by rewrite Hsl).
      truthful; (split; [exact Hin'|]); [by exists item|by exists item|].
      destruct o; [done|exact Hout].
    + intros rp Hrp. rewrite Hv in Hrp.
      eapply (expire_vars_replacements (db_slots db)) in Hrp as [Hrp|(item & Hin & Hout & Hroom)];
        [by apply elem_of_nil in Hrp| |exact Ho|intros item Hin; by apply Hitem].
      destruct (Hitem item Hin) as ([sl Hsli] & _). destruct Hout as (Hr & Hra & Hru & Hre).
      unfold replacement_says. cbn. rewrite Hroom, Hsli. cbn.
      assert (rs_SlotID (Reservation.rp_reservation rp) = rs_SlotID item) as -> by apply Hra.
      assert (in_room db' (rs_SlotID item) (sl_RoomID sl)) as Hin' by (exists sl; by rewrite Hsl).
      truthful; (split; [exact Hin'|]); by eexists.
  - intros _ slot Hne. destruct (decide (slot ∈ rs_SlotID <$> x.1)) as [Hin|Hnin].
    + by apply expire_says_slot.
    + destruct Hne. rewrite Hrest by done.
      pose proof (freed_other _ _ _ slot (sound_exclusive _ Hsd) Hf Hnin) as Hst. by injection Hst.
Qed.

(** ** Every request *)

(** What a successful request says, when the constraints hold of what it leaves behind. *)
Definition told {A} (db : DB) (out : list Output) (r : result A) (db' : DB) (out' : list Output)
    : Prop :=
  match r with
  | Ok _ => exclusive db' -> exists l, out' = out ++ l /\ honest db db' l
  | Err _ => True
  end.

Lemma effect_told H {V A} (Post : V -> DB -> Prop) Bad (answer : V -> A) speech grumbles db out
    r db' out' :
  (forall v, Post v db' -> exclusive db' -> honest db db' (speech v)) ->
  effect_of H Post Bad answer speech grumbles db out r db' out' -> told db out r db' out'.
Proof.
  intros Hp. destruct r as [a|e]; simpl; [|done].
  intros (v & Hv & _ & ->) Hx. exists (speech v). auto.
Qed.

Lemma wp_answered_told H {A} (p : prog (result A)) db out :
  wp H p (told db out) db out -> wp H (answered p) (told db out) db out.
Proof.
  intros Hp. apply wp_bind. eapply wp_mono; [|exact Hp].
  intros [a|e] db' out' Hr; by apply wp_ret.
Qed.

Lemma told_nothing {A} db out (a : A) : told db out (Ok a) db out.
Proof. intros _. exists []. rewrite app_nil_r. split; [done|]. apply honest_same, truthful_nil. Qed.

Section readers.
Context (H : Assm) (db : DB) (out : list Output).

Local Abbreviation tells p := (wp H p (told db out) db out).

Lemma list_bookings_told user page pageSize : tells (Booking.ListBookings user page pageSize).
Proof.
  unfold Booking.ListBookings, BookingRepo.List.
  case_bool_decide; [done|]. do 2 (case_match; [done|]).
  apply wp_query; [done|]. norm.
  assert (forall l o a, (BookingRepo.page_of l o a db).2 = db) as Hro
    by (intros; unfold BookingRepo.page_of; by repeat case_match).
  apply wp_sql; [done|intros a _; rewrite Hro]; norm. case_match; [|done].
  apply wp_ret, told_nothing.
Qed.

Lemma list_mine_told {A} user e f (q : time -> Answer -> DB -> A) :
  tells (if bool_decide (us_Role user <> RoleUser) then fail e
         else let! now := perform Now in on_err f (perform (Sql (select (q now))))).
Proof.
  case_bool_decide; [done|]. apply wp_now. intros now _.
  apply wp_select; [done|intros a _]. apply wp_ret, told_nothing.
Qed.
End readers.

Lemma serve_told H cfg req db out :
  schema db -> coherent db -> wp H (serve cfg req) (told db out) db out.
Proof.
  intros Hs Hc. pose proof (schema_exclusive _ Hs Hc) as Hx.
  destruct req; apply wp_answered_told;
    try (apply list_bookings_told || apply list_mine_told);
    (eapply wp_mono;
     [|first [ apply create_booking_does | apply cancel_booking_does
             | apply join_waitlist_does | apply leave_waitlist_does
             | by apply confirm_reservation_does | by apply cancel_reservation_does
             | apply expire_due_does ]]);
    intros ? ? ?; apply effect_told; intros v Hv Hx'.
  - destruct Hv as (now & _ & Hv). by eapply booked_honest.
  - by eapply booking_cancelled_honest.
  - destruct Hv as (? & ? & ? & Hv). destruct_and! Hv. subst. split; [truthful|].
    by intros _ slot Hne.
  - destruct Hv as (e & _ & _ & Hv). case_bool_decide; destruct Hv as [-> ->];
      (split; [truthful|by intros _ slot Hne]).
  - destruct Hv as (now & _ & Hv). by eapply confirmed_honest.
  - destruct Hv as (now & _ & Hv). by eapply reservation_cancelled_honest.
  - destruct Hv as (now & _ & Hv). by eapply expired_honest.
Qed.

(** C15. Whatever request succeeds, every realtime event it published describes the
    database it left behind: the room of the slot, who holds it, the booking or reservation
    named. And every slot whose holder changed was announced (rooms with the nil uuid,
    which the services take for an unknown room, aside). *)
Theorem events_tell_the_truth H cfg E req w :
  respects H E -> reachable H cfg w -> (run E (serve cfg req) w).1 = Ok tt ->
  let w' := (run E (serve cfg req) w).2 in
  exists l, w_out w' = w_out w ++ l /\ honest (w_db w) (w_db w') l.
Proof.
  intros HE Hw Hok w'. destruct (reachable_inv H cfg w Hw) as [Hs [Hc _]].
  pose proof (wp_run H E _ _ w HE (serve_told H cfg req (w_db w) (w_out w) Hs Hc)) as Ht.
  rewrite Hok in Ht. apply Ht.
  destruct (reachable_inv H cfg w') as [Hs' [Hc' _]]; [|by apply schema_exclusive].
  apply (reachable_step _ _ w); [done|]. by exists E req.
Qed.

Lemma events_tell_the_truth_witness :
  (run env (serve settings (ReqCancelBooking alice 1000)) queued).1 = Ok tt /\
  last (w_out offered) =
    Some (Published (EvWaitlistSlotReserved 10 20 2 1003 1001 (3900 * Second))) /\
  exists l, w_out offered = w_out queued ++ l /\ honest (w_db queued) (w_db offered) l.
Proof.
  assert ((run env (serve settings (ReqCancelBooking alice 1000)) queued).1 = Ok tt) as Hok
    by by vm_compute.
  split; [exact Hok|]. split; [by vm_compute|].
  exact (events_tell_the_truth quiet settings env (ReqCancelBooking alice 1000) queued
    env_quiet queued_reachable Hok).
Defined.
