(* ===== verification/Expiry.v ===== *)
(** * Expiry: how long a reservation lasts, and what the expiration worker does

    Reservations last for the configured time to live; a tick of the worker expires the
    oldest due reservations, as many as its batch allows, and nothing else; with a server
    that answers, every tick succeeds. *)

From S2P Require Import Prelude Domain Database Program Postgres Schema Usecase Handover.
From S2P Require Import Invariant System Scenario Machine Effects.
From S2P Require Booking Waitlist Reservation.

(** ** The time to live *)

(** The setting, or five minutes where it makes no sense. *)
Definition effective_ttl (cfg : Settings) : Duration :=
  if (0 <? ReservationTTL cfg)%Z then ReservationTTL cfg else defaultReservationTTL.

Lemma booking_ttl cfg : Booking.reservationTTLValue (bookingService cfg) = effective_ttl cfg.
Proof.
  unfold effective_ttl, Booking.reservationTTLValue. simpl.
  destruct (Z.ltb_spec 0 (ReservationTTL cfg)) as [H|H]; [|done].
  by rewrite (proj2 (Z.ltb_lt _ _)) by done.
Qed.

Lemma reservation_ttl cfg :
  Reservation.reservationTTLValue (reservationService cfg) = effective_ttl cfg.
Proof.
  unfold effective_ttl, Reservation.reservationTTLValue. simpl.
  destruct (Z.leb_spec (ReservationTTL cfg) 0) as [H|H].
  - by rewrite (proj2 (Z.ltb_ge 0 (ReservationTTL cfg))) by done.
  - by rewrite !(proj2 (Z.ltb_lt 0 (ReservationTTL cfg))) by done.
Qed.

Lemma effective_ttl_positive cfg : (0 < effective_ttl cfg)%Z.
Proof. unfold effective_ttl. by destruct (Z.ltb_spec 0 (ReservationTTL cfg)). Qed.

Definition lasting (ttl : Duration) (db : DB) : Prop :=
  forall j r, db_reservations db !! j = Some r -> rs_ExpiresAt r = (rs_CreatedAt r + ttl)%Z.

Lemma lasting_update ttl db i r r' db' :
  lasting ttl db -> db_reservations db !! i = Some r ->
  db_reservations db' = <[i := r']> (db_reservations db) ->
  rs_ExpiresAt r' = rs_ExpiresAt r -> rs_CreatedAt r' = rs_CreatedAt r -> lasting ttl db'.
Proof.
  intros Hl Hr Hdb He Hc j x Hx. rewrite Hdb in Hx. lookups; [|by eapply Hl]. rewrite He, Hc. by eapply Hl.
Qed.

Lemma handover_lasting H ttl slot db o db' :
  lasting ttl db -> handover H ttl slot db o db' -> lasting ttl db'.
Proof.
  intros Hl. destruct 1 as [|a e id now Ha He Hnew Hnone e' r]; [done|].
  intros j x Hx. simpl in Hx. lookups; [done|by eapply Hl].
Qed.

Lemma handovers_lasting H ttl l db os db' :
  lasting ttl db -> handovers H ttl l db os db' -> lasting ttl db'.
Proof. intros Hl. induction 1; [done|]. eauto using handover_lasting. Qed.

Lemma expire_rows_lasting ttl now l t :
  (forall j r, t !! j = Some r -> rs_ExpiresAt r = (rs_CreatedAt r + ttl)%Z) ->
  (forall r, r ∈ l -> rs_ExpiresAt r = (rs_CreatedAt r + ttl)%Z) ->
  forall j r, ReservationRepo.expire_rows now l t !! j = Some r ->
    rs_ExpiresAt r = (rs_CreatedAt r + ttl)%Z.
Proof.
  intros Ht. induction l as [|x l IH]; intros Hl j r Hr; simpl in Hr; [by eapply Ht|].
  lookups; [apply Hl; left|]. eapply IH; [|done]. intros y Hy. apply Hl. by right.
Qed.

Lemma serve_lasting H cfg req db out :
  lasting (effective_ttl cfg) db ->
  schema db -> wp H (serve cfg req) (fun _ db' _ => lasting (effective_ttl cfg) db') db out.
Proof.
  intros Hl Hs. unfold serve, answered. destruct req; apply wp_bind;
    eapply (wp_mono H _ (fun _ db' _ => lasting (effective_ttl cfg) db'));
    try (intros [] ? ? ?; by apply wp_ret);
    auto using list_bookings_reads, list_my_bookings_reads, list_reservations_reads.
  - unfold Booking.CreateBooking. case_bool_decide; [by apply wp_silent; [silence|]|].
    apply wp_now. intros now _. apply wp_tx_post; [done|intros; silence|].
    eapply tx_post_mono; [|apply Booking.create_booking_tx_spec].
    intros x db' (sl & Hb). destruct_and! Hb. by subst.
  - unfold Booking.CancelBooking. case_bool_decide; [by apply wp_silent; [silence|]|].
    apply wp_tx_post; [done|intros; silence|].
    eapply tx_post_mono; [|apply Booking.cancel_booking_tx_spec].
    intros x db' [|b room o db'' Hb Hu Hact Hroom b' db1 [(_ & _ & -> & _)|[_ Hh]]]; [done..|].
    rewrite booking_ttl in Hh. by eapply handover_lasting in Hh.
  - unfold Waitlist.JoinWaitlist. case_bool_decide; [by apply wp_silent; [silence|]|].
    apply wp_tx_post; [done|intros; silence|].
    eapply tx_post_mono; [|apply Waitlist.join_waitlist_tx_spec].
    intros x db' (sl & b & now & Hj). destruct_and! Hj. by subst.
  - unfold Waitlist.LeaveWaitlist. case_bool_decide; [by apply wp_silent; [silence|]|].
    apply wp_tx_post; [done|intros; silence|].
    eapply tx_post_mono; [|apply Waitlist.leave_waitlist_tx_spec].
    intros x db' (e & _ & _ & Hx). case_bool_decide; by destruct Hx as [_ ->].
  - unfold Reservation.ConfirmReservation. case_bool_decide; [by apply wp_silent; [silence|]|].
    apply wp_now. intros now _. apply wp_tx_post; [done|intros; silence|].
    eapply tx_post_mono; [|by apply Reservation.confirm_reservation_tx_spec].
    intros [[b r'] room] db' (r & sl & Hr & Hc). destruct_and! Hc. subst.
    by eapply lasting_update.
  - unfold Reservation.CancelReservation. case_bool_decide; [by apply wp_silent; [silence|]|].
    apply wp_now. intros now _. apply wp_tx_post; [done|intros; silence|].
    eapply tx_post_mono; [|by apply Reservation.cancel_reservation_tx_spec].
    intros x db' [|r room o db'' Hr Hu Hact Hroom r' db1 Hh]; [done|]. simpl in Hh.
    rewrite reservation_ttl in Hh. eapply handover_lasting; [|exact Hh]. by eapply lasting_update.
  - unfold Reservation.ExpireDue. apply wp_now. intros now _.
    apply wp_tx_post; [done|intros; silence|].
    eapply tx_post_mono; [|apply Reservation.expire_due_tx_spec].
    intros x db' (a & Ha & Hx & os & _ & Hos). simpl in Hos. rewrite reservation_ttl in Hos.
    eapply handovers_lasting; [|exact Hos]. intros j r Hr. simpl in Hr.
    eapply expire_rows_lasting; [exact Hl| |exact Hr].
    intros y Hy. apply elem_of_picked in Hy as [[i Hi] _]. by eapply Hl.
Qed.

(** C18. Every reservation, whichever operation granted it, expires the configured time to
    live after its creation (five minutes where the setting is not positive): later than it
    was created, never extended, never cut short. *)
Theorem reservations_last_for_the_ttl H cfg w j r :
  reachable H cfg w -> db_reservations (w_db w) !! j = Some r ->
  rs_ExpiresAt r = (rs_CreatedAt r + effective_ttl cfg)%Z /\ (rs_CreatedAt r < rs_ExpiresAt r)%Z.
Proof.
  intros Hw Hr. assert (lasting (effective_ttl cfg) (w_db w)) as Hl.
  { clear Hr. induction Hw as [w (_ & _ & _ & Hno)|w w' Hw IH [E req HE ->]].
    - intros i x Hx. by rewrite Hno, lookup_empty in Hx.
    - apply (wp_run H E (serve cfg req) (fun _ db' _ => lasting (effective_ttl cfg) db') w HE).
      apply serve_lasting; [done|]. by apply (reachable_inv H cfg w Hw). }
  pose proof (Hl j r Hr). pose proof (effective_ttl_positive cfg). lia.
Qed.

Lemma reservations_last_for_the_ttl_witness :
  exists r, db_reservations (w_db offered) !! 1003%N = Some r /\
    rs_ExpiresAt r = (rs_CreatedAt r + 300 * Second)%Z.
Proof.
  eexists. split; [by vm_compute|].
  eapply (reservations_last_for_the_ttl quiet settings offered 1003);
    [exact offered_reachable|by vm_compute].
Defined.

(** ** What a tick expires *)

Definition due (t : time) (r : SlotReservation) : Prop :=
  rs_Status r = ReservationStatusActive /\ (rs_ExpiresAt r <= t)%Z.

#[global] Instance due_dec t r : Decision (due t r).
Proof. unfold due. apply _. Defined.

(** The due reservations, oldest first. *)
Definition overdue (t : time) (db : DB) : list SlotReservation :=
  order_by rs_ExpiresAt (filter (due t) (rows (db_reservations db))).

Lemma elem_of_overdue t db r :
  r ∈ overdue t db <-> due t r /\ exists i, db_reservations db !! i = Some r.
Proof. unfold overdue. by rewrite elem_of_order_by, list_elem_of_filter, elem_of_rows. Qed.

(** [l] is a batch of a tick at [t] while other transactions have [locked] locked: due
    reservations, each once, no more than [limit]; where a due one is left over although
    nobody has it locked, the batch is full and expired no later. Of reservations that
    expire together the server takes any. *)
Record tick_batch (locked : gset uuid) (t : time) (limit : nat) (db : DB)
    (l : list SlotReservation) : Prop := {
  batch_due : forall r, r ∈ l -> due t r /\ rs_ID r ∉ locked /\
    db_reservations db !! rs_ID r = Some r;
  batch_once : NoDup l;
  batch_small : (length l <= limit)%nat;
  batch_left : forall x, x ∈ overdue t db -> rs_ID x ∉ locked -> x ∉ l ->
    length l = limit /\ forall r, r ∈ l -> (rs_ExpiresAt r <= rs_ExpiresAt x)%Z }.

Lemma picked_batch a t limit db :
  primary rs_ID (db_reservations db) ->
  tick_batch (a_locked a) t limit db (ReservationRepo.picked a t limit db).
Proof.
  intros Hpk. set (all := filter (fun r => rs_Status r = ReservationStatusActive /\
    (rs_ExpiresAt r <= t)%Z /\ rs_ID r ∉ a_locked a) (rows (db_reservations db))).
  assert (ReservationRepo.picked a t limit db ≡ₚ take limit (ordered a rs_ID rs_ExpiresAt all))
    as Hp by apply order_by_Permutation.
  split.
  - intros r Hr. apply elem_of_picked in Hr as ([i Hi] & Hact & Ht & Hl).
    split_and!; [done..|]. by rewrite (Hpk i r Hi).
  - rewrite Hp. eapply sublist_NoDup; [|apply sublist_take].
    unfold ordered. rewrite order_ties_Permutation. by apply NoDup_filter, (rows_NoDup rs_ID).
  - rewrite Hp, length_take. lia.
  - intros x [[Hact Ht] [i Hi]]%elem_of_overdue Hl Hx.
    assert (x ∈ ordered a rs_ID rs_ExpiresAt all) as Hin
      by (apply elem_of_order_ties, list_elem_of_filter; rewrite elem_of_rows; eauto).
    rewrite <- (take_drop limit (ordered _ _ _ _)) in Hin. rewrite Hp in Hx.
    apply elem_of_app in Hin as [?|Hin]; [done|]. split.
    + rewrite Hp, length_take. apply list_elem_of_lookup_1 in Hin as [k Hk].
      apply lookup_lt_Some in Hk. rewrite length_drop in Hk. lia.
    + intros r Hr. rewrite Hp in Hr.
      apply (StronglySorted_app_1_elem_of (key_le rs_ExpiresAt) (take limit (ordered a rs_ID
        rs_ExpiresAt all)) (drop limit (ordered a rs_ID rs_ExpiresAt all)) r x); [rewrite take_drop; apply order_ties_ssorted|done..].
Qed.

(** The database after a tick at [t] that expired [l]. *)
Record expired_rows (t : time) (l : list SlotReservation) (db db' : DB) : Prop := {
  expired_now : forall r, r ∈ l ->
    db_reservations db' !! rs_ID r = Some (ReservationRepo.expire t r);
  expired_others : forall j r, db_reservations db !! j = Some r -> j ∉ rs_ID <$> l ->
    db_reservations db' !! j = Some r }.

Lemma expired_due_rows H s t limit db x db' :
  primary rs_ID (db_reservations db) -> Reservation.expired_due H s t limit db x db' ->
  exists a l, ok_answer H a /\ tick_batch (a_locked a) t (Z.to_nat limit) db l /\
    expired_rows t l db db'.
Proof.
  intros Hpk (a & Ha & Hx & os & _ & Hos).
  assert (db_reservations (Reservation.batch_expired t
    (ReservationRepo.picked a t (Z.to_nat limit) db) db) ⊆ db_reservations db') as Hkeep.
  { cbv zeta in Hos. destruct (Reservation.waitlists s); [by eapply handovers_keep|].
    by destruct Hos as [_ ->]. }
  exists a, (ReservationRepo.picked a t (Z.to_nat limit) db).
  split_and!; [done|by apply picked_batch|].
  split.
  - intros r Hr. eapply lookup_weaken; [|exact Hkeep]. by apply batch_row.
  - intros j r Hj Hnin. eapply lookup_weaken; [|exact Hkeep]. simpl. by rewrite expire_rows_other.
Qed.

Lemma tick_batches H cfg E w :
  respects H E -> reachable H cfg w -> (run E (serve cfg TickExpireDue) w).1 = Ok tt ->
  let t := env_now E (w_clock w) in
  exists a l, ok_answer H a /\
    tick_batch (a_locked a) t (Z.to_nat (batch_limit (ReservationExpireBatch cfg))) (w_db w) l /\
    expired_rows t l (w_db w) (w_db (run E (serve cfg TickExpireDue) w).2).
Proof.
  intros HE Hw. destruct (reachable_inv H cfg w Hw) as [Hs _].
  unfold serve, answered. rewrite expire_due_unfold. norm. rewrite run_now. cbv zeta.
  set (t := env_now E (w_clock w)). set (s := reservationService cfg).
  set (limit := batch_limit (ReservationExpireBatch cfg)).
  apply (wp_run H E _ (fun r db' _ => r = Ok tt -> exists a l, ok_answer H a /\
    tick_batch (a_locked a) t (Z.to_nat limit) (w_db w) l /\
    expired_rows t l (w_db w) db')); [done|]. cbn [w_db w_out].
  apply wp_bind. eapply wp_mono;
    [|apply (wp_operation H _ _ (Reservation.expired_due H s t limit (w_db w)) (fun _ => True)
         (fun _ => tt) (expire_says s) (fun _ => []) (w_db w) (w_out w));
      [|apply announce_all_says|intros e; speak; done]].
  - intros [x|e] db' out' Hr; apply wp_ret; [|done]. intros _.
    destruct Hr as (v & Hv & _). eapply expired_due_rows; [|exact Hv].
    apply schema_reservations, Hs.
  - apply (tx_spec_mono _ _ (Reservation.expired_due H s t limit (w_db w))); [|eauto].
    intros out'. apply Reservation.expire_due_tx_spec.
Qed.

(** C17. A tick that succeeds expires, whatever the other transactions have locked and
    however the server breaks ties, a batch of due reservations that nobody has locked:
    as many of them as the batch limit allows, no reservation before one that expired
    earlier. It stamps them with the time at which the tick began and leaves every other
    reservation as it was. *)
Theorem tick_expires_the_oldest_due H cfg E w :
  respects H E -> reachable H cfg w -> (run E (serve cfg TickExpireDue) w).1 = Ok tt ->
  let t := env_now E (w_clock w) in
  exists a l, ok_answer H a /\
    tick_batch (a_locked a) t (Z.to_nat (batch_limit (ReservationExpireBatch cfg))) (w_db w) l /\
    expired_rows t l (w_db w) (w_db (run E (serve cfg TickExpireDue) w).2).
Proof. apply tick_batches. Qed.

(** Any clock, fresh or not; nothing fails and nothing is locked. *)
Definition healthy : Assm :=
  {| ok_answer a := a_fault a = None /\ a_locked a = ∅; ok_now _ := True; ok_uuid _ := True |}.

Lemma healthy_unlocked : unlocked healthy.
Proof. by intros a [_ Ha]. Qed.

Lemma late_healthy : respects healthy late.
Proof. by split. Qed.

Lemma offered_healthy : reachable healthy settings offered.
Proof.
  apply after_reachable; [by split|]. apply after_reachable; [by split|].
  apply reachable_start, start_fresh.
Qed.

(** At 02:00 Bob's reservation has expired: the worker expires it and offers the slot to
    Carol. *)
Lemma tick_expires_the_oldest_due_witness :
  (run late (serve settings TickExpireDue) offered).1 = Ok tt /\
  rs_ID <$> overdue two_am (w_db offered) = [1003%N] /\
  exists a l, ok_answer healthy a /\
    tick_batch (a_locked a) two_am (Z.to_nat (batch_limit (ReservationExpireBatch settings)))
      (w_db offered) l /\
    expired_rows two_am l (w_db offered) (w_db (run late (serve settings TickExpireDue) offered).2).
Proof.
  assert ((run late (serve settings TickExpireDue) offered).1 = Ok tt) as Hok by by vm_compute.
  split; [exact Hok|]. split; [by vm_compute|].
  apply (tick_expires_the_oldest_due healthy settings late offered);
    [exact late_healthy|exact offered_healthy|exact Hok].
Defined.

(** ** Every tick succeeds *)

(** Identifiers that are never drawn twice. *)
Definition never_repeats (E : Env) : Prop := forall m n, env_uuid E m = env_uuid E n -> m = n.

Definition fresh_ids (E : Env) (w : World) : Prop :=
  forall n, (w_ids w <= n)%nat -> db_reservations (w_db w) !! env_uuid E n = None.

Section loop.
Context (E : Env) (HE : steady E) (HU : never_repeats E) (s : Reservation.Service) (now : time).

(** What the loop needs for the slots it is still to visit. *)
Record loopable (l : list SlotReservation) (w : World) : Prop := {
  loop_schema : schema (w_db w);
  loop_sound : sound (w_db w);
  loop_slots : NoDup (rs_SlotID <$> l);
  loop_free : forall slot, slot ∈ rs_SlotID <$> l ->
    holder_of (w_db w) slot = Free /\ is_Some (db_slots (w_db w) !! slot);
  loop_fresh : fresh_ids E w }.

(** The insert of the replacement is accepted. *)
Lemma reserve_accepted slot db e id t a :
  schema db -> db_reservations db !! id = None ->
  first_where (active_reservation slot) (db_reservations db) = None ->
  is_Some (db_slots db !! slot) ->
  db_waitlist db !! wl_ID e = Some (notified t e) -> 
  let r := Reservation.reservation_for s id slot (notified t e) now in
  ReservationRepo.insert r a db =
    (Ok r, set_reservations (<[id := r]> (db_reservations db)) db).
Proof.
  intros Hs Hid Hfree Hslot He r. unfold ReservationRepo.insert. simpl.
  rewrite has_false by done. rewrite Hfree. simpl.
  rewrite has_true by done. simpl.
  rewrite (has_true (db_users db)).
  2: { eapply (waitlist_user_id_fkey _ _ _ _ (schema_waitlist _ Hs)); [exact He|done]. }
  simpl. rewrite has_true by by eexists. done.
Qed.
(** One slot handed over to [e]. *)
Lemma loopable_handed item rest w e w' :
  loopable (item :: rest) w ->
  WaitlistRepo.next_entry (a_locked (env_answer E (S (w_calls w)))) (rs_SlotID item) (w_db w) = Some e ->
  let t := a_now (env_answer E (S (w_calls w))) in
  let r := Reservation.reservation_for s (env_uuid E (w_ids w)) (rs_SlotID item) (notified t e) now in
  w_db w' = handed_over t e r (w_db w) -> w_ids w' = S (w_ids w) -> schema (w_db w') ->
  loopable rest w'.
Proof.
  intros [Hs Hsd Hnd Hfree Hfr] He t r Hdb Hids Hs'. rewrite fmap_cons in *.
  apply NoDup_cons in Hnd as [Hnin Hnd].
  destruct (Hfree (rs_SlotID item)) as [Hf _]; [left|].
  assert (handover anything (Reservation.reservationTTLValue s) (rs_SlotID item) (w_db w)
    (Some (notified t e, r)) (w_db w')) as Hh.
  { rewrite Hdb. apply handover_to; [done|exact He|by apply Hfr|].
    apply eq_None_not_Some. rewrite first_where_is_Some. intros (j & x & Hj & Hx).
    apply free_not_held in Hf; [|apply Hsd]. apply Hf. right. by exists j, x. }
  split; [done|by eapply handover_sound|done|..].
  - intros slot Hin. destruct (Hfree slot) as [Hslot Hsl]; [by right|].
    assert (slot <> rs_SlotID item) as Hne by (intros ->; done).
    pose proof (handover_other _ _ _ _ _ _ slot Hsd Hf Hh Hne) as Hst.
    injection Hst as -> _. split; [done|]. by rewrite Hdb.
  - intros n Hn. rewrite Hdb. simpl. rewrite lookup_insert_ne; [apply Hfr; lia|].
    intros Heq%HU. lia.
Qed.

Lemma loopable_skip item rest w w' :
  loopable (item :: rest) w -> w_db w' = w_db w -> w_ids w' = w_ids w -> loopable rest w'.
Proof.
  intros [Hs Hsd Hnd Hfree Hfr] Hdb Hids. rewrite fmap_cons in *.
  apply NoDup_cons in Hnd as [_ Hnd].
  split; rewrite ?Hdb; [done..| |unfold fresh_ids; by rewrite Hdb, Hids].
  intros slot Hin. apply Hfree. by right.
Qed.

(** Every new reservation outlives the tick. *)
Definition adds_undue (w w' : World) : Prop :=
  forall j r, db_reservations (w_db w') !! j = Some r ->
    db_reservations (w_db w) !! j = Some r \/ ~ due now r.

Lemma adds_undue_trans w1 w2 w3 : adds_undue w1 w2 -> adds_undue w2 w3 -> adds_undue w1 w3.
Proof. intros H1 H2 j r Hr. destruct (H2 j r Hr) as [?|?]; [by apply H1|by right]. Qed.

Lemma ttl_positive : (0 < Reservation.reservationTTLValue s)%Z.
Proof. unfold Reservation.reservationTTLValue. by destruct (Z.ltb_spec 0 (Reservation.reservationTTL s)). Qed.

Lemma loop_step item rest w v :
  loopable (item :: rest) w -> exists w' v', loopable rest w' /\ adds_undue w w' /\
    run E (Reservation.expire_loop s now (item :: rest) v) w =
    run E (Reservation.expire_loop s now rest v') w'.
Proof.
  intros Hl. cbn [Reservation.expire_loop]. norm. rewrite run_query by done. norm.
  destruct (Reservation.waitlists s); norm.
  2: { eexists _, _. split; [|split; [|reflexivity]]; [by eapply loopable_skip|by left]. }
  rewrite run_sql by done. cbv zeta. unfold WaitlistRepo.claim_next at 1 2. cbn [w_db w_calls after_call].
  destruct (WaitlistRepo.next_entry _ _ _) as [e|] eqn:He; norm.
  2: { eexists _, _. split; [|split; [|reflexivity]]; [by eapply loopable_skip|by left]. }
  pose proof Hl as [Hs Hsd _ Hfree Hfr].
  destruct (Hfree (rs_SlotID item)) as [Hf Hsl]; [rewrite fmap_cons; left|].
  assert (first_where (active_reservation (rs_SlotID item)) (db_reservations (w_db w)) = None)
    as Hnone.
  { apply eq_None_not_Some. rewrite first_where_is_Some. intros (j & x & Hj & Hx).
    apply free_not_held in Hf; [|apply Hsd]. apply Hf. right. by exists j, x. }
  set (a := env_answer E (S (w_calls w))) in *.
  pose proof (waitlist_claim_preserves (rs_SlotID item) a (w_db w) Hs) as Hs1.
  unfold WaitlistRepo.claim_next in Hs1. rewrite He in Hs1. cbn [snd] in Hs1.
  rewrite run_uuid, run_sql by done. cbv zeta. cbn [w_db w_ids after_call].
  fold (notified (a_now a) e) in *. set (db1 := set_waitlist _ _) in *.
  assert (forall a', ReservationRepo.insert (Reservation.reservation_for s (env_uuid E (w_ids w))
    (rs_SlotID item) (notified (a_now a) e) now) a' db1 = _) as Hacc
    by (intros a'; apply (reserve_accepted _ db1 e);
        [done|by apply Hfr|exact Hnone|exact Hsl|apply lookup_insert_eq]).
  pose proof (reservation_insert_preserves
    (Reservation.reservation_for s (env_uuid E (w_ids w)) (rs_SlotID item) (notified (a_now a) e) now)
    a db1 Hs1) as Hs2. rewrite Hacc in Hs2. rewrite Hacc.
  cbn [fst snd] in *. norm. eexists _, _.
  split; [|split; [|reflexivity]]; [by eapply (loopable_handed item rest w e)|].
  intros j x Hx. simpl in Hx. pose proof ttl_positive. lookups; [right|by left].
  unfold due. simpl. lia.
Qed.

Lemma expire_loop_succeeds l w v :
  loopable l w -> exists v' w', run E (Reservation.expire_loop s now l v) w = (Ok v', w') /\
    fresh_ids E w' /\ adds_undue w w'.
Proof.
  revert w v. induction l as [|item l IH]; intros w v Hl.
  { exists v, w. split_and!; [done|apply Hl|by left]. }
  destruct (loop_step item l w v Hl) as (w1 & v1 & Hl1 & Hu & ->).
  destruct (IH w1 v1 Hl1) as (v' & w' & -> & Hf & Hu'). exists v', w'.
  split_and!; [done..|by eapply adds_undue_trans].
Qed.

(** The batch leaves its slots free. *)
Lemma batch_loopable a limit w :
  schema (w_db w) -> coherent (w_db w) -> fresh_ids E w ->
  let l := ReservationRepo.picked a now limit (w_db w) in
  loopable (ReservationRepo.expire now <$> l)
    (after_call (Reservation.batch_expired now l (w_db w)) (after_call (w_db w) w)).
Proof.
  intros Hs Hc Hfr l.
  pose proof (batch_freed a now limit (w_db w) Hs Hc) as Hf. cbv zeta in Hf. fold l in Hf.
  pose proof (schema_sound _ Hs Hc) as Hsd.
  assert (rs_SlotID <$> (ReservationRepo.expire now <$> l) = rs_SlotID <$> l) as Hslots
    by (rewrite <- list_fmap_compose; by apply list_fmap_ext).
  split; rewrite ?Hslots; simpl w_db.
  - destruct Hs. constructor; simpl; try done. apply expire_rows_ok; [done|].
    intros r Hr. by apply elem_of_picked in Hr as [? _].
  - by eapply freed_sound.
  - by apply picked_slots_NoDup.
  - intros slot Hin. split; [eapply freed_free; [apply Hsd|exact Hf|done]|].
    apply list_elem_of_fmap in Hin as (r & -> & Hr). apply elem_of_picked in Hr as [[i Hi] _].
    exact (reservations_slot_id_fkey _ _ _ _ (schema_reservations _ Hs) i r _ Hi eq_refl).
  - intros n Hn. simpl. rewrite expire_rows_other; [by apply Hfr|].
    intros Hin. apply list_elem_of_fmap in Hin as (r & Hid & Hr).
    apply picked_stored in Hr as (Hr & _); [|apply Hc]. rewrite <- Hid, Hfr in Hr by done. done.
Qed.
End loop.

Section tick.
Context (E : Env) (HE : steady E) (HU : never_repeats E) (H : Assm) (cfg : Settings).

Lemma batch_limit_positive limit : (0 < batch_limit limit)%Z.
Proof. unfold batch_limit. by destruct (Z.leb_spec limit 0). Qed.

Lemma expire_tx_succeeds s now limit w :
  schema (w_db w) -> coherent (w_db w) -> fresh_ids E w -> (0 < limit)%Z ->
  exists x w', run E (Reservation.expire_due_tx s now limit) (after_call (w_db w) w) = (Ok x, w') /\
    fresh_ids E w' /\ adds_undue now w w'.
Proof.
  intros Hs Hc Hfr Hlim. unfold Reservation.expire_due_tx. norm. rewrite run_sql by done.
  cbv zeta. unfold ReservationRepo.expire_batch at 1 2. rewrite (proj2 (Z.ltb_ge _ _)) by lia.
  cbn [fst snd w_db after_call w_calls]. norm. rewrite run_bind.
  set (l := ReservationRepo.picked _ _ _ _).
  pose proof (batch_loopable E now (env_answer E (S (w_calls w))) (Z.to_nat limit) w
    Hs Hc Hfr) as Hl. cbv zeta in Hl. fold l in Hl.
  destruct (expire_loop_succeeds E HE HU s now _ _ (Reservation.Build_ExpireVars ∅ ∅ []) Hl)
    as (v & w' & Hrun & Hfr' & Hu).
  unfold Reservation.batch_expired in Hrun. cbn [w_db after_call] in Hrun. rewrite Hrun.
  cbn [fst snd]. norm. eexists _, w'. split_and!; [reflexivity|done|].
  eapply adds_undue_trans; [|exact Hu]. intros j r Hr. cbn [w_db after_call] in Hr.
  unfold Reservation.batch_expired in Hr. simpl in Hr.
  destruct (decide (j ∈ rs_ID <$> l)) as [Hin|Hnin]; [|rewrite expire_rows_other in Hr; auto].
  apply (expire_rows_in now l (db_reservations (w_db w))) in Hin as (x & _ & _ & Hx).
  rewrite Hx in Hr. injection Hr as <-. right. by intros [? _].
Qed.

Lemma tick_succeeds w :
  fresh_ids E w -> schema (w_db w) -> coherent (w_db w) ->
  exists w', run E (serve cfg TickExpireDue) w = (Ok tt, w') /\ fresh_ids E w' /\
    adds_undue (env_now E (w_clock w)) w w'.
Proof.
  intros Hfr Hs Hc. unfold serve, answered. rewrite expire_due_unfold. norm. cbn [run sem].
  set (now := env_now E (w_clock w)).
  set (w1 := Build_World (w_db w) (w_calls w) (S (w_clock w)) (w_ids w) (w_out w)).
  destruct (expire_tx_succeeds (reservationService cfg) now
    (batch_limit (ReservationExpireBatch cfg)) w1 Hs Hc Hfr (batch_limit_positive _))
    as (x & w2 & Hrun & Hfr2 & Hu).
  rewrite !run_bind, (run_tx E HE _ x w1 w2 Hrun). cbn [fst snd].
  set (w3 := after_call (w_db w2) w2).
  pose proof (wp_run anything E (announce_all (reservationService cfg) x)
    (fun r db _ => r = Ok tt /\ db = w_db w2) w3 (respects_anything E)) as Hann.
  destruct Hann as [Hok Hdb]; [by apply announce_all_says|].
  pose proof (run_ids_mono E (announce_all (reservationService cfg) x) w3) as Hids.
  destruct (run E (announce_all _ x) w3) as [r w4]. cbn [fst snd] in *. subst r. norm.
  cbn [run]. exists w4. split_and!; [done|..].
  - intros n Hn. rewrite Hdb. apply Hfr2. simpl in Hids. lia.
  - intros j r Hr. rewrite Hdb in Hr. by apply Hu.
Qed.
End tick.

(** [n] ticks: what each returns, and the world after them. *)
Fixpoint ticks (E : Env) (cfg : Settings) (n : nat) (w : World) : list (result unit) * World :=
  match n with
  | O => ([], w)
  | S n =>
      let x := run E (serve cfg TickExpireDue) w in
      let y := ticks E cfg n x.2 in (x.1 :: y.1, y.2)
  end.

Lemma overdue_NoDup t db : primary rs_ID (db_reservations db) -> NoDup (overdue t db).
Proof.
  intros Hpk. unfold overdue. rewrite order_by_Permutation.
  by apply NoDup_filter, (rows_NoDup rs_ID).
Qed.

Lemma overdue_later t t' db r : (t <= t')%Z -> r ∈ overdue t db -> r ∈ overdue t' db.
Proof. rewrite !elem_of_overdue. unfold due. intros ? [[??] ?]. split_and!; [done|lia|done]. Qed.

(** What a tick at [t'] leaves of the backlog of an earlier [t]: nothing new, and its batch
    is gone from it. *)
Lemma overdue_after_tick t t' limit w w' l :
  (t <= t')%Z ->
  primary rs_ID (db_reservations (w_db w)) -> primary rs_ID (db_reservations (w_db w')) ->
  tick_batch ∅ t' limit (w_db w) l -> expired_rows t' l (w_db w) (w_db w') -> adds_undue t' w w' ->
  (length (overdue t (w_db w')) <= length (overdue t (w_db w)) - limit)%nat.
Proof.
  intros Htt Hpk Hpk' [Hstored Hnd _ Hleft] [Hnow _] Hu.
  assert (forall x, x ∈ overdue t (w_db w') -> x ∈ overdue t (w_db w) /\ x ∉ l) as Hrest.
  { intros x Hx. apply elem_of_overdue in Hx as [Hdue [i Hi]].
    destruct (Hu i x Hi) as [Hold|[]]; [|by destruct Hdue; split; [|lia]].
    split; [by apply elem_of_overdue; eauto|]. intros Hin%Hnow.
    rewrite (Hpk' i x Hi), Hi in Hin. injection Hin as Hexp.
    destruct Hdue as [Hact _]. by rewrite Hexp in Hact. }
  destruct (overdue t (w_db w')) as [|x rest] eqn:Hov; [simpl; lia|]. rewrite <- Hov in *.
  destruct (Hrest x) as [Hx Hxl]; [rewrite Hov; left|].
  destruct (Hleft x) as [Hlen Hold]; [by eapply overdue_later|apply not_elem_of_empty|done|].
  assert (forall r, r ∈ l -> r ∈ overdue t (w_db w)) as Hall.
  { intros r Hr. specialize (Hold r Hr). destruct (Hstored r Hr) as ([Hact _] & _ & Hi).
    apply elem_of_overdue in Hx as [[_ ?] _]. apply elem_of_overdue. split; [split; [done|lia]|by eexists]. }
  assert (length (overdue t (w_db w') ++ l) <= length (overdue t (w_db w)))%nat as Hsum;
    [|rewrite length_app in Hsum; lia].
  apply submseteq_length, NoDup_submseteq.
  - apply NoDup_app. split; [by apply overdue_NoDup|]. split; [|exact Hnd].
    intros y Hy. by apply Hrest.
  - intros y [Hy|Hy]%elem_of_app; [by apply Hrest|by apply Hall].
Qed.

(** C16. While no other transaction holds rows locked, with a server that answers,
    identifiers that are drawn at most once and a clock that does not fall behind [t]: every
    tick of the worker succeeds, and as many ticks as the backlog has batches leave no
    reservation that was due at [t]: replacements never join the backlog. *)
Theorem ticks_clear_the_backlog H cfg E w t n :
  unlocked H -> respects H E -> steady E -> never_repeats E -> (forall k, t <= env_now E k)%Z ->
  reachable H cfg w -> fresh_ids E w ->
  (length (overdue t (w_db w)) <= n * Z.to_nat (batch_limit (ReservationExpireBatch cfg)))%nat ->
  (ticks E cfg n w).1 = replicate n (Ok tt) /\ overdue t (w_db (ticks E cfg n w).2) = [].
Proof.
  intros Hl HR HE HU Ht. revert w. induction n as [|n IH]; intros w Hw Hfr Hlen; cbn [ticks].
  { split; [done|]. apply length_zero_iff_nil. cbn [snd]. lia. }
  destruct (reachable_inv H cfg w Hw) as [Hs [Hc _]].
  destruct (tick_succeeds E HE HU cfg w Hfr Hs Hc) as (w' & Hrun & Hfr' & Hu).
  assert (reachable H cfg w') as Hw'.
  { apply (reachable_step _ _ w); [done|]. exists E TickExpireDue; [done|by rewrite Hrun]. }
  destruct (tick_batches H cfg E w HR Hw) as (a & l & Ha & Hb & Hx); [by rewrite Hrun|].
  rewrite (Hl a Ha) in Hb. rewrite Hrun in Hx |- *. cbn [fst snd] in *.
  destruct (reachable_inv H cfg w' Hw') as [Hs' _].
  pose proof (overdue_after_tick t _ _ w w' l (Ht (w_clock w))
    (reservations_pkey _ _ _ _ (schema_reservations _ Hs))
    (reservations_pkey _ _ _ _ (schema_reservations _ Hs')) Hb Hx Hu).
  destruct (IH w' Hw' Hfr') as [-> Hdone]; [lia|]. by split.
Qed.

(** One tick is enough at 02:00. *)
Lemma ticks_clear_the_backlog_witness :
  length (overdue two_am (w_db offered)) = 1%nat /\
  (ticks late settings 1 offered).1 = [Ok tt] /\
  overdue two_am (w_db (ticks late settings 1 offered).2) = [].
Proof.
  split; [by vm_compute|].
  apply (ticks_clear_the_backlog healthy settings late offered two_am 1);
    [exact healthy_unlocked|exact late_healthy|done| |done|exact offered_healthy| |by vm_compute; lia].
  - intros m n Heq. simpl in Heq. lia.
  - intros n Hn. unfold env_uuid, late.
    apply not_elem_of_dom.
    assert (dom (db_reservations (w_db offered)) = {[1003%N]}) as -> by by vm_compute.
    assert (w_ids offered = 4%nat) as Hids by by vm_compute.
    rewrite Hids in Hn. rewrite elem_of_singleton. lia.
Defined.
