(* ===== verification/Listings.v ===== *)
(** * Listings: what the reading operations return

    The pages of ListBookings, and the bookings and reservations of a user, against the state
    they are read from. *)

From S2P Require Import Prelude Domain Database Program Postgres Schema Usecase Handover.
From S2P Require Import Invariant System Scenario Machine.
From S2P Require Booking Waitlist Reservation.

(** ** Pages *)

(** All bookings, latest first; those of one time as a server that answers [a] lists
    them. *)
Definition by_creation (a : Answer) (db : DB) : list Booking :=
  ordered a bk_ID (fun b => (- bk_CreatedAt b)%Z) (rows (db_bookings db)).

(** The bookings of a page, when its offset is a 64-bit integer. *)
Definition page (a : Answer) (number pageSize : Z) (db : DB) : list Booking :=
  take (Z.to_nat pageSize) (drop (Z.to_nat ((number - 1) * pageSize)) (by_creation a db)).

(** When the bookings were created, latest first. *)
Definition creation_times (db : DB) : list time :=
  order_by Z.opp (bk_CreatedAt <$> rows (db_bookings db)).

Definition in_range (number pageSize : Z) : Prop :=
  (1 <= number)%Z /\ (1 <= pageSize <= 100)%Z /\ (number * pageSize < 2 ^ 63)%Z.

Lemma by_creation_Permutation a db : by_creation a db ≡ₚ rows (db_bookings db).
Proof. apply order_ties_Permutation. Qed.

Lemma by_creation_times a db : bk_CreatedAt <$> by_creation a db = creation_times db.
Proof.
  symmetry. apply order_by_unique; [intros; lia|by rewrite by_creation_Permutation|].
  pose proof (order_ties_ssorted (fun b => a_order a (bk_ID b)) (fun b => (- bk_CreatedAt b)%Z)
    (rows (db_bookings db))) as Hs.
  unfold by_creation, ordered. induction Hs as [|x l _ IH Hx]; [constructor|].
  rewrite fmap_cons. constructor; [done|]. by apply Forall_fmap.
Qed.

Lemma NoDup_fmap_elem {A B} (f : A -> B) l x y :
  NoDup (f <$> l) -> x ∈ l -> y ∈ l -> f x = f y -> x = y.
Proof.
  intros Hnd [i Hi]%list_elem_of_lookup_1 [j Hj]%list_elem_of_lookup_1 Heq.
  assert (i = j) as ->; [|by rewrite Hi in Hj; injection Hj].
  apply (NoDup_lookup _ i j (f x) Hnd); rewrite list_lookup_fmap; [by rewrite Hi|].
  by rewrite Hj, Heq.
Qed.

(** Without ties every server has one list. *)
Lemma by_creation_unique a db :
  NoDup (bk_CreatedAt <$> rows (db_bookings db)) ->
  by_creation a db = order_by (fun b => (- bk_CreatedAt b)%Z) (rows (db_bookings db)).
Proof.
  intros Hnd. apply order_ties_unique. intros x y Hx Hy Heq.
  apply (NoDup_fmap_elem bk_CreatedAt _ x y Hnd Hx Hy). lia.
Qed.

Lemma list_bookings_spec H user number pageSize db out :
  wp H (Booking.ListBookings user number pageSize) (fun r _ _ =>
    match r with
    | Ok (l, pg) => us_Role user = RoleAdmin /\ (1 <= number)%Z /\ (1 <= pageSize <= 100)%Z /\
        pg = {| pg_Page := number; pg_PageSize := pageSize;
                pg_Total := Z.of_nat (size (db_bookings db)) |} /\
        let offset := int64 (int64 (number - 1) * pageSize) in
        (0 <= offset)%Z /\ exists a,
        l = take (Z.to_nat pageSize) (drop (Z.to_nat offset) (by_creation a db))
    | Err _ => True
    end) db out.
Proof.
  unfold Booking.ListBookings, BookingRepo.List. case_bool_decide as Hrole; [done|].
  destruct (Z.leb_spec number 0), (Z.leb_spec pageSize 0); simpl; try done.
  destruct (Z.ltb_spec 100 pageSize); [done|].
  apply wp_query; [done|]. norm. apply wp_sql; [done|]. intros a _.
  unfold BookingRepo.page_of. rewrite (proj2 (Z.ltb_ge pageSize 0)) by lia. norm.
  destruct (Z.ltb_spec (int64 (int64 (number - 1) * pageSize)) 0); norm; apply wp_ret; [done|].
  split_and!; try done; try lia. by exists a.
Qed.

Lemma list_bookings_page E user number pageSize w l pg :
  (number * pageSize < 2 ^ 63)%Z ->
  (run E (Booking.ListBookings user number pageSize) w).1 = Ok (l, pg) ->
  in_range number pageSize /\ (exists a, l = page a number pageSize (w_db w)) /\
  pg_Total pg = Z.of_nat (size (db_bookings (w_db w))).
Proof.
  intros Hlt Hok. pose proof (wp_run anything E _ _ w (respects_anything E)
    (list_bookings_spec anything user number pageSize (w_db w) (w_out w))) as Hs.
  rewrite Hok in Hs. destruct Hs as (_ & Hn & Hp & -> & Hoff).
  rewrite (int64_id (number - 1)), int64_id in Hoff by nia.
  destruct Hoff as (_ & a & ->). by split_and!; [..|exists a|].
Qed.

Lemma take_pages {A} (l : list A) (s n : nat) :
  mjoin ((fun i => take s (drop (i * s) l)) <$> seq 0 n) = take (n * s) l.
Proof.
  induction n as [|n IH]; [done|]. rewrite seq_S, fmap_app, join_app, IH. simpl.
  rewrite app_nil_r. rewrite <- (take_drop (n * s) (take (s + n * s) l)).
  rewrite take_take, skipn_firstn_comm. f_equal; f_equal; lia.
Qed.

Lemma fmap_join {A B} (f : A -> B) (ls : list (list A)) :
  f <$> mjoin ls = mjoin (fmap f <$> ls).
Proof. induction ls as [|l ls IH]; [done|]. rewrite fmap_cons. simpl. by rewrite fmap_app, IH. Qed.

(** Pages one after the other, when page [i] is cut from a list with the [f]-image [l]. *)
Lemma mapped_pages {A B} (f : A -> B) (ls : nat -> list A) (l : list B) (s n : nat) :
  (forall i, (i < n)%nat -> f <$> ls i = take s (drop (i * s) l)) ->
  f <$> mjoin (ls <$> seq 0 n) = take (n * s) l.
Proof.
  intros Hls. rewrite <- take_pages, fmap_join. f_equal.
  rewrite <- list_fmap_compose. apply list_fmap_ext. intros k i Hi.
  apply lookup_seq in Hi as [-> Hi]. by apply Hls.
Qed.


(** Two pages of two show the three bookings of this history, made a minute apart. *)
Definition every_minute : Env :=
  {| env_answer _ := answer; env_now n := (one_am + Z.of_nat n * Minute)%Z;
     env_uuid n := (1000 + N.of_nat n)%N |}.

Definition book_thrice (E : Env) : World :=
  after E [ReqCreateBooking alice 20 false; ReqCreateBooking bob 21 false;
           ReqCancelBooking alice 1000; ReqCreateBooking carol 20 false] start.

Definition three_bookings : World := book_thrice every_minute.


(** Made at one time, they need not be listed once: a server that breaks ties one way for
    the first page and the other way for the second shows one booking on both of them and
    another one on neither. *)
Definition breaking_ties (order : uuid -> Z) : Env :=
  {| env_answer _ := {| a_fault := None; a_lost := false; a_locked := ∅; a_order := order;
       a_returned _ := 0%Z; a_now := one_am; a_next_day d := (d + Day)%Z |};
     env_now _ := one_am; env_uuid n := (1000 + N.of_nat n)%N |}.

Lemma ties_repeat_and_skip :
  let w := book_thrice env in
  exists b c pg pg',
    (run (breaking_ties Z.of_N) (Booking.ListBookings root 1 2) w).1 = Ok ([b; c], pg) /\
    (run (breaking_ties (fun i => - Z.of_N i)%Z) (Booking.ListBookings root 2 2) w).1 = Ok ([b], pg') /\
    exists d, db_bookings (w_db w) !! bk_ID d = Some d /\ d ∉ [b; c].
Proof.
  cbv zeta. do 4 eexists. split; [by vm_compute|]. split; [by vm_compute|].
  destruct (db_bookings (w_db (book_thrice env)) !! 1002%N) as [d|] eqn:Hd; [|by vm_compute in Hd].
  exists d. vm_compute in Hd. injection Hd as <-. split; [by vm_compute|].
  by rewrite !not_elem_of_cons; split_and!; [..|apply not_elem_of_nil].
Qed.

(** C30. The offset of a page is computed in 64 bits: page 2^62 + 1 with four bookings per
    page is the first page again, as the server lists it at that call. *)
Theorem huge_page_numbers_wrap_around E w user :
  steady E -> us_Role user = RoleAdmin ->
  (run E (Booking.ListBookings user (2 ^ 62 + 1) 4) w).1 =
    Ok (page (env_answer E (S (w_calls w))) 1 4 (w_db w),
        {| pg_Page := 2 ^ 62 + 1; pg_PageSize := 4;
           pg_Total := Z.of_nat (size (db_bookings (w_db w))) |}).
Proof.
  intros HE Hrole. unfold Booking.ListBookings, BookingRepo.List.
  rewrite Hrole, bool_decide_false by by intros [].
  change ((2 ^ 62 + 1 <=? 0)%Z || (4 <=? 0)%Z) with false. change (100 <? 4)%Z with false.
  norm. rewrite run_query by done. norm.
  rewrite run_sql by done. cbv zeta. unfold BookingRepo.page_of.
  replace (int64 (int64 (2 ^ 62 + 1 - 1) * 4)) with 0%Z by by vm_compute. norm. done.
Qed.

Lemma huge_page_numbers_wrap_around_witness :
  exists pg, (run env (Booking.ListBookings root (2 ^ 62 + 1) 4) three_bookings).1 =
    Ok (page answer 1 4 (w_db three_bookings), pg) /\
    length (page answer 1 4 (w_db three_bookings)) = 3%nat.
Proof.
  eexists. split; [|by vm_compute].
  apply (huge_page_numbers_wrap_around env three_bookings root); done.
Defined.

(** ** The bookings of a user *)

(** When the slot of a booking starts. *)
Definition starts (db : DB) (b : Booking) : time :=
  from_option sl_StartTime 0%Z (db_slots db !! bk_SlotID b).

Lemma elem_of_with_slot db b' s b :
  (b', s) ∈ BookingRepo.with_slot db b -> b' = b /\ db_slots db !! bk_SlotID b = Some s.
Proof.
  unfold BookingRepo.with_slot. destruct (db_slots db !! _) as [x|]; [|by intros ?%elem_of_nil].
  by intros [= -> ->]%list_elem_of_singleton.
Qed.

Definition future_booking (user : User) (now : time) (db : DB) (b : Booking) : Prop :=
  (exists i, db_bookings db !! i = Some b) /\ bk_UserID b = us_ID user /\
  bk_Status b = BookingStatusActive /\
  exists s, db_slots db !! bk_SlotID b = Some s /\ (now <= sl_StartTime s)%Z.

Lemma elem_of_future user now a db b :
  b ∈ BookingRepo.future_by_user (us_ID user) now a db <-> future_booking user now db b.
Proof.
  unfold BookingRepo.future_by_user, future_booking. rewrite list_elem_of_fmap. split.
  - intros ([b' s] & -> & Hx).
    apply elem_of_order_ties, list_elem_of_filter in Hx as [(Hu & Ha & Ht) Hx].
    apply list_elem_of_bind in Hx as (b & Hx & Hb). apply elem_of_rows in Hb.
    apply elem_of_with_slot in Hx as [-> Hs]. simpl in *.
    repeat (split; [assumption|]). exists s. split; [done|lia].
  - intros (Hb & Hu & Ha & s & Hs & Ht). exists (b, s). split; [done|].
    apply elem_of_order_ties, list_elem_of_filter. split; [simpl; split_and!; [done|done|lia]|].
    apply list_elem_of_bind. exists b. split; [|by apply elem_of_rows].
    unfold BookingRepo.with_slot. rewrite Hs. by apply list_elem_of_singleton.
Qed.

Lemma future_sorted user now a db :
  StronglySorted (fun b b' => (starts db b <= starts db b')%Z)
    (BookingRepo.future_by_user (us_ID user) now a db).
Proof.
  unfold BookingRepo.future_by_user, ordered. set (l := filter _ _).
  assert (forall x, x ∈ order_ties (fun bs => a_order a (bk_ID bs.1))
    (fun bs => sl_StartTime bs.2) l -> starts db x.1 = sl_StartTime x.2)
    as Hst.
  { intros [b' s] Hx. apply elem_of_order_ties, list_elem_of_filter in Hx as [_ Hx].
    apply list_elem_of_bind in Hx as (b & Hx & _). apply elem_of_with_slot in Hx as [-> Hs].
    unfold starts. simpl. by rewrite Hs. }
  pose proof (order_ties_ssorted (fun bs => a_order a (bk_ID bs.1))
    (fun bs : Booking * Slot => sl_StartTime bs.2) l) as Hsorted.
  induction Hsorted as [|x l' _ IH Hx]; [constructor|]. rewrite fmap_cons. constructor.
  - apply IH. intros y Hy. apply Hst. by right.
  - apply Forall_fmap, Forall_forall. intros y Hy. simpl.
    rewrite (Hst x) by left. rewrite (Hst y) by by right. rewrite Forall_forall in Hx. by apply Hx.
Qed.

Lemma with_slot_sublist db l : (l ≫= BookingRepo.with_slot db).*1 `sublist_of` l.
Proof.
  induction l as [|b l IH]; [done|]. rewrite bind_cons, fmap_app. unfold BookingRepo.with_slot at 1.
  destruct (db_slots db !! _); simpl; [by apply sublist_skip|by apply sublist_cons].
Qed.

Lemma future_NoDup user now a db :
  primary bk_ID (db_bookings db) -> NoDup (BookingRepo.future_by_user (us_ID user) now a db).
Proof.
  intros Hpk. unfold BookingRepo.future_by_user, ordered. rewrite order_ties_Permutation.
  eapply sublist_NoDup; [exact (rows_NoDup bk_ID _ Hpk)|].
  etrans; [|apply with_slot_sublist]. apply fmap_sublist, sublist_filter.
Qed.

(** The reservations that the user can still confirm. *)
Definition standing_reservation (user : User) (now : time) (db : DB) (r : SlotReservation) : Prop :=
  (exists i, db_reservations db !! i = Some r) /\ rs_UserID r = us_ID user /\
  rs_Status r = ReservationStatusActive /\ (now < rs_ExpiresAt r)%Z.

(** [l] has the elements of which [P] holds, each once, in the order of [key]. *)
Definition lists {A} (P : A -> Prop) (key : A -> Z) (l : list A) : Prop :=
  NoDup l /\ (forall x, x ∈ l <-> P x) /\ StronglySorted (key_le key) l.

Lemma future_lists user now a db :
  primary bk_ID (db_bookings db) ->
  lists (future_booking user now db) (starts db) (BookingRepo.future_by_user (us_ID user) now a db).
Proof.
  intros Hpk. split; [by apply future_NoDup|].
  split; [intros b; apply elem_of_future|apply future_sorted].
Qed.

Lemma standing_lists user now a db :
  primary rs_ID (db_reservations db) ->
  lists (standing_reservation user now db) rs_ExpiresAt
    (ReservationRepo.active_by_user (us_ID user) now a db).
Proof.
  intros Hpk. unfold ReservationRepo.active_by_user, ordered. split; [|split].
  - rewrite order_ties_Permutation. by apply NoDup_filter, (rows_NoDup rs_ID).
  - intros r. rewrite elem_of_order_ties, list_elem_of_filter, elem_of_rows.
    unfold standing_reservation. split; [intros ((?&?&?)&?)|intros (?&?&?&?)]; split_and!; try done; lia.
  - apply order_ties_ssorted.
Qed.

(** C23. A user sees what is theirs: ListMyBookings returns exactly the active bookings of the
    user for slots that have not started, in the order of the slots, and
    ListMyActiveReservations exactly the user's reservations that are active and have not
    expired, those that expire first first, each of them once. Other roles are refused. *)
Theorem users_see_what_is_theirs H cfg E w user :
  steady E -> reachable H cfg w ->
  let now := env_now E (w_clock w) in
  let bookings := (run E (Booking.ListMyBookings user) w).1 in
  let reservations := (run E (Reservation.ListMyActiveReservations user) w).1 in
  (us_Role user = RoleUser ->
   (exists l, bookings = Ok l /\
      lists (future_booking user now (w_db w)) (starts (w_db w)) l) /\
   exists l, reservations = Ok l /\
      lists (standing_reservation user now (w_db w)) rs_ExpiresAt l) /\
  (us_Role user <> RoleUser ->
   bookings = Err (NewDomainError ErrorForbidden "only user role can access own bookings") /\
   reservations = Err (NewDomainError ErrorForbidden
     "list active reservations is allowed only for user role")).
Proof.
  intros HE Hw. destruct (reachable_inv H cfg w Hw) as [Hs _]. cbv zeta.
  unfold Booking.ListMyBookings, Reservation.ListMyActiveReservations. split; intros Hrole.
  - rewrite !bool_decide_false by by rewrite Hrole; intros []. norm.
    rewrite !run_now, !run_select by done. split; eexists; (split; [reflexivity|]).
    + apply future_lists, schema_bookings, Hs.
    + apply standing_lists, schema_reservations, Hs.
  - by rewrite !bool_decide_true.
Qed.

(** Bob has a reservation that he has not confirmed; Alice has given up her booking. *)
Lemma users_see_what_is_theirs_witness :
  (run env (Booking.ListMyBookings alice) offered).1 = Ok [] /\
  (exists r, (run env (Reservation.ListMyActiveReservations bob) offered).1 = Ok [r] /\
     rs_SlotID r = 20%N /\ standing_reservation bob one_am (w_db offered) r) /\
  is_Some (head (A := error) (match (run env (Booking.ListMyBookings root) offered).1 with
                              | Err e => [e] | Ok _ => [] end)).
Proof.
  split; [by vm_compute|]. split.
  - destruct (users_see_what_is_theirs quiet settings env offered bob) as [Hbob _];
      [done|exact offered_reachable|].
    destruct (Hbob eq_refl) as [_ (l & Hl & _ & Hin & _)].
    assert (exists r, l = [r] /\ rs_SlotID r = 20%N) as (r & -> & Hr)
      by (vm_compute in Hl; injection Hl as <-; by eexists).
    exists r. split; [exact Hl|]. split; [exact Hr|]. apply Hin. left.
  - destruct (users_see_what_is_theirs quiet settings env offered root) as [_ Hroot];
      [done|exact offered_reachable|].
    destruct (Hroot ltac:(discriminate)) as [-> _]. by eexists.
Defined.
