(* ===== verification/Calendar.v ===== *)
(** * Calendar: internal/usecase/slot/service.go

    The slots of a room on a day, for booking and for display; both lists are the same
    reading of the state of each slot. *)

From S2P Require Import Prelude Domain Database Program Postgres Schema Usecase Handover.
From S2P Require Import Invariant System Scenario Machine.
From S2P Require Booking Waitlist Reservation.

(** ** The service *)

(** The midnight of the UTC date. *)
Definition dateUTC (date : time) : time := (Day * (date / Day))%Z.

Definition validateAndNormalizeRequest (user : User) (roomID : uuid) (date : time)
    : prog (result time) :=
  match us_Role user with
  | RoleAdmin | RoleUser =>
      let? room := on_err (wrap ErrorInternalError "get room") (RoomRepo.GetByID roomID) in
      match room with
      | None => fail (NewDomainError ErrorRoomNotFound "room not found")
      | Some _ => ok (dateUTC date)
      end
  | _ => fail (NewDomainError ErrorForbidden "role is not allowed")
  end.

Definition ListAvailableSlots (user : User) (roomID : uuid) (date : time)
    : prog (result (list Slot)) :=
  let? dateUTC := validateAndNormalizeRequest user roomID date in
  SlotRepo.ListAvailableByRoomAndDate roomID dateUTC.

Definition ListRoomSlots (user : User) (roomID : uuid) (date : time)
    : prog (result (list SlotView)) :=
  let? dateUTC := validateAndNormalizeRequest user roomID date in
  let! now := perform Now in
  SlotRepo.ListAllByRoomAndDate roomID dateUTC now.

(** ** The day of a room *)

#[global] Instance Holder_eq_dec : EqDecision Holder.
Proof. solve_decision. Defined.

(** The slots that start on the day, which ends at [until], in order. *)
Definition day_slots (roomID : uuid) (date until : time) (db : DB) : list Slot :=
  order_by sl_StartTime (filter (SlotRepo.in_day roomID date until) (rows (db_slots db))).

(** Where the day of [date] ends for the server when it answers its [n]th call: a day later
    by the calendar of its session, twenty-four hours if that is in UTC. *)
Definition day_end (E : Env) (n : nat) (date : time) : time :=
  a_next_day (env_answer E n) (dateUTC date).

Definition calendar_status (now : time) (s : Slot) (h : Holder) : SlotStatus :=
  if (sl_StartTime s <? now)%Z then SlotStatusPast
  else match h with
       | Free => SlotStatusAvailable
       | BookedBy _ => SlotStatusBooked
       | ReservedFor _ => SlotStatusReserved
       end.

(** What the calendar shows of a slot: its state, and the rows that hold it. *)
Definition shown (now : time) (db : DB) (s : Slot) : SlotView :=
  let r := first_where (active_reservation (sl_ID s)) (db_reservations db) in
  {| sv_ID := sl_ID s; sv_RoomID := sl_RoomID s; sv_StartTime := sl_StartTime s;
     sv_EndTime := sl_EndTime s;
     sv_Status := calendar_status now s (holder_of db (sl_ID s));
     sv_BookingID := bk_ID <$> first_where (active_booking (sl_ID s)) (db_bookings db);
     sv_ReservationID := rs_ID <$> r;
     sv_WaitlistEntryID := r ≫= rs_WaitlistEntryID |}.

(** ** The query and the state agree *)

(** At most one row matches, so the LEFT JOIN does not repeat the slot. *)
Lemma left_join_unique {A} (P : A -> Prop) `{Pdec : !forall x, Decision (P x)} (t : gmap uuid A) :
  (forall i j x y, t !! i = Some x -> t !! j = Some y -> P x -> P y -> i = j) ->
  SlotRepo.left_join (filter P (rows t)) = [first_where P t].
Proof.
  intros Hu. unfold first_where. destruct (head (filter P (rows t))) as [x|] eqn:Hx.
  2: { apply head_None in Hx. by rewrite Hx. }
  apply head_filter_Some in Hx as [HP [i Hi]].
  assert (filter P (rows t) ≡ₚ [x]) as Hperm.
  { rewrite (rows_delete t i x Hi), filter_cons, decide_True by done. f_equiv.
    rewrite filter_none; [done|]. intros y [j Hy]%elem_of_rows HPy.
    apply lookup_delete_Some in Hy as [Hne Hy]. by destruct Hne; eapply Hu. }
  symmetry in Hperm. apply Permutation_length_1_inv in Hperm. by rewrite Hperm.
Qed.

Lemma joined_once db s :
  exclusive db -> SlotRepo.joined db s =
    [(s, first_where (active_booking (sl_ID s)) (db_bookings db),
         first_where (active_reservation (sl_ID s)) (db_reservations db))].
Proof.
  intros (Hb & Hr & _). unfold SlotRepo.joined.
  rewrite !left_join_unique; [done|..]; intros i j x y Hi Hj Hx Hy.
  - apply (Hb i j x y Hi Hj). by exists (sl_ID s).
  - apply (Hr i j x y Hi Hj). by exists (sl_ID s).
Qed.

(** Slots of one room start at different times. *)
Lemma starts_differ db x y i j :
  schema db -> db_slots db !! i = Some x -> db_slots db !! j = Some y ->
  sl_RoomID x = sl_RoomID y -> sl_StartTime x = sl_StartTime y -> x = y.
Proof.
  intros Hs Hx Hy Hr Ht. destruct (schema_slots _ Hs) as [_ Hc Hno _].
  assert (i = j) as ->; [|congruence]. eapply Hno; eauto. unfold slots_overlap.
  pose proof (Hc i x Hx). pose proof (Hc j y Hy). lia.
Qed.

Lemma ordered_fmap {A B} (f : A -> B) (key : B -> Z) l :
  StronglySorted (key_le (fun x => key (f x))) l -> StronglySorted (key_le key) (f <$> l).
Proof.
  induction 1 as [|x l Hs IH Hx]; [constructor|]. rewrite fmap_cons. constructor; [done|].
  by apply Forall_fmap.
Qed.

Definition joined_row (db : DB) (s : Slot) : Slot * option Booking * option SlotReservation :=
  (s, first_where (active_booking (sl_ID s)) (db_bookings db),
      first_where (active_reservation (sl_ID s)) (db_reservations db)).

Lemma joined_day roomID date a db :
  schema db -> exclusive db ->
  SlotRepo.joined_in_day roomID date a db =
    joined_row db <$> day_slots roomID date (a_next_day a date) db.
Proof.
  intros Hs Hx. unfold SlotRepo.joined_in_day, day_slots.
  set (today := filter _ _).
  assert (today ≫= SlotRepo.joined db = joined_row db <$> today) as ->.
  { induction today as [|s l IH]; [done|]. rewrite bind_cons, IH, joined_once by done. done. }
  assert (forall x y, x ∈ joined_row db <$> today -> y ∈ joined_row db <$> today ->
    sl_StartTime x.1.1 = sl_StartTime y.1.1 -> x = y) as Hu.
  { intros x y Hxin Hyin Heq. apply list_elem_of_fmap in Hxin as (s & -> & Hsin).
    apply list_elem_of_fmap in Hyin as (s' & -> & Hsin').
    apply list_elem_of_filter in Hsin as [[Hr _] Hsin], Hsin' as [[Hr' _] Hsin'].
    apply elem_of_rows in Hsin as [i Hi], Hsin' as [j Hj]. f_equal.
    eapply starts_differ; [done|exact Hi|exact Hj|congruence|exact Heq]. }
  unfold ordered. rewrite order_ties_unique by done. apply order_by_unique; [done|..].
  - by rewrite order_by_Permutation.
  - apply ordered_fmap. apply order_by_ssorted.
Qed.

Lemma view_shown now db s : SlotRepo.view now (joined_row db s) = shown now db s.
Proof.
  unfold SlotRepo.view, joined_row, shown, SlotRepo.slot_status, calendar_status, holder_of.
  f_equal. destruct (sl_StartTime s <? now)%Z; [done|].
  destruct (first_where (active_booking _) _); [by rewrite bool_decide_true|].
  rewrite (bool_decide_false (is_Some None)) by by intros [? ?].
  destruct (first_where (active_reservation _) _); [by rewrite bool_decide_true|].
  by rewrite bool_decide_false by by intros [? ?].
Qed.

Lemma available_free roomID date a db :
  schema db -> exclusive db ->
  SlotRepo.available roomID date a db =
    filter (fun s => holder_of db (sl_ID s) = Free)
      (day_slots roomID date (a_next_day a date) db).
Proof.
  intros Hs Hx. unfold SlotRepo.available. rewrite joined_day by done.
  induction (day_slots _ _ _ db) as [|s l IH]; [done|].
  rewrite fmap_cons, !filter_cons.
  assert ((joined_row db s).1.2 = None /\ (joined_row db s).2 = None <->
    holder_of db (sl_ID s) = Free) as Hiff.
  { unfold joined_row, holder_of. simpl.
    destruct (first_where (active_booking _) _), (first_where (active_reservation _) _);
      naive_solver. }
  destruct (decide (holder_of db (sl_ID s) = Free)) as [Hf|Hf].
  - rewrite decide_True by by apply Hiff. rewrite !fmap_cons. by f_equal.
  - rewrite decide_False by by rewrite Hiff. done.
Qed.

(** ** What the service returns *)

(** The answer for a user, a room and what the day then holds. *)
Definition listed {A} (db : DB) (user : User) (roomID : uuid) (l : list A) : result (list A) :=
  match us_Role user with
  | RoleOther _ => Err (NewDomainError ErrorForbidden "role is not allowed")
  | _ =>
      match db_rooms db !! roomID with
      | None => Err (NewDomainError ErrorRoomNotFound "room not found")
      | Some _ => Ok l
      end
  end.

Lemma calendar_shown H cfg E w user roomID date :
  steady E -> reachable H cfg w ->
  (run E (ListRoomSlots user roomID date) w).1 =
    listed (w_db w) user roomID
      (shown (env_now E (w_clock w)) (w_db w) <$>
         day_slots roomID (dateUTC date) (day_end E (S (w_calls w)) date) (w_db w)).
Proof.
  intros HE Hw. destruct (reachable_inv H cfg w Hw) as [Hs [Hc _]].
  pose proof (schema_exclusive _ Hs Hc) as Hx.
  unfold ListRoomSlots, validateAndNormalizeRequest, listed, RoomRepo.GetByID,
    SlotRepo.ListAllByRoomAndDate.
  destruct (us_Role user); norm; [..|done]; rewrite run_query by done; norm;
    destruct (db_rooms (w_db w) !! roomID); norm; try done;
    rewrite run_now, run_select by done; cbn [run fst w_db w_clock after_call];
    rewrite joined_day, <- list_fmap_compose by done; f_equal;
    apply list_fmap_ext; intros; apply view_shown.
Qed.

(** The available slots of a day are exactly those of the calendar that nobody holds. *)
Theorem available_slots_are_free H cfg E w user roomID date :
  steady E -> reachable H cfg w ->
  (run E (ListAvailableSlots user roomID date) w).1 =
    listed (w_db w) user roomID
      (filter (fun s => holder_of (w_db w) (sl_ID s) = Free)
         (day_slots roomID (dateUTC date) (day_end E (S (w_calls w)) date) (w_db w))).
Proof.
  intros HE Hw. destruct (reachable_inv H cfg w Hw) as [Hs [Hc _]].
  pose proof (schema_exclusive _ Hs Hc) as Hx.
  unfold ListAvailableSlots, validateAndNormalizeRequest, listed, RoomRepo.GetByID,
    SlotRepo.ListAvailableByRoomAndDate.
  unfold day_end. rewrite <- available_free by done.
  destruct (us_Role user); norm; [..|done]; rewrite run_query by done; norm;
    destruct (db_rooms (w_db w) !! roomID); norm; try done; by rewrite run_select.
Qed.

(** C26. The calendar of a room shows every slot of the day once, in order, with the state
    of its holder: past, booked, reserved or available; the available slots are exactly those
    of the calendar that nobody holds. The day is the one that starts at the UTC midnight of
    the date and ends where the server has its next day begin.  Unknown rooms and roles are refused by both. *)
Theorem calendar_shows_the_state H cfg E w user roomID date :
  steady E -> reachable H cfg w ->
  (run E (ListRoomSlots user roomID date) w).1 =
    listed (w_db w) user roomID
      (shown (env_now E (w_clock w)) (w_db w) <$>
         day_slots roomID (dateUTC date) (day_end E (S (w_calls w)) date) (w_db w)) /\
  (run E (ListAvailableSlots user roomID date) w).1 =
    listed (w_db w) user roomID
      (filter (fun s => holder_of (w_db w) (sl_ID s) = Free)
         (day_slots roomID (dateUTC date) (day_end E (S (w_calls w)) date) (w_db w))).
Proof.
  intros HE Hw. split; [by eapply calendar_shown|by eapply available_slots_are_free].
Qed.

(** Reserved for Bob in the morning, free at noon; only noon can be booked. *)
Lemma calendar_shows_the_state_witness :
  exists views,
    (run env (ListRoomSlots carol 10 one_am) offered).1 = Ok views /\
    sv_Status <$> views = [SlotStatusReserved; SlotStatusAvailable].
Proof.
  eexists. split.
  - destruct (calendar_shows_the_state quiet settings env offered carol 10 one_am) as [-> _];
      [done|exact offered_reachable|].
    assert (exists room, db_rooms (w_db offered) !! 10%N = Some room) as [room Hroom]
      by (eexists; by vm_compute).
    unfold listed. rewrite Hroom. reflexivity.
  - by vm_compute.
Defined.

Lemma available_slots_are_free_witness :
  exists slots,
    (run env (ListAvailableSlots carol 10 one_am) offered).1 = Ok slots /\
    sl_ID <$> slots = [21%N].
Proof.
  eexists. split.
  - rewrite (available_slots_are_free quiet settings env offered carol 10 one_am);
      [|done|exact offered_reachable].
    assert (exists room, db_rooms (w_db offered) !! 10%N = Some room) as [room Hroom]
      by (eexists; by vm_compute).
    unfold listed. rewrite Hroom. reflexivity.
  - by vm_compute.
Defined.
