(* ===== verification/SlotGen.v ===== *)
(** * SlotGen: internal/app/slotgen

    The generator that turns the weekly schedules of the rooms into bookable slots of
    thirty minutes, for a rolling window of fourteen days.  A [ctx.Err()] is a point where
    the environment may report a cancellation; [NewSHA1] of github.com/google/uuid is a
    parameter. *)

From Stdlib Require Import Ascii.
From S2P Require Import Prelude Domain GoStd Text Database Program Postgres.

(** ** time.go *)

Definition SlotDuration : Duration := (30 * Minute)%Z.

(** A UTC calendar day, as the instant of its midnight. *)
Definition truncateToUTCDate (t : time) : time := (Day * (t / Day))%Z.

(** [Time.Weekday] of the UTC date: 1970-01-01 was a Thursday. *)
Definition Weekday (t : time) : Z := ((t / Day + 4) `mod` 7)%Z.

Definition dbWeekdayFromGo (w : Z) : Z := if (w =? 0)%Z then 7%Z else w.

Definition weekdayMatches (dayUTC : time) (dayOfWeek : Z) : bool :=
  (dbWeekdayFromGo (Weekday dayUTC) =? dayOfWeek)%Z.

Definition parseTimeOfDay (tod : string) : result Duration :=
  match TrimSpace (String.list_ascii_of_string tod) with
  | [] => Err (PlainError "empty time of day")
  | s =>
      match parse_layout true s, parse_layout false s with
      | Some d, _ | None, Some d => Ok d
      | None, None => Err (Wrapped "parse time of day" (PlainError "parsing time"))
      end
  end.

Definition combineDateWithTimeOfDayUTC (dayUTC : time) (offset : Duration) : time :=
  (truncateToUTCDate dayUTC + offset)%Z.

Definition maxTime (a b : time) : time := if (b <? a)%Z then a else b.

Definition computeLowerBound (now : time) (lastSlotStart : option time) : time :=
  match lastSlotStart with
  | None => now
  | Some last => maxTime now (last + SlotDuration)%Z
  end.

Example parse_ok : parseTimeOfDay "09:30:00" = Ok (9 * Hour + 30 * Minute)%Z.
Proof. reflexivity. Qed.
Example parse_short : parseTimeOfDay " 9:05 " = Ok (9 * Hour + 5 * Minute)%Z.
Proof. reflexivity. Qed.
Example parse_fraction : parseTimeOfDay "23:59:59.5" =
  Ok (23 * Hour + 59 * Minute + 59 * Second + 500000000)%Z.
Proof. reflexivity. Qed.
Example parse_24 : exists e, parseTimeOfDay "24:00:00" = Err e.
Proof. eexists. reflexivity. Qed.

(** ** slot_id.go *)

Definition slotIDNamespace : uuid := 0xc7f8b2e14c1a5f8b9ad29d0b7c3e8f1a%N.

Example uuid_String_ok : String.string_of_list_ascii (uuid_String slotIDNamespace) =
  "c7f8b2e1-4c1a-5f8b-9ad2-9d0b7c3e8f1a".
Proof. reflexivity. Qed.
Example FormatInt_ok : String.string_of_list_ascii (FormatInt (-1753500)) = "-1753500".
Proof. reflexivity. Qed.

(** ** generator.go *)

Definition DefaultRollingWindow : Duration := (14 * 24 * Hour)%Z.
Definition DefaultMaxBatch : nat := 500.

(** [for x := first; more(x); x = x.Add(step)]: the values the header goes through.
    [upto_ends] shows when the fuel is enough. *)
Fixpoint upto (fuel : nat) (more : time -> bool) (step : Duration) (x : time) : list time :=
  match fuel with
  | O => []
  | S fuel => if more x then x :: upto fuel more step (x + step)%Z else []
  end.

Definition slot_starts (startOfDay endOfDay : time) : list time :=
  upto (Z.to_nat ((endOfDay - startOfDay) / SlotDuration))
    (fun slotStart => negb (endOfDay <? slotStart + SlotDuration)%Z) SlotDuration startOfDay.

Definition days (startDay endDay : time) : list time :=
  upto (S (Z.to_nat ((endDay - startDay) / Day)))
    (fun day => negb (endDay <? day)%Z) Day startDay.

(** [sort.Slice] on at most twelve elements is an insertion sort: each element moves
    left while it is less than its neighbour.  The prefix sorted so far is kept in
    reverse. *)
Fixpoint move_left {A} (less : A -> A -> bool) (x : A) (prefix : list A) : list A :=
  match prefix with
  | y :: ys => if less x y then y :: move_left less x ys else x :: prefix
  | [] => [x]
  end.

Definition sort_Slice {A} (less : A -> A -> bool) (l : list A) : list A :=
  rev (fold_left (fun prefix x => move_left less x prefix) l []).

Definition schedule_less (a b : Schedule) : bool :=
  if negb (sc_DayOfWeek a =? sc_DayOfWeek b)%Z then (sc_DayOfWeek a <? sc_DayOfWeek b)%Z
  else
    match parseTimeOfDay (sc_StartTime a), parseTimeOfDay (sc_StartTime b) with
    | Ok da, Ok db =>
        if negb (da =? db)%Z then (da <? db)%Z else (sc_ID a <? sc_ID b)%N
    | _, _ => (sc_ID a <? sc_ID b)%N
    end.

Definition ctx_Err : prog (result unit) := perform (Sql (query (fun _ => tt))).

Record Generator := {
  g_now : time;
  g_rollingWindow : Duration;
  g_maxBatch : nat }.

(** [now: time.Now().UTC] is a method value: its receiver, the result of [time.Now()], is
    evaluated here, once, and every later call of [g.now()] returns it. *)
Definition NewGenerator : prog Generator :=
  let! now := perform Now in
  Ret {| g_now := now; g_rollingWindow := DefaultRollingWindow;
         g_maxBatch := DefaultMaxBatch |}.

Section generator.
Context (NewSHA1 : uuid -> list ascii -> uuid) (g : Generator).

Definition stableSlotID (roomID : uuid) (startUTC : time) : uuid :=
  NewSHA1 slotIDNamespace (uuid_String roomID ++ ["|"%char] ++ FormatInt (int64 startUTC)).

Definition buildSlot (roomID : uuid) (start end_ createdAt : time) : Slot :=
  {| sl_ID := stableSlotID roomID start; sl_RoomID := roomID; sl_StartTime := start;
     sl_EndTime := end_; sl_CreatedAt := createdAt |}.

(** The functions that share [batch] return its new contents. *)
Definition flushBatch (batch : list Slot) : prog (result (list Slot)) :=
  match batch with
  | [] => ok []
  | _ =>
      let? _ := SlotRepo.InsertBatchIgnoreConflicts batch in
      ok []
  end.

Definition appendSlot (batch : list Slot) (slot : Slot) : prog (result (list Slot)) :=
  let batch := batch ++ [slot] in
  if (length batch <? g_maxBatch g)%nat then ok batch else flushBatch batch.

(** The body of the slot loop, with its [continue] and [break]. *)
Fixpoint each_start (roomID : uuid) (lowerBound target createdAt : time) (batch : list Slot)
    (starts : list time) : prog (result (list Slot)) :=
  match starts with
  | [] => ok batch
  | slotStart :: starts =>
      let? _ := ctx_Err in
      if (slotStart <? lowerBound)%Z
      then each_start roomID lowerBound target createdAt batch starts
      else if negb (slotStart <? target)%Z then ok batch
      else
        let? batch := appendSlot batch
          (buildSlot roomID slotStart (slotStart + SlotDuration)%Z createdAt) in
        each_start roomID lowerBound target createdAt batch starts
  end.

Definition generateForSchedule (batch : list Slot) (roomID : uuid) (dayUTC : time)
    (sch : Schedule) (lowerBound target createdAt : time) : prog (result (list Slot)) :=
  match parseTimeOfDay (sc_StartTime sch) with
  | Err err => fail err
  | Ok startDur =>
      match parseTimeOfDay (sc_EndTime sch) with
      | Err err => fail err
      | Ok endDur =>
          each_start roomID lowerBound target createdAt batch
            (slot_starts (combineDateWithTimeOfDayUTC dayUTC startDur)
               (combineDateWithTimeOfDayUTC dayUTC endDur))
      end
  end.

Fixpoint each_schedule (roomID : uuid) (day lowerBound target createdAt : time)
    (batch : list Slot) (schedules : list Schedule) : prog (result (list Slot)) :=
  match schedules with
  | [] => ok batch
  | sch :: schedules =>
      if negb (weekdayMatches day (sc_DayOfWeek sch))
      then each_schedule roomID day lowerBound target createdAt batch schedules
      else
        let? batch := generateForSchedule batch roomID day sch lowerBound target createdAt in
        each_schedule roomID day lowerBound target createdAt batch schedules
  end.

Fixpoint each_day (roomID : uuid) (schedules : list Schedule) (lowerBound target createdAt : time)
    (batch : list Slot) (ds : list time) : prog (result (list Slot)) :=
  match ds with
  | [] => ok batch
  | day :: ds =>
      let? _ := ctx_Err in
      let? batch := each_schedule roomID day lowerBound target createdAt batch schedules in
      each_day roomID schedules lowerBound target createdAt batch ds
  end.

Definition generateForRoom (room : Room) (schedules : list Schedule)
    (now target createdAt : time) : prog (result unit) :=
  let? lastStart := SlotRepo.GetLastSlotStartByRoomID (rm_ID room) in
  let lowerBound := computeLowerBound now lastStart in
  let schedules := sort_Slice schedule_less schedules in
  let? batch := each_day (rm_ID room) schedules lowerBound target createdAt []
    (days (truncateToUTCDate lowerBound) (truncateToUTCDate target)) in
  let? _ := flushBatch batch in
  ok tt.

Fixpoint each_room (schedByRoom : gmap uuid (list Schedule)) (now target : time)
    (rooms : list Room) : prog (result unit) :=
  match rooms with
  | [] => ok tt
  | room :: rooms =>
      let? _ := ctx_Err in
      match default [] (schedByRoom !! rm_ID room) with
      | [] => each_room schedByRoom now target rooms
      | schedules =>
          let? _ := generateForRoom room schedules now target now in
          each_room schedByRoom now target rooms
      end
  end.

Definition Generate : prog (result unit) :=
  let? _ := ctx_Err in
  let now := g_now g in
  let target := (now + g_rollingWindow g)%Z in
  let? rooms := RoomRepo.ListWithSchedule in
  match rooms with
  | [] => ok tt
  | _ =>
      let? schedByRoom := ScheduleRepo.ListByRoomIDs (rm_ID <$> rooms) in
      each_room schedByRoom now target rooms
  end.

End generator.
