(* ===== verification/SlotGenSpec.v ===== *)
(** * SlotGenSpec: what the slot generator adds to the database

    The slots that are [due], as a condition on one slot; the loops of the generator emit
    exactly those, in order, and every run adds a prefix of them. *)

From Stdlib Require Import Ascii.
From S2P Require Import Prelude Domain GoStd Database Program Postgres Schema Usecase SlotGen.

(** ** The loops of the headers *)

(** With enough fuel the enumeration ends because the condition fails. *)
Lemma upto_ends fuel more step x :
  more (x + step * Z.of_nat (length (upto fuel more step x)))%Z = false \/
  length (upto fuel more step x) = fuel.
Proof.
  revert x. induction fuel as [|fuel IH]; intros x; simpl; [by right|].
  destruct (more x) eqn:Hm; simpl; [|left; by rewrite Z.mul_0_r, Z.add_0_r].
  destruct (IH (x + step)%Z) as [H|H]; [left|right; by f_equal].
  rewrite <- H. f_equal. lia.
Qed.

Lemma elem_of_upto fuel more step x y :
  y ∈ upto fuel more step x <->
  exists k : nat, (k < fuel)%nat /\ y = (x + step * Z.of_nat k)%Z /\
    forall j : nat, (j <= k)%nat -> more (x + step * Z.of_nat j)%Z = true.
Proof.
  revert x. induction fuel as [|fuel IH]; intros x; simpl.
  { split; [by intros ?%elem_of_nil|]. intros (k & ? & _). lia. }
  destruct (more x) eqn:Hm.
  - rewrite elem_of_cons, IH. split.
    + intros [->|(k & Hk & -> & Hj)].
      * exists 0%nat. split_and!; [lia|lia|]. intros j Hj. replace j with 0%nat by lia.
        by rewrite Z.mul_0_r, Z.add_0_r.
      * exists (S k). split_and!; [lia|lia|]. intros [|j] Hjk.
        { by rewrite Z.mul_0_r, Z.add_0_r. }
        rewrite <- (Hj j) by lia. f_equal. lia.
    + intros ([|k] & Hk & -> & Hj); [left; lia|right]. exists k. split_and!; [lia|lia|].
      intros j Hjk. rewrite <- (Hj (S j)) by lia. f_equal. lia.
  - split; [by intros ?%elem_of_nil|]. intros (k & _ & _ & Hj).
    specialize (Hj 0%nat ltac:(lia)). rewrite Z.mul_0_r, Z.add_0_r in Hj. congruence.
Qed.

(** The slot loop of a schedule visits the thirty-minute grid inside the window. *)
Lemma elem_of_slot_starts s e x :
  x ∈ slot_starts s e <->
  exists k : nat, x = (s + SlotDuration * Z.of_nat k)%Z /\ (x + SlotDuration <= e)%Z.
Proof.
  unfold slot_starts. rewrite elem_of_upto.
  assert (0 < SlotDuration)%Z as Hd by done.
  split.
  - intros (k & _ & -> & Hj). exists k. split; [done|]. specialize (Hj k ltac:(lia)). lia.
  - intros (k & -> & He). exists k. split_and!; [|done|].
    + assert (Z.of_nat k + 1 <= (e - s) / SlotDuration)%Z; [|lia].
      apply Z.div_le_lower_bound; lia.
    + intros j Hj. assert (SlotDuration * Z.of_nat j <= SlotDuration * Z.of_nat k)%Z by nia. lia.
Qed.

(** The day loop visits every day from the first to the last, both included. *)
Lemma elem_of_days a b x :
  x ∈ days a b <-> exists k : nat, x = (a + Day * Z.of_nat k)%Z /\ (x <= b)%Z.
Proof.
  unfold days. rewrite elem_of_upto.
  assert (0 < Day)%Z as Hd by done.
  split.
  - intros (k & _ & -> & Hj). exists k. split; [done|]. specialize (Hj k ltac:(lia)). lia.
  - intros (k & -> & He). exists k. split_and!; [|done|].
    + assert (Z.of_nat k <= (b - a) / Day)%Z; [|lia].
      apply Z.div_le_lower_bound; lia.
    + intros j Hj. assert (Day * Z.of_nat j <= Day * Z.of_nat k)%Z by nia. lia.
Qed.

Lemma upto_increasing fuel more step x :
  (0 < step)%Z -> StronglySorted Z.lt (upto fuel more step x).
Proof.
  intros Hs. revert x. induction fuel as [|fuel IH]; intros x; simpl; [constructor|].
  destruct (more x); constructor; [apply IH|]. apply Forall_forall. intros y Hy.
  apply elem_of_upto in Hy as (k & _ & -> & _). nia.
Qed.

(** ** Adding slots *)

(** [db'] is [db] with some of the slots in [l] added, and every slot in [l] is there, or
    was before, at its room and start. *)
Record inserted (l : list Slot) (db db' : DB) : Prop := {
  inserted_only_slots : db' = set_slots (db_slots db') db;
  inserted_keeps : db_slots db ⊆ db_slots db';
  inserted_new : forall i s, db_slots db' !! i = Some s ->
    db_slots db !! i = Some s \/ s ∈ l /\ sl_ID s = i;
  inserted_all : forall s, s ∈ l -> exists i s', db_slots db' !! i = Some s' /\
    sl_RoomID s' = sl_RoomID s /\ sl_StartTime s' = sl_StartTime s }.

Lemma inserted_nil db : inserted [] db db.
Proof. split; [by destruct db|done|by left|by intros s ?%elem_of_nil]. Qed.

Lemma inserted_app l1 l2 db db1 db2 :
  inserted l1 db db1 -> inserted l2 db1 db2 -> inserted (l1 ++ l2) db db2.
Proof.
  intros [H1 K1 N1 A1] [H2 K2 N2 A2]. split.
  - rewrite H2, H1. by destruct db, db1, db2.
  - by etrans.
  - intros i s Hi. rewrite elem_of_app. destruct (N2 i s Hi) as [Hi1|[? ?]]; [|by eauto].
    destruct (N1 i s Hi1) as [?|[? ?]]; eauto.
  - intros s [Hs|Hs]%elem_of_app; [|by apply A2].
    destruct (A1 s Hs) as (i & s' & Hi & ?). exists i, s'. split; [|done].
    by eapply lookup_weaken.
Qed.

Lemma insert_row_inserted s db db' : SlotRepo.insert_row s db = Ok db' -> inserted [s] db db'.
Proof.
  unfold SlotRepo.insert_row. destruct (negb _); [done|].
  case_bool_decide as Hold.
  - intros [= <-]. destruct Hold as [s' Hs']. apply first_where_Some in Hs' as [[? ?] [i Hi]].
    split; [by destruct db|done|by left|]. intros x ->%list_elem_of_singleton. by exists i, s'.
  - destruct (has _ _) eqn:Hnew; [done|]. repeat (case_match; [done|]). intros [= <-].
    unfold has in Hnew. apply bool_decide_eq_false, eq_None_not_Some in Hnew.
    split; simpl; [done|by apply insert_subseteq|..].
    + intros i x Hx. lookups; [right; split; [left|done]|by left].
    + intros x ->%list_elem_of_singleton. exists (sl_ID s), s. by rewrite lookup_insert_eq.
Qed.

Lemma insert_rows_inserted l db db' : SlotRepo.insert_rows l db = Ok db' -> inserted l db db'.
Proof.
  revert db. induction l as [|s l IH]; intros db; simpl; [intros [= <-]; apply inserted_nil|].
  destruct (SlotRepo.insert_row s db) as [db1|] eqn:H1; [|done]. intros H2.
  apply (inserted_app [s] l _ db1); [by apply insert_row_inserted|by apply IH].
Qed.

Lemma insert_batch_inserted l a db :
  match SlotRepo.insert_batch l a db with
  | (Ok _, db') => inserted l db db'
  | (Err _, db') => db' = db
  end.
Proof.
  unfold SlotRepo.insert_batch. destruct (SlotRepo.insert_rows l db) eqn:H; [|done].
  by apply insert_rows_inserted.
Qed.

(** ** The last slot of a room *)

Definition is_last (roomID : uuid) (db : DB) (last : option time) : Prop :=
  match last with
  | Some t =>
      (exists i s, db_slots db !! i = Some s /\ sl_RoomID s = roomID /\ sl_StartTime s = t) /\
      forall i s, db_slots db !! i = Some s -> sl_RoomID s = roomID -> (sl_StartTime s <= t)%Z
  | None => forall i s, db_slots db !! i = Some s -> sl_RoomID s <> roomID
  end.

Lemma last_start_is_last roomID db : is_last roomID db (SlotRepo.last_start roomID db).
Proof.
  unfold SlotRepo.last_start. destruct (head _) as [x|] eqn:Hx; simpl.
  - apply head_order_by in Hx as [Hx Hmax]. split.
    + apply list_elem_of_filter in Hx as [Hr Hx]. apply elem_of_rows in Hx as [i Hi].
      by exists i, x.
    + intros i s Hi Hr. assert (- sl_StartTime x <= - sl_StartTime s)%Z; [|lia].
      apply Hmax, list_elem_of_filter. split; [done|]. apply elem_of_rows; eauto.
  - apply head_order_by_None in Hx. rewrite <- head_None, head_filter_None in Hx. done.
Qed.

Lemma is_last_unique roomID db o o' : is_last roomID db o -> is_last roomID db o' -> o = o'.
Proof.
  destruct o as [t|], o' as [t'|]; simpl; [|naive_solver..|done].
  intros [(i & s & Hi & Hr & <-) Hm] [(j & s' & Hj & Hr' & <-) Hm']. f_equal.
  specialize (Hm j s' Hj Hr'). specialize (Hm' i s Hi Hr). lia.
Qed.

Lemma is_last_same roomID db db' o :
  (forall i s, sl_RoomID s = roomID -> db_slots db' !! i = Some s <-> db_slots db !! i = Some s) ->
  is_last roomID db o -> is_last roomID db' o.
Proof.
  intros Hs. destruct o as [t|]; simpl.
  - intros [(i & s & Hi & Hr & Ht) Hm]. split.
    + exists i, s. split; [by apply Hs|done].
    + intros j s' Hj Hr'. apply (Hm j); [by apply Hs|done].
  - intros Hn i s Hi Hr. apply (Hn i s); [by apply Hs|done].
Qed.

(** The lower bound is past every slot of the room, and grows with them. *)
Lemma lower_bound_after now db roomID i s :
  db_slots db !! i = Some s -> sl_RoomID s = roomID ->
  (sl_StartTime s + SlotDuration <= computeLowerBound now (SlotRepo.last_start roomID db))%Z.
Proof.
  intros Hi Hr. pose proof (last_start_is_last roomID db) as Hl.
  unfold computeLowerBound, maxTime. destruct (SlotRepo.last_start roomID db) as [t|].
  - destruct Hl as [_ Hm]. specialize (Hm i s Hi Hr). case_match; lia.
  - by destruct (Hl i s Hi).
Qed.

Lemma lower_bound_now now db roomID :
  (now <= computeLowerBound now (SlotRepo.last_start roomID db))%Z.
Proof. unfold computeLowerBound, maxTime. repeat case_match; lia. Qed.

(** It is the least such bound. *)
Lemma lower_bound_least now db roomID b :
  (now <= b)%Z ->
  (forall i s, db_slots db !! i = Some s -> sl_RoomID s = roomID ->
     (sl_StartTime s + SlotDuration <= b)%Z) ->
  (computeLowerBound now (SlotRepo.last_start roomID db) <= b)%Z.
Proof.
  intros Hnow Hs. pose proof (last_start_is_last roomID db) as Hl.
  unfold computeLowerBound, maxTime. destruct (SlotRepo.last_start roomID db) as [t|]; [|done].
  destruct Hl as [(i & s & Hi & Hr & <-) _]. specialize (Hs i s Hi Hr). case_match; lia.
Qed.

Lemma lower_bound_mono now db db' roomID :
  (forall i s, db_slots db !! i = Some s -> db_slots db' !! i = Some s) ->
  (computeLowerBound now (SlotRepo.last_start roomID db) <=
   computeLowerBound now (SlotRepo.last_start roomID db'))%Z.
Proof.
  intros Hsub. apply lower_bound_least; [apply lower_bound_now|].
  intros i s Hi Hr. by eapply lower_bound_after; [apply Hsub|].
Qed.

(** The rooms of a run are distinct. *)
Lemma with_schedule_NoDup db :
  primary rm_ID (db_rooms db) -> NoDup (rm_ID <$> RoomRepo.with_schedule db).
Proof.
  intros Hpk. unfold RoomRepo.with_schedule.
  rewrite order_by_Permutation. apply NoDup_fmap_2_strong.
  - intros x y Hx Hy Heq. apply list_elem_of_filter in Hx as [_ Hx], Hy as [_ Hy].
    apply elem_of_rows in Hx as [i Hx], Hy as [j Hy].
    rewrite (Hpk i x Hx), (Hpk j y Hy) in Heq. subst. congruence.
  - by apply NoDup_filter, (rows_NoDup rm_ID).
Qed.

(** ** The slots that are due *)

Lemma digit_range c d : digit c = Some d -> (0 <= d <= 9)%Z.
Proof.
  unfold digit. destruct (_ && _) eqn:H; [|done]. intros [= <-].
  apply andb_true_iff in H as [H1 H2]. apply Z.leb_le in H1, H2. lia.
Qed.

Lemma getnum_below s fixed bound n rest :
  getnum s fixed ≫= below bound = Some (n, rest) -> (0 <= n < bound)%Z.
Proof.
  intros H. apply bind_Some in H as ([m s'] & Hg & Hb).
  unfold below in Hb. simpl in Hb. destruct (Z.ltb_spec m bound); [|done]. injection Hb as -> <-.
  split; [|done]. destruct s as [|c s]; [done|]. simpl in Hg.
  destruct (digit c) as [d|] eqn:Hd; [|done]. apply digit_range in Hd.
  destruct s as [|c' s].
  - destruct fixed; [done|]. injection Hg as <- <-. lia.
  - destruct (digit c') as [d'|] eqn:Hd'; [apply digit_range in Hd'|destruct fixed; [done|]];
      injection Hg as <- <-; lia.
Qed.

Lemma digits_range s : Forall (fun d => (0 <= d <= 9)%Z) (digits s).1.
Proof.
  induction s as [|c s IH]; simpl; [constructor|]. destruct (digit c) as [d|] eqn:Hd; [|constructor].
  destruct (digits s). constructor; [by eapply digit_range|done].
Qed.

Lemma number_range ds :
  Forall (fun d => (0 <= d <= 9)%Z) ds -> (0 <= number ds < 10 ^ Z.of_nat (length ds))%Z.
Proof.
  unfold number. induction ds as [|d ds IH] using rev_ind; intros H; [done|].
  apply Forall_app in H as [Hds [Hd _]%Forall_cons]. specialize (IH Hds).
  rewrite fold_left_app, length_app. simpl. rewrite Nat.add_1_r, Nat2Z.inj_succ, Z.pow_succ_r by lia.
  lia.
Qed.

Lemma fraction_range s : (0 <= (fraction s).1 < Second)%Z.
Proof.
  unfold fraction, Second. destruct s as [|c s]; simpl; [lia|].
  destruct (_ || _); simpl; [|lia]. pose proof (digits_range s) as Hr.
  destruct (digits s) as [[|d ds] rest]; cbn [fst] in *; [lia|].
  assert (Forall (fun d => (0 <= d <= 9)%Z) (take 9 (d :: ds))) as Hn by by apply Forall_take.
  apply number_range in Hn. assert (length (take 9 (d :: ds)) <= 9)%nat as Hl
    by (rewrite length_take; lia).
  set (l := take 9 (d :: ds)) in *.
  replace 1000000000%Z with (10 ^ Z.of_nat (length l) * 10 ^ (9 - Z.of_nat (length l)))%Z.
  - assert (0 < 10 ^ (9 - Z.of_nat (length l)))%Z by (apply Z.pow_pos_nonneg; lia).
    split; [apply Z.mul_nonneg_nonneg; lia|apply Z.mul_lt_mono_pos_r; lia].
  - rewrite <- Z.pow_add_r by lia. by replace (_ + _)%Z with 9%Z by lia.
Qed.

Lemma parse_layout_range b s d : parse_layout b s = Some d -> (0 <= d < Day)%Z.
Proof.
  unfold parse_layout. intros H.
  apply bind_Some in H as ([hour s1] & Hh%getnum_below & H).
  apply bind_Some in H as (s2 & _ & H).
  apply bind_Some in H as ([minute s3] & Hm%getnum_below & H).
  apply bind_Some in H as ([[sec ns] s4] & Hs & H).
  assert (0 <= sec < 60 /\ 0 <= ns < Second)%Z as [Hsec Hns].
  { destruct b; [|injection Hs as <- <- <-; unfold Second; lia].
    apply bind_Some in Hs as (s5 & _ & Hs).
    apply bind_Some in Hs as ([sec' s6] & Hs'%getnum_below & Hs).
    pose proof (fraction_range s6) as Hf. destruct (fraction s6). injection Hs as <- <- <-.
    by simpl in Hf. }
  destruct s4; [|done]. injection H as <-.
  unfold Day, Hour, Minute, Second in *. lia.
Qed.

(** A time of day is less than a day. *)
Lemma parseTimeOfDay_range tod d : parseTimeOfDay tod = Ok d -> (0 <= d < Day)%Z.
Proof.
  unfold parseTimeOfDay. destruct (TrimSpace _) as [|c s]; [done|].
  destruct (parse_layout true _) as [d'|] eqn:H1; [intros [= <-]; by eapply parse_layout_range|].
  destruct (parse_layout false _) as [d'|] eqn:H2; [|done].
  intros [= <-]. by eapply parse_layout_range.
Qed.

Lemma move_left_Permutation {A} (less : A -> A -> bool) x l : move_left less x l ≡ₚ x :: l.
Proof.
  induction l as [|y l IH]; simpl; [done|]. destruct (less x y); [|done].
  rewrite IH. apply Permutation_swap.
Qed.

Lemma sort_Slice_Permutation {A} (less : A -> A -> bool) l : sort_Slice less l ≡ₚ l.
Proof.
  unfold sort_Slice. rewrite <- Permutation_rev.
  assert (forall acc, fold_left (fun prefix x => move_left less x prefix) l acc ≡ₚ l ++ acc) as H.
  { induction l as [|x l IH]; intros acc; simpl; [done|].
    rewrite IH, move_left_Permutation. by rewrite <- Permutation_middle. }
  by rewrite H, app_nil_r.
Qed.

(** The rows of a room, as the generator looks them up. *)
Lemma append_rows l r :
  default [] (fold_left ScheduleRepo.append_row l ∅ !! r) = filter (fun s => sc_RoomID s = r) l.
Proof.
  induction l as [|s l IH] using rev_ind; [done|].
  rewrite fold_left_app, filter_app, filter_cons. simpl. unfold ScheduleRepo.append_row at 1.
  destruct (decide (sc_RoomID s = r)) as [<-|Hne].
  - rewrite lookup_insert_eq. simpl. by rewrite IH.
  - rewrite lookup_insert_ne by done. by rewrite IH, app_nil_r.
Qed.

Lemma elem_of_by_rooms ids db s :
  s ∈ ScheduleRepo.by_rooms ids db <->
  sc_RoomID s ∈ ids /\ exists i, db_schedules db !! i = Some s.
Proof.
  unfold ScheduleRepo.by_rooms. rewrite merge_sort_Permutation, list_elem_of_filter.
  by rewrite elem_of_rows.
Qed.

Lemma truncate_midnight m : truncateToUTCDate (Day * m)%Z = (Day * m)%Z.
Proof. unfold truncateToUTCDate. f_equal. rewrite Z.mul_comm. by apply Z.div_mul. Qed.

Lemma truncate_within m d :
  (0 <= d < Day)%Z -> truncateToUTCDate (Day * m + d)%Z = (Day * m)%Z.
Proof.
  intros Hd. unfold truncateToUTCDate. f_equal.
  rewrite Z.add_comm, (Z.mul_comm _ m), Z.div_add by done. rewrite Z.div_small by lia. lia.
Qed.

Lemma truncate_mono a b : (a <= b)%Z -> (truncateToUTCDate a <= truncateToUTCDate b)%Z.
Proof. intros H. unfold truncateToUTCDate. apply Z.mul_le_mono_nonneg_l; [done|]. by apply Z.div_le_mono. Qed.

Lemma truncate_le t : (truncateToUTCDate t <= t < truncateToUTCDate t + Day)%Z.
Proof.
  unfold truncateToUTCDate. assert (0 < Day)%Z as Hd by done.
  pose proof (Z.mul_div_le t _ Hd). pose proof (Z.mul_succ_div_gt t _ Hd). lia.
Qed.

(** ** What is emitted *)

Section emission.
Context (NewSHA1 : uuid -> list ascii -> uuid) (g : Generator).
Context (H : Assm) (unreadable : error -> Prop).

Local Abbreviation build := (buildSlot NewSHA1).

(** ** Loops that emit slots *)

(** Why a run fails: the server, a schedule that cannot be read, or a constraint that
    refuses a batch of [E]. *)
Definition refused (E : list Slot) (db0 : DB) (e : error) : Prop :=
  exists done l rest db, inserted done db0 db /\ SlotRepo.insert_rows l db = Err e /\
    done ++ l ++ rest = E.

Definition blamed (E : list Slot) (db0 : DB) (e : error) : Prop :=
  may_fail H \/ unreadable e \/ refused E db0 e.

Lemma blamed_app E1 E2 db0 e : blamed E1 db0 e -> blamed (E1 ++ E2) db0 e.
Proof.
  intros [?|[?|(done & l & rest & db & Hi & Hl & <-)]]; [by left|by right; left|].
  right; right. exists done, l, (rest ++ E2), db. by rewrite <- !app_assoc.
Qed.

(** A run that returns [r] added a prefix of [E], all of it when [r] is no error. *)
Definition ran {A} (E : list Slot) (db : DB) (r : result A) (db' : DB) : Prop :=
  match r with
  | Ok _ => inserted E db db'
  | Err _ => exists l1 l2, inserted l1 db db' /\ l1 ++ l2 = E
  end.

Definition justified {A} (E : list Slot) (db : DB) (r : result A) : Prop :=
  match r with
  | Ok _ => True
  | Err e => blamed E db e
  end.

(** [p] appends [E] to the batch, flushing full batches; if it fails, a prefix of what is
    pending has been added. *)
Definition emits (p : list Slot -> prog (result (list Slot))) (E : list Slot) : Prop :=
  forall db0 done batch db out, inserted done db0 db ->
    wp H (p batch) (fun r db' out' => out' = out /\
      justified (done ++ batch ++ E) db0 r /\
      match r with
      | Ok batch' => exists done', inserted done' db0 db' /\ done' ++ batch' = done ++ batch ++ E
      | Err _ => exists done' rest, inserted done' db0 db' /\ done' ++ rest = done ++ batch ++ E
      end) db out.

Lemma emits_ok : emits ok [].
Proof.
  intros db0 done batch db out Hi. apply wp_ret. split_and!; [done|done|].
  exists done. by rewrite app_nil_r.
Qed.

Lemma emits_fail e E : unreadable e -> emits (fun _ => fail e) E.
Proof.
  intros He db0 done batch db out Hi. apply wp_ret. split_and!; [done|by right; left|].
  by exists done, (batch ++ E).
Qed.

Lemma emits_seq p q E1 E2 :
  emits p E1 -> emits q E2 -> emits (fun b => let? b := p b in q b) (E1 ++ E2).
Proof.
  intros Hp Hq db0 done batch db out Hi. apply wp_bind.
  eapply wp_mono; [|by apply Hp]. intros [b|e] db' out' (-> & Hj & Hr).
  - destruct Hr as (done' & Hi' & Heq). eapply wp_mono; [|by apply Hq].
    rewrite (app_assoc done'), Heq. intros r db'' out' (-> & Hj' & Hr).
    rewrite <- !app_assoc in Hr, Hj'. done.
  - apply wp_ret. destruct Hr as (done' & rest & Hi' & Heq).
    rewrite (app_assoc batch), (app_assoc done). split_and!; [done|by apply blamed_app|].
    exists done', (rest ++ E2). split; [done|]. by rewrite (app_assoc done'), Heq, <- !app_assoc.
Qed.

Lemma emits_ctx p E : emits p E -> emits (fun b => let? _ := ctx_Err in p b) E.
Proof.
  intros Hp db0 done batch db out Hi. apply wp_query; [|by apply Hp].
  intros Hf m. apply wp_ret. split_and!; [done|by left|]. by exists done, (batch ++ E).
Qed.

Lemma flush_spec db0 done batch db out :
  inserted done db0 db ->
  wp H (flushBatch batch) (fun r db' out' => out' = out /\
    justified (done ++ batch) db0 r /\
    match r with
    | Ok batch' => batch' = [] /\ inserted (done ++ batch) db0 db'
    | Err _ => inserted done db0 db' \/ inserted (done ++ batch) db0 db'
    end) db out.
Proof.
  intros Hi. destruct batch as [|s batch]; [apply wp_ret; by rewrite app_nil_r|].
  unfold flushBatch, SlotRepo.InsertBatchIgnoreConflicts.
  set (l := s :: batch).
  assert (forall a, match SlotRepo.insert_batch l a db with
    | (Ok _, db') => inserted (done ++ l) db0 db'
    | (Err e, db') => blamed (done ++ l) db0 e /\ inserted done db0 db' end) as Hins.
  { intros a. unfold SlotRepo.insert_batch. destruct (SlotRepo.insert_rows l db) as [db'|e] eqn:Hl.
    - eapply inserted_app; [done|by apply insert_rows_inserted].
    - split; [|done]. right; right. exists done, l, [], db. by rewrite app_nil_r. }
  apply wp_sql.
  - intros Hf a m. specialize (Hins a). split; norm; apply wp_ret; (split_and!; [done|by left|]).
    { by left. }
    destruct (SlotRepo.insert_batch _ a db) as [[]]; naive_solver.
  - intros a _. specialize (Hins a). destruct (SlotRepo.insert_batch _ a db) as [[]];
      norm; apply wp_ret; naive_solver.
Qed.

Lemma emits_append s : emits (fun b => appendSlot g b s) [s].
Proof.
  intros db0 done batch db out Hi. unfold appendSlot. case_match.
  { apply wp_ret. split_and!; [done|done|]. by exists done. }
  eapply wp_mono; [|by apply flush_spec].
  intros [b|e] db' out' (-> & Hj & Hr); (split_and!; [done|done|]).
  - destruct Hr as [-> Hr]. eexists. split; [exact Hr|]. by rewrite app_nil_r.
  - destruct Hr as [Hr|Hr]; [by exists done, (batch ++ [s])|].
    exists (done ++ batch ++ [s]), []. by rewrite app_nil_r.
Qed.

Section room.
Context (roomID : uuid) (lowerBound target createdAt : time).

Definition within (t : time) : Prop := (lowerBound <= t < target)%Z.

#[local] Instance within_dec t : Decision (within t).
Proof. unfold within. apply _. Defined.

Definition emit_starts (starts : list time) : list Slot :=
  (fun t => build roomID t (t + SlotDuration)%Z createdAt) <$> filter within starts.

Definition emit_schedule (day : time) (sch : Schedule) : list Slot :=
  if weekdayMatches day (sc_DayOfWeek sch) then
    match parseTimeOfDay (sc_StartTime sch), parseTimeOfDay (sc_EndTime sch) with
    | Ok startDur, Ok endDur =>
        emit_starts (slot_starts (combineDateWithTimeOfDayUTC day startDur)
                       (combineDateWithTimeOfDayUTC day endDur))
    | _, _ => []
    end
  else [].

Definition emit_room (schedules : list Schedule) : list Slot :=
  days (truncateToUTCDate lowerBound) (truncateToUTCDate target) ≫= fun day =>
    schedules ≫= emit_schedule day.

(** ** The loops emit it *)

Lemma emits_starts starts :
  StronglySorted Z.lt starts ->
  emits (fun b => each_start NewSHA1 g roomID lowerBound target createdAt b starts)
    (emit_starts starts).
Proof.
  induction starts as [|t starts IH]; intros Hs; [apply emits_ok|].
  apply StronglySorted_cons in Hs as [Ht Hs]. specialize (IH Hs).
  unfold emit_starts. cbn [each_start]. apply emits_ctx. rewrite filter_cons.
  destruct (Z.ltb_spec t lowerBound) as [Hlow|Hlow].
  { rewrite decide_False by (unfold within; lia). exact IH. }
  destruct (Z.ltb_spec t target) as [Htgt|Htgt]; simpl.
  - rewrite decide_True by (unfold within; lia). rewrite fmap_cons.
    apply (emits_seq _ _ [_]); [apply emits_append|exact IH].
  - rewrite decide_False by (unfold within; lia).
    replace (filter within starts) with (@nil time); [apply emits_ok|].
    symmetry. apply filter_none. intros x Hx. rewrite Forall_forall in Ht.
    apply Ht in Hx. unfold within. lia.
Qed.

Definition unparsed (sch : Schedule) (e : error) : Prop :=
  parseTimeOfDay (sc_StartTime sch) = Err e \/ parseTimeOfDay (sc_EndTime sch) = Err e.

Lemma emits_schedule day sch :
  (forall e, unparsed sch e -> unreadable e) ->
  weekdayMatches day (sc_DayOfWeek sch) = true ->
  emits (fun b => generateForSchedule NewSHA1 g b roomID day sch lowerBound target createdAt)
    (emit_schedule day sch).
Proof.
  intros Hu Hw. unfold generateForSchedule, emit_schedule. rewrite Hw.
  destruct (parseTimeOfDay (sc_StartTime sch)) eqn:E1; [|by apply emits_fail, Hu; left].
  destruct (parseTimeOfDay (sc_EndTime sch)) eqn:E2; [|by apply emits_fail, Hu; right].
  apply emits_starts, upto_increasing. done.
Qed.

Lemma emits_schedules day schedules :
  (forall sch e, sch ∈ schedules -> unparsed sch e -> unreadable e) ->
  emits (fun b => each_schedule NewSHA1 g roomID day lowerBound target createdAt b schedules)
    (schedules ≫= emit_schedule day).
Proof.
  induction schedules as [|sch schedules IH]; intros Hu; [apply emits_ok|]. cbn [each_schedule].
  assert (forall e, unparsed sch e -> unreadable e) as Hsch by (intros e; apply Hu; left).
  specialize (IH (fun sch' e Hin => Hu sch' e (list_elem_of_further _ _ _ Hin))).
  destruct (weekdayMatches day (sc_DayOfWeek sch)) eqn:Hw; simpl.
  - apply (emits_seq (fun b => generateForSchedule NewSHA1 g b roomID day sch lowerBound target
      createdAt)); [by apply emits_schedule|exact IH].
  - unfold emit_schedule at 1. by rewrite Hw.
Qed.

Lemma emits_days schedules ds :
  (forall sch e, sch ∈ schedules -> unparsed sch e -> unreadable e) ->
  emits (fun b => each_day NewSHA1 g roomID schedules lowerBound target createdAt b ds)
    (ds ≫= fun day => schedules ≫= emit_schedule day).
Proof.
  intros Hu. induction ds as [|day ds IH]; [apply emits_ok|]. cbn [each_day]. apply emits_ctx.
  apply (emits_seq (fun b => each_schedule NewSHA1 g roomID day lowerBound target createdAt b
    schedules)); [by apply emits_schedules|exact IH].
Qed.
End room.

(** ** A whole run *)

Definition lower_bound (now : time) (db : DB) (room : Room) : time :=
  computeLowerBound now (SlotRepo.last_start (rm_ID room) db).

Definition emit_rooms (sched : gmap uuid (list Schedule)) (now target : time) (db : DB)
    (rooms : list Room) : list Slot :=
  rooms ≫= fun room =>
    emit_room (rm_ID room) (lower_bound now db room) target now
      (sort_Slice schedule_less (default [] (sched !! rm_ID room))).

Definition emission (db : DB) : list Slot :=
  let rooms := RoomRepo.with_schedule db in
  let sched := fold_left ScheduleRepo.append_row (ScheduleRepo.by_rooms (rm_ID <$> rooms) db) ∅ in
  emit_rooms sched (g_now g) (g_now g + g_rollingWindow g)%Z db rooms.

Lemma room_spec room schedules now target db out :
  (forall sch e, sch ∈ schedules -> unparsed sch e -> unreadable e) ->
  let E := emit_room (rm_ID room) (lower_bound now db room) target now
    (sort_Slice schedule_less schedules) in
  wp H (generateForRoom NewSHA1 g room schedules now target now) (fun r db' out' => out' = out /\
    justified E db r /\ ran E db r db') db out.
Proof.
  intros Hu. unfold generateForRoom. apply wp_query.
  { intros Hf m. norm. apply wp_ret. split_and!; [done|by left|].
    eexists [], _. split; [apply inserted_nil|done]. }
  norm. apply wp_bind. eapply wp_mono; [|apply (emits_days _ _ _ _ _ _) with (db0 := db) (done := []);
    [intros sch e; rewrite sort_Slice_Permutation; apply Hu|apply inserted_nil]].
  intros [b|e] db' out' (-> & Hj & Hr); simpl in Hr, Hj.
  - destruct Hr as (done' & Hi & Heq). norm. apply wp_bind.
    eapply wp_mono; [|by apply (flush_spec db done' b)]. rewrite Heq.
    intros [b'|e] db'' out'' (-> & Hj' & Hr); norm; apply wp_ret; (split_and!; [done|done|]).
    + by destruct Hr as [_ Hr].
    + destruct Hr as [Hr|Hr]; [by exists done', b|].
      eexists _, []. split; [exact Hr|]. by rewrite app_nil_r.
  - norm. apply wp_ret. split_and!; [done|done|]. destruct Hr as (done' & rest & Hi & Heq).
    by exists done', rest.
Qed.

Lemma emit_room_room roomID lo target now schedules s :
  s ∈ emit_room roomID lo target now schedules -> sl_RoomID s = roomID.
Proof.
  intros Hs. apply list_elem_of_bind in Hs as (day & Hs & _).
  apply list_elem_of_bind in Hs as (sch & Hs & _). unfold emit_schedule in Hs.
  repeat case_match; try by apply elem_of_nil in Hs.
  by apply list_elem_of_fmap in Hs as (t & -> & _).
Qed.

(** Slots of other rooms do not move the lower bound of a room. *)
Lemma lower_bound_other now l db db' room :
  inserted l db db' -> (forall s, s ∈ l -> sl_RoomID s <> rm_ID room) ->
  lower_bound now db' room = lower_bound now db room.
Proof.
  intros [_ Hkeep Hnew _] Hl. unfold lower_bound. f_equal.
  eapply is_last_unique; [apply last_start_is_last|].
  apply (is_last_same _ db); [|apply last_start_is_last].
  intros i s Hr. split; [|by intros Hi; eapply lookup_weaken].
  intros Hi. destruct (Hnew i s Hi) as [?|[Hs _]]; [done|]. by destruct (Hl s Hs).
Qed.

Lemma emit_rooms_other sched now target db db' rooms l :
  inserted l db db' -> (forall s room, s ∈ l -> room ∈ rooms -> sl_RoomID s <> rm_ID room) ->
  emit_rooms sched now target db' rooms = emit_rooms sched now target db rooms.
Proof.
  intros Hi Hl. unfold emit_rooms. induction rooms as [|room rooms IH]; [done|]. simpl. f_equal.
  - rewrite (lower_bound_other now l db); [done|done|]. intros s Hs. apply Hl; [done|left].
  - apply IH. intros s r Hs Hr. apply Hl; [done|by right].
Qed.

Lemma emit_room_none roomID lo target now : emit_room roomID lo target now [] = [].
Proof. unfold emit_room. simpl. by induction (days _ _). Qed.

Lemma justified_app {A} (r : result A) E1 E2 db db1 :
  inserted E1 db db1 -> justified E2 db1 r -> justified (E1 ++ E2) db r.
Proof.
  intros Hi. destruct r as [a|e]; [done|].
  intros [?|[?|(done & l & rest & db2 & Hi2 & Hl & <-)]]; [by left|by right; left|].
  right; right. exists (E1 ++ done), l, rest, db2. rewrite <- app_assoc.
  split_and!; [by eapply inserted_app|done..].
Qed.

Lemma rooms_spec sched now target rooms db out :
  (forall r sch e, sch ∈ default [] (sched !! r) -> unparsed sch e -> unreadable e) ->
  NoDup (rm_ID <$> rooms) ->
  let E := emit_rooms sched now target db rooms in
  wp H (each_room NewSHA1 g sched now target rooms) (fun r db' out' => out' = out /\
    justified E db r /\ ran E db r db') db out.
Proof.
  intros Hu. revert db. induction rooms as [|room rooms IH]; intros db Hnd.
  { apply wp_ret. split_and!; [done|done|]. apply inserted_nil. }
  rewrite fmap_cons in Hnd. apply NoDup_cons in Hnd as [Hnin Hnd].
  cbn [each_room]. cbv zeta. apply wp_query.
  { intros Hf m. norm. apply wp_ret. split_and!; [done|by left|].
    eexists [], _. split; [apply inserted_nil|done]. }
  norm. unfold emit_rooms. cbn [mbind list_bind].
  specialize (Hu (rm_ID room)) as Hroom.
  destruct (default [] (sched !! rm_ID room)) as [|sch schedules].
  { unfold sort_Slice. simpl. rewrite emit_room_none. by apply IH. }
  apply wp_bind. eapply wp_mono; [|by apply room_spec]. set (E := emit_room _ _ _ _ _).
  fold (emit_rooms sched now target db rooms).
  intros [[]|e] db1 out1 (-> & Hj & Hr); norm.
  - eapply wp_mono; [|by apply IH]. intros r db2 out2 (-> & Hj2 & Hr2).
    rewrite (emit_rooms_other sched now target db db1 rooms E Hr) in Hr2, Hj2.
    2, 3: intros s room' Hs Hin; apply emit_room_room in Hs as ->; intros Heq; apply Hnin;
      rewrite Heq; by apply list_elem_of_fmap_2.
    split_and!; [done|by eapply justified_app|].
    destruct r as [[]|e]; [by eapply inserted_app|].
    destruct Hr2 as (l1 & l2 & Hl1 & Heq). exists (E ++ l1), l2.
    split; [by eapply inserted_app|]. by rewrite <- app_assoc, Heq.
  - apply wp_ret. split_and!; [done|by apply blamed_app|]. destruct Hr as (l1 & l2 & Hl1 & <-).
    exists l1, (l2 ++ emit_rooms sched now target db rooms). split; [done|]. by rewrite app_assoc.
Qed.

Lemma Generate_spec db out :
  primary rm_ID (db_rooms db) ->
  (forall i sch e, db_schedules db !! i = Some sch -> unparsed sch e -> unreadable e) ->
  wp H (Generate NewSHA1 g) (fun r db' out' => out' = out /\
    justified (emission db) db r /\ ran (emission db) db r db') db out.
Proof.
  intros Hpk Hu.
  assert (forall e E, @ran unit E db (Err e) db) as Hnone
    by (intros e E; eexists [], _; split; [apply inserted_nil|done]).
  unfold Generate. apply wp_query; [intros Hf m; norm; apply wp_ret; split_and!; [done|by left|done]|].
  norm. apply wp_query; [intros Hf m; norm; apply wp_ret; split_and!; [done|by left|done]|].
  norm. unfold emission.
  assert (NoDup (rm_ID <$> RoomRepo.with_schedule db)) as Hnd by by apply with_schedule_NoDup.
  destruct (RoomRepo.with_schedule db) as [|room rooms] eqn:Hrooms.
  { apply wp_ret. split_and!; [done|done|]. apply inserted_nil. }
  unfold ScheduleRepo.ListByRoomIDs. rewrite fmap_cons. norm.
  apply wp_query; [intros Hf m; norm; apply wp_ret; split_and!; [done|by left|done]|]. norm.
  apply rooms_spec; [|done]. intros r sch e. rewrite append_rows, list_elem_of_filter.
  rewrite elem_of_by_rooms. intros (_ & _ & i & Hi). by apply (Hu i).
Qed.

End emission.

(** ** The emission, declaratively *)

Definition unique_weekdays (db : DB) : Prop :=
  primary sc_ID (db_schedules db) /\
  unique_on (fun x y => sc_RoomID x = sc_RoomID y /\ sc_DayOfWeek x = sc_DayOfWeek y)
    (db_schedules db).

Lemma schedule_row db i sch :
  db_schedules db !! i = Some sch <-> exists x, db_schedule_rows db !! i = Some x /\ sr_read x = sch.
Proof. unfold db_schedules. rewrite lookup_fmap_Some. naive_solver. Qed.

(** The constraints of the table say so. *)
Lemma schema_weekdays db : schema db -> unique_weekdays db.
Proof.
  intros Hs. destruct (schema_schedules _ Hs) as [Hpk _ _ _ Hu]. split.
  - intros i sch (x & Hx & <-)%schedule_row. by apply Hpk.
  - intros i j s s' (x & Hx & <-)%schedule_row (y & Hy & <-)%schedule_row Heq. by eapply Hu.
Qed.

Section declarative.
Context (NewSHA1 : uuid -> list ascii -> uuid) (g : Generator).

Local Abbreviation build := (buildSlot NewSHA1).
Local Abbreviation emission := (emission NewSHA1 g).
Local Abbreviation emit_schedule := (emit_schedule NewSHA1).
Local Abbreviation emit_room := (emit_room NewSHA1).
Local Abbreviation emit_starts := (emit_starts NewSHA1).

(** A slot is due when a schedule of its room for its weekday contains it on the grid, and
    it starts inside the window. *)
Definition due (db : DB) (s : Slot) : Prop :=
  exists i sch startDur endDur (k : nat),
    is_Some (db_rooms db !! sl_RoomID s) /\
    db_schedules db !! i = Some sch /\ sc_RoomID sch = sl_RoomID s /\
    parseTimeOfDay (sc_StartTime sch) = Ok startDur /\
    parseTimeOfDay (sc_EndTime sch) = Ok endDur /\
    let midnight := truncateToUTCDate (sl_StartTime s) in
    weekdayMatches midnight (sc_DayOfWeek sch) = true /\
    sl_StartTime s = (midnight + startDur + SlotDuration * Z.of_nat k)%Z /\
    (sl_StartTime s + SlotDuration <= midnight + endDur)%Z /\
    within (computeLowerBound (g_now g) (SlotRepo.last_start (sl_RoomID s) db))
      (g_now g + g_rollingWindow g) (sl_StartTime s) /\
    s = build (sl_RoomID s) (sl_StartTime s) (sl_StartTime s + SlotDuration)%Z (g_now g).

Lemma elem_of_emit_schedule roomID lo target now m sch s :
  let day := (Day * m)%Z in
  s ∈ emit_schedule roomID lo target now day sch <->
  weekdayMatches day (sc_DayOfWeek sch) = true /\
  exists startDur endDur (k : nat),
    parseTimeOfDay (sc_StartTime sch) = Ok startDur /\
    parseTimeOfDay (sc_EndTime sch) = Ok endDur /\
    sl_StartTime s = (day + startDur + SlotDuration * Z.of_nat k)%Z /\
    (sl_StartTime s + SlotDuration <= day + endDur)%Z /\
    within lo target (sl_StartTime s) /\
    s = build roomID (sl_StartTime s) (sl_StartTime s + SlotDuration)%Z now.
Proof.
  intros day. unfold emit_schedule.
  destruct (weekdayMatches day (sc_DayOfWeek sch)).
  2: { split; [by intros ?%elem_of_nil|by intros []]. }
  destruct (parseTimeOfDay (sc_StartTime sch)) as [sd|].
  2: { split; [by intros ?%elem_of_nil|]. naive_solver. }
  destruct (parseTimeOfDay (sc_EndTime sch)) as [ed|].
  2: { split; [by intros ?%elem_of_nil|]. naive_solver. }
  unfold emit_starts, combineDateWithTimeOfDayUTC. unfold day. rewrite truncate_midnight.
  rewrite list_elem_of_fmap. split.
  - intros (t & -> & Ht). apply list_elem_of_filter in Ht as [Hw Ht].
    apply elem_of_slot_starts in Ht as (k & -> & He). split; [done|]. by exists sd, ed, k.
  - intros [_ (sd' & ed' & k & [= <-] & [= <-] & Ht & He & Hw & Hs)].
    exists (sl_StartTime s). split; [done|]. apply list_elem_of_filter. split; [done|].
    apply elem_of_slot_starts. exists k. split; [lia|done].
Qed.

Lemma elem_of_emit_room roomID lo target now schedules s :
  s ∈ emit_room roomID lo target now schedules <->
  exists sch, sch ∈ schedules /\
    s ∈ emit_schedule roomID lo target now (truncateToUTCDate (sl_StartTime s)) sch.
Proof.
  unfold emit_room. rewrite list_elem_of_bind. split.
  - intros (day & Hs & Hday). apply list_elem_of_bind in Hs as (sch & Hs & Hsch).
    exists sch. split; [done|]. apply elem_of_days in Hday as (n & -> & Hday).
    assert (truncateToUTCDate lo + Day * Z.of_nat n =
      Day * (lo / Day + Z.of_nat n))%Z as Hm
      by (unfold truncateToUTCDate; lia).
    rewrite Hm in *. pose proof Hs as Hs'.
    apply elem_of_emit_schedule in Hs' as (_ & sd & ed & k & Hsd & Hed & Ht & He & _).
    apply parseTimeOfDay_range in Hsd. apply parseTimeOfDay_range in Hed.
    assert (0 <= SlotDuration)%Z by done.
    replace (sl_StartTime s) with
      (Day * (lo / Day + Z.of_nat n) +
       (sd + SlotDuration * Z.of_nat k))%Z by lia.
    rewrite truncate_within; [done|]. nia.
  - intros (sch & Hsch & Hs). exists (truncateToUTCDate (sl_StartTime s)).
    split; [apply list_elem_of_bind; eauto|]. unfold truncateToUTCDate at 1 in Hs.
    apply elem_of_emit_schedule in Hs as (_ & sd & ed & k & _ & _ & _ & _ & [Hlo Hhi] & _).
    apply elem_of_days.
    pose proof (Z.div_le_mono _ _ Day ltac:(done) Hlo) as Hdiv.
    exists (Z.to_nat (sl_StartTime s / Day - lo / Day)). split.
    + unfold truncateToUTCDate. rewrite Z2Nat.id by lia. ring.
    + apply truncate_mono. lia.
Qed.

Lemma elem_of_emission db s : primary rm_ID (db_rooms db) -> s ∈ emission db <-> due db s.
Proof.
  intros Hpk. unfold emission, emit_rooms, due. rewrite list_elem_of_bind.
  assert (forall room sch, room ∈ RoomRepo.with_schedule db ->
    sch ∈ sort_Slice schedule_less (default [] (fold_left ScheduleRepo.append_row
      (ScheduleRepo.by_rooms (rm_ID <$> RoomRepo.with_schedule db) db) ∅ !! rm_ID room)) <->
    sc_RoomID sch = rm_ID room /\ exists i, db_schedules db !! i = Some sch) as Hsch.
  { intros room sch Hroom. rewrite sort_Slice_Permutation, append_rows, list_elem_of_filter.
    rewrite elem_of_by_rooms. split; [naive_solver|]. intros [Hr Hi]. split_and!; [done| |done].
    rewrite Hr. by apply list_elem_of_fmap_2. }
  assert (forall room, room ∈ RoomRepo.with_schedule db <->
    db_rooms db !! rm_ID room = Some room /\
    exists i sch, db_schedules db !! i = Some sch /\ sc_RoomID sch = rm_ID room) as Hrooms.
  { intros room. unfold RoomRepo.with_schedule. rewrite elem_of_order_by, list_elem_of_filter.
    rewrite elem_of_rows. split.
    - intros [[x Hx] [i Hi]]. apply first_where_Some in Hx as [Hx [j Hj]].
      pose proof (Hpk i room Hi) as Hid. rewrite Hid in *. eauto.
    - intros [Hr (i & sch & Hi & Hs)]. split; [|eauto].
      destruct (first_where _ _) eqn:Hn; [done|]. rewrite first_where_None in Hn.
      by destruct (Hn i sch Hi). }
  split.
  - intros (room & Hs & Hroom). apply elem_of_emit_room in Hs as (sch & Hsc & Hs).
    apply Hsch in Hsc as [Hr [i Hi]]; [|done]. apply Hrooms in Hroom as [Hroom _].
    unfold truncateToUTCDate in Hs.
    apply elem_of_emit_schedule in Hs as (Hw & sd & ed & k & Hsd & Hed & Ht & He & Hin & Hs).
    assert (sl_RoomID s = rm_ID room) as Hid by by rewrite Hs.
    exists i, sch, sd, ed, k. rewrite Hid, Hroom. by split_and!.
  - intros (i & sch & sd & ed & k & [room Hroom] & Hi & Hr & Hsd & Hed & Hw & Ht & He & Hin & Hs).
    pose proof (Hpk _ _ Hroom) as Hid. rewrite <- Hid in *.
    assert (room ∈ RoomRepo.with_schedule db) as Hin' by (apply Hrooms; eauto 6).
    exists room. split; [|done]. apply elem_of_emit_room. exists sch. split; [apply Hsch; eauto|].
    unfold truncateToUTCDate. apply elem_of_emit_schedule. split; [done|].
    exists sd, ed, k. by split_and!.
Qed.

(** ** The order of the emission *)

(** Two slots of one room follow each other without overlap. *)
Definition before (x y : Slot) : Prop :=
  sl_RoomID x = sl_RoomID y -> (sl_StartTime x + SlotDuration <= sl_StartTime y)%Z.

Lemma emit_starts_sorted roomID lo target now fuel more x :
  StronglySorted before (emit_starts roomID lo target now (upto fuel more SlotDuration x)).
Proof.
  unfold emit_starts. revert x. induction fuel as [|fuel IH]; intros x; simpl; [constructor|].
  destruct (more x); [|constructor]. rewrite filter_cons. destruct (decide _); [|apply IH].
  rewrite fmap_cons. apply StronglySorted_cons. split; [|apply IH].
  apply Forall_forall. intros s Hs _. apply list_elem_of_fmap in Hs as (t & -> & Ht).
  apply list_elem_of_filter in Ht as [_ Ht]. apply elem_of_upto in Ht as (k & _ & -> & _).
  simpl. assert (0 <= SlotDuration)%Z by done. nia.
Qed.

Lemma emit_schedule_sorted roomID lo target now day sch :
  StronglySorted before (emit_schedule roomID lo target now day sch).
Proof.
  unfold emit_schedule. repeat case_match; try constructor. apply emit_starts_sorted.
Qed.

(** At most one schedule of a room is for a given weekday. *)
Lemma emit_day_sorted roomID lo target now day schedules :
  NoDup (sc_DayOfWeek <$> schedules) ->
  StronglySorted before (schedules ≫= emit_schedule roomID lo target now day).
Proof.
  induction schedules as [|sch schedules IH]; [constructor|].
  rewrite fmap_cons, NoDup_cons. intros [Hnin Hnd]. rewrite bind_cons.
  destruct (weekdayMatches day (sc_DayOfWeek sch)) eqn:Hw.
  2: { unfold emit_schedule at 1. rewrite Hw. by apply IH. }
  replace (schedules ≫= _) with (@nil Slot);
    [rewrite app_nil_r; apply emit_schedule_sorted|].
  symmetry. clear IH Hnd. induction schedules as [|sch' schedules IH]; [done|].
  rewrite fmap_cons, not_elem_of_cons in Hnin. destruct Hnin as [Hne Hnin].
  rewrite bind_cons, IH by done. rewrite app_nil_r. unfold emit_schedule.
  destruct (weekdayMatches day (sc_DayOfWeek sch')) eqn:Hw'; [|done].
  unfold weekdayMatches in Hw, Hw'. apply Z.eqb_eq in Hw, Hw'. congruence.
Qed.

(** What is emitted for a day lies inside that day. *)
Lemma emit_day_inside roomID lo target now m schedules s :
  let day := (Day * m)%Z in
  s ∈ schedules ≫= emit_schedule roomID lo target now day ->
  (day <= sl_StartTime s /\ sl_StartTime s + SlotDuration <= day + Day)%Z.
Proof.
  intros day Hs. apply list_elem_of_bind in Hs as (sch & Hs & _).
  apply elem_of_emit_schedule in Hs as (_ & sd & ed & k & Hsd & Hed & Ht & He & _).
  apply parseTimeOfDay_range in Hsd. apply parseTimeOfDay_range in Hed.
  assert (0 <= SlotDuration)%Z by done. nia.
Qed.

Lemma emit_days_sorted roomID lo target now schedules fuel more m :
  NoDup (sc_DayOfWeek <$> schedules) ->
  StronglySorted before (upto fuel more Day (Day * m)%Z ≫= fun day =>
    schedules ≫= emit_schedule roomID lo target now day).
Proof.
  intros Hnd. revert m. induction fuel as [|fuel IH]; intros m; simpl; [constructor|].
  destruct (more _); [|constructor]. rewrite bind_cons. apply StronglySorted_app. split_and!.
  - intros x y Hx Hy _. apply emit_day_inside in Hx as [_ Hx].
    apply list_elem_of_bind in Hy as (day & Hy & Hday).
    apply elem_of_upto in Hday as (k & _ & -> & _).
    replace (Day * m + Day + Day * Z.of_nat k)%Z with
      (Day * (m + 1 + Z.of_nat k))%Z in Hy by ring.
    apply emit_day_inside in Hy as [Hy _]. assert (0 <= Day)%Z by done. nia.
  - by apply emit_day_sorted.
  - replace (Day * m + Day)%Z with (Day * (m + 1))%Z by ring. apply IH.
Qed.

Lemma room_weekdays db ids r :
  unique_weekdays db ->
  NoDup (sc_DayOfWeek <$> sort_Slice schedule_less
    (filter (fun s => sc_RoomID s = r) (ScheduleRepo.by_rooms ids db))).
Proof.
  intros [Hpk Hu]. rewrite sort_Slice_Permutation. apply NoDup_fmap_2_strong.
  - intros x y Hx Hy Heq. apply list_elem_of_filter in Hx as [Hxr Hx], Hy as [Hyr Hy].
    apply elem_of_by_rooms in Hx as [_ [i Hi]], Hy as [_ [j Hj]].
    assert (i = j) as -> by (eapply Hu; eauto; split; congruence). congruence.
  - apply NoDup_filter. unfold ScheduleRepo.by_rooms. rewrite merge_sort_Permutation.
    by apply NoDup_filter, (rows_NoDup sc_ID).
Qed.

Lemma emission_sorted db :
  primary rm_ID (db_rooms db) -> unique_weekdays db -> StronglySorted before (emission db).
Proof.
  intros Hpk Hu. unfold emission. set (ids := rm_ID <$> RoomRepo.with_schedule db).
  set (sched := fold_left _ _ _).
  assert (forall r, NoDup (sc_DayOfWeek <$> sort_Slice schedule_less (default [] (sched !! r))))
    as Hnd by (intros r; unfold sched; rewrite append_rows; by apply room_weekdays).
  clearbody sched. clear ids.
  pose proof (with_schedule_NoDup db Hpk) as Hids. unfold emit_rooms.
  induction (RoomRepo.with_schedule db) as [|room rooms IH]; [constructor|].
  rewrite fmap_cons, NoDup_cons in Hids. destruct Hids as [Hnin Hids].
  rewrite bind_cons. apply StronglySorted_app. split_and!; [|by apply emit_days_sorted|].
  - intros x y Hx Hy Heq. apply emit_room_room in Hx. apply list_elem_of_bind in Hy as (r & Hy & Hr).
    apply emit_room_room in Hy. destruct Hnin. rewrite <- Hx, Heq, Hy. by apply list_elem_of_fmap_2.
  - by apply IH.
Qed.

End declarative.
