(* ===== verification/SlotGenSafety.v ===== *)
(** * SlotGenSafety: the guarantees of the slot generator *)

From Stdlib Require Import Ascii.
From S2P Require Import Prelude Domain Database Program Postgres Schema Usecase Scenario.
From S2P Require Import GoStd SlotGen SlotGenSpec.

(** ** A deployment with a schedule *)

(** The blue room is open on Thursdays from 09:00 to 10:15. *)
Definition thursdays : Schedule :=
  {| sc_ID := 30; sc_RoomID := 10; sc_DayOfWeek := 4; sc_StartTime := "09:00:00";
     sc_EndTime := "10:15:00"; sc_CreatedAt := 0 |}.

Definition thursdays_row : ScheduleRow :=
  {| sr_start := 32400 * Second; sr_end := 36900 * Second; sr_read := thursdays |}%Z.

Definition scheduled : World :=
  {| w_db := set_slots ∅ (set_schedule_rows {[ 30%N := thursdays_row ]} db0);
     w_calls := 0; w_clock := 0; w_ids := 0; w_out := [] |}.

(** The name itself, read as a number, stands for its SHA-1. *)
Definition name_id (ns : uuid) (name : list ascii) : uuid :=
  fold_left (fun n c => (256 * n + N_of_ascii c)%N) name 0%N.

(** Thursday 01:00, with a window of one day and batches of one. *)
Definition daily : Generator :=
  {| g_now := one_am; g_rollingWindow := (24 * Hour)%Z; g_maxBatch := 1 |}.

Definition generated : World := (run env (Generate name_id daily) scheduled).2.

(** The server fails at the insert of the second slot. *)
Definition failing : Env :=
  {| env_answer n :=
       if (n =? 9)%nat
       then {| a_fault := Some "connection reset"; a_lost := false; a_locked := ∅;
               a_order _ := 0%Z; a_returned _ := 0%Z; a_now := 0%Z; a_next_day d := d |}
       else answer;
     env_now _ := one_am; env_uuid n := N.of_nat n |}.

Definition interrupted : World := (run failing (Generate name_id daily) scheduled).2.

Lemma scheduled_schema : schema (w_db scheduled).
Proof.
  pose proof db0_schema as Hs. destruct Hs as [? ? _ _ _ _ _]. constructor; simpl; try done;
    try (constructor; intros ?; intros; by each_row).
  constructor.
  - intros i s ?. by each_row.
  - intros i s k ? [= <-]. each_row. by eexists.
  - intros i s ?. by each_row.
  - intros i s ?. by each_row.
  - intros i j s s' ? ? _. by each_row.
Qed.

(** The slot of that Thursday at 09:30 is due. *)
Definition nine_thirty : Slot := buildSlot name_id 10 (34200 * Second) (36000 * Second) one_am.

Lemma nine_thirty_due : due name_id daily (w_db scheduled) nine_thirty.
Proof.
  exists 30%N, thursdays, (32400 * Second)%Z, (36900 * Second)%Z, 1%nat.
  split; [by exists blue_room|]. by vm_compute.
Qed.

(** Ten days later. *)
Definition later : Env :=
  {| env_answer _ := answer; env_now _ := (one_am + 240 * Hour)%Z; env_uuid n := N.of_nat n |}.

(** ** The constraints of the database *)

Section keeps.
Context (NewSHA1 : uuid -> list ascii -> uuid) (g : Generator).

#[export] Instance ctx_Err_keeps : Keeps ctx_Err.
Proof. apply _. Qed.
#[export] Instance flushBatch_keeps batch : Keeps (flushBatch batch).
Proof. unfold flushBatch. keep. Qed.
#[export] Instance each_start_keeps roomID lo target now batch starts :
  Keeps (each_start NewSHA1 g roomID lo target now batch starts).
Proof.
  revert batch. induction starts as [|t starts IH]; intros batch; cbn [each_start]; keep; auto;
    unfold appendSlot; keep.
Qed.
#[export] Instance each_schedule_keeps roomID day lo target now batch schedules :
  Keeps (each_schedule NewSHA1 g roomID day lo target now batch schedules).
Proof.
  revert batch. induction schedules as [|sch schedules IH]; intros batch; cbn [each_schedule];
    unfold generateForSchedule; keep; auto.
Qed.
#[export] Instance each_day_keeps roomID schedules lo target now batch ds :
  Keeps (each_day NewSHA1 g roomID schedules lo target now batch ds).
Proof. revert batch. induction ds as [|d ds IH]; intros batch; cbn [each_day]; keep; auto. Qed.
#[export] Instance each_room_keeps sched now target rooms :
  Keeps (each_room NewSHA1 g sched now target rooms).
Proof.
  induction rooms as [|room rooms IH]; cbn [each_room]; unfold generateForRoom; keep; auto.
Qed.
#[export] Instance Generate_keeps : Keeps (Generate NewSHA1 g).
Proof.
  unfold Generate, ScheduleRepo.ListByRoomIDs. keep.
Qed.
End keeps.

Lemma generated_schema NewSHA1 g E w :
  schema (w_db w) -> schema (w_db (run E (Generate NewSHA1 g) w).2).
Proof. apply (Generate_keeps NewSHA1 g E w). Qed.

(** ** Guarantees *)

Lemma run_ran NewSHA1 g E w :
  schema (w_db w) ->
  ran (emission NewSHA1 g (w_db w)) (w_db w) (run E (Generate NewSHA1 g) w).1
    (w_db (run E (Generate NewSHA1 g) w).2).
Proof.
  intros Hs.
  pose proof (wp_run anything E _ _ w (respects_anything E)
    (Generate_spec NewSHA1 g anything (fun _ => True) (w_db w) (w_out w) (schema_rooms _ Hs)
      (fun _ _ _ _ _ => I))) as (_ & _ & Hr).
  exact Hr.
Qed.

Lemma ran_inserted {A} E db (r : result A) db' :
  ran E db r db' -> exists l1 l2, inserted l1 db db' /\ l1 ++ l2 = E.
Proof. destruct r; simpl; [|done]. intros Hi. exists E, []. by rewrite app_nil_r. Qed.

(** C19. The generator never touches a slot that exists, and every slot it adds is due: for
    a schedule of the room and weekday, thirty minutes long, on the grid and inside the
    opening hours, in the window and after the last slot; whatever fails on the way. *)
Theorem generator_adds_only_due_slots NewSHA1 g E w :
  schema (w_db w) ->
  let db' := w_db (run E (Generate NewSHA1 g) w).2 in
  db' = set_slots (db_slots db') (w_db w) /\ db_slots (w_db w) ⊆ db_slots db' /\
  forall i s, db_slots db' !! i = Some s ->
    db_slots (w_db w) !! i = Some s \/ due NewSHA1 g (w_db w) s /\ sl_ID s = i.
Proof.
  intros Hs db'. destruct (ran_inserted _ _ _ _ (run_ran NewSHA1 g E w Hs)) as (l1 & l2 & Hi & Hl).
  split_and!; [apply Hi..|]. intros i s Hx.
  destruct (inserted_new _ _ _ Hi i s Hx) as [?|[Hin ?]]; [by left|right]. split; [|done].
  apply elem_of_emission; [apply schema_rooms, Hs|]. rewrite <- Hl. apply elem_of_app. by left.
Qed.

(** The slot at 09:30 is one of the two that were added. *)
Lemma generator_adds_only_due_slots_witness :
  exists s, db_slots (w_db generated) !! sl_ID nine_thirty = Some s /\
    sl_StartTime s = (34200 * Second)%Z /\ due name_id daily (w_db scheduled) s.
Proof.
  destruct (generator_adds_only_due_slots name_id daily env scheduled scheduled_schema)
    as (_ & _ & Hnew).
  assert (exists s, db_slots (w_db generated) !! sl_ID nine_thirty = Some s /\
    sl_StartTime s = (34200 * Second)%Z) as (s & Hs & Ht)
    by (eexists; split; [by vm_compute|by vm_compute]).
  exists s. split; [exact Hs|]. split; [exact Ht|].
  destruct (Hnew (sl_ID nine_thirty) s Hs) as [Hold|[Hdue _]];
    [by vm_compute in Hold|exact Hdue].
Defined.

(** C20. When the generator reports success, every due slot exists. *)
Theorem generator_completes_the_window NewSHA1 g E w s :
  schema (w_db w) -> (run E (Generate NewSHA1 g) w).1 = Ok tt -> due NewSHA1 g (w_db w) s ->
  exists i s', db_slots (w_db (run E (Generate NewSHA1 g) w).2) !! i = Some s' /\
    sl_RoomID s' = sl_RoomID s /\ sl_StartTime s' = sl_StartTime s.
Proof.
  intros Hs Hok Hdue. pose proof (run_ran NewSHA1 g E w Hs) as Hr. rewrite Hok in Hr. simpl in Hr.
  apply (inserted_all _ _ _ Hr), elem_of_emission; [apply schema_rooms, Hs|done].
Qed.

Lemma generator_completes_the_window_witness :
  exists i s, db_slots (w_db generated) !! i = Some s /\ sl_RoomID s = 10%N /\
    sl_StartTime s = (34200 * Second)%Z.
Proof.
  apply (generator_completes_the_window name_id daily env scheduled nine_thirty);
    [exact scheduled_schema|by vm_compute|exact nine_thirty_due].
Defined.

(** A due slot stays due as long as the lower bound of its room does not pass it. *)
Lemma due_sooner NewSHA1 g db db' s :
  db_rooms db' = db_rooms db -> db_schedules db' = db_schedules db ->
  (computeLowerBound (g_now g) (SlotRepo.last_start (sl_RoomID s) db') <= sl_StartTime s)%Z ->
  due NewSHA1 g db s -> due NewSHA1 g db' s.
Proof.
  intros Hr Hsc Hlo (i & sch & sd & ed & k & Hdue).
  cbv zeta in Hdue. destruct_and! Hdue. exists i, sch, sd, ed, k. rewrite Hr, Hsc.
  repeat (split; [assumption|]). split; [|assumption]. unfold within in *. lia.
Qed.

(** After a success, a second run of the same generator adds nothing. *)
Lemma emission_after_success NewSHA1 g db db' :
  primary rm_ID (db_rooms db) -> inserted (emission NewSHA1 g db) db db' ->
  emission NewSHA1 g db' = [].
Proof.
  intros Hpk Hi. pose proof Hi as [Hdb Hkeep Hnew Hall].
  assert (db_rooms db' = db_rooms db /\ db_schedules db' = db_schedules db) as [Hr Hsc]
    by by rewrite Hdb.
  destruct (emission NewSHA1 g db') as [|s l] eqn:He; [done|].
  assert (due NewSHA1 g db' s) as Hdue by (apply elem_of_emission; [by rewrite Hr|rewrite He; left]).
  pose proof Hdue as (_ & _ & _ & _ & _ & _ & _ & _ & _ & _ & _ & _ & _ & [Hlo _] & _).
  assert (s ∈ emission NewSHA1 g db) as Hin.
  { apply elem_of_emission; [done|]. apply (due_sooner _ _ db'); [done..| |done].
    etrans; [|exact Hlo]. apply lower_bound_mono. intros j x Hx. by eapply lookup_weaken. }
  destruct (Hall s Hin) as (j & s' & Hj & Hroom & Hstart).
  pose proof (lower_bound_after (g_now g) db' (sl_RoomID s) j s' Hj Hroom) as Hafter.
  assert (0 < SlotDuration)%Z by done. lia.
Qed.

(** What a run does depends on rooms, schedules and slots only. *)
Lemma last_start_slots roomID db db' :
  db_slots db' = db_slots db -> SlotRepo.last_start roomID db' = SlotRepo.last_start roomID db.
Proof. unfold SlotRepo.last_start. by intros ->. Qed.

Lemma due_same NewSHA1 g db db' s :
  db_rooms db' = db_rooms db -> db_schedules db' = db_schedules db -> db_slots db' = db_slots db ->
  due NewSHA1 g db' s <-> due NewSHA1 g db s.
Proof. intros Hr Hsc Hsl. unfold due. by rewrite Hr, Hsc, (last_start_slots _ db db' Hsl). Qed.

Lemma nothing_due NewSHA1 g E w :
  schema (w_db w) -> (forall s, ~ due NewSHA1 g (w_db w) s) ->
  w_db (run E (Generate NewSHA1 g) w).2 = w_db w.
Proof.
  intros Hs Hn. pose proof (schema_rooms _ Hs) as Hpk.
  destruct (ran_inserted _ _ _ _ (run_ran NewSHA1 g E w Hs)) as (l1 & l2 & Hi & Hl).
  destruct l1 as [|s l1].
  - destruct Hi as [Hdb Hkeep Hnew _]. rewrite Hdb.
    assert (db_slots (w_db (run E (Generate NewSHA1 g) w).2) = db_slots (w_db w)) as ->
      by (apply (anti_symm (⊆)); [|done]; apply map_subseteq_spec; intros i s Hx;
          destruct (Hnew i s Hx) as [?|[[]%elem_of_nil _]]; done).
    by destruct (w_db w).
  - destruct (Hn s). apply elem_of_emission; [done|]. rewrite <- Hl. left.
Qed.

(** After a success nothing is due any more, until rooms, schedules or slots change. *)
Lemma success_is_final NewSHA1 g E w E' w' :
  schema (w_db w) -> (run E (Generate NewSHA1 g) w).1 = Ok tt -> schema (w_db w') ->
  db_rooms (w_db w') = db_rooms (w_db w) -> db_schedules (w_db w') = db_schedules (w_db w) ->
  db_slots (w_db w') = db_slots (w_db (run E (Generate NewSHA1 g) w).2) ->
  w_db (run E' (Generate NewSHA1 g) w').2 = w_db w'.
Proof.
  intros Hs Hok Hs' Hr Hsc Hsl. pose proof (run_ran NewSHA1 g E w Hs) as Hran. rewrite Hok in Hran.
  set (db1 := w_db (run E (Generate NewSHA1 g) w).2) in *. simpl in Hran.
  pose proof (inserted_only_slots _ _ _ Hran) as Hdb.
  pose proof (emission_after_success NewSHA1 g _ _ (schema_rooms _ Hs) Hran) as Hnil.
  apply nothing_due; [done|]. intros s Hdue. apply (due_same _ _ db1) in Hdue; [|..|done].
  2, 3: by rewrite Hdb, ?Hr, ?Hsc.
  apply elem_of_emission in Hdue; [|rewrite Hdb; exact (schema_rooms _ Hs)].
  rewrite Hnil in Hdue. by apply elem_of_nil in Hdue.
Qed.

(** A process that has been up for ten days. *)
Definition process : Generator := (run env NewGenerator scheduled).1.
Definition two_weeks : World := (run env (Generate name_id process) scheduled).2.

(** C24. The window of a generator never moves: [NewGenerator] reads the clock once, and
    every slot that any later run of the process adds, whenever, in whatever database and
    whatever fails, starts before fourteen days after that reading. Once a run has succeeded,
    a further run adds nothing as long as rooms, schedules and slots are as that run left
    them, however much time has passed. *)
Theorem generator_never_advances NewSHA1 E0 w0 :
  let g := (run E0 NewGenerator w0).1 in
  let started := env_now E0 (w_clock w0) in
  (forall E w i s, schema (w_db w) ->
     db_slots (w_db (run E (Generate NewSHA1 g) w).2) !! i = Some s ->
     db_slots (w_db w) !! i = Some s \/ (sl_StartTime s < started + 14 * 24 * Hour)%Z) /\
  (forall E w E' w', schema (w_db w) -> (run E (Generate NewSHA1 g) w).1 = Ok tt ->
     schema (w_db w') ->
     db_rooms (w_db w') = db_rooms (w_db w) -> db_schedules (w_db w') = db_schedules (w_db w) ->
     db_slots (w_db w') = db_slots (w_db (run E (Generate NewSHA1 g) w).2) ->
     w_db (run E' (Generate NewSHA1 g) w').2 = w_db w').
Proof.
  intros g started. split; [|exact (success_is_final NewSHA1 g)].
  intros E w i s Hs Hi.
  destruct (ran_inserted _ _ _ _ (run_ran NewSHA1 g E w Hs)) as (l1 & l2 & Hins & Hl).
  destruct (inserted_new _ _ _ Hins i s Hi) as [?|[Hin _]]; [by left|right].
  assert (due NewSHA1 g (w_db w) s) as Hdue
    by (apply elem_of_emission; [by apply schema_rooms|]; rewrite <- Hl; apply elem_of_app; by left).
  destruct Hdue as (_ & _ & _ & _ & _ & _ & _ & _ & _ & _ & _ & _ & _ & [_ Hhi] & _).
  exact Hhi.
Qed.

(** Ten days later the process adds nothing; a restarted one adds four slots. *)
Lemma generator_never_advances_witness :
  w_db (run later (Generate name_id process) two_weeks).2 = w_db two_weeks /\
  size (db_slots (w_db two_weeks)) = 4%nat /\
  let restarted := (run later NewGenerator two_weeks).1 in
  size (db_slots (w_db (run later (Generate name_id restarted) two_weeks).2)) = 8%nat.
Proof.
  split; [|split; by vm_compute].
  destruct (generator_never_advances name_id env scheduled) as [_ Hfinal].
  apply (Hfinal env scheduled later two_weeks);
    [exact scheduled_schema|by vm_compute|
     exact (generated_schema name_id process env scheduled scheduled_schema)|
     by vm_compute..|reflexivity].
Defined.

(** A run that failed half-way loses nothing: the next successful run leaves every
    slot that was due before the failed one, although it starts after the last slot that
    one added. The slots of a room are added in the order of their start. *)
Theorem generator_recovers NewSHA1 g E w E' w' s :
  schema (w_db w) -> schema (w_db w') ->
  db_rooms (w_db w') = db_rooms (w_db w) -> db_schedules (w_db w') = db_schedules (w_db w) ->
  db_slots (w_db w') = db_slots (w_db (run E (Generate NewSHA1 g) w).2) ->
  (run E' (Generate NewSHA1 g) w').1 = Ok tt -> due NewSHA1 g (w_db w) s ->
  exists i s', db_slots (w_db (run E' (Generate NewSHA1 g) w').2) !! i = Some s' /\
    sl_RoomID s' = sl_RoomID s /\ sl_StartTime s' = sl_StartTime s.
Proof.
  intros Hs Hs' Hr Hsc Hsl Hok Hdue. pose proof (schema_rooms _ Hs) as Hpk.
  pose proof (run_ran NewSHA1 g E' w' Hs') as Hran'. rewrite Hok in Hran'. simpl in Hran'.
  destruct (ran_inserted _ _ _ _ (run_ran NewSHA1 g E w Hs)) as (l1 & l2 & Hi & Hl).
  set (db1 := w_db (run E (Generate NewSHA1 g) w).2) in *.
  pose proof (emission_sorted NewSHA1 g _ Hpk (schema_weekdays _ Hs)) as Hsorted.
  assert (s ∈ l1 ++ l2) as [Hin|Hin]%elem_of_app by (rewrite Hl; by apply elem_of_emission).
  - destruct (inserted_all _ _ _ Hi s Hin) as (i & s' & Hx & ?). exists i, s'. split; [|done].
    eapply lookup_weaken; [|apply (inserted_keeps _ _ _ Hran')]. by rewrite Hsl.
  - apply (inserted_all _ _ _ Hran'), elem_of_emission; [by apply schema_rooms|].
    rewrite <- Hl in Hsorted. apply StronglySorted_app in Hsorted as (Hbefore & _ & _).
    eapply due_sooner; [done..| |exact Hdue].
    apply lower_bound_least; [destruct Hdue as (?&?&?&?&?&_&_&_&_&_&_&_&_&[Hlo _]&_)|].
    + etrans; [apply lower_bound_now|exact Hlo].
    + intros j x Hx Hroom. rewrite Hsl in Hx.
      destruct (inserted_new _ _ _ Hi j x Hx) as [Hold|[Hnew _]]; [|by apply (Hbefore x s)].
      destruct Hdue as (?&?&?&?&?&_&_&_&_&_&_&_&_&[Hlo _]&_).
      etrans; [|exact Hlo]. by eapply lower_bound_after.
Qed.

(** The first run stops at its second insert; the next one completes the window. *)
Lemma generator_recovers_witness :
  (run failing (Generate name_id daily) scheduled).1 <> Ok tt /\
  size (db_slots (w_db interrupted)) = 1%nat /\
  exists i s, db_slots (w_db (run env (Generate name_id daily) interrupted).2) !! i = Some s /\
    sl_RoomID s = 10%N /\ sl_StartTime s = (34200 * Second)%Z.
Proof.
  split; [by vm_compute|]. split; [by vm_compute|].
  apply (generator_recovers name_id daily failing scheduled env interrupted nine_thirty);
    [exact scheduled_schema|apply generated_schema, scheduled_schema|
     by vm_compute..|reflexivity|by vm_compute|exact nine_thirty_due].
Defined.

(** Two slots of one room do not overlap. *)
Definition disjoint_slots (db : DB) : Prop :=
  forall i j x y, i <> j -> db_slots db !! i = Some x -> db_slots db !! j = Some y ->
    sl_RoomID x = sl_RoomID y ->
    (sl_StartTime x + SlotDuration <= sl_StartTime y \/
     sl_StartTime y + SlotDuration <= sl_StartTime x)%Z.

Lemma StronglySorted_pair {A} (R : A -> A -> Prop) l x y :
  StronglySorted R l -> x ∈ l -> y ∈ l -> x <> y -> R x y \/ R y x.
Proof.
  induction 1 as [|z l Hs IH Hz]; [by intros ?%elem_of_nil|]. rewrite Forall_forall in Hz.
  rewrite !elem_of_cons. naive_solver.
Qed.

(** Slots are added one after the other. *)
Lemma generated_disjoint NewSHA1 g E w :
  schema (w_db w) -> disjoint_slots (w_db w) ->
  disjoint_slots (w_db (run E (Generate NewSHA1 g) w).2).
Proof.
  intros Hs Hd i j x y Hij Hx Hy Hroom. pose proof (schema_rooms _ Hs) as Hpk.
  destruct (ran_inserted _ _ _ _ (run_ran NewSHA1 g E w Hs)) as (l1 & l2 & Hi & Hl).
  pose proof (emission_sorted NewSHA1 g _ Hpk (schema_weekdays _ Hs)) as Hsorted. rewrite <- Hl in Hsorted.
  assert (forall a b k, a ∈ l1 -> db_slots (w_db w) !! k = Some b -> sl_RoomID b = sl_RoomID a ->
    (sl_StartTime b + SlotDuration <= sl_StartTime a)%Z) as Hold.
  { intros a b k Ha Hb Hr. assert (due NewSHA1 g (w_db w) a) as Hdue
      by (apply elem_of_emission; [done|]; rewrite <- Hl; apply elem_of_app; by left).
    destruct Hdue as (_ & _ & _ & _ & _ & _ & _ & _ & _ & _ & _ & _ & _ & [Hlo _] & _).
    etrans; [|exact Hlo]. by eapply lower_bound_after. }
  destruct (inserted_new _ _ _ Hi i x Hx) as [Hx'|[Hx' Hix]],
    (inserted_new _ _ _ Hi j y Hy) as [Hy'|[Hy' Hjy]]; [by eauto|left; by eauto|right; by eauto|].
  apply StronglySorted_app in Hsorted as (_ & Hsorted & _).
  destruct (StronglySorted_pair _ _ x y Hsorted Hx' Hy') as [Hb|Hb]; [congruence|left|right];
    by apply Hb.
Qed.

(** The slots of a room never overlap, whatever fails during a run. *)
Theorem generator_keeps_slots_disjoint NewSHA1 g E w :
  schema (w_db w) -> disjoint_slots (w_db w) ->
  disjoint_slots (w_db (run E (Generate NewSHA1 g) w).2).
Proof. apply generated_disjoint. Qed.

Lemma generator_keeps_slots_disjoint_witness : disjoint_slots (w_db generated).
Proof.
  apply (generator_keeps_slots_disjoint name_id daily env scheduled);
    [exact scheduled_schema|].
  intros i j x y _ Hx. simpl in Hx. by rewrite lookup_empty in Hx.
Defined.

(** ** Times of day *)

(** The text of a TIME without fraction in PostgreSQL: HH:MM:SS. *)
Definition two_digits (n : Z) : list ascii :=
  [ascii_of_N (48 + Z.to_N (n / 10)); ascii_of_N (48 + Z.to_N (n `mod` 10))].
Definition time_text (h m s : Z) : string :=
  String.string_of_list_ascii
    (two_digits h ++ [":"%char] ++ two_digits m ++ [":"%char] ++ two_digits s).

Definition reads_two_digits (n : Z) : bool :=
  match two_digits n with
  | [c; d] =>
      bool_decide (digit c = Some (n / 10)%Z) && bool_decide (digit d = Some (n `mod` 10)%Z) &&
      negb (is_space c) && negb (is_space d) &&
      (N_of_ascii c <? 128)%N && (N_of_ascii d <? 128)%N
  | _ => false
  end.

Lemma two_digits_read n :
  (0 <= n < 100)%Z -> exists c d, two_digits n = [c; d] /\
    digit c = Some (n / 10)%Z /\ digit d = Some (n `mod` 10)%Z /\
    plain c /\ plain d.
Proof.
  intros Hn. assert (forallb reads_two_digits (Z.of_nat <$> seq 0 100) = true) as Hall
    by (vm_compute; reflexivity).
  rewrite forallb_forall in Hall. specialize (Hall n).
  assert (In n (Z.of_nat <$> seq 0 100)) as Hin.
  { apply list_elem_of_In, list_elem_of_fmap. exists (Z.to_nat n). split; [lia|].
    apply elem_of_seq. lia. }
  specialize (Hall Hin). unfold reads_two_digits in Hall.
  destruct (two_digits n) as [|c [|d [|]]]; try done. exists c, d.
  rewrite !andb_true_iff, !negb_true_iff, !bool_decide_eq_true, !N.ltb_lt in Hall.
  unfold plain. naive_solver.
Qed.

Lemma getnum_two_digits n fixed bound rest :
  (0 <= n < bound)%Z -> (bound <= 100)%Z ->
  getnum (two_digits n ++ rest) fixed ≫= below bound = Some (n, rest).
Proof.
  intros Hn Hb. destruct (two_digits_read n ltac:(lia)) as (c & d & -> & Hc & Hd & _).
  simpl. rewrite Hc, Hd. simpl. unfold below. simpl.
  replace (10 * (n / 10) + n `mod` 10)%Z with n by (apply Z.div_mod; lia).
  by rewrite (proj2 (Z.ltb_lt _ _)) by lia.
Qed.

Lemma parse_time_text h m s :
  (0 <= h < 24)%Z -> (0 <= m < 60)%Z -> (0 <= s < 60)%Z ->
  parseTimeOfDay (time_text h m s) = Ok (h * Hour + m * Minute + s * Second)%Z.
Proof.
  intros Hh Hm Hs. unfold parseTimeOfDay, time_text.
  rewrite String.list_ascii_of_string_of_list_ascii.
  assert (TrimSpace (two_digits h ++ [":"%char] ++ two_digits m ++ [":"%char] ++ two_digits s) =
    two_digits h ++ [":"%char] ++ two_digits m ++ [":"%char] ++ two_digits s) as Htrim.
  { destruct (two_digits_read h ltac:(lia)) as (c & c' & -> & _ & _ & Hc & _).
    destruct (two_digits_read s ltac:(lia)) as (d & d' & -> & _ & _ & _ & Hd).
    exact (TrimSpace_plain c ([c'; ":"%char] ++ two_digits m ++ [":"%char; d]) d' Hc Hd). }
  rewrite Htrim.
  assert (parse_layout true (two_digits h ++ [":"%char] ++ two_digits m ++ [":"%char] ++
    two_digits s) = Some (h * Hour + m * Minute + s * Second)%Z) as Hparse.
  { unfold parse_layout. rewrite getnum_two_digits by lia. cbn [mbind option_bind skip_colon app].
    rewrite getnum_two_digits by lia. cbn [mbind option_bind skip_colon app].
    pose proof (getnum_two_digits s true 60 [] ltac:(lia) ltac:(lia)) as Hsec.
    rewrite app_nil_r in Hsec. rewrite Hsec. simpl. f_equal. lia. }
  destruct (two_digits_read h ltac:(lia)) as (c & c' & Hh' & _). rewrite Hh' in *.
  cbn [app] in *. by rewrite Hparse.
Qed.

(** The text PostgreSQL gives for a TIME is read back as that time of day. *)
Theorem time_text_is_parsed h m s :
  (0 <= h < 24)%Z -> (0 <= m < 60)%Z -> (0 <= s < 60)%Z ->
  parseTimeOfDay (time_text h m s) = Ok (h * Hour + m * Minute + s * Second)%Z.
Proof. apply parse_time_text. Qed.

Lemma time_text_is_parsed_witness :
  time_text 9 30 0 = "09:30:00" /\ parseTimeOfDay "09:30:00" = Ok (34200 * Second)%Z.
Proof. split; [reflexivity|]. apply (time_text_is_parsed 9 30 0); lia. Defined.

(** ** Success *)

(** What a run relies on: the schedules can be read, the slots that exist are no longer than
    those the generator adds, and no two names have the same SHA-1. *)
Record ready (NewSHA1 : uuid -> list ascii -> uuid) (g : Generator) (db : DB) : Prop := {
  ready_schedules : forall i sch e, db_schedules db !! i = Some sch -> ~ unparsed sch e;
  ready_slots : forall i s, db_slots db !! i = Some s ->
    (sl_EndTime s <= sl_StartTime s + SlotDuration)%Z;
  ready_ids : forall s s', due NewSHA1 g db s ->
    db_slots db !! sl_ID s = Some s' \/ due NewSHA1 g db s' /\ sl_ID s' = sl_ID s ->
    sl_RoomID s' = sl_RoomID s /\ sl_StartTime s' = sl_StartTime s }.

Section success.
Context (NewSHA1 : uuid -> list ascii -> uuid) (g : Generator) (db0 : DB).
Context (Hs : schema db0) (Hr : ready NewSHA1 g db0).

(** No constraint refuses a slot that follows, in the emission, those added so far. *)
Lemma insert_row_accepts done s rest db :
  inserted done db0 db -> done ++ s :: rest = emission NewSHA1 g db0 ->
  exists db', SlotRepo.insert_row s db = Ok db'.
Proof.
  intros Hi He. pose proof (schema_rooms _ Hs) as Hpk.
  assert (forall x, x ∈ done ++ s :: rest -> due NewSHA1 g db0 x) as Hdue
    by (intros x Hx; rewrite He in Hx; by apply elem_of_emission).
  pose proof (Hdue s ltac:(set_solver)) as Hsdue.
  pose proof Hsdue as (_ & _ & _ & _ & _ & [room Hroom] & _ & _ & _ & _ & _ & _ & _ & [Hlo _] & Hb).
  assert (sl_EndTime s = (sl_StartTime s + SlotDuration)%Z) as Hend by by rewrite Hb.
  assert (0 < SlotDuration)%Z as Hpos by done.
  pose proof (emission_sorted NewSHA1 g _ Hpk (schema_weekdays _ Hs)) as Hsorted. rewrite <- He in Hsorted.
  apply StronglySorted_app in Hsorted as (Hbefore & _ & _).
  assert (forall i x, db_slots db !! i = Some x -> sl_RoomID x = sl_RoomID s ->
    (sl_EndTime x <= sl_StartTime s)%Z) as Hfree.
  { intros i x Hx Hrx. destruct (inserted_new _ _ _ Hi i x Hx) as [Hold|[Hnew _]].
    - pose proof (ready_slots _ _ _ Hr i x Hold). etrans; [|exact Hlo].
      etrans; [|by eapply lower_bound_after]. done.
    - pose proof (Hbefore x s Hnew ltac:(set_solver) Hrx).
      destruct (Hdue x ltac:(set_solver)) as (_&_&_&_&_&_&_&_&_&_&_&_&_&_& ->). done. }
  unfold SlotRepo.insert_row. rewrite Hend, (proj2 (Z.ltb_lt _ _)) by lia. simpl.
  case_bool_decide as Hdup; [by eexists|]. rewrite has_false; simpl.
  2: { apply eq_None_not_Some. intros [x Hx]. apply Hdup, first_where_is_Some.
       exists (sl_ID s), x. split; [done|]. apply (ready_ids _ _ _ Hr s x Hsdue).
       destruct (inserted_new _ _ _ Hi _ x Hx) as [?|[Hin ?]]; [by left|right].
       split; [apply Hdue; set_solver|done]. }
  rewrite bool_decide_false.
  2: { intros (i & x & Hx & Hrx & Hov & _)%first_where_is_Some.
       pose proof (Hfree i x Hx (eq_sym Hrx)). lia. }
  rewrite (inserted_only_slots _ _ _ Hi). simpl. rewrite has_true by by rewrite Hroom. by eexists.
Qed.

Lemma insert_rows_accepts done l rest db :
  inserted done db0 db -> done ++ l ++ rest = emission NewSHA1 g db0 ->
  exists db', SlotRepo.insert_rows l db = Ok db'.
Proof.
  revert done db. induction l as [|s l IH]; intros done db Hi He; [by eexists|]. simpl.
  destruct (insert_row_accepts done s (l ++ rest) db Hi He) as [db1 H1]. rewrite H1.
  apply (IH (done ++ [s])); [|by rewrite <- app_assoc].
  eapply inserted_app; [done|by apply insert_row_inserted].
Qed.

Lemma never_refused e : ~ refused (emission NewSHA1 g db0) db0 e.
Proof.
  intros (done & l & rest & db & Hi & Hl & He).
  destruct (insert_rows_accepts done l rest db Hi He) as [db' Hok]. congruence.
Qed.
End success.

(** With nothing refused, only the server could make a run fail. *)
Lemma ready_generates NewSHA1 g E w :
  (forall n, a_fault (env_answer E n) = None) ->
  schema (w_db w) -> ready NewSHA1 g (w_db w) ->
  (run E (Generate NewSHA1 g) w).1 = Ok tt.
Proof.
  intros Hf Hs Hr.
  set (H := {| ok_answer a := a_fault a = None; ok_now _ := True; ok_uuid _ := True |}).
  pose proof (wp_run H E _ _ w ltac:(by split)
    (Generate_spec NewSHA1 g H (fun _ => False) (w_db w) (w_out w) (schema_rooms _ Hs)
      (fun i sch e Hi Hn => ready_schedules _ _ _ Hr i sch e Hi Hn))) as (_ & Hj & _).
  revert Hj. destruct (run E _ w).1 as [[]|e]; [done|].
  intros [(a & m & Ha & Hm)|[[]|Href]]; [simpl in Ha; congruence|].
  by apply never_refused in Href.
Qed.

(** C22. When the schedules can be read, the slots there are last at most thirty minutes, no
    other slot has taken the identifier of a due one and the server answers, no constraint
    refuses a slot of the generator: it succeeds. *)
Theorem generator_succeeds NewSHA1 g E w :
  (forall n, a_fault (env_answer E n) = None) ->
  schema (w_db w) -> ready NewSHA1 g (w_db w) ->
  (run E (Generate NewSHA1 g) w).1 = Ok tt.
Proof. apply ready_generates. Qed.

Lemma scheduled_ready : ready name_id daily (w_db scheduled).
Proof.
  split.
  - intros i sch e (x & Hi & <-)%schedule_row. simpl in Hi. each_row. by intros [?|?].
  - intros i s Hi. simpl in Hi. by rewrite lookup_empty in Hi.
  - assert (emission name_id daily (w_db scheduled) =
      [buildSlot name_id 10 (32400 * Second) (34200 * Second) one_am; nine_thirty]) as He
      by by vm_compute.
    intros s s' Hs [Hs'|[Hs' Hid]]; [simpl in Hs'; by rewrite lookup_empty in Hs'|].
    apply elem_of_emission in Hs, Hs'; [|apply schema_rooms, scheduled_schema..].
    rewrite He, !elem_of_cons, elem_of_nil in Hs, Hs'.
    destruct Hs as [->|[->|[]]], Hs' as [->|[->|[]]]; [by split| | |by split];
      apply N.eqb_eq in Hid; vm_compute in Hid; discriminate.
Qed.

Lemma generator_succeeds_witness : (run env (Generate name_id daily) scheduled).1 = Ok tt.
Proof.
  apply (generator_succeeds name_id daily env scheduled);
    [done|exact scheduled_schema|exact scheduled_ready].
Defined.
