(* ===== verification/Rooms.v ===== *)
(** * Rooms: internal/usecase/room/service.go

    Listing the rooms, and creating one. *)

From Stdlib Require Import Ascii.
From S2P Require Import Prelude Domain GoStd Database Program Postgres Schema Usecase.
From S2P Require Import System Scenario.

Record RoomCreateInput := {
  in_Name : string;
  in_Description : option string;
  in_Capacity : option Z }.

Definition ListRooms (user : User) : prog (result (list Room)) :=
  match us_Role user with
  | RoleAdmin | RoleUser => RoomRepo.List
  | _ => fail (NewDomainError ErrorForbidden "role is not allowed")
  end.

Definition trimmed (s : string) : string :=
  String.string_of_list_ascii (TrimSpace (String.list_ascii_of_string s)).

Definition CreateRoom (user : User) (input : RoomCreateInput) : prog (result Room) :=
  if bool_decide (us_Role user <> RoleAdmin)
  then fail (NewDomainError ErrorForbidden "admin only")
  else
    let name := trimmed (in_Name input) in
    if bool_decide (name = EmptyString)
    then fail (NewDomainError ErrorInvalidRequest "name is required")
    else if (match in_Capacity input with Some c => c <? 0 | None => false end)%Z
    then fail (NewDomainError ErrorInvalidRequest "capacity must be >= 0")
    else
      let! id := perform NewUUID in
      let! now := perform Now in
      let room :=
        {| rm_ID := id; rm_Name := name; rm_Description := in_Description input;
           rm_Capacity := in_Capacity input; rm_CreatedAt := now |} in
      let? _ := RoomRepo.Create room in
      ok room.

(** ** What is stored of a room *)

(** A name without white space around it, and a capacity a column can hold. *)
Definition proper_room (r : Room) : Prop :=
  let name := String.list_ascii_of_string (rm_Name r) in
  name <> [] /\ trim_left name = name /\ trim_right name = name /\
  forall c, rm_Capacity r = Some c -> (0 <= c < 2 ^ 31)%Z.

Definition proper_rooms (db : DB) : Prop := forall i r, db_rooms db !! i = Some r -> proper_room r.

Lemma list_ascii_trimmed s :
  String.list_ascii_of_string (trimmed s) = TrimSpace (String.list_ascii_of_string s).
Proof. unfold trimmed. apply String.list_ascii_of_string_of_list_ascii. Qed.

Lemma trimmed_proper s :
  trimmed s <> EmptyString ->
  let name := String.list_ascii_of_string (trimmed s) in
  name <> [] /\ trim_left name = name /\ trim_right name = name.
Proof.
  intros Hne. cbv zeta. split; [|rewrite list_ascii_trimmed; apply TrimSpace_trimmed].
  intros Hnil. apply Hne. rewrite <- (String.string_of_list_ascii_of_string (trimmed s)).
  by rewrite Hnil.
Qed.

Lemma room_insert_proper r a db :
  (RoomRepo.int4_ok (rm_Capacity r) = true -> proper_room r) ->
  proper_rooms db -> proper_rooms (RoomRepo.insert r a db).2.
Proof.
  intros Hr Hdb. unfold RoomRepo.insert.
  destruct (RoomRepo.int4_ok _) eqn:Hc; simpl; [|done]. destruct (has _ _); [done|].
  intros i x Hx. simpl in Hx. lookups; [by apply Hr|by eapply Hdb].
Qed.

(** What CreateRoom may leave behind, and what it returns. *)
Definition room_outcome (user : User) (input : RoomCreateInput) (db : DB) (r : result Room) (db' : DB)
    : Prop :=
  (proper_rooms db -> proper_rooms db') /\
  (us_Role user <> RoleAdmin -> db' = db) /\
  (forall room, r = Ok room -> us_Role user = RoleAdmin /\ rm_Name room = trimmed (in_Name input) /\
     rm_Capacity room = in_Capacity input /\ rm_Description room = in_Description input /\
     db_rooms db !! rm_ID room = None /\
     db' = set_rooms (<[rm_ID room := room]> (db_rooms db)) db).

Lemma CreateRoom_outcome user input db out :
  wp anything (CreateRoom user input) (fun r db' _ => room_outcome user input db r db') db out.
Proof.
  unfold CreateRoom. case_bool_decide as Hrole; [by apply wp_ret|].
  case_bool_decide as Hname; [by apply wp_ret|].
  destruct (match in_Capacity input with Some c => c <? 0 | None => false end)%Z eqn:Hcap;
    [by apply wp_ret|].
  apply wp_uuid. intros id _. apply wp_now. intros now _. unfold RoomRepo.Create.
  set (room := Build_Room id _ _ _ now).
  assert (us_Role user = RoleAdmin) as Hadmin by by destruct (us_Role user).
  assert (forall a, proper_rooms db -> proper_rooms (RoomRepo.insert room a db).2) as Hp.
  { intros a. apply room_insert_proper. intros Hok.
    destruct (trimmed_proper (in_Name input) Hname) as (? & ? & ?). split_and!; try done.
    intros c Hc. simpl in Hc, Hok. rewrite Hc in Hok, Hcap. simpl in Hok.
    apply Z.ltb_ge in Hcap. apply andb_true_iff in Hok as [_ Hok%Z.ltb_lt]. lia. }
  apply wp_sql.
  - intros _ a m. split; norm; apply wp_ret; (split_and!; [by (apply Hp || auto)|congruence|done]).
  - intros a _. specialize (Hp a). revert Hp. unfold RoomRepo.insert.
    destruct (RoomRepo.int4_ok _); simpl; [|by intros; apply wp_ret].
    destruct (has _ _) eqn:Hnew; intros Hp; norm; apply wp_ret; [done|].
    split; [done|]. split; [done|]. intros r [= <-]. split_and!; try done.
    unfold has in Hnew. by apply bool_decide_eq_false, eq_None_not_Some in Hnew.
Qed.

(** Whatever fails, CreateRoom adds at most one room, for an administrator, whose name
    is not blank and carries no white space around it and whose capacity fits its column;
    an accepted room is stored as it is returned. *)
Theorem rooms_are_proper E w user input :
  let x := run E (CreateRoom user input) w in
  room_outcome user input (w_db w) x.1 (w_db x.2).
Proof.
  exact (wp_run anything E _ _ w (respects_anything E)
    (CreateRoom_outcome user input (w_db w) (w_out w))).
Qed.

Definition green : RoomCreateInput :=
  {| in_Name := " green room "; in_Description := None; in_Capacity := Some 6%Z |}.

Lemma rooms_are_proper_witness :
  exists r, (run env (CreateRoom root green) start).1 = Ok r /\ rm_Name r = "green room" /\
    proper_rooms (w_db (run env (CreateRoom root green) start).2).
Proof.
  eexists. split; [by vm_compute|]. split; [done|].
  apply (rooms_are_proper env start root green).
  intros i r Hr. simpl in Hr. each_row. split_and!; [done..|]. by intros c [= <-].
Defined.
