(* ===== verification/Schedules.v ===== *)
(** * Schedules: internal/usecase/schedule/service.go

    Defining the weekly schedule of a room, once.  What PostgreSQL makes of a text cast to
    TIME ([time_in], [time_out]) and of the message of an error ([pg_message]) are
    parameters. *)

From Stdlib Require Import Ascii.
From S2P Require Import Prelude Domain GoStd Text Database Program Postgres Schema Usecase.
From S2P Require Import System Scenario SlotGen SlotGenSpec SlotGenSafety.

(** ** time of day, as this package reads it *)

Definition parseTimeOfDay (tod : string) : result Duration :=
  match TrimSpace (String.list_ascii_of_string tod) with
  | [] => Err (PlainError "empty time of day")
  | s =>
      match parse_layout true s, parse_layout false s with
      | Some parsed, _ | None, Some parsed =>
          if negb (parsed `mod` Minute =? 0)%Z
          then Err (PlainError "time must not contain seconds")
          else Ok parsed
      | None, None => Err (PlainError "failed to parse time of day")
      end
  end.

Definition isAlignedToSlotGrid (d : Duration) : bool :=
  if (d <? 0)%Z then false
  else
    let mins := (d ÷ Minute)%Z in
    (Z.rem mins 30 =? 0)%Z && (Z.rem d Minute =? 0)%Z.

(** ** ScheduleRepo.CreateBatch *)

Section postgres.
Context (time_in : string -> option Duration) (time_out : Duration -> string).
Context (pg_message : string -> string -> string).

(** One row of the batch, with [$n::time] of its two times. *)
Definition insert_row (s : Schedule) (db : DB) : result DB :=
  match time_in (sc_StartTime s), time_in (sc_EndTime s) with
  | Some start, Some end_ =>
      let row :=
        {| sc_ID := sc_ID s; sc_RoomID := sc_RoomID s; sc_DayOfWeek := sc_DayOfWeek s;
           sc_StartTime := time_out start; sc_EndTime := time_out end_;
           sc_CreatedAt := sc_CreatedAt s |} in
      if negb (start <? end_)%Z
      then Err (PgError check_violation "schedules_check")
      else if negb ((1 <=? sc_DayOfWeek s)%Z && (sc_DayOfWeek s <=? 7)%Z)
      then Err (PgError check_violation "schedules_day_of_week_check")
      else if has (db_schedules db) (sc_ID s)
      then Err (PgError unique_violation "schedules_pkey")
      else if bool_decide (is_Some (first_where
                (fun s' => sc_RoomID s' = sc_RoomID s /\ sc_DayOfWeek s' = sc_DayOfWeek s)
                (db_schedules db)))
      then Err (PgError unique_violation "schedules_room_id_day_of_week_key")
      else Ok (set_schedule_rows
                (<[sc_ID s := {| sr_start := start; sr_end := end_; sr_read := row |}]>
                   (db_schedule_rows db)) db)
  | _, _ => Err (PgError "22007" EmptyString)
  end.

Fixpoint insert_rows (l : list Schedule) (db : DB) : result DB :=
  match l with
  | [] => Ok db
  | s :: l =>
      match insert_row s db with
      | Ok db => insert_rows l db
      | Err e => Err e
      end
  end.

(** The foreign keys are checked at the end of the statement. *)
Definition insert_batch (l : list Schedule) : sql unit := fun _ db =>
  match insert_rows l db with
  | Ok db' =>
      if forallb (fun s => has (db_rooms db) (sc_RoomID s)) l then (Ok tt, db')
      else (Err (PgError foreign_key_violation "schedules_room_id_fkey"), db)
  | Err e => (Err e, db)
  end.

Definition isScheduleUniqueViolation (err : error) : bool :=
  is_unique_violation "schedules_room_id_day_of_week_key" err ||
  is_unique_violation "schedules_room_id_key" err.

Definition CreateBatch (schedules : list Schedule) : prog (result unit) :=
  match schedules with
  | [] => ok tt
  | _ =>
      on_err (fun err =>
          if isScheduleUniqueViolation err
          then NewDomainError ErrorScheduleExists "schedule already exists"
          else err)
        (perform (Sql (insert_batch schedules)))
  end.

(** ** CreateSchedule *)

(** [err.Error()]. *)
Fixpoint Error (err : error) : string :=
  match err with
  | DomainError code message _ =>
      if bool_decide (message = EmptyString) then ErrorCode_string code
      else (ErrorCode_string code ++ ": " ++ message)%string
  | PgError code constraint => pg_message code constraint
  | Wrapped message err => (message ++ ": " ++ Error err)%string
  | PlainError message => message
  end.

(** [strings.ToLower] on the letters of ASCII. *)
Definition lower (c : ascii) : ascii :=
  let n := N_of_ascii c in
  if (65 <=? n)%N && (n <=? 90)%N then ascii_of_N (n + 32) else c.

(** [strings.Contains]. *)
Fixpoint contains (s p : list ascii) : bool :=
  has_prefix p s || match s with [] => false | _ :: s => contains s p end.

Definition isScheduleConflictError (err : error) : bool :=
  has_code ErrorScheduleExists err ||
  let msg := lower <$> String.list_ascii_of_string (Error err) in
  contains msg (String.list_ascii_of_string "duplicate key") ||
  contains msg (String.list_ascii_of_string "unique constraint") ||
  contains msg (String.list_ascii_of_string "schedules_room_id_day_of_week_key").

Record CreateScheduleInput := {
  in_DaysOfWeek : list Z;
  in_StartTime : string;
  in_EndTime : string }.

Record ScheduleRule := {
  ru_DayOfWeek : Z;
  ru_StartTime : string;
  ru_EndTime : string }.

(** The loop over [days]: one identifier per day. *)
Fixpoint make_schedules (roomID : uuid) (input : CreateScheduleInput) (createdAt : time)
    (days : list Z) : prog (list Schedule) :=
  match days with
  | [] => Ret []
  | day :: days =>
      let! id := perform NewUUID in
      let! rest := make_schedules roomID input createdAt days in
      Ret ({| sc_ID := id; sc_RoomID := roomID; sc_DayOfWeek := day;
              sc_StartTime := in_StartTime input; sc_EndTime := in_EndTime input;
              sc_CreatedAt := createdAt |} :: rest)
  end.

(** The keys of the map [uniqDays], sorted. *)
Definition sorted_days (l : list Z) : list Z := order_by id (remove_dups l).

Definition CreateSchedule (user : User) (roomID : uuid) (input : CreateScheduleInput)
    : prog (result (uuid * list ScheduleRule)) :=
  if bool_decide (us_Role user <> RoleAdmin)
  then fail (NewDomainError ErrorForbidden "admin only")
  else if bool_decide (in_DaysOfWeek input = [])
  then fail (NewDomainError ErrorInvalidRequest "daysOfWeek is required")
  else
    let? room := on_err (wrap ErrorInternalError "get room") (RoomRepo.GetByID roomID) in
    match room with
    | None => fail (NewDomainError ErrorRoomNotFound "room not found")
    | Some _ =>
        let? exists_ := on_err (wrap ErrorInternalError "check schedule exists")
          (ScheduleRepo.ExistsByRoomID roomID) in
        if (exists_ : bool)
        then fail (NewDomainError ErrorScheduleExists "schedule already exists")
        else if existsb (fun d => (d <? 1)%Z || (7 <? d)%Z) (in_DaysOfWeek input)
        then fail (NewDomainError ErrorInvalidRequest "day_of_week must be 1..7")
        else
          match parseTimeOfDay (in_StartTime input) with
          | Err err => fail (wrap ErrorInvalidRequest "invalid start_time" err)
          | Ok startDur =>
              match parseTimeOfDay (in_EndTime input) with
              | Err err => fail (wrap ErrorInvalidRequest "invalid end_time" err)
              | Ok endDur =>
                  if negb (isAlignedToSlotGrid startDur) || negb (isAlignedToSlotGrid endDur)
                  then fail (NewDomainError ErrorInvalidRequest
                               "start/end must be aligned to 30 minutes")
                  else if (endDur <=? startDur)%Z
                  then fail (NewDomainError ErrorInvalidRequest
                               "start_time must be < end_time")
                  else
                    let days := sorted_days (in_DaysOfWeek input) in
                    let! createdAt := perform Now in
                    let! dbSchedules := make_schedules roomID input createdAt days in
                    let? _ :=
                      on_err (fun err =>
                          if isScheduleConflictError err
                          then NewDomainError ErrorScheduleExists "schedule already exists"
                          else wrap ErrorInternalError "create schedule" err)
                        (CreateBatch dbSchedules) in
                    ok (roomID, (fun day =>
                          {| ru_DayOfWeek := day; ru_StartTime := in_StartTime input;
                             ru_EndTime := in_EndTime input |}) <$> days)
              end
          end
    end.

End postgres.

(** ** What is stored of a schedule *)

(** What the generator relies on: days of the week, readable times on the grid. *)
Definition proper_schedule (sch : Schedule) : Prop :=
  (1 <= sc_DayOfWeek sch <= 7)%Z /\
  exists a b, SlotGen.parseTimeOfDay (sc_StartTime sch) = Ok a /\
    SlotGen.parseTimeOfDay (sc_EndTime sch) = Ok b /\ (a < b)%Z /\
    (a `mod` SlotDuration = 0)%Z /\ (b `mod` SlotDuration = 0)%Z.

Definition proper_schedules (db : DB) : Prop :=
  unique_weekdays db /\ forall i sch, db_schedules db !! i = Some sch -> proper_schedule sch.

Lemma parseTimeOfDay_minutes s d :
  parseTimeOfDay s = Ok d -> (0 <= d < Day)%Z /\ (d `mod` Minute = 0)%Z.
Proof.
  unfold parseTimeOfDay. destruct (TrimSpace _) as [|c l]; [done|].
  destruct (parse_layout true (c :: l)) as [d'|] eqn:H1;
    [|destruct (parse_layout false (c :: l)) as [d'|] eqn:H2; [|done]];
    (destruct (Z.eqb_spec (d' `mod` Minute) 0) as [H|H]; [|done]); intros [= <-];
    (split; [by eapply parse_layout_range|done]).
Qed.

Lemma aligned_grid d :
  (0 <= d)%Z -> (d `mod` Minute = 0)%Z -> isAlignedToSlotGrid d = true ->
  (d `mod` SlotDuration = 0)%Z.
Proof.
  intros Hd Hm. unfold isAlignedToSlotGrid. rewrite (proj2 (Z.ltb_ge _ _)) by done.
  assert (0 < Minute)%Z as HM by done. rewrite Z.quot_div_nonneg by lia.
  rewrite Z.rem_mod_nonneg by (try done; by apply Z.div_pos).
  intros [H30%Z.eqb_eq _]%andb_true_iff. unfold SlotDuration.
  rewrite (Z.mul_comm 30), Z.rem_mul_r by lia. rewrite Hm, H30. lia.
Qed.

Section stored.
Context (time_in : string -> option Duration) (time_out : Duration -> string).

Definition stored (a b : Duration) (s : Schedule) : Schedule :=
  {| sc_ID := sc_ID s; sc_RoomID := sc_RoomID s; sc_DayOfWeek := sc_DayOfWeek s;
     sc_StartTime := time_out a; sc_EndTime := time_out b; sc_CreatedAt := sc_CreatedAt s |}.

(** What a batch adds. *)
Record added (l : list Schedule) (db db' : DB) : Prop := {
  added_only : db' = set_schedule_rows (db_schedule_rows db') db;
  added_keeps : db_schedules db ⊆ db_schedules db';
  added_new : forall i x, db_schedules db' !! i = Some x ->
    db_schedules db !! i = Some x \/
    exists s a b, s ∈ l /\ time_in (sc_StartTime s) = Some a /\ time_in (sc_EndTime s) = Some b /\
      (a < b)%Z /\ (1 <= sc_DayOfWeek s <= 7)%Z /\ x = stored a b s;
  added_all : forall s, s ∈ l -> exists i x, db_schedules db' !! i = Some x /\
    sc_RoomID x = sc_RoomID s /\ sc_DayOfWeek x = sc_DayOfWeek s;
  added_unique : unique_weekdays db -> unique_weekdays db';
  added_ok : forall rooms, (forall s, s ∈ l -> is_Some (rooms !! sc_RoomID s)) ->
    schedules_ok rooms (db_schedule_rows db) -> schedules_ok rooms (db_schedule_rows db') }.

Lemma insert_row_added s db db' : insert_row time_in time_out s db = Ok db' -> added [s] db db'.
Proof.
  unfold insert_row. destruct (time_in (sc_StartTime s)) as [a|] eqn:Ha; [|done].
  destruct (time_in (sc_EndTime s)) as [b|] eqn:Hb; [|done].
  destruct (Z.ltb_spec a b); [|done]. simpl.
  destruct ((1 <=? sc_DayOfWeek s)%Z && _) eqn:Hday; [|done]. simpl. destruct (has _ _) eqn:Hnew; [done|].
  case_bool_decide as Hdup; [done|]. intros [= <-].
  apply andb_true_iff in Hday as [H1%Z.leb_le H2%Z.leb_le].
  unfold has in Hnew. apply bool_decide_eq_false, eq_None_not_Some in Hnew.
  apply eq_None_not_Some in Hdup. rewrite first_where_None in Hdup.
  change (Build_Schedule _ _ _ _ _ _) with (stored a b s).
  set (row := {| sr_start := a; sr_end := b; sr_read := stored a b s |}).
  assert (db_schedules (set_schedule_rows (<[sc_ID s := row]> (db_schedule_rows db)) db) =
    <[sc_ID s := stored a b s]> (db_schedules db)) as Hins
    by (unfold db_schedules; simpl; by rewrite fmap_insert).
  split; [done|rewrite Hins..| |].
  - by apply insert_subseteq.
  - intros i x Hx. lookups; [right|by left]. exists s, a, b. split; [left|done].
  - intros x ->%list_elem_of_singleton. eexists _, _. by rewrite lookup_insert_eq.
  - intros [Hpk Hu]. unfold unique_weekdays. rewrite Hins.
    split; [by apply (primary_insert sc_ID _ (stored a b s))|].
    apply unique_insert; [done|]. intros j y Hj _ [[Hr Hd]|[Hr Hd]]; by apply (Hdup j y Hj).
  - intros rooms Hroom [Hpk Hfk Hdays Hab Hu]. split; simpl.
    + by apply (primary_insert (fun x => sc_ID (sr_read x)) _ row).
    + apply references_insert; [done|]. intros k [= <-]. apply Hroom. left.
    + intros i x Hx. lookups; [done|by eapply Hdays].
    + intros i x Hx. lookups; [done|by eapply Hab].
    + apply unique_insert; [done|]. intros j y Hj _ Hc. eapply (Hdup j (sr_read y)).
      * apply schedule_row. by exists y.
      * destruct Hc as [[Hr Hd]|[Hr Hd]]; by split.
Qed.

Lemma added_app l1 l2 db db1 db2 : added l1 db db1 -> added l2 db1 db2 -> added (l1 ++ l2) db db2.
Proof.
  intros [H1 K1 N1 A1 U1 O1] [H2 K2 N2 A2 U2 O2]. split.
  - rewrite H2, H1. by destruct db, db1, db2.
  - by etrans.
  - intros i x Hx. destruct (N2 i x Hx) as [Hi|(s & a & b & Hs & ?)]; [|right].
    + destruct (N1 i x Hi) as [?|(s & a & b & Hs & ?)]; [by left|right]. exists s, a, b.
      split; [apply elem_of_app; by left|done].
    + exists s, a, b. split; [apply elem_of_app; by right|done].
  - intros s [Hs|Hs]%elem_of_app; [|by apply A2].
    destruct (A1 s Hs) as (i & x & Hx & ?). exists i, x. split; [by eapply lookup_weaken|done].
  - auto.
  - intros rooms Hroom Hok. apply O2; [|apply O1; [|done]]; intros s Hs;
      apply Hroom, elem_of_app; auto.
Qed.

Lemma insert_rows_added l db db' : insert_rows time_in time_out l db = Ok db' -> added l db db'.
Proof.
  revert db. induction l as [|s l IH]; intros db; simpl.
  { intros [= <-]. split; [by destruct db|done|by left|by intros s ?%elem_of_nil|done..]. }
  destruct (insert_row _ _ s db) as [db1|] eqn:H1; [|done]. intros H2.
  apply (added_app [s] l _ db1); [by apply insert_row_added|by apply IH].
Qed.
End stored.

(** ** CreateSchedule *)

Section create.
Context (time_in : string -> option Duration) (time_out : Duration -> string).
Context (pg_message : string -> string -> string).
(** PostgreSQL reads a text that this package accepts as the same time of day, if at all,
    and writes a time without fraction as HH:MM:SS. *)
Context (time_in_agrees : forall s d d', parseTimeOfDay s = Ok d -> time_in s = Some d' -> d' = d).
Context (time_out_text : forall h m s, (0 <= h < 24)%Z -> (0 <= m < 60)%Z -> (0 <= s < 60)%Z ->
  time_out (h * Hour + m * Minute + s * Second)%Z = time_text h m s).

(** A stored time is read back by the generator. *)
Lemma read_back d :
  (0 <= d < Day)%Z -> (d `mod` Minute = 0)%Z -> SlotGen.parseTimeOfDay (time_out d) = Ok d.
Proof.
  intros Hd Hm. assert (d = d / Hour * Hour + (d / Minute) mod 60 * Minute + 0 * Second)%Z as Heq.
  { replace (d / Hour)%Z with ((d / Minute) / 60)%Z by (by rewrite Z.div_div).
    pose proof (Z.div_mod (d / Minute) 60 ltac:(done)).
    pose proof (Z.div_mod d Minute ltac:(done)). unfold Hour. lia. }
  assert (0 <= d / Hour < 24)%Z as Hh.
  { split; [apply Z.div_pos; [apply Hd|done]|]. apply Z.div_lt_upper_bound; [done|exact (proj2 Hd)]. }
  pose proof (Z.mod_pos_bound (d / Minute) 60 ltac:(done)) as Hmin.
  rewrite Heq at 1. rewrite time_out_text, parse_time_text by (done || lia). by rewrite <- Heq.
Qed.

Lemma make_schedules_spec H roomID input now days db out :
  wp H (make_schedules roomID input now days) (fun l db' out' => db' = db /\ out' = out /\
    sc_DayOfWeek <$> l = days /\ forall s, s ∈ l -> sc_RoomID s = roomID /\
      sc_StartTime s = in_StartTime input /\ sc_EndTime s = in_EndTime input) db out.
Proof.
  induction days as [|day days IH]; cbn [make_schedules].
  { apply wp_ret. split_and!; [done..|]. by intros s ?%elem_of_nil. }
  apply wp_bind, wp_uuid. intros id _. apply wp_ret. apply wp_bind.
  eapply wp_mono; [|exact IH]. intros l db' out' (-> & -> & Hdays & Hl). apply wp_ret.
  split_and!; [done|done|by rewrite fmap_cons, Hdays|].
  intros s [->|Hs]%elem_of_cons; [done|by apply Hl].
Qed.

(** What a successful CreateSchedule leaves behind. *)
Definition scheduled_for (user : User) (roomID : uuid) (input : CreateScheduleInput) (db db' : DB)
    : Prop :=
  us_Role user = RoleAdmin /\ is_Some (db_rooms db !! roomID) /\
  db_schedules db ⊆ db_schedules db' /\
  (forall d, d ∈ in_DaysOfWeek input <->
     exists i sch, db_schedules db' !! i = Some sch /\ sc_RoomID sch = roomID /\ sc_DayOfWeek sch = d) /\
  forall i sch, db_schedules db' !! i = Some sch -> sc_RoomID sch = roomID ->
    SlotGen.parseTimeOfDay (sc_StartTime sch) = parseTimeOfDay (in_StartTime input) /\
    SlotGen.parseTimeOfDay (sc_EndTime sch) = parseTimeOfDay (in_EndTime input).

Section batch.
Context (roomID : uuid) (input : CreateScheduleInput) (a b : Duration) (db : DB).
Context (Ha : parseTimeOfDay (in_StartTime input) = Ok a).
Context (Hb : parseTimeOfDay (in_EndTime input) = Ok b).
Context (Hga : (a `mod` SlotDuration = 0)%Z) (Hgb : (b `mod` SlotDuration = 0)%Z).
Context (l : list Schedule).
Context (Hl : forall s, s ∈ l -> sc_RoomID s = roomID /\
  sc_StartTime s = in_StartTime input /\ sc_EndTime s = in_EndTime input).

Lemma new_row db' i x :
  added time_in time_out l db db' -> db_schedules db' !! i = Some x ->
  db_schedules db !! i = Some x \/
  proper_schedule x /\ sc_RoomID x = roomID /\ (exists s, s ∈ l /\ sc_DayOfWeek x = sc_DayOfWeek s) /\
  SlotGen.parseTimeOfDay (sc_StartTime x) = Ok a /\ SlotGen.parseTimeOfDay (sc_EndTime x) = Ok b.
Proof.
  intros Hadd Hx. destruct (added_new _ _ _ _ _ Hadd i x Hx) as [?|(s & a' & b' & Hs & Hia & Hib & Hlt & Hday & ->)];
    [by left|right]. destruct (Hl s Hs) as (Hr & Hst & Hen). rewrite Hst in Hia. rewrite Hen in Hib.
  rewrite (time_in_agrees _ _ _ Ha Hia) in *. rewrite (time_in_agrees _ _ _ Hb Hib) in *.
  destruct (parseTimeOfDay_minutes _ _ Ha) as [Hra Hma], (parseTimeOfDay_minutes _ _ Hb) as [Hrb Hmb].
  pose proof (read_back a Hra Hma). pose proof (read_back b Hrb Hmb).
  split_and!; simpl; [|done|by exists s|done|done].
  split; [done|]. exists a, b. by split_and!.
Qed.

Lemma added_proper db' :
  added time_in time_out l db db' -> proper_schedules db -> proper_schedules db'.
Proof.
  intros Hadd [Hu Hp]. split; [by eapply added_unique|]. intros i x Hx.
  destruct (new_row db' i x Hadd Hx) as [?|[? _]]; [by eapply Hp|done].
Qed.

Lemma added_scheduled user db' :
  us_Role user = RoleAdmin -> is_Some (db_rooms db !! roomID) ->
  first_where (fun s => sc_RoomID s = roomID) (db_schedules db) = None ->
  sc_DayOfWeek <$> l = sorted_days (in_DaysOfWeek input) ->
  added time_in time_out l db db' -> scheduled_for user roomID input db db'.
Proof.
  intros Hrole Hroom Hno Hdays Hadd. rewrite first_where_None in Hno.
  assert (forall d, d ∈ in_DaysOfWeek input <-> exists s, s ∈ l /\ d = sc_DayOfWeek s) as Hin.
  { intros d. rewrite <- (elem_of_remove_dups (in_DaysOfWeek input)).
    rewrite <- (elem_of_order_by id). change (order_by id _) with (sorted_days (in_DaysOfWeek input)).
    rewrite <- Hdays, list_elem_of_fmap. naive_solver. }
  split_and!; [done|done|by eapply added_keeps|..].
  - intros d. rewrite Hin. split.
    + intros (s & Hs & ->). destruct (added_all _ _ _ _ _ Hadd s Hs) as (i & x & Hx & Hr & Hd).
      exists i, x. destruct (Hl s Hs) as [Hrs _]. split_and!; congruence.
    + intros (i & x & Hx & Hr & <-).
      destruct (new_row db' i x Hadd Hx) as [Hold|(_ & _ & ? & _)]; [by destruct (Hno i x Hold)|done].
  - intros i x Hx Hr. rewrite Ha, Hb.
    destruct (new_row db' i x Hadd Hx) as [Hold|(_ & _ & _ & ?)]; [by destruct (Hno i x Hold)|done].
Qed.
End batch.

(** What any call may leave behind, and what it returns. *)
Definition schedule_outcome (user : User) (roomID : uuid) (input : CreateScheduleInput) (db : DB)
    (r : result (uuid * list ScheduleRule)) (db' : DB) : Prop :=
  (proper_schedules db -> proper_schedules db') /\
  (db' = db \/ scheduled_for user roomID input db db') /\
  forall rid rules, r = Ok (rid, rules) -> rid = roomID /\
    ru_DayOfWeek <$> rules = sorted_days (in_DaysOfWeek input) /\
    scheduled_for user roomID input db db'.

Lemma refused user roomID input db e : schedule_outcome user roomID input db (Err e) db.
Proof. split_and!; [done|by left|done]. Qed.

Lemma CreateBatch_outcome user roomID input days a b (db : DB) l out :
  us_Role user = RoleAdmin -> is_Some (db_rooms db !! roomID) ->
  first_where (fun s => sc_RoomID s = roomID) (db_schedules db) = None ->
  parseTimeOfDay (in_StartTime input) = Ok a -> parseTimeOfDay (in_EndTime input) = Ok b ->
  (a `mod` SlotDuration = 0)%Z -> (b `mod` SlotDuration = 0)%Z ->
  days = sorted_days (in_DaysOfWeek input) -> sc_DayOfWeek <$> l = days ->
  (forall s, s ∈ l -> sc_RoomID s = roomID /\
    sc_StartTime s = in_StartTime input /\ sc_EndTime s = in_EndTime input) ->
  wp anything (CreateBatch time_in time_out l) (fun r db' _ =>
    (proper_schedules db -> proper_schedules db') /\
    (db' = db \/ scheduled_for user roomID input db db') /\
    (r = Ok tt -> scheduled_for user roomID input db db')) db out.
Proof.
  intros Hrole Hroom Hno Ha Hb Hga Hgb -> Hdays Hl.
  assert (forall db', added time_in time_out l db db' ->
    (proper_schedules db -> proper_schedules db') /\ scheduled_for user roomID input db db') as Hadd.
  { intros db' Hadd. split; [by eapply added_proper|by eapply added_scheduled]. }
  assert (forall ans, (exists e, insert_batch time_in time_out l ans db = (Err e, db)) \/
    exists db', insert_batch time_in time_out l ans db = (Ok tt, db') /\
      added time_in time_out l db db') as Hins.
  { intros ans. unfold insert_batch.
    destruct (insert_rows _ _ l db) as [db'|] eqn:Hrows; [|by left; eexists].
    destruct (forallb _ l); [|by left; eexists].
    right. exists db'. split; [done|by apply insert_rows_added]. }
  unfold CreateBatch. destruct l as [|s l].
  { destruct (Hadd db) as [? ?]; [by apply (insert_rows_added _ _ [])|].
    apply wp_ret. split_and!; auto. }
  norm. apply wp_sql.
  - intros _ ans m. split; [apply wp_ret; by split_and!; [|left|]|].
    destruct (Hins ans) as [[e ->]|(db' & -> & Hdb')]; apply wp_ret; [by split_and!; [|left|]|].
    destruct (Hadd _ Hdb'). by split_and!; [|right|].
  - intros ans _. destruct (Hins ans) as [[e ->]|(db' & -> & Hdb')]; apply wp_ret;
      [by split_and!; [|left|]|]. destruct (Hadd _ Hdb'). by split_and!; [|right|].
Qed.

Lemma CreateSchedule_outcome user roomID input db out :
  wp anything (CreateSchedule time_in time_out pg_message user roomID input)
    (fun r db' _ => schedule_outcome user roomID input db r db') db out.
Proof.
  pose proof (refused user roomID input db) as Hno.
  unfold CreateSchedule, RoomRepo.GetByID, ScheduleRepo.ExistsByRoomID.
  case_bool_decide as Hrole; [by apply wp_ret|]. case_bool_decide; [by apply wp_ret|].
  norm. apply wp_query; [intros _ m; by apply wp_ret|].
  destruct (db_rooms db !! roomID) as [room|] eqn:Hroom; norm; [|by apply wp_ret].
  apply wp_query; [intros _ m; by apply wp_ret|].
  case_bool_decide as Hnone; norm; [by apply wp_ret|].
  destruct (existsb _ _); [by apply wp_ret|].
  destruct (parseTimeOfDay (in_StartTime input)) as [a|] eqn:Ha; [|by apply wp_ret].
  destruct (parseTimeOfDay (in_EndTime input)) as [b|] eqn:Hb; [|by apply wp_ret].
  destruct (isAlignedToSlotGrid a) eqn:Hga; [|by apply wp_ret].
  destruct (isAlignedToSlotGrid b) eqn:Hgb; [|by apply wp_ret].
  norm. destruct (b <=? a)%Z; [by apply wp_ret|].
  destruct (parseTimeOfDay_minutes _ _ Ha) as [[Ha0 _] Hma], (parseTimeOfDay_minutes _ _ Hb) as [[Hb0 _] Hmb].
  apply wp_now. intros now _. apply wp_bind.
  eapply wp_mono; [|apply make_schedules_spec]. intros l db' out' (-> & -> & Hdays & Hl).
  apply wp_bind, wp_bind. eapply wp_mono; [|eapply (CreateBatch_outcome user roomID input)]; try done.
  - intros [[]|e] db' out'' (Hp & Hc & Hok); norm.
    + apply wp_ret. split_and!; [done|done|]. intros rid rules [= <- <-].
      split_and!; [done| |by apply Hok]. rewrite <- list_fmap_compose. apply list_fmap_id.
    + destruct (isScheduleConflictError _ e); apply wp_ret; split_and!; done.
  - by apply eq_None_not_Some.
  - by apply (aligned_grid a).
  - by apply (aligned_grid b).
Qed.

(** C32. Whatever fails, CreateSchedule stores only schedules the slot generator can work
    with: days of the week 1..7, at most one row per room and day, times the generator reads
    back, on its grid and in order. An accepted call is an administrator's, for an existing
    room, keeps the other schedules and leaves the room with rows for exactly the days asked
    for, which the generator reads as the times asked for; any other call changes nothing,
    except that the confirmation of a complete INSERT may be lost. *)
Theorem schedules_feed_the_generator E w user roomID input :
  let x := run E (CreateSchedule time_in time_out pg_message user roomID input) w in
  schedule_outcome user roomID input (w_db w) x.1 (w_db x.2).
Proof.
  exact (wp_run anything E _ _ w (respects_anything E)
    (CreateSchedule_outcome user roomID input (w_db w) (w_out w))).
Qed.
End create.

(** A server that reads the texts this package reads. *)
Definition reads_time (s : string) : option Duration :=
  match parseTimeOfDay s with Ok d => Some d | Err _ => None end.
Definition writes_time (d : Duration) : string :=
  time_text (d / Hour) ((d / Minute) `mod` 60) ((d / Second) `mod` 60).

Lemma writes_time_text h m s :
  (0 <= h < 24)%Z -> (0 <= m < 60)%Z -> (0 <= s < 60)%Z ->
  writes_time (h * Hour + m * Minute + s * Second) = time_text h m s.
Proof.
  intros Hh Hm Hs. unfold writes_time. f_equal; unfold Hour, Minute, Second; Z.div_mod_to_equations; lia.
Qed.

Definition weekend : CreateScheduleInput :=
  {| in_DaysOfWeek := [7; 6; 7]%Z; in_StartTime := "09:00"; in_EndTime := "10:30" |}.
Definition create_weekend :=
  CreateSchedule reads_time writes_time (fun _ constraint => constraint) root 10 weekend.

Lemma schedules_feed_the_generator_witness :
  (run env create_weekend start).1 = Ok (10%N,
     [{| ru_DayOfWeek := 6; ru_StartTime := "09:00"; ru_EndTime := "10:30" |};
      {| ru_DayOfWeek := 7; ru_StartTime := "09:00"; ru_EndTime := "10:30" |}]) /\
  proper_schedules (w_db (run env create_weekend start).2).
Proof.
  split; [by vm_compute|].
  apply (schedules_feed_the_generator reads_time writes_time (fun _ constraint => constraint)).
  - unfold reads_time. intros s d d' ->. by intros [= <-].
  - exact writes_time_text.
  - split; [|by intros i s ?]. by split; intros i; intros.
Defined.
