(* ===== verification/Auth.v ===== *)
(** * Auth: internal/usecase/auth/service.go

    Registration, login and the signing of tokens. *)

From Stdlib Require Import Ascii.
From S2P Require Import Prelude Domain GoStd Text Json Platform Database Program Postgres Usecase.

(** [string(role)] and [domain.UserRole(s)]. *)
Definition role_string (r : UserRole) : string :=
  match r with
  | RoleAdmin => "admin"
  | RoleUser => "user"
  | RoleOther s => s
  end.

Definition role_of (s : string) : UserRole :=
  if bool_decide (s = "admin") then RoleAdmin
  else if bool_decide (s = "user") then RoleUser
  else RoleOther s.

(** [Time.Unix]: seconds. *)
Definition Unix (t : time) : Z := (t / Second)%Z.

Section auth.
Context (P : Platform).

(** ** hmacJWTSigner *)

Definition jwt_header : json :=
  JObj [(bytes_of "alg", of_string "HS256"); (bytes_of "typ", of_string "JWT")].

(** The keys of a map are marshalled in order. *)
Definition jwt_payload (userID : uuid) (role : UserRole) (exp : Z) : json :=
  JObj [(bytes_of "exp", of_int exp);
        (bytes_of "role", of_string (role_string role));
        (bytes_of "user_id", JStr (uuid_String userID))].

Definition signed (secret : bytes) (unsigned : bytes) : bytes :=
  unsigned ++ "."%char :: EncodeToString (HMAC P secret unsigned).

Definition unsigned_token (userID : uuid) (role : UserRole) (exp : Z) : bytes :=
  EncodeToString (print jwt_header) ++ "."%char ::
  EncodeToString (print (jwt_payload userID role exp)).

Definition Sign (secret : bytes) (userID : uuid) (role : UserRole) : prog (result bytes) :=
  let! now := perform Now in
  let exp := Unix (now + 24 * Hour)%Z in
  ok (signed secret (unsigned_token userID role exp)).

(** ** Service *)

Definition normalizeEmail (email : bytes) : bytes := ToLower P (TrimSpace email).

Definition isValidEmail (email : bytes) : bool :=
  match email with
  | [] => false
  | _ =>
      match ParseAddress P email with
      | None => false
      | Some address => bool_decide (address = email)
      end
  end.

Definition Register (email password : bytes) (role : UserRole) : prog (result User) :=
  let email := normalizeEmail email in
  if negb (isValidEmail email)
  then fail (NewDomainError ErrorInvalidRequest "invalid email")
  else
    let password := TrimSpace password in
    if bool_decide (password = [])
    then fail (NewDomainError ErrorInvalidRequest "password is required")
    else if (length password <? 8)%nat
    then fail (NewDomainError ErrorInvalidRequest "password must be at least 8 characters")
    else if bool_decide (role <> RoleAdmin) && bool_decide (role <> RoleUser)
    then fail (NewDomainError ErrorInvalidRequest "invalid role")
    else
      let? existing := on_err (wrap ErrorInternalError "get user by email")
        (UserRepo.GetByEmail (string_of email)) in
      match existing with
      | Some _ => fail (NewDomainError ErrorInvalidRequest "email already exists")
      | None =>
          match GenerateFromPassword P password with
          | Err err => fail (wrap ErrorInternalError "hash password" err)
          | Ok hash =>
              let! id := perform NewUUID in
              let! now := perform Now in
              let user :=
                {| us_ID := id; us_Email := string_of email; us_PasswordHash := Some hash;
                   us_Role := role; us_CreatedAt := now |} in
              let? _ := on_err (fun err =>
                  match AsDomainError err with
                  | Some _ => err
                  | None => wrap ErrorInternalError "create user" err
                  end) (UserRepo.Create user) in
              ok user
          end
      end.

Definition invalid_credentials : error := NewDomainError ErrorUnauthorized "invalid credentials".

Definition Login (secret : bytes) (email password : bytes) : prog (result bytes) :=
  let email := normalizeEmail email in
  if negb (isValidEmail email) || bool_decide (TrimSpace password = [])
  then fail invalid_credentials
  else
    let? user := on_err (wrap ErrorInternalError "get user by email")
      (UserRepo.GetByEmail (string_of email)) in
    match user with
    | None => fail invalid_credentials
    | Some user =>
        match us_PasswordHash user with
        | None => fail invalid_credentials
        | Some hash =>
            if negb (CompareHashAndPassword P hash password)
            then fail invalid_credentials
            else
              on_err (wrap ErrorInternalError "sign token")
                (Sign secret (us_ID user) (us_Role user))
        end
    end.

(** The two fixed users. *)
Definition dummy_admin : uuid := 0x11111111111111111111111111111111%N.
Definition dummy_user : uuid := 0x22222222222222222222222222222222%N.

Definition DummyLogin (secret : bytes) (role : UserRole) : prog (result bytes) :=
  match role with
  | RoleAdmin => Sign secret dummy_admin role
  | RoleUser => Sign secret dummy_user role
  | RoleOther _ => fail (NewDomainError ErrorInvalidRequest "invalid role")
  end.
End auth.
