(* ===== verification/Middleware.v ===== *)
(** * Middleware: internal/transport/http/middleware

    Who sends a request: tokens and the Authorization header (auth.go); the request
    identifier (request_id.go) and the CORS headers (cors.go). *)

From Stdlib Require Import Ascii.
From S2P Require Import Prelude Domain GoStd Text Json Dates Platform Database Program Postgres Usecase.
From S2P Require Import Auth.

(** ** auth.go *)

Record jwtClaims := {
  cl_UserID : string;
  cl_Role : string;
  cl_Exp : Z }.

#[export] Instance decode_claims : Decode jwtClaims := {
  zero := {| cl_UserID := ""; cl_Role := ""; cl_Exp := 0 |};
  decode := decode_struct [
    at_field "user_id" cl_UserID
      (fun x c => {| cl_UserID := x; cl_Role := cl_Role c; cl_Exp := cl_Exp c |});
    at_field "role" cl_Role
      (fun x c => {| cl_UserID := cl_UserID c; cl_Role := x; cl_Exp := cl_Exp c |});
    at_field "exp" cl_Exp
      (fun x c => {| cl_UserID := cl_UserID c; cl_Role := cl_Role c; cl_Exp := x |})] }.

Definition unauthorized (message : string) : error := NewDomainError ErrorUnauthorized message.

(** An error of a decoder, of which only the presence matters. *)
Definition decoding : error := PlainError "decoding".

Definition bearerToken (authHeader : bytes) : bytes :=
  let prefix := bytes_of "Bearer " in
  if negb (has_prefix prefix authHeader) then []
  else TrimSpace (drop (length prefix) authHeader).

Section auth.
Context (P : Platform) (secret : bytes).

Definition parseUserID (raw : string) : result uuid :=
  match uuid_Parse P (bytes_of raw) with
  | Some id => Ok id
  | None => Err (wrap ErrorUnauthorized "invalid user id in token" decoding)
  end.

Definition user_of_claims (claims : jwtClaims) : result User :=
  match parseUserID (cl_UserID claims) with
  | Err err => Err err
  | Ok userID =>
      let role := role_of (cl_Role claims) in
      if bool_decide (role <> RoleAdmin) && bool_decide (role <> RoleUser)
      then Err (unauthorized "invalid role claim")
      else Ok {| us_ID := userID; us_Email := ""; us_PasswordHash := None; us_Role := role;
                 us_CreatedAt := zero_time |}
  end.

Definition parseAndValidateToken (token : bytes) : prog (result User) :=
  match split "." token with
  | [header; body; sig] =>
      let unsigned := header ++ "."%char :: body in
      match DecodeString sig with
      | None => fail (wrap ErrorUnauthorized "invalid token signature" decoding)
      | Some signature =>
          if negb (bool_decide (signature = HMAC P secret unsigned))
          then fail (unauthorized "invalid token signature")
          else
            match DecodeString body with
            | None => fail (wrap ErrorUnauthorized "invalid token payload" decoding)
            | Some payload =>
                match Unmarshal payload with
                | None => fail (wrap ErrorUnauthorized "invalid token claims" decoding)
                | Some claims =>
                    let! expired :=
                      if (0 <? cl_Exp claims)%Z
                      then (let! now := perform Now in Ret (cl_Exp claims <=? Unix now)%Z)
                      else Ret false in
                    if (expired : bool) then fail (unauthorized "token is expired")
                    else Ret (user_of_claims claims)
                end
            end
      end
  | _ => fail (unauthorized "invalid token format")
  end.

Definition AuthenticateToken (token : bytes) : prog (result User) := parseAndValidateToken token.

Definition AuthenticateRequest (authorization : bytes) : prog (result User) :=
  let token := bearerToken authorization in
  if bool_decide (token = []) then fail (unauthorized "missing bearer token")
  else AuthenticateToken token.
End auth.

(** ** request_id.go *)

Definition request_id (header : bytes) : prog bytes :=
  let id := TrimSpace header in
  if bool_decide (id = []) then (let! id := perform NewUUID in Ret (uuid_String id))
  else Ret id.

(** ** cors.go *)

(** The header [Access-Control-Allow-Origin] of the response, if any. *)
Definition allow_origin (allowedOrigins : list bytes) (header : bytes) : option bytes :=
  let origin := TrimSpace header in
  let star := bytes_of "*" in
  if bool_decide (origin = []) then None
  else if bool_decide (star ∈ allowedOrigins) then Some star
  else if bool_decide (origin ∈ TrimSpace <$> filter (fun o => o <> star) allowedOrigins)
  then Some origin
  else None.

Definition corsAllowMethods : string := "GET,POST,PUT,PATCH,DELETE,OPTIONS".
Definition corsAllowHeaders : string := "Authorization,Content-Type,X-Request-ID".
Definition corsExposeHeader : string := "X-Request-ID".
Definition corsMaxAge : string := "600".

(** The headers that [CORS] sets. *)
Definition CORS (allowedOrigins : list bytes) (header : bytes) : list (string * bytes) :=
  match allow_origin allowedOrigins header with
  | None => []
  | Some origin =>
      [("Access-Control-Allow-Origin"%string, origin)] ++
      (if bool_decide (bytes_of "*" ∈ allowedOrigins) then [] else [("Vary"%string, bytes_of "Origin")]) ++
      [("Access-Control-Allow-Methods"%string, bytes_of corsAllowMethods);
       ("Access-Control-Allow-Headers"%string, bytes_of corsAllowHeaders);
       ("Access-Control-Expose-Headers"%string, bytes_of corsExposeHeader);
       ("Access-Control-Max-Age"%string, bytes_of corsMaxAge)]
  end.

(** An origin is let in exactly if it is listed, or everybody is; it is named unless
    everybody is, and then caches are told that the answer varies with it. *)
Lemma CORS_lets_in allowed header o :
  ("Access-Control-Allow-Origin"%string, o) ∈ CORS allowed header <->
  TrimSpace header <> [] /\
  (bytes_of "*" ∈ allowed /\ o = bytes_of "*" \/
   bytes_of "*" ∉ allowed /\ o = TrimSpace header /\ exists x, x ∈ allowed /\ TrimSpace x = o).
Proof.
  assert (("Access-Control-Allow-Origin"%string, o) ∈ CORS allowed header <->
    allow_origin allowed header = Some o) as ->.
  { unfold CORS. destruct (allow_origin allowed header) as [o'|]; [|by split; [intros ?%elem_of_nil|]].
    split; [|intros [= ->]; by left]. case_bool_decide; set_solver. }
  unfold allow_origin. repeat case_bool_decide; try (split; [done|]; naive_solver); [naive_solver|..].
  - split; [intros [= <-]; split_and!; try done|naive_solver].
    right. split_and!; try done. apply list_elem_of_fmap in H1 as (x & Hx & Hin).
    apply list_elem_of_filter in Hin as [_ Hin]. by exists x.
  - split; [done|]. intros (_ & [[? _]|(_ & -> & x & Hin & Hx)]); [done|]. destruct H1.
    apply list_elem_of_fmap. exists x. split; [done|]. apply list_elem_of_filter. split; [|done]. by intros ->.
Qed.
