(* ===== verification/Sessions.v ===== *)
(** * Sessions: what holds of passwords and tokens *)

From Stdlib Require Import Ascii.
From S2P Require Import Prelude Domain GoStd Text Json Dates Platform Database Program Postgres Schema Usecase.
From S2P Require Import Auth Middleware Scenario.

(** ** The texts of a token *)

Lemma TrimSpace_all_plain s : Forall GoStd.plain s -> TrimSpace s = s.
Proof.
  intros Hs. destruct s as [|c s]; [done|]. inversion Hs as [|? ? Hc Hl]; subst.
  destruct s as [|d l _] using rev_ind.
  - destruct Hc as [Hc _]. unfold TrimSpace, trim_left, trim_right. simpl. rewrite Hc. simpl.
    by rewrite Hc.
  - apply TrimSpace_plain; [done|]. apply Forall_app in Hl as [_ Hl]. by inversion Hl.
Qed.

Lemma token_char_plain c : c ∈ encodeURL \/ c = "."%char -> GoStd.plain c.
Proof.
  assert (forallb (fun c => negb (is_space c) && (N_of_ascii c <? 128)%N) ("."%char :: encodeURL) = true)
    as Hall by done.
  rewrite forallb_forall in Hall. intros Hc. specialize (Hall c).
  rewrite andb_true_iff, negb_true_iff, N.ltb_lt in Hall. apply Hall, list_elem_of_In.
  destruct Hc as [Hc| ->]; [by right|by left].
Qed.

Lemma EncodeToString_plain s : Forall GoStd.plain (EncodeToString s).
Proof. apply Forall_forall. intros c Hc. apply token_char_plain. left. by eapply encoded_chars. Qed.

Lemma dot_plain : GoStd.plain "."%char.
Proof. apply token_char_plain. by right. Qed.

Lemma hex_plain n x : Json.plain (hex n x).
Proof.
  revert x. induction n as [|n IH]; intros x; cbn [hex]; [done|]. apply plain_app; [apply IH|].
  assert (forallb (fun k => plain_char (hex_digit (N.of_nat k))) (seq 0 16) = true) as Hall by done.
  rewrite forallb_forall in Hall. unfold Json.plain. simpl. rewrite andb_true_r.
  pose proof (N.mod_lt x 16 ltac:(done)) as Hx. set (d := (x `mod` 16)%N) in *. clearbody d.
  rewrite <- (N2Nat.id d). apply Hall, in_seq. lia.
Qed.

Lemma uuid_String_plain u : Json.plain (uuid_String u).
Proof.
  pose proof (hex_plain 32 u) as Hh. apply plain_Forall in Hh. apply plain_Forall.
  unfold uuid_String. cbv zeta.
  repeat apply Forall_app_2; auto using Forall_take, Forall_drop; by constructor.
Qed.

Lemma bearerToken_prefix t : bearerToken (bytes_of "Bearer " ++ t) = TrimSpace t.
Proof. done. Qed.

(** ** Reading the own tokens *)

Section tokens.
Context (P : Platform) (HP : parses_uuids P) (secret : bytes).
Context (userID : uuid) (role : UserRole) (exp : Z).
Context (Hid : (userID < 2 ^ 128)%N) (Hrole : role = RoleAdmin \/ role = RoleUser).
Context (Hexp : (0 < exp < 2 ^ 63)%Z).

Lemma payload_flat : exists l, jwt_payload userID role exp = JObj l /\ flat l /\ l <> [].
Proof.
  eexists. split; [done|]. split; [|done].
  repeat constructor; cbn; try done; try apply uuid_String_plain.
  - exists exp. split; [lia|done].
  - by destruct Hrole as [-> | ->].
Qed.

Lemma read_payload : Unmarshal (print (jwt_payload userID role exp)) =
  Some {| cl_UserID := string_of (uuid_String userID); cl_Role := role_string role; cl_Exp := exp |}.
Proof.
  destruct payload_flat as (l & Hl & Hf & Hne). rewrite Hl, Unmarshal_flat by done. rewrite <- Hl.
  unfold jwt_payload, decode, decode_claims, decode_struct.
  erewrite decode_member by reflexivity. cbn [at_field snd decode decode_int of_int].
  rewrite ParseInt_FormatInt by lia. cbn [mbind option_bind].
  erewrite decode_member by reflexivity. cbn [at_field snd decode decode_string of_string].
  cbn [mbind option_bind]. erewrite decode_member by reflexivity.
  cbn [at_field snd decode decode_string mbind option_bind decode_members].
  by rewrite string_of_bytes_of.
Qed.

Definition token : bytes := signed P secret (unsigned_token userID role exp).

Lemma split_token : split "." token =
  [EncodeToString (print jwt_header); EncodeToString (print (jwt_payload userID role exp));
   EncodeToString (HMAC P secret (unsigned_token userID role exp))].
Proof.
  unfold token, signed, unsigned_token. rewrite <- app_assoc. cbn [app].
  rewrite !split_app by apply encoded_no_dot. by rewrite split_clean by apply encoded_no_dot.
Qed.

Lemma token_plain : Forall GoStd.plain token.
Proof.
  unfold token, signed, unsigned_token.
  rewrite !Forall_app, !Forall_cons.
  split_and!; auto using EncodeToString_plain, dot_plain.
Qed.

Lemma bearer_token : bearerToken (bytes_of "Bearer " ++ token) = token.
Proof. rewrite bearerToken_prefix. apply TrimSpace_all_plain, token_plain. Qed.

(** The user a token of the service stands for. *)
Definition session_user : User :=
  {| us_ID := userID; us_Email := ""; us_PasswordHash := None; us_Role := role;
     us_CreatedAt := zero_time |}.

Lemma token_claims : user_of_claims P
    {| cl_UserID := string_of (uuid_String userID); cl_Role := role_string role; cl_Exp := exp |} =
  Ok session_user.
Proof.
  unfold user_of_claims, parseUserID. cbn [cl_UserID cl_Role].
  rewrite bytes_of_string_of, HP by done. unfold session_user. by destruct Hrole as [-> | ->].
Qed.

Lemma authenticate_token E w :
  run E (AuthenticateRequest P secret (bytes_of "Bearer " ++ token)) w =
  ((if (exp <=? Unix (env_now E (w_clock w)))%Z then Err (unauthorized "token is expired")
    else Ok session_user),
   Build_World (w_db w) (w_calls w) (S (w_clock w)) (w_ids w) (w_out w)).
Proof.
  unfold AuthenticateRequest. rewrite bearer_token.
  assert (token <> []) as Hne by (intros Heq; pose proof split_token as Hs; by rewrite Heq in Hs).
  rewrite bool_decide_false by done. unfold AuthenticateToken, parseAndValidateToken.
  rewrite split_token, !DecodeString_EncodeToString.
  fold (unsigned_token userID role exp). rewrite bool_decide_true by done. cbn [negb].
  rewrite read_payload. cbn [cl_Exp]. rewrite (proj2 (Z.ltb_lt _ _)) by lia.
  cbn [bind perform]. rewrite run_now. rewrite token_claims.
  by destruct (exp <=? _)%Z.
Qed.
End tokens.

(** C33. A token signed at login lets its bearer act as that user, in that role, for a day
    to the second, and not afterwards; reading it changes nothing. *)
Theorem tokens_last_a_day P secret E w userID role :
  parses_uuids P -> (userID < 2 ^ 128)%N -> role = RoleAdmin \/ role = RoleUser ->
  (0 <= Unix (env_now E (w_clock w)) < 2 ^ 62)%Z ->
  exists token, (run E (Sign P secret userID role) w).1 = Ok token /\
    forall E' w',
      let x := run E' (AuthenticateRequest P secret (bytes_of "Bearer " ++ token)) w' in
      x.1 = (if (Unix (env_now E (w_clock w)) + 86400 <=? Unix (env_now E' (w_clock w')))%Z
             then Err (unauthorized "token is expired") else Ok (session_user userID role)) /\
      w_db x.2 = w_db w'.
Proof.
  intros HP Hid Hrole Hnow. set (exp := (Unix (env_now E (w_clock w)) + 86400)%Z).
  exists (token P secret userID role exp). split.
  - assert (Unix (env_now E (w_clock w) + 24 * Hour) = exp) as <-; [|done].
    unfold exp, Unix. change (24 * Hour)%Z with (86400 * Second)%Z. by apply Z.div_add.
  - intros E' w'. cbv zeta.
    by rewrite (authenticate_token P HP secret userID role exp Hid Hrole) by (subst exp; lia).
Qed.

Lemma tokens_last_a_day_witness :
  exists token, (run env (Sign sample [] 1 RoleUser) start).1 = Ok token /\
    (run env (AuthenticateRequest sample [] (bytes_of "Bearer " ++ token)) start).1 =
      Ok (session_user 1 RoleUser).
Proof.
  destruct (tokens_last_a_day sample [] env start 1 RoleUser) as (token & Hs & Ha).
  - exact sample_parses_uuids.
  - done.
  - by right.
  - by vm_compute.
  - exists token. split; [exact Hs|]. exact (proj1 (Ha env start)).
Defined.

(** What it takes to be let in as [user] with the clock at [now]. *)
Definition vouched (P : Platform) (secret token : bytes) (now : time) (user : User) : Prop :=
  exists header body sig payload claims,
    token = header ++ "."%char :: body ++ "."%char :: sig /\
    DecodeString sig = Some (HMAC P secret (header ++ "."%char :: body)) /\
    DecodeString body = Some payload /\ Unmarshal payload = Some claims /\
    uuid_Parse P (bytes_of (cl_UserID claims)) = Some (us_ID user) /\
    role_of (cl_Role claims) = us_Role user /\
    (us_Role user = RoleAdmin \/ us_Role user = RoleUser) /\
    ((0 < cl_Exp claims)%Z -> (Unix now < cl_Exp claims)%Z).

Lemma user_of_claims_ok P claims user : user_of_claims P claims = Ok user ->
  uuid_Parse P (bytes_of (cl_UserID claims)) = Some (us_ID user) /\
  role_of (cl_Role claims) = us_Role user /\ (us_Role user = RoleAdmin \/ us_Role user = RoleUser).
Proof.
  unfold user_of_claims, parseUserID. destruct (uuid_Parse _ _) as [id|]; [|done].
  destruct (role_of _) as [| |s]; cbn; intros [= <-]; naive_solver.
Qed.

Lemma split3 token header body sig : split "." token = [header; body; sig] ->
  token = header ++ "."%char :: body ++ "."%char :: sig.
Proof.
  intros Hs. destruct (split_join "." token) as (p & ps & Hp & -> & _). rewrite Hs in Hp.
  injection Hp as <- <-. cbn. by rewrite app_nil_r.
Qed.

Lemma authenticate_token_inert P secret token : Inert (parseAndValidateToken P secret token).
Proof. unfold parseAndValidateToken. inertly. Qed.

Lemma authenticate_inert P secret authorization : Inert (AuthenticateRequest P secret authorization).
Proof.
  unfold AuthenticateRequest, AuthenticateToken.
  case_bool_decide; [apply _|apply authenticate_token_inert].
Qed.

(** What a token that is accepted looks like. *)
Lemma token_vouched P secret token E w user :
  (run E (parseAndValidateToken P secret token) w).1 = Ok user ->
  vouched P secret token (env_now E (w_clock w)) user.
Proof.
  unfold parseAndValidateToken. destruct (split "." token) as [|header [|body [|sig [|]]]] eqn:Hs; try done.
  destruct (DecodeString sig) as [signature|] eqn:Hsig; [|done].
  case_bool_decide as Hmac; [|done]. cbn [negb]. destruct (DecodeString body) as [payload|] eqn:Hbody; [|done].
  destruct (Unmarshal payload) as [claims|] eqn:Hclaims; [|done].
  rewrite run_bind. intros Hrun. apply split3 in Hs. subst signature.
  exists header, body, sig, payload, claims.
  destruct (Z.ltb_spec 0 (cl_Exp claims)) as [Hpos|Hpos]; cbn [bind perform run sem fst snd] in Hrun.
  - destruct (Z.leb_spec (cl_Exp claims) (Unix (env_now E (w_clock w)))); [done|].
    apply user_of_claims_ok in Hrun as (? & ? & ?). by split_and!.
  - apply user_of_claims_ok in Hrun as (? & ? & ?). split_and!; try done. lia.
Qed.

(** What an accepted header looks like. *)
Lemma header_vouched P secret authorization E w user :
  (run E (AuthenticateRequest P secret authorization) w).1 = Ok user ->
  authorization = bytes_of "Bearer " ++ drop 7 authorization /\
  vouched P secret (TrimSpace (drop 7 authorization)) (env_now E (w_clock w)) user.
Proof.
  unfold AuthenticateRequest. case_bool_decide as Hne; [done|]. intros Hrun.
  unfold bearerToken in *. destruct (has_prefix _ authorization) eqn:Hp; [|done]. cbn [negb] in *.
  split; [by apply has_prefix_drop|]. by apply token_vouched.
Qed.

(** C34. Nobody is let in without the secret: an accepted Authorization header carries a
    token whose signature is the HMAC, under the secret of the service, of exactly the header
    and the claims it was accepted for; the claims name the user and a role, and have not
    expired.  Nothing is changed on the way, accepted or not. *)
Theorem accepted_tokens_are_signed P secret authorization E w :
  let x := run E (AuthenticateRequest P secret authorization) w in
  w_db x.2 = w_db w /\ w_out x.2 = w_out w /\
  forall user, x.1 = Ok user ->
    exists token, authorization = bytes_of "Bearer " ++ drop 7 authorization /\
      token = TrimSpace (drop 7 authorization) /\
      vouched P secret token (env_now E (w_clock w)) user.
Proof.
  cbv zeta. destruct (run_inert _ E w (authenticate_inert P secret authorization)) as [Hdb Hout].
  split; [done|]. split; [done|].
  intros user [Hform Hv]%header_vouched. by exists (TrimSpace (drop 7 authorization)).
Qed.

Lemma accepted_tokens_are_signed_witness :
  exists token, vouched sample [] token one_am (session_user 1 RoleUser).
Proof.
  destruct (accepted_tokens_are_signed sample []
    (bytes_of "Bearer " ++ token sample [] 1 RoleUser 90000) env start) as (_ & _ & Hv).
  destruct (Hv (session_user 1 RoleUser)) as (token & _ & _ & Ht); [by vm_compute|].
  exists token. exact Ht.
Defined.

(** ** Registration and login *)

(** What an accepted registration stores. *)
Definition registered (P : Platform) (email password : bytes) (role : UserRole) (db : DB)
    (user : User) (db' : DB) : Prop :=
  isValidEmail P (normalizeEmail P email) = true /\ (8 <= length (TrimSpace password))%nat /\
  (role = RoleAdmin \/ role = RoleUser) /\
  us_Email user = string_of (normalizeEmail P email) /\ us_Role user = role /\
  (exists hash, GenerateFromPassword P (TrimSpace password) = Ok hash /\
     us_PasswordHash user = Some hash) /\
  db_users db !! us_ID user = None /\ UserRepo.by_email (us_Email user) db = None /\
  db' = set_users (<[us_ID user := user]> (db_users db)) db.

Lemma register_registers H P email password role db out :
  wp H (Register P email password role) (fun r db' out' => out' = out /\
    match r with Ok user => registered P email password role db user db' | Err _ => True end) db out.
Proof.
  unfold Register. destruct (isValidEmail P (normalizeEmail P email)) eqn:Hemail; [|by apply wp_ret].
  case_bool_decide as Hne; [by apply wp_ret|]. cbn [negb].
  destruct (Nat.ltb_spec (length (TrimSpace password)) 8) as [Hlen|Hlen]; [by apply wp_ret|].
  destruct (bool_decide (role <> RoleAdmin) && _) eqn:Hrole; [by apply wp_ret|].
  assert (role = RoleAdmin \/ role = RoleUser) as Hr by (destruct role; auto; done).
  unfold UserRepo.GetByEmail. norm. apply wp_query; [intros _ m; by apply wp_ret|]. norm.
  destruct (UserRepo.by_email _ db) eqn:Hnew; [by apply wp_ret|].
  destruct (GenerateFromPassword P (TrimSpace password)) as [hash|] eqn:Hhash; [|by apply wp_ret].
  apply wp_uuid. intros id _. apply wp_now. intros now _.
  unfold UserRepo.Create. norm. apply wp_sql.
  - intros _ a m. split; norm; by apply wp_ret.
  - intros a _. set (user := Build_User id _ _ role now). unfold UserRepo.insert.
    assert (negb (bool_decide (us_Role user = RoleAdmin) || bool_decide (us_Role user = RoleUser)) = false)
      as -> by by destruct Hr as [-> | ->].
    destruct (has (db_users db) (us_ID user)) eqn:Hpk; [norm; by apply wp_ret|].
    destruct (bool_decide (is_Some (UserRepo.by_email (us_Email user) db))) eqn:Hdup;
      [norm; by apply wp_ret|]. norm. apply wp_ret. split; [done|].
    unfold has in Hpk. apply bool_decide_eq_false, eq_None_not_Some in Hpk.
    apply bool_decide_eq_false, eq_None_not_Some in Hdup. split_and!; try done. by exists hash.
Qed.

Lemma registered_found P email password role db user db' :
  registered P email password role db user db' ->
  UserRepo.by_email (string_of (normalizeEmail P email)) db' = Some user.
Proof.
  intros (_ & _ & _ & Heq & _ & _ & Hnew & Hno & ->). rewrite <- Heq. unfold UserRepo.by_email in *.
  rewrite first_where_None in Hno. simpl. apply (first_where_unique _ _ (us_ID user)); [|by rewrite lookup_insert_eq|done].
  intros j y Hy Hemail.
  apply lookup_insert_Some in Hy as [[Hj _]|[_ Hy]]; [done|]. by destruct (Hno j y Hy).
Qed.

(** C35. A user who has registered logs in with the same address: with a password that
    matches the hash of the trimmed password the reply is a token for that user and role,
    with any other one it is "invalid credentials".  In particular the trimmed password works
    if a hash matches its password. *)
Theorem registered_users_log_in P secret E w email password role user :
  matches_passwords P ->
  (run E (Register P email password role) w).1 = Ok user ->
  exists hash, GenerateFromPassword P (TrimSpace password) = Ok hash /\
    us_Role user = role /\ CompareHashAndPassword P hash (TrimSpace password) = true /\
    forall E' w' password',
      steady E' -> w_db w' = w_db (run E (Register P email password role) w).2 ->
      TrimSpace password' <> [] ->
      let x := run E' (Login P secret email password') w' in
      w_db x.2 = w_db w' /\
      x.1 = if CompareHashAndPassword P hash password'
            then Ok (token P secret (us_ID user) role (Unix (env_now E' (w_clock w') + 24 * Hour)))
            else Err invalid_credentials.
Proof.
  intros HP Hok. destruct (wp_run anything E _ _ w (respects_anything E)
    (register_registers anything P email password role (w_db w) (w_out w))) as [_ Hreg].
  rewrite Hok in Hreg. pose proof (registered_found _ _ _ _ _ _ _ Hreg) as Hfound.
  destruct Hreg as (Hemail & _ & _ & _ & Hrole & (hash & Hhash & Hstored) & _).
  exists hash. split_and!; [done|done|by apply HP|]. intros E' w' password' HE Hdb Hne. cbv zeta.
  unfold Login. rewrite Hemail, bool_decide_false by done. cbn [negb orb]. unfold UserRepo.GetByEmail.
  norm. rewrite (run_query E' HE). rewrite Hdb, Hfound. norm. rewrite Hstored.
  destruct (CompareHashAndPassword P hash password'); norm; [|done].
  unfold Sign. norm. rewrite run_now. simpl. by rewrite Hrole.
Qed.

Definition dora_email : bytes := bytes_of "dora@example.com".

Lemma registered_users_log_in_witness :
  exists user token,
    (run env (Register sample dora_email (bytes_of " secret-1 ") RoleUser) start).1 = Ok user /\
    (run env (Login sample [] dora_email (bytes_of "secret-1"))
      (run env (Register sample dora_email (bytes_of " secret-1 ") RoleUser) start).2).1 = Ok token.
Proof.
  destruct (registered_users_log_in sample [] env start dora_email (bytes_of " secret-1 ") RoleUser
    {| us_ID := 1000; us_Email := "dora@example.com"; us_PasswordHash := Some "$secret-1";
       us_Role := RoleUser; us_CreatedAt := one_am |}) as (hash & Hhash & _ & Hmatch & Hlogin).
  - exact sample_matches_passwords.
  - by vm_compute.
  - eexists _, _. split; [by vm_compute|].
    destruct (Hlogin env (run env (Register sample dora_email (bytes_of " secret-1 ") RoleUser) start).2
      (bytes_of "secret-1")) as [_ Hx]; [done|done|by vm_compute|].
    rewrite Hx. change (bytes_of "secret-1") with (TrimSpace (bytes_of " secret-1 ")).
    by rewrite Hmatch.
Defined.

(** The password as it was typed may be refused: Register trims it, Login does not. *)
Lemma typed_password_refused :
  exists user,
    (run env (Register sample dora_email (bytes_of " secret-1 ") RoleUser) start).1 = Ok user /\
    (run env (Login sample [] dora_email (bytes_of " secret-1 "))
      (run env (Register sample dora_email (bytes_of " secret-1 ") RoleUser) start).2).1 =
      Err invalid_credentials.
Proof. eexists. split; by vm_compute. Qed.
