(* ===== verification/Response.v ===== *)
(** * Response: internal/transport/http/response

    JSON replies, the status of an error, and the decoding of a request body. *)

From Stdlib Require Import Ascii.
From S2P Require Import Prelude Domain Text Json.

Record Response := {
  rp_status : Z;
  rp_body : json }.

(** The bytes that [json.NewEncoder(w).Encode(payload)] writes. *)
Definition wire (r : Response) : bytes := print (rp_body r) ++ [byte 10].

Definition WriteJSON (status : Z) (payload : json) : Response :=
  {| rp_status := status; rp_body := payload |}.

Definition StatusFromDomainCode (code : ErrorCode) : Z :=
  match code with
  | ErrorInvalidRequest => 400
  | ErrorUnauthorized => 401
  | ErrorForbidden => 403
  | ErrorNotFound | ErrorRoomNotFound | ErrorSlotNotFound | ErrorBookingNotFound
  | ErrorWaitlistNotFound | ErrorReservationNotFound => 404
  | ErrorSlotAlreadyBooked | ErrorScheduleExists | ErrorWaitlistJoined | ErrorSlotNotBooked
  | ErrorSlotReserved => 409
  | ErrorInternalError => 500
  end.

Definition errorBody (code message : string) : json :=
  JObj [(bytes_of "error",
    JObj [(bytes_of "code", of_string code); (bytes_of "message", of_string message)])].

(** What the client learns of an error: the outermost domain error, or nothing. *)
Definition WriteError (err : error) : Response :=
  match AsDomainError err with
  | Some (code, message) =>
      WriteJSON (StatusFromDomainCode code) (errorBody (ErrorCode_string code) message)
  | None =>
      WriteJSON 500 (errorBody (ErrorCode_string ErrorInternalError) "internal server error")
  end.

(** 1 MiB. *)
Definition MaxBody : N := 1048576.

(** The first [n] bytes, and whether there are more. *)
Fixpoint limit (n : N) (s : bytes) : bytes * bool :=
  match s with
  | [] => ([], false)
  | c :: s =>
      if (n =? 0)%N then ([], true)
      else let '(s, cut) := limit (n - 1) s in (c :: s, cut)
  end.

(** The scanner knows that a value is over when it has read its closing bracket, or the
    byte after it. *)
Definition is_container (v : json) : bool :=
  match v with
  | JArr _ | JObj _ => true
  | _ => false
  end.

Definition body_too_large : error := NewDomainError ErrorInvalidRequest "request body too large".
Definition invalid_body : error :=
  WrapDomainError ErrorInvalidRequest "invalid json body" (Some (PlainError "json")).

(** The first value of the body; what follows it is not looked at. *)
Definition DecodeJSON {A} `{Decode A} (body : bytes) : result A :=
  let '(body, cut) := limit MaxBody body in
  match parse body with
  | Done v rest =>
      if cut && bool_decide (rest = []) && negb (is_container v) then Err body_too_large
      else
        match decode zero v with
        | Some a => Ok a
        | None => Err invalid_body
        end
  | Incomplete => Err (if cut then body_too_large else invalid_body)
  | Invalid | Exhausted => Err invalid_body
  end.

(** Every error of a domain operation has its status; an error of any other kind is 500 and
    says nothing of its cause. *)
Lemma WriteError_status err : rp_status (WriteError err) =
  match AsDomainError err with
  | Some (code, _) => StatusFromDomainCode code
  | None => 500%Z
  end.
Proof. unfold WriteError. by destruct (AsDomainError err) as [[code message]|]. Qed.
