(* ===== verification/Handlers.v ===== *)
(** * Handlers: internal/transport/http/handler

    The HTTP handlers, over the use-case interfaces of internal/usecase.  A handler is given
    what it reads of a request: the user in the context, the parameters chi extracts from the
    path, the query, the body. *)

From Stdlib Require Import Ascii.
From S2P Require Import Prelude Domain GoStd Text Json Dates Platform Database Program.
From S2P Require Import Auth Response.
From S2P Require Rooms Schedules.

(** ** The use-case interfaces *)

Record AuthUsecase := {
  uc_Register : bytes -> bytes -> UserRole -> prog (result User);
  uc_Login : bytes -> bytes -> prog (result bytes);
  uc_DummyLogin : UserRole -> prog (result bytes) }.

Record RoomUsecase := {
  uc_ListRooms : User -> prog (result (list Room));
  uc_CreateRoom : User -> Rooms.RoomCreateInput -> prog (result Room) }.

Record ScheduleUsecase := {
  uc_CreateSchedule : User -> uuid -> Schedules.CreateScheduleInput ->
    prog (result (uuid * list Schedules.ScheduleRule)) }.

Record SlotUsecase := {
  uc_ListAvailableSlots : User -> uuid -> time -> prog (result (list Slot));
  uc_ListRoomSlots : User -> uuid -> time -> prog (result (list SlotView)) }.

Record BookingUsecase := {
  uc_CreateBooking : User -> uuid -> bool -> prog (result Booking);
  uc_ListBookings : User -> Z -> Z -> prog (result (list Booking * Pagination));
  uc_ListMyBookings : User -> prog (result (list Booking));
  uc_CancelBooking : User -> uuid -> prog (result Booking) }.

Record WaitlistUsecase := {
  uc_JoinWaitlist : User -> uuid -> prog (result WaitlistEntry);
  uc_LeaveWaitlist : User -> uuid -> prog (result WaitlistEntry) }.

Record ReservationUsecase := {
  uc_ConfirmReservation : User -> uuid -> prog (result (Booking * SlotReservation));
  uc_CancelReservation : User -> uuid -> prog (result SlotReservation);
  uc_ListMyActiveReservations : User -> prog (result (list SlotReservation)) }.

(** ** Requests and replies *)

Record HttpRequest := {
  rq_Method : string;
  (** [r.Header.Get]. *)
  rq_Header : string -> bytes;
  (** [chi.URLParam]. *)
  rq_URLParam : string -> bytes;
  (** [r.URL.Query().Get]. *)
  rq_Query : string -> bytes;
  rq_Body : bytes }.

(** A handler writes a response, or panics before it has written one. *)
Inductive reply :=
| Replied (r : Response)
| Panicked.

(** [if err != nil { response.WriteError(w, err); return }]. *)
Definition respond (p : prog (result reply)) : prog reply :=
  let! r := p in
  match r with
  | Ok r => Ret r
  | Err err => Ret (Replied (WriteError err))
  end.

Definition write (status : Z) (payload : json) : prog (result reply) :=
  ok (Replied (WriteJSON status payload)).

Definition bad_request (message : string) : error :=
  WrapDomainError ErrorInvalidRequest message (Some (PlainError "parse")).

(** [UserFromContext] and the check of the use case that every handler starts with. *)
Definition with_user {UC} (uc : option UC) (not_configured : string) (user : option User)
    (k : UC -> User -> prog (result reply)) : prog reply :=
  respond
    match user with
    | None => fail (NewDomainError ErrorUnauthorized "missing auth user")
    | Some user =>
        match uc with
        | None => fail (NewDomainError ErrorInternalError not_configured)
        | Some uc => k uc user
        end
    end.

(** A result of a parser as one step of a handler. *)
Definition parsed {A} (x : result A) : prog (result A) := Ret x.

(** ** Data transfer objects *)

Definition str (s : bytes) : json := JStr s.
Definition id_json (u : uuid) : json := JStr (uuid_String u).
Definition time_json (t : time) : json := JStr (FormatRFC3339 t).

(** [omitempty] on a pointer. *)
Definition omitempty {A} (name : string) (f : A -> json) (x : option A) : list (bytes * json) :=
  match x with
  | Some a => [(bytes_of name, f a)]
  | None => []
  end.

Definition obj (l : list (string * json)) : list (bytes * json) :=
  (fun kv => (bytes_of kv.1, kv.2)) <$> l.

Definition BookingStatus_string (s : BookingStatus) : string :=
  match s with
  | BookingStatusActive => "active"
  | BookingStatusCancelled => "cancelled"
  end.

Definition SlotStatus_string (s : SlotStatus) : string :=
  match s with
  | SlotStatusAvailable => "available"
  | SlotStatusBooked => "booked"
  | SlotStatusReserved => "reserved"
  | SlotStatusPast => "past"
  end.

Definition WaitlistStatus_string (s : WaitlistStatus) : string :=
  match s with
  | WaitlistStatusActive => "active"
  | WaitlistStatusNotified => "notified"
  | WaitlistStatusCancelled => "cancelled"
  | WaitlistStatusExpired => "expired"
  end.

Definition ReservationStatus_string (s : ReservationStatus) : string :=
  match s with
  | ReservationStatusActive => "active"
  | ReservationStatusConfirmed => "confirmed"
  | ReservationStatusExpired => "expired"
  | ReservationStatusCancelled => "cancelled"
  end.

Definition bookingToDTO (b : Booking) : json :=
  JObj (obj [("id", id_json (bk_ID b)); ("slotId", id_json (bk_SlotID b));
             ("userId", id_json (bk_UserID b));
             ("status", of_string (BookingStatus_string (bk_Status b)))] ++
        omitempty "conferenceLink" of_string (bk_ConferenceLink b) ++
        obj [("createdAt", time_json (bk_CreatedAt b))]).

Definition waitlistEntryToDTO (e : WaitlistEntry) : json :=
  JObj (obj [("id", id_json (wl_ID e)); ("slotId", id_json (wl_SlotID e));
             ("userId", id_json (wl_UserID e));
             ("status", of_string (WaitlistStatus_string (wl_Status e)));
             ("position", of_int (wl_Position e)); ("createdAt", time_json (wl_CreatedAt e))] ++
        omitempty "notifiedAt" time_json (wl_NotifiedAt e)).

Definition reservationToDTO (r : SlotReservation) : json :=
  JObj (obj [("id", id_json (rs_ID r)); ("slotId", id_json (rs_SlotID r));
             ("userId", id_json (rs_UserID r))] ++
        omitempty "waitlistEntryId" id_json (rs_WaitlistEntryID r) ++
        obj [("status", of_string (ReservationStatus_string (rs_Status r)));
             ("expiresAt", time_json (rs_ExpiresAt r)); ("createdAt", time_json (rs_CreatedAt r))] ++
        omitempty "confirmedAt" time_json (rs_ConfirmedAt r) ++
        omitempty "expiredAt" time_json (rs_ExpiredAt r)).

Definition roomToDTO (r : Room) : json :=
  JObj (obj [("id", id_json (rm_ID r)); ("name", of_string (rm_Name r))] ++
        omitempty "description" of_string (rm_Description r) ++
        omitempty "capacity" of_int (rm_Capacity r)).

Definition slotDTO (s : Slot) : json :=
  JObj (obj [("id", id_json (sl_ID s)); ("roomId", id_json (sl_RoomID s));
             ("start", time_json (sl_StartTime s)); ("end", time_json (sl_EndTime s))]).

Definition slotViewDTO (s : SlotView) : json :=
  JObj (obj [("id", id_json (sv_ID s)); ("roomId", id_json (sv_RoomID s));
             ("start", time_json (sv_StartTime s)); ("end", time_json (sv_EndTime s));
             ("status", of_string (SlotStatus_string (sv_Status s)))] ++
        omitempty "bookingId" id_json (sv_BookingID s) ++
        omitempty "reservationId" id_json (sv_ReservationID s) ++
        omitempty "waitlistEntryId" id_json (sv_WaitlistEntryID s)).

Definition userToDTO (u : User) : json :=
  JObj (obj [("id", id_json (us_ID u)); ("email", of_string (us_Email u));
             ("role", of_string (role_string (us_Role u)))] ++
        omitempty "createdAt" time_json
          (if bool_decide (us_CreatedAt u = zero_time) then None else Some (us_CreatedAt u))).

Definition paginationDTO (p : Pagination) : json :=
  JObj (obj [("page", of_int (pg_Page p)); ("pageSize", of_int (pg_PageSize p));
             ("total", of_int (pg_Total p))]).

(** A response with one field. *)
Definition only (name : string) (v : json) : json := JObj (obj [(name, v)]).

(** ** Reading a request *)

Definition parsePagination (r : HttpRequest) : result (Z * Z) :=
  let number (name : string) (default : Z) (message : string) : result Z :=
    match rq_Query r name with
    | [] => Ok default
    | raw =>
        match ParseInt raw with
        | Some n => Ok n
        | None => Err (bad_request message)
        end
    end in
  match number "page" 1%Z "invalid page" with
  | Err err => Err err
  | Ok page =>
      match number "pageSize" 20%Z "invalid pageSize" with
      | Err err => Err err
      | Ok pageSize =>
          if ((page <? 1) || (pageSize <? 1) || (100 <? pageSize))%Z
          then Err (NewDomainError ErrorInvalidRequest
                      "page must be >= 1 and pageSize between 1 and 100")
          else Ok (page, pageSize)
      end
  end.

Definition parseDateQuery (r : HttpRequest) : result time :=
  match rq_Query r "date" with
  | [] => Err (NewDomainError ErrorInvalidRequest "date query parameter is required")
  | raw =>
      match ParseDate raw with
      | Some date => Ok date
      | None => Err (bad_request "invalid date")
      end
  end.

(** Request bodies. *)
Record createBookingRequest := { cb_SlotID : string; cb_CreateConferenceLink : bool }.
#[export] Instance decode_createBooking : Decode createBookingRequest := {
  zero := {| cb_SlotID := ""; cb_CreateConferenceLink := false |};
  decode := decode_struct [
    at_field "slotId" cb_SlotID
      (fun x q => {| cb_SlotID := x; cb_CreateConferenceLink := cb_CreateConferenceLink q |});
    at_field "createConferenceLink" cb_CreateConferenceLink
      (fun x q => {| cb_SlotID := cb_SlotID q; cb_CreateConferenceLink := x |})] }.

Record joinWaitlistRequest := { jw_SlotID : string }.
#[export] Instance decode_joinWaitlist : Decode joinWaitlistRequest := {
  zero := {| jw_SlotID := "" |};
  decode := decode_struct [at_field "slotId" jw_SlotID (fun x _ => {| jw_SlotID := x |})] }.

Record createRoomRequest :=
  { cr_Name : string; cr_Description : option string; cr_Capacity : option Z }.
#[export] Instance decode_createRoom : Decode createRoomRequest := {
  zero := {| cr_Name := ""; cr_Description := None; cr_Capacity := None |};
  decode := decode_struct [
    at_field "name" cr_Name
      (fun x q => {| cr_Name := x; cr_Description := cr_Description q; cr_Capacity := cr_Capacity q |});
    at_field "description" cr_Description
      (fun x q => {| cr_Name := cr_Name q; cr_Description := x; cr_Capacity := cr_Capacity q |});
    at_field "capacity" cr_Capacity
      (fun x q => {| cr_Name := cr_Name q; cr_Description := cr_Description q; cr_Capacity := x |})] }.

#[export] Instance decode_createSchedule : Decode Schedules.CreateScheduleInput := {
  zero := Schedules.Build_CreateScheduleInput [] "" "";
  decode := decode_struct [
    at_field "daysOfWeek" Schedules.in_DaysOfWeek
      (fun x q => Schedules.Build_CreateScheduleInput x (Schedules.in_StartTime q) (Schedules.in_EndTime q));
    at_field "startTime" Schedules.in_StartTime
      (fun x q => Schedules.Build_CreateScheduleInput (Schedules.in_DaysOfWeek q) x (Schedules.in_EndTime q));
    at_field "endTime" Schedules.in_EndTime
      (fun x q => Schedules.Build_CreateScheduleInput (Schedules.in_DaysOfWeek q) (Schedules.in_StartTime q) x)] }.

Record dummyLoginRequest := { dl_Role : string }.
#[export] Instance decode_dummyLogin : Decode dummyLoginRequest := {
  zero := {| dl_Role := "" |};
  decode := decode_struct [at_field "role" dl_Role (fun x _ => {| dl_Role := x |})] }.

Record registerRequest := { rg_Email : string; rg_Password : string; rg_Role : string }.
#[export] Instance decode_register : Decode registerRequest := {
  zero := {| rg_Email := ""; rg_Password := ""; rg_Role := "" |};
  decode := decode_struct [
    at_field "email" rg_Email
      (fun x q => {| rg_Email := x; rg_Password := rg_Password q; rg_Role := rg_Role q |});
    at_field "password" rg_Password
      (fun x q => {| rg_Email := rg_Email q; rg_Password := x; rg_Role := rg_Role q |});
    at_field "role" rg_Role
      (fun x q => {| rg_Email := rg_Email q; rg_Password := rg_Password q; rg_Role := x |})] }.

Record loginRequest := { lg_Email : string; lg_Password : string }.
#[export] Instance decode_login : Decode loginRequest := {
  zero := {| lg_Email := ""; lg_Password := "" |};
  decode := decode_struct [
    at_field "email" lg_Email (fun x q => {| lg_Email := x; lg_Password := lg_Password q |});
    at_field "password" lg_Password (fun x q => {| lg_Email := lg_Email q; lg_Password := x |})] }.

(** ** Handlers *)

Section handlers.
Context (P : Platform).

(** [uuid.Parse], answered with 400. *)
Definition parse_id (message : string) (s : bytes) : result uuid :=
  match uuid_Parse P s with
  | Some id => Ok id
  | None => Err (bad_request message)
  end.

Definition CreateBooking (uc : option BookingUsecase) (user : option User) (r : HttpRequest) : prog reply :=
  with_user uc "booking usecase is not configured" user (fun uc user =>
    let? req := parsed (DecodeJSON (rq_Body r)) in
    let? slotID := parsed (parse_id "invalid slotId" (bytes_of (cb_SlotID req))) in
    let? booking := uc_CreateBooking uc user slotID (cb_CreateConferenceLink req) in
    write 201 (only "booking" (bookingToDTO booking))).

Definition ListBookings (uc : option BookingUsecase) (user : option User) (r : HttpRequest) : prog reply :=
  with_user uc "booking usecase is not configured" user (fun uc user =>
    let? (page, pageSize) := parsed (parsePagination r) in
    let? (bookings, pagination) := uc_ListBookings uc user page pageSize in
    write 200 (JObj (obj [("bookings", JArr (bookingToDTO <$> bookings));
                          ("pagination", paginationDTO pagination)]))).

Definition ListMyBookings (uc : option BookingUsecase) (user : option User) (r : HttpRequest) : prog reply :=
  with_user uc "booking usecase is not configured" user (fun uc user =>
    let? bookings := uc_ListMyBookings uc user in
    write 200 (only "bookings" (JArr (bookingToDTO <$> bookings)))).

Definition CancelBooking (uc : option BookingUsecase) (user : option User) (r : HttpRequest) : prog reply :=
  with_user uc "booking usecase is not configured" user (fun uc user =>
    let? bookingID := parsed (parse_id "invalid bookingId" (rq_URLParam r "bookingId")) in
    let? booking := uc_CancelBooking uc user bookingID in
    write 200 (only "booking" (bookingToDTO booking))).

Definition JoinWaitlist (uc : option WaitlistUsecase) (user : option User) (r : HttpRequest) : prog reply :=
  with_user uc "waitlist usecase is not configured" user (fun uc user =>
    let? req := parsed (DecodeJSON (rq_Body r)) in
    let? slotID := parsed (parse_id "invalid slotId" (bytes_of (jw_SlotID req))) in
    let? entry := uc_JoinWaitlist uc user slotID in
    write 201 (only "entry" (waitlistEntryToDTO entry))).

Definition LeaveWaitlist (uc : option WaitlistUsecase) (user : option User) (r : HttpRequest) : prog reply :=
  with_user uc "waitlist usecase is not configured" user (fun uc user =>
    let? entryID := parsed (parse_id "invalid waitlistId" (rq_URLParam r "waitlistId")) in
    let? entry := uc_LeaveWaitlist uc user entryID in
    write 200 (only "entry" (waitlistEntryToDTO entry))).

Definition ConfirmReservation (uc : option ReservationUsecase) (user : option User) (r : HttpRequest) : prog reply :=
  with_user uc "reservation usecase is not configured" user (fun uc user =>
    let? id := parsed (parse_id "invalid reservationId" (rq_URLParam r "reservationId")) in
    let? (booking, reservation) := uc_ConfirmReservation uc user id in
    write 200 (JObj (obj [("booking", bookingToDTO booking);
                          ("reservation", reservationToDTO reservation)]))).

Definition CancelReservation (uc : option ReservationUsecase) (user : option User) (r : HttpRequest) : prog reply :=
  with_user uc "reservation usecase is not configured" user (fun uc user =>
    let? id := parsed (parse_id "invalid reservationId" (rq_URLParam r "reservationId")) in
    let? reservation := uc_CancelReservation uc user id in
    write 200 (only "reservation" (reservationToDTO reservation))).

Definition ListMyActiveReservations (uc : option ReservationUsecase) (user : option User) (r : HttpRequest)
    : prog reply :=
  with_user uc "reservation usecase is not configured" user (fun uc user =>
    let? reservations := uc_ListMyActiveReservations uc user in
    write 200 (only "reservations" (JArr (reservationToDTO <$> reservations)))).

Definition ListRooms (uc : option RoomUsecase) (user : option User) (r : HttpRequest) : prog reply :=
  with_user uc "room usecase is not configured" user (fun uc user =>
    let? rooms := uc_ListRooms uc user in
    write 200 (only "rooms" (JArr (roomToDTO <$> rooms)))).

Definition CreateRoom (uc : option RoomUsecase) (user : option User) (r : HttpRequest) : prog reply :=
  with_user uc "room usecase is not configured" user (fun uc user =>
    let? req := parsed (DecodeJSON (rq_Body r)) in
    let? room := uc_CreateRoom uc user
      {| Rooms.in_Name := cr_Name req; Rooms.in_Description := cr_Description req;
         Rooms.in_Capacity := cr_Capacity req |} in
    write 201 (only "room" (roomToDTO room))).

(** [strings.Count(s, ":")]. *)
Definition count_colons (s : bytes) : nat := length (filter (fun c => c = ":"%char) s).

Definition scheduleTimeToAPI (s : bytes) : bytes :=
  let s := TrimSpace s in
  if (8 <=? length s)%nat && (count_colons s =? 2)%nat then take 5 s else s.

Definition scheduleDTO (roomID : uuid) (days : list Z) (startAPI endAPI : bytes) : json :=
  JObj (obj [("roomId", id_json roomID); ("daysOfWeek", JArr (of_int <$> days));
             ("startTime", str startAPI); ("endTime", str endAPI)]).

Definition CreateSchedule (uc : option ScheduleUsecase) (user : option User) (r : HttpRequest) : prog reply :=
  with_user uc "schedule usecase is not configured" user (fun uc user =>
    let? roomID := parsed (parse_id "invalid roomId" (rq_URLParam r "roomId")) in
    let? req := parsed (DecodeJSON (rq_Body r)) in
    let? (viewRoom, rules) := uc_CreateSchedule uc user roomID req in
    let days := order_by id (Schedules.ru_DayOfWeek <$> rules) in
    match rules with
    | [] => ok Panicked
    | rule :: _ =>
        write 201 (only "schedule" (scheduleDTO viewRoom days
          (scheduleTimeToAPI (bytes_of (Schedules.ru_StartTime rule)))
          (scheduleTimeToAPI (bytes_of (Schedules.ru_EndTime rule)))))
    end).

Definition ListAvailableSlots (uc : option SlotUsecase) (user : option User) (r : HttpRequest) : prog reply :=
  with_user uc "slot usecase is not configured" user (fun uc user =>
    let? roomID := parsed (parse_id "invalid roomId" (rq_URLParam r "roomId")) in
    let? date := parsed (parseDateQuery r) in
    let? slots := uc_ListAvailableSlots uc user roomID date in
    write 200 (only "slots" (JArr (slotDTO <$> slots)))).

Definition ListRoomSlots (uc : option SlotUsecase) (user : option User) (r : HttpRequest) : prog reply :=
  with_user uc "slot usecase is not configured" user (fun uc user =>
    let? roomID := parsed (parse_id "invalid roomId" (rq_URLParam r "roomId")) in
    let? date := parsed (parseDateQuery r) in
    let? slots := uc_ListRoomSlots uc user roomID date in
    write 200 (only "slots" (JArr (slotViewDTO <$> slots)))).

(** The handlers of auth.go need no user. *)
Definition with_auth (uc : option AuthUsecase) (k : AuthUsecase -> prog (result reply)) : prog reply :=
  respond
    match uc with
    | None => fail (NewDomainError ErrorInternalError "auth usecase is not configured")
    | Some uc => k uc
    end.

Definition DummyLogin (uc : option AuthUsecase) (r : HttpRequest) : prog reply :=
  with_auth uc (fun uc =>
    let? req := parsed (DecodeJSON (rq_Body r)) in
    if bool_decide (dl_Role req <> "admin") && bool_decide (dl_Role req <> "user")
    then fail (NewDomainError ErrorInvalidRequest "invalid role")
    else
      let? token := uc_DummyLogin uc (role_of (dl_Role req)) in
      write 200 (only "token" (str token))).

Definition Register (uc : option AuthUsecase) (r : HttpRequest) : prog reply :=
  with_auth uc (fun uc =>
    let? req := parsed (DecodeJSON (rq_Body r)) in
    let? user := uc_Register uc (bytes_of (rg_Email req)) (bytes_of (rg_Password req))
      (role_of (rg_Role req)) in
    write 201 (only "user" (userToDTO user))).

Definition Login (uc : option AuthUsecase) (r : HttpRequest) : prog reply :=
  with_auth uc (fun uc =>
    let? req := parsed (DecodeJSON (rq_Body r)) in
    let? token := uc_Login uc (bytes_of (lg_Email req)) (bytes_of (lg_Password req)) in
    write 200 (only "token" (str token))).
End handlers.
