(* ===== verification/Http.v ===== *)
(** * Http: internal/transport/http/server.go and its place in cmd/app/main.go

    The routes with their middleware, the dependencies main gives them, and what a request
    to the booking, waitlist and reservation routes comes down to: one call of [System.serve]
    on behalf of the user who sent it. *)

From Stdlib Require Import Ascii.
From S2P Require Import Prelude Domain GoStd Text Json Dates Platform Database Program Postgres.
From S2P Require Import Schema Usecase System Scenario Auth Middleware Sessions Response.
From S2P Require Booking Waitlist Reservation Rooms Schedules Calendar Handlers.
From S2P Require Import Handlers.

(** ** Routes *)

Inductive Endpoint :=
| GetInfo | PostRegister | PostLogin | PostDummyLogin
| GetRoomsList | PostRoomsCreate | PostScheduleCreate | GetSlotsList | GetSlotsAll
| PostBookingsCreate | GetBookingsList | GetBookingsMy | PostBookingCancel
| PostWaitlistJoin | PostWaitlistLeave
| GetMyActiveReservations | PostReservationConfirm | PostReservationCancel.

(** Method and pattern of a route: chi calls its handler for the requests that match. *)
Definition pattern (ep : Endpoint) : string * string :=
  match ep with
  | GetInfo => ("GET", "/_info")
  | PostRegister => ("POST", "/register")
  | PostLogin => ("POST", "/login")
  | PostDummyLogin => ("POST", "/dummyLogin")
  | GetRoomsList => ("GET", "/rooms/list")
  | PostRoomsCreate => ("POST", "/rooms/create")
  | PostScheduleCreate => ("POST", "/rooms/{roomId}/schedule/create")
  | GetSlotsList => ("GET", "/rooms/{roomId}/slots/list")
  | GetSlotsAll => ("GET", "/rooms/{roomId}/slots/all")
  | PostBookingsCreate => ("POST", "/bookings/create")
  | GetBookingsList => ("GET", "/bookings/list")
  | GetBookingsMy => ("GET", "/bookings/my")
  | PostBookingCancel => ("POST", "/bookings/{bookingId}/cancel")
  | PostWaitlistJoin => ("POST", "/waitlist/join")
  | PostWaitlistLeave => ("POST", "/waitlist/{waitlistId}/leave")
  | GetMyActiveReservations => ("GET", "/reservations/my/active")
  | PostReservationConfirm => ("POST", "/reservations/{reservationId}/confirm")
  | PostReservationCancel => ("POST", "/reservations/{reservationId}/cancel")
  end%string.

(** The group of routes behind [auth.RequireUser]. *)
Definition protected (ep : Endpoint) : bool :=
  match ep with
  | GetInfo | PostRegister | PostLogin | PostDummyLogin => false
  | _ => true
  end.

Record RouterDependencies := {
  AuthUC : option AuthUsecase;
  RoomUC : option RoomUsecase;
  ScheduleUC : option ScheduleUsecase;
  SlotUC : option SlotUsecase;
  BookingUC : option BookingUsecase;
  WaitlistUC : option WaitlistUsecase;
  ReservationUC : option ReservationUsecase;
  JWTSecret : bytes;
  CORSOrigins : list bytes }.

Section router.
Context (P : Platform) (deps : RouterDependencies).

Definition dispatch (ep : Endpoint) (user : option User) (r : HttpRequest) : prog reply :=
  match ep with
  | GetInfo => Ret (Replied (WriteJSON 200 (only "status" (of_string "ok"))))
  | PostRegister => Handlers.Register (AuthUC deps) r
  | PostLogin => Handlers.Login (AuthUC deps) r
  | PostDummyLogin => Handlers.DummyLogin (AuthUC deps) r
  | GetRoomsList => Handlers.ListRooms (RoomUC deps) user r
  | PostRoomsCreate => Handlers.CreateRoom (RoomUC deps) user r
  | PostScheduleCreate => Handlers.CreateSchedule P (ScheduleUC deps) user r
  | GetSlotsList => Handlers.ListAvailableSlots P (SlotUC deps) user r
  | GetSlotsAll => Handlers.ListRoomSlots P (SlotUC deps) user r
  | PostBookingsCreate => Handlers.CreateBooking P (BookingUC deps) user r
  | GetBookingsList => Handlers.ListBookings (BookingUC deps) user r
  | GetBookingsMy => Handlers.ListMyBookings (BookingUC deps) user r
  | PostBookingCancel => Handlers.CancelBooking P (BookingUC deps) user r
  | PostWaitlistJoin => Handlers.JoinWaitlist P (WaitlistUC deps) user r
  | PostWaitlistLeave => Handlers.LeaveWaitlist P (WaitlistUC deps) user r
  | GetMyActiveReservations => Handlers.ListMyActiveReservations (ReservationUC deps) user r
  | PostReservationConfirm => Handlers.ConfirmReservation P (ReservationUC deps) user r
  | PostReservationCancel => Handlers.CancelReservation P (ReservationUC deps) user r
  end.

(** [Auth.RequireUser]. *)
Definition RequireUser (authorization : bytes) (next : User -> prog reply) : prog reply :=
  let! user := AuthenticateRequest P (JWTSecret deps) authorization in
  match user with
  | Err err => Ret (Replied (WriteError err))
  | Ok user => next user
  end.

(** [Recovery]: a panic becomes a reply. *)
Definition recovered (x : reply) : Response :=
  match x with
  | Replied r => r
  | Panicked => WriteError (NewDomainError ErrorInternalError "internal server error")
  end.

(** What goes back to the client; 204 has no body. *)
Record HttpReply := {
  hr_RequestID : bytes;
  hr_CORS : list (string * bytes);
  hr_Response : option Response }.

(** A request that chi routes to [ep], through the middleware. *)
Definition ServeHTTP (ep : Endpoint) (r : HttpRequest) : prog HttpReply :=
  let! id := request_id (rq_Header r "X-Request-ID") in
  let headers := CORS (CORSOrigins deps) (rq_Header r "Origin") in
  let answer x := {| hr_RequestID := id; hr_CORS := headers; hr_Response := x |} in
  if bool_decide (rq_Method r = "OPTIONS"%string) then Ret (answer None)
  else
    let! x :=
      if protected ep
      then RequireUser (rq_Header r "Authorization") (fun user => dispatch ep (Some user) r)
      else dispatch ep None r in
    Ret (answer (Some (recovered x))).
End router.

(** ** main.go *)

(** What main passes on of the configuration, and the server's reading and writing of TIME. *)
Record Wiring := {
  wi_settings : Settings;
  wi_JWTSecret : bytes;
  wi_CORSAllowedOrigins : list bytes;
  wi_time_in : string -> option Duration;
  wi_time_out : Duration -> string;
  wi_pg_message : string -> string -> string }.

Definition router_deps (P : Platform) (c : Wiring) : RouterDependencies :=
  let secret := wi_JWTSecret c in
  let bookings := bookingService (wi_settings c) in
  let reservations := reservationService (wi_settings c) in
  {| AuthUC := Some
       {| uc_Register := Auth.Register P; uc_Login := Auth.Login P secret;
          uc_DummyLogin := Auth.DummyLogin P secret |};
     RoomUC := Some {| uc_ListRooms := Rooms.ListRooms; uc_CreateRoom := Rooms.CreateRoom |};
     ScheduleUC := Some
       {| uc_CreateSchedule :=
            Schedules.CreateSchedule (wi_time_in c) (wi_time_out c) (wi_pg_message c) |};
     SlotUC := Some
       {| uc_ListAvailableSlots := Calendar.ListAvailableSlots;
          uc_ListRoomSlots := Calendar.ListRoomSlots |};
     BookingUC := Some
       {| uc_CreateBooking := Booking.CreateBooking bookings;
          uc_ListBookings := Booking.ListBookings;
          uc_ListMyBookings := Booking.ListMyBookings;
          uc_CancelBooking := Booking.CancelBooking bookings |};
     WaitlistUC := Some
       {| uc_JoinWaitlist := Waitlist.JoinWaitlist; uc_LeaveWaitlist := Waitlist.LeaveWaitlist |};
     ReservationUC := Some
       {| uc_ConfirmReservation := Reservation.ConfirmReservation reservations;
          uc_CancelReservation := Reservation.CancelReservation reservations;
          uc_ListMyActiveReservations := Reservation.ListMyActiveReservations |};
     JWTSecret := secret;
     CORSOrigins := wi_CORSAllowedOrigins c |}.

(** ** The call a request stands for *)

Definition parse_then {A B} (x : result A) (k : A -> result B) : result B :=
  match x with
  | Ok a => k a
  | Err err => Err err
  end.

(** The use-case call of the booking, waitlist and reservation routes, or the error the
    request is refused with. *)
Definition request_of (P : Platform) (ep : Endpoint) (user : User) (r : HttpRequest)
    : option (result Request) :=
  match ep with
  | PostBookingsCreate => Some
      (parse_then (DecodeJSON (rq_Body r)) (fun q =>
       parse_then (parse_id P "invalid slotId" (bytes_of (cb_SlotID q))) (fun slotID =>
       Ok (ReqCreateBooking user slotID (cb_CreateConferenceLink q)))))
  | GetBookingsList => Some
      (parse_then (parsePagination r) (fun p => Ok (ReqListBookings user p.1 p.2)))
  | GetBookingsMy => Some (Ok (ReqListMyBookings user))
  | PostBookingCancel => Some
      (parse_then (parse_id P "invalid bookingId" (rq_URLParam r "bookingId")) (fun id =>
       Ok (ReqCancelBooking user id)))
  | PostWaitlistJoin => Some
      (parse_then (DecodeJSON (rq_Body r)) (fun q =>
       parse_then (parse_id P "invalid slotId" (bytes_of (jw_SlotID q))) (fun slotID =>
       Ok (ReqJoinWaitlist user slotID))))
  | PostWaitlistLeave => Some
      (parse_then (parse_id P "invalid waitlistId" (rq_URLParam r "waitlistId")) (fun id =>
       Ok (ReqLeaveWaitlist user id)))
  | GetMyActiveReservations => Some (Ok (ReqListMyActiveReservations user))
  | PostReservationConfirm => Some
      (parse_then (parse_id P "invalid reservationId" (rq_URLParam r "reservationId")) (fun id =>
       Ok (ReqConfirmReservation user id)))
  | PostReservationCancel => Some
      (parse_then (parse_id P "invalid reservationId" (rq_URLParam r "reservationId")) (fun id =>
       Ok (ReqCancelReservation user id)))
  | _ => None
  end.

Definition success_status (ep : Endpoint) : Z :=
  match ep with
  | PostRegister | PostRoomsCreate | PostScheduleCreate | PostBookingsCreate | PostWaitlistJoin => 201
  | _ => 200
  end.

Lemma run_respond E (p : prog (result reply)) w :
  run E (respond p) w =
    (match (run E p w).1 with Ok r => r | Err err => Replied (WriteError err) end, (run E p w).2).
Proof. unfold respond. rewrite run_bind. by destruct (run E p w).1. Qed.

(** A step that only parses. *)
Lemma bind_parsed {A B} (x : result A) a (k : A -> prog (result B)) :
  x = Ok a -> bind_ok (parsed x) k = k a.
Proof. by intros ->. Qed.

Lemma parse_then_ok {A B} (x : result A) (k : A -> result B) b :
  parse_then x k = Ok b -> exists a, x = Ok a /\ k a = Ok b.
Proof. destruct x as [a|]; [by exists a|done]. Qed.

Lemma run_answered E {A} (p : prog (result A)) w :
  run E (answered p) w =
    (match (run E p w).1 with Ok _ => Ok tt | Err err => Err err end, (run E p w).2).
Proof. unfold answered, bind_ok. rewrite run_bind. by destruct (run E p w).1. Qed.

(** The reply to a call, by its status. *)
Definition replies (status : Z) (x : result unit) (r : reply) : Prop :=
  match x with
  | Ok _ => exists v, r = Replied (WriteJSON status v)
  | Err err => r = Replied (WriteError err)
  end.

(** A handler that calls a use case and writes its result does what [answered] does. *)
Lemma call_replies E {A} (p : prog (result A)) status (k : A -> prog (result reply)) w :
  (forall a, exists v, k a = write status v) ->
  let x := run E (respond (bind_ok p k)) w in
  let y := run E (answered p) w in
  x.2 = y.2 /\ replies status y.1 x.1.
Proof.
  intros Hk. cbv zeta. rewrite run_respond, run_answered. unfold bind_ok. rewrite run_bind.
  destruct (run E p w).1 as [a|err]; [|done]. destruct (Hk a) as [v ->]. cbn. split; [done|].
  by exists v.
Qed.

Section dispatch.
Context (P : Platform) (c : Wiring) (E : Env).

(** A handler whose parsers succeed is its use-case call. *)
Lemma dispatch_calls ep user r req w :
  request_of P ep user r = Some (Ok req) ->
  let x := run E (dispatch P (router_deps P c) ep (Some user) r) w in
  let y := run E (serve (wi_settings c) req) w in
  x.2 = y.2 /\ replies (success_status ep) y.1 x.1.
Proof.
  intros Hreq. destruct ep; try done; apply (inj Some) in Hreq;
    repeat (apply parse_then_ok in Hreq as (? & ? & Hreq)); injection Hreq as <-;
    cbn [dispatch router_deps BookingUC WaitlistUC ReservationUC serve success_status];
    unfold Handlers.CreateBooking, Handlers.ListBookings, Handlers.ListMyBookings,
      Handlers.CancelBooking, Handlers.JoinWaitlist, Handlers.LeaveWaitlist,
      Handlers.ListMyActiveReservations, Handlers.ConfirmReservation, Handlers.CancelReservation,
      with_user;
    repeat (erewrite bind_parsed by eassumption).
  all: try match goal with p : Z * Z |- _ => destruct p end.
  all: apply call_replies; intros a; try destruct a; by eexists.
Qed.
End dispatch.

(** A request that is refused before the use case is called. *)
Lemma dispatch_refuses P c E ep user r err w :
  request_of P ep user r = Some (Err err) ->
  run E (dispatch P (router_deps P c) ep (Some user) r) w = (Replied (WriteError err), w).
Proof.
  intros Hreq. destruct ep; try done; cbn [request_of] in Hreq; injection Hreq as Hreq;
    cbn [dispatch router_deps BookingUC WaitlistUC ReservationUC];
    unfold Handlers.CreateBooking, Handlers.ListBookings, Handlers.CancelBooking,
      Handlers.JoinWaitlist, Handlers.LeaveWaitlist, Handlers.ConfirmReservation,
      Handlers.CancelReservation, with_user;
    unfold parse_then in Hreq;
    repeat match type of Hreq with
    | match ?x with _ => _ end = _ => destruct x eqn:?
    end; try done;
    injection Hreq as ->; rewrite run_respond; try done;
    unfold bind_ok, parsed; cbn [bind];
    match goal with H : _ = Err _ |- _ => by rewrite H end.
Qed.

(** ** What the parsers and the token check answer *)

Definition refuses {A} (code : ErrorCode) (x : result A) : Prop :=
  forall err, x = Err err -> rp_status (WriteError err) = StatusFromDomainCode code.

Lemma decode_refuses {A} `{Decode A} body : refuses ErrorInvalidRequest (DecodeJSON body : result A).
Proof.
  intros err. unfold DecodeJSON. destruct (limit MaxBody body) as [s cut].
  repeat case_match; intros; simplify_eq; done.
Qed.

Lemma pagination_refuses r : refuses ErrorInvalidRequest (parsePagination r).
Proof. intros err. unfold parsePagination. repeat case_match; intros; simplify_eq; done. Qed.

Lemma parse_id_refuses P message s : refuses ErrorInvalidRequest (parse_id P message s).
Proof. intros err. unfold parse_id. case_match; [done|]. by intros [= <-]. Qed.

Lemma then_refuses {A B} code (x : result A) (k : A -> result B) :
  refuses code x -> (forall a, refuses code (k a)) -> refuses code (parse_then x k).
Proof. intros Hx Hk err. destruct x as [a|e]; cbn; [apply Hk|]. intros [= <-]. by apply Hx. Qed.

Lemma ok_refuses {A} code (a : A) : refuses code (Ok a).
Proof. by intros err. Qed.

Lemma request_refuses P ep user r x : request_of P ep user r = Some x -> refuses ErrorInvalidRequest x.
Proof.
  destruct ep; try done; intros [= <-];
    auto using then_refuses, decode_refuses, pagination_refuses, parse_id_refuses, ok_refuses.
Qed.

(** A use case that answers an error with [code] at once or after reading the clock. *)
Lemma claims_refuse P claims : refuses ErrorUnauthorized (user_of_claims P claims).
Proof. intros err. unfold user_of_claims, parseUserID. repeat case_match; intros; by simplify_eq. Qed.

Lemma authentication_refuses P secret authorization E w :
  refuses ErrorUnauthorized (run E (AuthenticateRequest P secret authorization) w).1.
Proof.
  unfold AuthenticateRequest, AuthenticateToken, parseAndValidateToken.
  repeat case_match; try (intros err [= <-]; done); rewrite run_bind; cbn;
    try apply claims_refuse.
  case_match; [by intros err [= <-]|apply claims_refuse].
Qed.

(** The header is read, an identifier drawn if there is none. *)
Lemma run_request_id E header w :
  let x := run E (request_id header) w in
  w_db x.2 = w_db w /\ w_out x.2 = w_out w /\ w_clock x.2 = w_clock w.
Proof. unfold request_id. by case_bool_decide. Qed.

(** The user a request acts for. *)
Definition caller (req : Request) : option User :=
  match req with
  | ReqCreateBooking user _ _ | ReqCancelBooking user _ | ReqListBookings user _ _
  | ReqListMyBookings user | ReqJoinWaitlist user _ | ReqLeaveWaitlist user _
  | ReqConfirmReservation user _ | ReqCancelReservation user _
  | ReqListMyActiveReservations user => Some user
  | TickExpireDue => None
  end.

Lemma request_caller P ep user r req :
  request_of P ep user r = Some (Ok req) -> caller req = Some user.
Proof.
  intros Hreq. destruct ep; try done; apply (inj Some) in Hreq;
    repeat (apply parse_then_ok in Hreq as (? & ? & Hreq)); by injection Hreq as <-.
Qed.

(** ** A request, from its headers to its reply *)

(** What becomes of a request to a protected route. *)
Inductive answered_request (P : Platform) (c : Wiring) (E : Env) (ep : Endpoint) (r : HttpRequest)
    (w : World) (x : option Response * World) : Prop :=
(** 401: nothing is done. *)
| unauthenticated res :
    x.1 = Some res -> rp_status res = 401%Z ->
    w_db x.2 = w_db w -> w_out x.2 = w_out w -> answered_request P c E ep r w x
(** 400: the user is known, nothing is done. *)
| malformed user res :
    vouched P (wi_JWTSecret c) (TrimSpace (drop 7 (rq_Header r "Authorization")))
      (env_now E (w_clock w)) user ->
    x.1 = Some res -> rp_status res = 400%Z ->
    w_db x.2 = w_db w -> w_out x.2 = w_out w -> answered_request P c E ep r w x
(** The call for the user of the token, run from the database as it was. *)
| called user req w0 res :
    vouched P (wi_JWTSecret c) (TrimSpace (drop 7 (rq_Header r "Authorization")))
      (env_now E (w_clock w)) user ->
    request_of P ep user r = Some (Ok req) -> caller req = Some user ->
    w_db w0 = w_db w -> w_out w0 = w_out w ->
    x.2 = (run E (serve (wi_settings c) req) w0).2 ->
    replies (success_status ep) (run E (serve (wi_settings c) req) w0).1 (Replied res) ->
    x.1 = Some res -> answered_request P c E ep r w x.

Lemma run_RequireUser P deps E authorization next w :
  let x := run E (AuthenticateRequest P (JWTSecret deps) authorization) w in
  run E (RequireUser P deps authorization next) w =
    match x.1 with
    | Err err => (Replied (WriteError err), x.2)
    | Ok user => run E (next user) x.2
    end.
Proof. unfold RequireUser. rewrite run_bind. by destruct (run E _ w).1. Qed.

Lemma run_ServeHTTP P deps E ep r w :
  rq_Method r <> "OPTIONS"%string -> protected ep = true ->
  let w1 := (run E (request_id (rq_Header r "X-Request-ID")) w).2 in
  let x := run E (RequireUser P deps (rq_Header r "Authorization")
             (fun user => dispatch P deps ep (Some user) r)) w1 in
  hr_Response (run E (ServeHTTP P deps ep r) w).1 = Some (recovered x.1) /\
  (run E (ServeHTTP P deps ep r) w).2 = x.2.
Proof.
  intros Hm Hp. unfold ServeHTTP. rewrite run_bind. cbv zeta. rewrite bool_decide_false, Hp by done.
  by rewrite run_bind.
Qed.

Lemma replies_once status x r : replies status x r -> exists res, r = Replied res.
Proof. destruct x; cbn; [intros [v ->]|intros ->]; by eexists. Qed.

(** C36. A request to a booking, waitlist or reservation route either is refused - with 401
    for its token or with 400 for its parameters - and changes and publishes nothing, or is
    exactly the use-case call it spells out, made for the user whom the signed token names
    and on the database as it was, and the status of the reply tells how that call ended. *)
Theorem requests_act_for_their_user P c E ep r w :
  rq_Method r <> "OPTIONS"%string -> (forall user, is_Some (request_of P ep user r)) ->
  let x := run E (ServeHTTP P (router_deps P c) ep r) w in
  answered_request P c E ep r w (hr_Response x.1, x.2).
Proof.
  intros Hm Hcore. assert (protected ep = true) as Hp
    by (destruct ep; try done; by destruct (Hcore root)).
  destruct (run_ServeHTTP P (router_deps P c) E ep r w Hm Hp) as [Hres Hw]. cbv zeta.
  rewrite Hres, Hw. clear Hres Hw. rewrite run_RequireUser.
  destruct (run_request_id E (rq_Header r "X-Request-ID") w) as (Hdb & Hout & Hclock).
  set (w1 := (run E (request_id _) w).2) in *. cbv zeta.
  destruct (run_inert _ E w1 (authenticate_inert P (wi_JWTSecret c) (rq_Header r "Authorization")))
    as [Hdb2 Hout2].
  pose proof (authentication_refuses P (wi_JWTSecret c) (rq_Header r "Authorization") E w1) as H401.
  pose proof (header_vouched P (wi_JWTSecret c) (rq_Header r "Authorization") E w1) as Hv.
  cbn [JWTSecret router_deps].
  destruct (run E (AuthenticateRequest _ _ _) w1) as [[user|err] w2]; cbn [fst snd] in *.
  - rewrite Hclock in Hv. destruct (Hv user eq_refl) as [_ Hvouched].
    destruct (Hcore user) as [[req|err] Hreq].
    + destruct (dispatch_calls P c E ep user r req w2 Hreq) as [Hw Hrep].
      destruct (replies_once _ _ _ Hrep) as [res Hres]. rewrite Hres in *.
      eapply (called _ _ _ _ _ _ _ user req w2 res); eauto using request_caller; by etrans.
    + rewrite (dispatch_refuses P c E ep user r err w2 Hreq).
      apply (malformed _ _ _ _ _ _ _ user (WriteError err)); [done..| |by etrans|by etrans].
      by apply (request_refuses P ep user r _ Hreq).
  - apply (unauthenticated _ _ _ _ _ _ _ (WriteError err)); [done| |by etrans|by etrans].
    by apply H401.
Qed.

(** A deployment whose secret is empty, and Alice's request for the morning slot. *)
Definition wiring : Wiring :=
  {| wi_settings := settings; wi_JWTSecret := []; wi_CORSAllowedOrigins := [bytes_of "*"];
     wi_time_in _ := None; wi_time_out _ := ""; wi_pg_message _ _ := "" |}.

Definition bearer (userID : uuid) (role : UserRole) : bytes :=
  bytes_of "Bearer " ++ token sample [] userID role 90000.

Definition post (authorization : bytes) (param : string -> bytes) (body : bytes) : HttpRequest :=
  {| rq_Method := "POST";
     rq_Header name := if bool_decide (name = "Authorization") then authorization else [];
     rq_URLParam := param; rq_Query _ := []; rq_Body := body |}.

Definition slot_body (slotID : uuid) : bytes :=
  print (JObj [(bytes_of "slotId", JStr (uuid_String slotID))]).

Definition book_morning : HttpRequest :=
  post (bearer 1 RoleUser) (fun _ => []) (slot_body 20).

Lemma requests_act_for_their_user_witness :
  let x := run env (ServeHTTP sample (router_deps sample wiring) PostBookingsCreate book_morning) start in
  (rp_status <$> hr_Response x.1) = Some 201%Z /\ size (db_bookings (w_db x.2)) = 1%nat /\
  answered_request sample wiring env PostBookingsCreate book_morning start (hr_Response x.1, x.2).
Proof.
  cbv zeta. split; [by vm_compute|]. split; [by vm_compute|].
  apply (requests_act_for_their_user sample wiring env PostBookingsCreate book_morning start).
  - done.
  - intros user. by eexists.
Defined.
