(* ===== verification/Frame.v ===== *)
(** * Frame: the tables an operation leaves alone

    [Leaves f p] says that the program [p] does not change what [f] shows of the database,
    in any environment.  The use cases of bookings, waitlists and reservations leave the
    catalogue of rooms, schedules and slots alone, and those of the catalogue leave the
    occupancy of the slots alone, so that each group keeps what the other one relies on. *)

From S2P Require Import Prelude Domain Database Program Postgres Schema Usecase System.
From S2P Require Booking Waitlist Reservation.

(** Who has, holds or waits for a slot. *)
Definition occupancy (db : DB) :=
  (db_bookings db, db_waitlist db, db_reservations db).
(** What can be booked. *)
Definition catalogue (db : DB) :=
  (db_rooms db, db_schedules db, db_slots db).

(** A view of the tables, not of the sequence. *)
Class View {X} (f : DB -> X) : Prop :=
  view_seq : forall n db, f (set_waitlist_seq n db) = f db.

#[export] Instance occupancy_view : View occupancy.
Proof. done. Qed.
#[export] Instance catalogue_view : View catalogue.
Proof. done. Qed.
#[export] Instance pair_view {X Y} (f : DB -> X) (g : DB -> Y) :
  View f -> View g -> View (fun db => (f db, g db)).
Proof. intros Hf Hg n db. by rewrite Hf, Hg. Qed.

(** Statements. *)
Class Skips {X} (f : DB -> X) {R} (s : sql R) : Prop :=
  skips : forall a db, f (s a db).2 = f db.

#[export] Instance query_skips {X} (f : DB -> X) {R} (q : DB -> R) : Skips f (query q).
Proof. done. Qed.

#[export] Instance select_skips {X} (f : DB -> X) {R} (q : Answer -> DB -> R) : Skips f (select q).
Proof. done. Qed.

Lemma respond_skips {X} (f : DB -> X) {R} (s : sql R) `{!Skips f s} a db :
  f (respond a s db).2 = f db.
Proof. unfold respond. destruct (a_fault a); [destruct (a_lost a)|]; simpl; try apply skips; done. Qed.

(** Programs. *)
Class Leaves {X} (f : DB -> X) {A} (p : prog A) : Prop :=
  leaves : forall E w, f (w_db (run E p w).2) = f (w_db w).

Section leaves.
Context {X : Type} (f : DB -> X).

#[export] Instance ret_leaves {A} (a : A) : Leaves f (Ret a).
Proof. done. Qed.
#[export] Instance ok_leaves {A} (a : A) : Leaves f (ok a).
Proof. done. Qed.
#[export] Instance fail_leaves {A} e : Leaves f (@fail A e).
Proof. done. Qed.
#[export] Instance now_leaves : Leaves f (perform Now).
Proof. done. Qed.
#[export] Instance uuid_leaves : Leaves f (perform NewUUID).
Proof. done. Qed.
#[export] Instance output_leaves o : Leaves f (perform (Output_ o)).
Proof. done. Qed.
#[export] Instance sql_leaves {R} locks (s : sql R) `{!Skips f s} :
  Leaves f (perform (Statement locks s)).
Proof.
  intros E w. simpl. pose proof (respond_skips f s (env_answer E (w_calls w)) (w_db w)) as H.
  by destruct (respond _ _ _).
Qed.

Lemma bind_leaves {A B} (p : prog A) (k : A -> prog B) :
  Leaves f p -> (forall a, Leaves f (k a)) -> Leaves f (bind p k).
Proof. intros Hp Hk E w. rewrite run_bind. etransitivity; [apply Hk|apply Hp]. Qed.

Lemma bind_ok_leaves {A B} (p : prog (result A)) (k : A -> prog (result B)) :
  Leaves f p -> (forall a, Leaves f (k a)) -> Leaves f (bind_ok p k).
Proof. intros Hp Hk. apply bind_leaves; [done|]. intros [a|e]; [apply Hk|apply fail_leaves]. Qed.

Lemma on_err_leaves {A} g (p : prog (result A)) : Leaves f p -> Leaves f (on_err g p).
Proof. intros Hp. apply bind_leaves; [done|]. intros [a|e]; apply ret_leaves. Qed.

Lemma tx_leaves {A} (fn : prog (result A)) `{!View f} : Leaves f fn -> Leaves f (WithinTransaction fn).
Proof.
  intros Hfn E w. unfold WithinTransaction. rewrite run_bind.
  destruct (run E (perform Begin) w) as [tx w1] eqn:H1. simpl in H1.
  assert (w_db w1 = w_db w /\ forall t, tx = Ok t -> tx_snapshot t = w_db w) as [Hw1 Htx].
  { destruct (a_fault _); injection H1 as <- <-; split; try done. by intros t [= <-]. }
  clear H1. destruct tx as [tx|err]; simpl; [|by rewrite Hw1].
  specialize (Htx tx eq_refl). specialize (Hfn E w1). rewrite run_bind.
  destruct (run E fn w1) as [r w2]; simpl in *. rewrite Hw1 in Hfn.
  assert (f (restore (w_db w) (w_db w2)) = f (w_db w)) as Hback by (unfold restore; apply view_seq).
  destruct r as [a|err]; simpl; destruct (a_fault (env_answer E (w_calls w2))); simpl;
    try rewrite Htx; try destruct (a_lost _); simpl; done.
Qed.

(** What an inert program leaves is everything. *)
Lemma inert_leaves {A} (p : prog A) : Inert p -> Leaves f p.
Proof. intros Hp E w. by destruct (run_inert p E w Hp) as [-> _]. Qed.
End leaves.

(** Two views at once. *)
Lemma leaves_fst {X Y} (f : DB -> X) (g : DB -> Y) {A} (p : prog A) :
  Leaves (fun db => (f db, g db)) p -> Leaves f p.
Proof. intros Hp E w. pose proof (Hp E w) as H. simpl in H. congruence. Qed.
Lemma leaves_snd {X Y} (f : DB -> X) (g : DB -> Y) {A} (p : prog A) :
  Leaves (fun db => (f db, g db)) p -> Leaves g p.
Proof. intros Hp E w. pose proof (Hp E w) as H. simpl in H. congruence. Qed.

(** Decompose a program down to its statements. *)
Ltac frame :=
  repeat first
    [ apply bind_ok_leaves; [|intros ?] | apply on_err_leaves | apply tx_leaves; [apply _|]
    | apply bind_leaves; [|intros ?] | apply _ | case_match | progress simpl ].

(** A statement that writes other tables. *)
Ltac skip := intros ? ?; cbv delta [query select]; simpl; repeat case_match; simplify_eq/=; done.

(** ** Bookings, waitlists and reservations leave the catalogue alone *)

#[export] Instance booking_insert_skips b : Skips catalogue (BookingRepo.insert b).
Proof. unfold BookingRepo.insert. skip. Qed.
#[export] Instance booking_cancel_skips id : Skips catalogue (BookingRepo.update_cancelled id).
Proof. unfold BookingRepo.update_cancelled. skip. Qed.
#[export] Instance booking_page_skips l o : Skips catalogue (BookingRepo.page_of l o).
Proof. unfold BookingRepo.page_of. skip. Qed.
#[export] Instance waitlist_insert_skips e : Skips catalogue (WaitlistRepo.insert e).
Proof. unfold WaitlistRepo.insert. skip. Qed.
#[export] Instance waitlist_cancel_skips i u : Skips catalogue (WaitlistRepo.update_cancelled i u).
Proof. unfold WaitlistRepo.update_cancelled. skip. Qed.
#[export] Instance waitlist_claim_skips s : Skips catalogue (WaitlistRepo.claim_next s).
Proof. unfold WaitlistRepo.claim_next. skip. Qed.
#[export] Instance reservation_insert_skips r : Skips catalogue (ReservationRepo.insert r).
Proof. unfold ReservationRepo.insert. skip. Qed.
#[export] Instance reservation_update_skips i g : Skips catalogue (ReservationRepo.update_active i g).
Proof. unfold ReservationRepo.update_active. skip. Qed.
#[export] Instance reservation_expire_skips t l : Skips catalogue (ReservationRepo.expire_batch t l).
Proof. unfold ReservationRepo.expire_batch. skip. Qed.

#[export] Instance publish_leaves {X} (f : DB -> X) p ev : Leaves f (publish p ev).
Proof. destruct p; apply _. Qed.
#[export] Instance inc_leaves {X} (f : DB -> X) m c : Leaves f (inc m c).
Proof. destruct m; apply _. Qed.
#[export] Instance observe_leaves {X} (f : DB -> X) c : Leaves f (observe c).
Proof. apply output_leaves. Qed.

Section serve.
#[local] Instance expire_loop_leaves s now l v : Leaves catalogue (Reservation.expire_loop s now l v).
Proof. revert v. induction l; intros v; cbn [Reservation.expire_loop]; frame; auto. Qed.
#[local] Instance announce_expired_leaves s v l : Leaves catalogue (Reservation.announce_expired s v l).
Proof. induction l; cbn [Reservation.announce_expired]; frame; auto. Qed.
#[local] Instance announce_replacements_leaves s l : Leaves catalogue (Reservation.announce_replacements s l).
Proof. induction l; cbn [Reservation.announce_replacements]; frame; auto. Qed.

#[export] Instance serve_leaves cfg req : Leaves catalogue (serve cfg req).
Proof.
  unfold serve, answered. destruct req; unfold
    Booking.CreateBooking, Booking.create_booking_tx, Booking.CancelBooking,
    Booking.cancel_booking_tx, Booking.ListBookings, Booking.ListMyBookings,
    Waitlist.JoinWaitlist, Waitlist.join_waitlist_tx, Waitlist.LeaveWaitlist,
    Waitlist.leave_waitlist_tx, Reservation.ConfirmReservation,
    Reservation.confirm_reservation_tx, Reservation.CancelReservation,
    Reservation.cancel_reservation_tx, Reservation.ListMyActiveReservations,
    Reservation.ExpireDue, Reservation.expire_due_tx.
  all: frame.
Qed.
End serve.
