(* ===== verification/Deployment.v ===== *)
(** * Deployment: the whole service

    HTTP requests to any route, ticks of the expiration worker and runs of the slot
    generator, one after the other: what they keep true of the whole database. *)

From Stdlib Require Import Ascii.
From S2P Require Import Prelude Domain GoStd Text Json Platform Database Program Postgres Schema Usecase.
From S2P Require Import Invariant System Scenario Machine Safety Frame Auth Middleware Sessions Response.
From S2P Require Booking Waitlist Reservation Handlers.
From S2P Require Import SlotGen SlotGenSpec SlotGenSafety Rooms Schedules Calendar Http.

(** ** What holds of the database of a deployment *)

(** The slots of a room last half an hour and do not overlap. *)
Definition regular_slots (db : DB) : Prop :=
  disjoint_slots db /\
  forall i s, db_slots db !! i = Some s -> sl_EndTime s = (sl_StartTime s + SlotDuration)%Z.

Record deployed (H : Assm) (db : DB) : Prop := {
  dp_schema : schema db;
  dp_inv : inv H db;
  dp_rooms : proper_rooms db;
  dp_schedules : proper_schedules db;
  dp_slots : regular_slots db }.

Lemma inv_occupancy H db db' : occupancy db' = occupancy db -> inv H db -> inv H db'.
Proof.
  unfold occupancy. intros [= Hb Hw Hr] [Hc Hq]. split.
  - destruct Hc. by constructor; rewrite ?Hb, ?Hw, ?Hr.
  - intros Hl. specialize (Hq Hl). unfold queue_fine, queue_ok, held in *. by rewrite Hb, Hw, Hr.
Qed.

Lemma same_rooms db db' : db_rooms db' = db_rooms db -> proper_rooms db -> proper_rooms db'.
Proof. unfold proper_rooms. by intros ->. Qed.
Lemma same_schedules db db' :
  db_schedules db' = db_schedules db -> proper_schedules db -> proper_schedules db'.
Proof. unfold proper_schedules, unique_weekdays. by intros ->. Qed.
Lemma same_slots db db' : db_slots db' = db_slots db -> regular_slots db -> regular_slots db'.
Proof. unfold regular_slots, disjoint_slots. by intros ->. Qed.

(** ** Operations that keep it in any environment *)

Class Maintains (H : Assm) {A} (p : prog A) : Prop :=
  maintains : forall E w, deployed H (w_db w) -> deployed H (w_db (run E p w).2).

Section maintains.
Context (H : Assm).

#[export] Instance ret_maintains {A} (a : A) : Maintains H (Ret a).
Proof. by intros E w. Qed.
#[export] Instance ok_maintains {A} (a : A) : Maintains H (ok a).
Proof. by intros E w. Qed.
#[export] Instance fail_maintains {A} e : Maintains H (@fail A e).
Proof. by intros E w. Qed.
Lemma bind_maintains {A B} (p : prog A) (k : A -> prog B) :
  Maintains H p -> (forall a, Maintains H (k a)) -> Maintains H (bind p k).
Proof. intros Hp Hk E w Hw. rewrite run_bind. by apply Hk, Hp. Qed.
Lemma bind_ok_maintains {A B} (p : prog (result A)) (k : A -> prog (result B)) :
  Maintains H p -> (forall a, Maintains H (k a)) -> Maintains H (bind_ok p k).
Proof. intros Hp Hk. apply bind_maintains; [done|]. intros [a|e]; [apply Hk|apply fail_maintains]. Qed.

(** An operation that only reads. *)
Lemma reads_maintain {A} (p : prog A) : Leaves id p -> Maintains H p.
Proof. intros Hp E w. pose proof (Hp E w) as Heq. simpl in Heq. by rewrite Heq. Qed.

Lemma inert_maintains {A} (p : prog A) : Inert p -> Maintains H p.
Proof. intros Hp. by apply reads_maintain, inert_leaves. Qed.

(** An operation outside the occupancy. *)
Lemma catalogue_maintains {A} (p : prog A) :
  Keeps p -> Leaves occupancy p ->
  (forall E w, deployed H (w_db w) -> proper_rooms (w_db (run E p w).2) /\
    proper_schedules (w_db (run E p w).2) /\ regular_slots (w_db (run E p w).2)) ->
  Maintains H p.
Proof.
  intros Hk Hl Hp E w Hw. destruct (Hp E w Hw) as (? & ? & ?). split; try done.
  - apply (Hk E w), Hw.
  - eapply inv_occupancy; [apply Hl|apply Hw].
Qed.
End maintains.

Ltac maintain :=
  repeat first
    [ apply _ | apply bind_ok_maintains; [|intros ?] | apply bind_maintains; [|intros ?]
    | case_match | progress cbn beta iota ].

(** ** The use cases of the catalogue *)

#[export] Instance CreateRoom_keeps user input : Keeps (CreateRoom user input).
Proof. unfold CreateRoom. keep. Qed.
#[export] Instance Register_keeps P email password role : Keeps (Auth.Register P email password role).
Proof. unfold Auth.Register. keep. Qed.

(** The views each of them leaves alone. *)
Definition but_rooms (db : DB) := (occupancy db, (db_schedules db, db_slots db)).
Definition but_schedules (db : DB) := (occupancy db, (db_rooms db, db_slots db)).
Definition but_users (db : DB) := (occupancy db, catalogue db).

#[export] Instance room_insert_skips r : Skips but_rooms (RoomRepo.insert r).
Proof. unfold RoomRepo.insert. skip. Qed.
#[export] Instance user_insert_skips u : Skips but_users (UserRepo.insert u).
Proof. unfold UserRepo.insert. skip. Qed.

#[export] Instance CreateRoom_leaves user input : Leaves but_rooms (CreateRoom user input).
Proof. unfold CreateRoom. frame. Qed.
#[export] Instance Register_leaves P email password role :
  Leaves but_users (Auth.Register P email password role).
Proof. unfold Auth.Register. frame. Qed.

Section schedules.
Context (time_in : string -> option Duration) (time_out : Duration -> string).
Context (pg_message : string -> string -> string).

Local Abbreviation create := (CreateSchedule time_in time_out pg_message).

Lemma batch_only_schedules l a db : exists t, (insert_batch time_in time_out l a db).2 = set_schedule_rows t db.
Proof.
  assert (db = set_schedule_rows (db_schedule_rows db) db) as Hself by by destruct db.
  unfold insert_batch. destruct (insert_rows _ _ l db) as [db'|] eqn:Hl; [|by eexists].
  destruct (forallb _ l); [|by eexists]. apply insert_rows_added in Hl. eexists. apply (added_only _ _ _ _ _ Hl).
Qed.

#[export] Instance schedule_batch_preserves l : Preserves schema (insert_batch time_in time_out l).
Proof.
  intros a db Hs. unfold insert_batch. destruct (insert_rows _ _ l db) as [db'|] eqn:Hl; [|done].
  destruct (forallb _ l) eqn:Hfk; [|done]. apply insert_rows_added in Hl.
  assert (schedules_ok (db_rooms db) (db_schedule_rows db')) as Hok.
  { apply (added_ok _ _ _ _ _ Hl); [|apply Hs]. intros s Hin. rewrite forallb_forall in Hfk.
    by apply list_elem_of_In, Hfk, bool_decide_eq_true in Hin. }
  simpl. rewrite (added_only _ _ _ _ _ Hl). destruct Hs. by constructor.
Qed.
#[export] Instance schedule_batch_grows l : Grows (insert_batch time_in time_out l).
Proof. intros a db. by destruct (batch_only_schedules l a db) as [t ->]. Qed.
#[export] Instance schedule_batch_skips l : Skips but_schedules (insert_batch time_in time_out l).
Proof. intros a db. by destruct (batch_only_schedules l a db) as [t ->]. Qed.

#[export] Instance make_schedules_keeps roomID input t days : Keeps (make_schedules roomID input t days).
Proof. induction days; cbn [make_schedules]; keep; auto. Qed.
#[export] Instance make_schedules_leaves {X} (f : DB -> X) roomID input t days :
  Leaves f (make_schedules roomID input t days).
Proof. induction days; cbn [make_schedules]; frame; auto. Qed.

#[export] Instance CreateSchedule_keeps user roomID input : Keeps (create user roomID input).
Proof. unfold CreateSchedule, CreateBatch, RoomRepo.GetByID, ScheduleRepo.ExistsByRoomID. keep. Qed.
#[export] Instance CreateSchedule_leaves user roomID input :
  Leaves but_schedules (create user roomID input).
Proof. unfold CreateSchedule, CreateBatch, RoomRepo.GetByID, ScheduleRepo.ExistsByRoomID. frame. Qed.
End schedules.

(** ** They maintain the database *)

Section catalogue.
Context (H : Assm).

#[export] Instance Register_maintains P email password role :
  Maintains H (Auth.Register P email password role).
Proof.
  apply catalogue_maintains; [apply _|by apply (leaves_fst occupancy catalogue), _|].
  intros E w Hw. pose proof (Register_leaves P email password role E w) as Hl.
  injection Hl as _ _ _ Hr Hs Ht. destruct Hw.
  split; [|split]; eauto using same_rooms, same_schedules, same_slots.
Qed.

#[export] Instance CreateRoom_maintains user input : Maintains H (CreateRoom user input).
Proof.
  apply catalogue_maintains; [apply _|by eapply leaves_fst, CreateRoom_leaves|].
  intros E w Hw. pose proof (CreateRoom_leaves user input E w) as Hl.
  injection Hl as _ _ _ Hs Ht.
  destruct (wp_run anything E _ _ w (respects_anything E)
    (CreateRoom_outcome user input (w_db w) (w_out w))) as [Hrooms _].
  destruct Hw. split; [|split]; eauto using same_schedules, same_slots.
Qed.

Section schedules.
Context (time_in : string -> option Duration) (time_out : Duration -> string).
Context (pg_message : string -> string -> string).
Context (time_in_agrees : forall s d d', parseTimeOfDay s = Ok d -> time_in s = Some d' -> d' = d).
Context (time_out_text : forall h m s, (0 <= h < 24)%Z -> (0 <= m < 60)%Z -> (0 <= s < 60)%Z ->
  time_out (h * Hour + m * Minute + s * Second)%Z = time_text h m s).

Lemma CreateSchedule_maintains user roomID input :
  Maintains H (CreateSchedule time_in time_out pg_message user roomID input).
Proof.
  apply catalogue_maintains; [apply _|by eapply leaves_fst, CreateSchedule_leaves|].
  intros E w Hw. pose proof (CreateSchedule_leaves time_in time_out pg_message user roomID input E w) as Hl.
  injection Hl as _ _ _ Hr Ht.
  destruct (wp_run anything E _ _ w (respects_anything E)
    (CreateSchedule_outcome time_in time_out pg_message time_in_agrees time_out_text
       user roomID input (w_db w) (w_out w))) as [Hsch _].
  destruct Hw. split; [|split]; eauto using same_rooms, same_slots.
Qed.
End schedules.
End catalogue.

(** ** The slot generator *)

Lemma Generate_maintains H NewSHA1 g : Maintains H (Generate NewSHA1 g).
Proof.
  intros E w Hw. pose proof (dp_schema _ _ Hw) as Hs.
  destruct (ran_inserted _ _ _ _ (run_ran NewSHA1 g E w Hs)) as (l1 & l2 & Hi & Hl).
  pose proof (inserted_only_slots _ _ _ Hi) as Honly.
  pose proof (generated_schema NewSHA1 g E w Hs) as Hs'.
  pose proof (generated_disjoint NewSHA1 g E w Hs
    (proj1 (dp_slots _ _ Hw))) as Hdisjoint.
  set (db' := w_db (run E (Generate NewSHA1 g) w).2) in *. split; [done|..].
  - eapply inv_occupancy; [|apply Hw]. by rewrite Honly.
  - eapply same_rooms; [|apply Hw]. by rewrite Honly.
  - eapply same_schedules; [|apply Hw]. by rewrite Honly.
  - split; [done|]. intros i s Hx. destruct (inserted_new _ _ _ Hi i s Hx) as [Hold|[Hnew _]].
    + by apply (proj2 (dp_slots _ _ Hw) i).
    + assert (due NewSHA1 g (w_db w) s) as Hdue
        by (apply elem_of_emission; [apply schema_rooms, Hs|]; rewrite <- Hl; apply elem_of_app; by left).
      by destruct Hdue as (?&?&?&?&?&_&_&_&_&_&_&_&_&_& ->).
Qed.

(** ** HTTP *)

Section http.
Context (H : Assm) (P : Platform) (c : Wiring).
Context (time_in_agrees : forall s d d',
  parseTimeOfDay s = Ok d -> wi_time_in c s = Some d' -> d' = d).
Context (time_out_text : forall h m s, (0 <= h < 24)%Z -> (0 <= m < 60)%Z -> (0 <= s < 60)%Z ->
  wi_time_out c (h * Hour + m * Minute + s * Second)%Z = time_text h m s).

#[local] Instance create_schedule_maintains user roomID input : Maintains H
  (CreateSchedule (wi_time_in c) (wi_time_out c) (wi_pg_message c) user roomID input).
Proof. by apply CreateSchedule_maintains. Qed.

#[local] Instance Login_maintains secret email password : Maintains H (Auth.Login P secret email password).
Proof. apply reads_maintain. unfold Auth.Login, Auth.Sign. frame. Qed.
#[local] Instance DummyLogin_maintains secret role : Maintains H (Auth.DummyLogin P secret role).
Proof. apply reads_maintain. unfold Auth.DummyLogin, Auth.Sign. frame. Qed.
#[local] Instance ListRooms_maintains user : Maintains H (Rooms.ListRooms user).
Proof. apply reads_maintain. unfold Rooms.ListRooms. frame. Qed.
#[local] Instance ListAvailableSlots_maintains user room date :
  Maintains H (Calendar.ListAvailableSlots user room date).
Proof. apply reads_maintain. unfold Calendar.ListAvailableSlots, Calendar.validateAndNormalizeRequest. frame. Qed.
#[local] Instance ListRoomSlots_maintains user room date :
  Maintains H (Calendar.ListRoomSlots user room date).
Proof. apply reads_maintain. unfold Calendar.ListRoomSlots, Calendar.validateAndNormalizeRequest. frame. Qed.

Lemma respond_maintains (p : prog (result Handlers.reply)) :
  Maintains H p -> Maintains H (Handlers.respond p).
Proof. intros Hp. unfold Handlers.respond. maintain. Qed.

Lemma dispatch_maintains ep user r :
  (forall u, request_of P ep u r = None) -> Maintains H (dispatch P (router_deps P c) ep user r).
Proof.
  intros Hother. destruct ep; try (by specialize (Hother root)); clear Hother;
    cbn [dispatch router_deps AuthUC RoomUC ScheduleUC SlotUC]; [by intros E w|..];
    unfold Handlers.Register, Handlers.Login, Handlers.DummyLogin, Handlers.ListRooms,
      Handlers.CreateRoom, Handlers.CreateSchedule, Handlers.ListAvailableSlots,
      Handlers.ListRoomSlots, Handlers.with_user, Handlers.with_auth, Handlers.parsed, Handlers.write;
    apply respond_maintains; destruct user; maintain.
Qed.

#[local] Instance request_id_maintains header : Maintains H (request_id header).
Proof. apply inert_maintains. unfold request_id. inertly. Qed.
#[local] Instance authenticate_maintains secret authorization :
  Maintains H (AuthenticateRequest P secret authorization).
Proof. apply inert_maintains, authenticate_inert. Qed.

(** The core requests keep it in the environments the invariant assumes. *)
Lemma serve_maintains E req w :
  respects H E -> deployed H (w_db w) -> deployed H (w_db (run E (serve (wi_settings c) req) w).2).
Proof.
  intros HE [Hs Hi Hr Hsch Hsl]. pose proof (serve_leaves (wi_settings c) req E w) as Hl.
  injection Hl as Hl1 Hl2 Hl3. split.
  - by apply (serve_keeps (wi_settings c) req E w).
  - by apply (wp_run H E (serve (wi_settings c) req) (fun _ db' _ => inv H db') w HE), serve_inv.
  - by eapply same_rooms.
  - by eapply same_schedules.
  - by eapply same_slots.
Qed.

Lemma ServeHTTP_maintains E ep r w :
  respects H E -> deployed H (w_db w) ->
  deployed H (w_db (run E (ServeHTTP P (router_deps P c) ep r) w).2).
Proof.
  intros HE Hw. unfold ServeHTTP. rewrite run_bind.
  pose proof (request_id_maintains (Handlers.rq_Header r "X-Request-ID") E w Hw) as H1.
  set (w1 := (run E (request_id _) w).2) in *. clearbody w1. case_bool_decide; [exact H1|].
  rewrite run_bind. simpl. destruct (request_of P ep root r) as [x|] eqn:Hcore.
  - assert (protected ep = true) as -> by by destruct ep.
    rewrite run_RequireUser. cbn [JWTSecret router_deps].
    pose proof (authenticate_maintains (wi_JWTSecret c) (Handlers.rq_Header r "Authorization") E w1 H1) as H2.
    destruct (run E (AuthenticateRequest _ _ _) w1) as [[user|err] w2]; [|done]. cbn [fst snd] in *.
    destruct (request_of P ep user r) as [[req|err]|] eqn:Hreq; [| |by destruct ep].
    + destruct (dispatch_calls P c E ep user r req w2 Hreq) as [-> _]. by apply serve_maintains.
    + by rewrite (dispatch_refuses P c E ep user r err w2 Hreq).
  - assert (forall u, request_of P ep u r = None) as Hother by (intros u; by destruct ep).
    destruct (protected ep); [|by apply dispatch_maintains].
    rewrite run_RequireUser. cbn [JWTSecret router_deps].
    pose proof (authenticate_maintains (wi_JWTSecret c) (Handlers.rq_Header r "Authorization") E w1 H1) as H2.
    destruct (run E (AuthenticateRequest _ _ _) w1) as [[user|err] w2]; [|done].
    by apply dispatch_maintains.
Qed.
End http.

(** ** Histories *)

(** What runs in a deployment, each to its end, in an environment that [H] allows. *)
Inductive happens (H : Assm) (P : Platform) (c : Wiring) (NewSHA1 : uuid -> list ascii -> uuid)
    (w w' : World) : Prop :=
| http_request E ep r :
    respects H E -> w' = (run E (ServeHTTP P (router_deps P c) ep r) w).2 ->
    happens H P c NewSHA1 w w'
| expiration_tick E :
    respects H E -> w' = (run E (serve (wi_settings c) TickExpireDue) w).2 ->
    happens H P c NewSHA1 w w'
| generator_run E g :
    respects H E -> w' = (run E (Generate NewSHA1 g) w).2 -> happens H P c NewSHA1 w w'.

(** From a database in which nothing is booked yet and whose rooms, schedules and slots, if
    there are any, are as the service makes them. *)
Inductive history (H : Assm) (P : Platform) (c : Wiring) (NewSHA1 : uuid -> list ascii -> uuid)
    : World -> Prop :=
| history_installed w :
    fresh_start (w_db w) -> proper_rooms (w_db w) -> proper_schedules (w_db w) ->
    regular_slots (w_db w) -> history H P c NewSHA1 w
| history_goes_on w w' :
    history H P c NewSHA1 w -> happens H P c NewSHA1 w w' -> history H P c NewSHA1 w'.

(** PostgreSQL reads a time of day that the service accepts as that time, and writes a time
    without fraction as HH:MM:SS. *)
Record times_agree (c : Wiring) : Prop := {
  times_read : forall s d d', parseTimeOfDay s = Ok d -> wi_time_in c s = Some d' -> d' = d;
  times_written : forall h m s, (0 <= h < 24)%Z -> (0 <= m < 60)%Z -> (0 <= s < 60)%Z ->
    wi_time_out c (h * Hour + m * Minute + s * Second)%Z = time_text h m s }.

Lemma history_deployed H P c NewSHA1 w :
  times_agree c -> history H P c NewSHA1 w -> deployed H (w_db w).
Proof.
  intros [Hin Hout]. induction 1 as [w Hw Hr Hsch Hsl|w w' _ IH Hstep].
  - split; try done; [apply Hw|by apply fresh_start_inv].
  - destruct Hstep as [E ep r HE ->|E HE ->|E g HE ->].
    + by apply ServeHTTP_maintains.
    + by apply serve_maintains.
    + by apply Generate_maintains.
Qed.

(** C37. However requests of any kind, ticks of the expiration worker and runs of the slot
    generator follow one another, and whatever fails during each of them: a room is never
    given away twice for the same time.  Of two bookings or reservations that hold slots of
    one room, one ends before the other begins.  The database keeps its constraints, the
    invariant of bookings, queues and reservations, and rooms, schedules and slots as the
    components expect them of each other. *)
Theorem rooms_are_never_double_booked H P c NewSHA1 w :
  times_agree c -> history H P c NewSHA1 w ->
  deployed H (w_db w) /\
  forall slot slot' h h' s s',
    holding (w_db w) slot h -> holding (w_db w) slot' h' -> h <> h' ->
    db_slots (w_db w) !! slot = Some s -> db_slots (w_db w) !! slot' = Some s' ->
    sl_RoomID s = sl_RoomID s' ->
    (sl_EndTime s <= sl_StartTime s')%Z \/ (sl_EndTime s' <= sl_StartTime s)%Z.
Proof.
  intros Ht Hw. pose proof (history_deployed H P c NewSHA1 w Ht Hw) as Hd. split; [done|].
  intros slot slot' h h' s s' Hh Hh' Hne Hs Hs' Hroom. pose proof (dp_schema _ _ Hd) as Hsch.
  destruct (decide (slot = slot')) as [<-|Hslot].
  { destruct Hne. eapply exclusive_holder; eauto. apply schema_exclusive; [done|].
    apply (dp_inv _ _ Hd). }
  destruct (decide (sl_EndTime s <= sl_StartTime s')%Z); [by left|].
  destruct (decide (sl_EndTime s' <= sl_StartTime s)%Z); [by right|]. destruct Hslot.
  eapply (slots_no_overlap _ _ (schema_slots _ Hsch)); [done..|]. split; [done|]. lia.
Qed.

(** Names of due slots that get the same identifier are the same, and no other slot has the
    identifier of one. *)
Definition distinct_ids (NewSHA1 : uuid -> list ascii -> uuid) (g : Generator) (db : DB) : Prop :=
  forall s s', due NewSHA1 g db s ->
    db_slots db !! sl_ID s = Some s' \/ due NewSHA1 g db s' /\ sl_ID s' = sl_ID s ->
    sl_RoomID s' = sl_RoomID s /\ sl_StartTime s' = sl_StartTime s.

Lemma deployed_ready H NewSHA1 g db :
  deployed H db -> distinct_ids NewSHA1 g db -> ready NewSHA1 g db.
Proof.
  intros Hd Hids. split; [|intros i s Hs|done].
  - intros i sch e Hi Hbad. destruct (proj2 (dp_schedules _ _ Hd) i sch Hi) as (_ & a & b & Ha & Hb & _).
    destruct Hbad as [Hbad|Hbad]; congruence.
  - by rewrite (proj2 (dp_slots _ _ Hd) i s Hs).
Qed.

(** C38. Nothing that clients send can stop the generator: at any point of a deployment a
    run with a server that answers succeeds, and afterwards every slot is there that was due
    for a room and its schedule in the window of the run. *)
Theorem schedules_are_always_offered H P c NewSHA1 g E w :
  times_agree c -> history H P c NewSHA1 w -> steady E -> distinct_ids NewSHA1 g (w_db w) ->
  let x := run E (Generate NewSHA1 g) w in
  x.1 = Ok tt /\
  forall s, due NewSHA1 g (w_db w) s ->
    exists i s', db_slots (w_db x.2) !! i = Some s' /\
      sl_RoomID s' = sl_RoomID s /\ sl_StartTime s' = sl_StartTime s /\ sl_EndTime s' = sl_EndTime s.
Proof.
  intros Ht Hw HE Hids. pose proof (history_deployed H P c NewSHA1 w Ht Hw) as Hd.
  pose proof (dp_schema _ _ Hd) as Hs.
  pose proof (ready_generates NewSHA1 g E w HE Hs
    (deployed_ready H NewSHA1 g _ Hd Hids)) as Hok. cbv zeta. split; [done|]. intros s Hdue.
  pose proof (run_ran NewSHA1 g E w Hs) as Hran. rewrite Hok in Hran. simpl in Hran.
  destruct (inserted_all _ _ _ Hran s) as (i & s' & Hi & Hr & Hst);
    [apply elem_of_emission; [apply schema_rooms, Hs|done]|].
  exists i, s'. split_and!; try done.
  pose proof (proj2 (dp_slots _ _ (Generate_maintains H NewSHA1 g E w Hd)) i s' Hi) as ->.
  rewrite Hst. by destruct Hdue as (?&?&?&?&?&_&_&_&_&_&_&_&_&_& ->).
Qed.

(** ** A sample deployment *)

Definition wiring_times : Wiring :=
  {| wi_settings := settings; wi_JWTSecret := []; wi_CORSAllowedOrigins := [bytes_of "*"];
     wi_time_in := reads_time; wi_time_out := writes_time; wi_pg_message _ constraint := constraint |}.

Lemma wiring_times_agree : times_agree wiring_times.
Proof.
  split; [|exact writes_time_text]. unfold wiring_times, wi_time_in, reads_time.
  intros s d d' ->. by intros [= <-].
Qed.

(** 128 bits of the name. *)
Definition short_id (ns : uuid) (name : list ascii) : uuid := (name_id ns name mod 2 ^ 128)%N.

Definition installed : World :=
  {| w_db := set_slots ∅ db0; w_calls := 0; w_clock := 0; w_ids := 0; w_out := [] |}.

Definition post_schedule : Handlers.HttpRequest :=
  post (bearer 4 RoleAdmin) (fun _ => uuid_String 10)
    (print (JObj [(bytes_of "daysOfWeek", JArr [of_int 4]); (bytes_of "startTime", of_string "09:00");
                  (bytes_of "endTime", of_string "10:30")])).

(** Root gives the blue room its hours, the generator runs, Alice books half past nine. *)
Definition opened : World :=
  (run env (ServeHTTP sample (router_deps sample wiring_times) PostScheduleCreate post_schedule)
    installed).2.
Definition offering : World := (run env (Generate short_id daily) opened).2.
Definition half_past_nine : uuid := sl_ID (buildSlot short_id 10 (34200 * Second) (36000 * Second) one_am).
Definition used : World :=
  (run env (ServeHTTP sample (router_deps sample wiring_times) PostBookingsCreate
    (post (bearer 1 RoleUser) (fun _ => []) (slot_body half_past_nine))) offering).2.

Local Abbreviation sample_history := (history quiet sample wiring_times short_id).

Lemma installed_history : sample_history installed.
Proof.
  apply history_installed.
  - split; [|done]. destruct db0_schema as [? ? _ _ _ _]. constructor; simpl; try done;
      constructor; intros ?; intros; each_row.
  - intros i r Hr. simpl in Hr. each_row. split_and!; [done..|]. by intros n [= <-].
  - split; [|by intros i s ?]. by split; intros i; intros.
  - by split; intros i; intros.
Qed.

Lemma opened_history : sample_history opened.
Proof.
  eapply history_goes_on; [exact installed_history|].
  by eapply http_request; [apply env_quiet|].
Qed.
Lemma offering_history : sample_history offering.
Proof.
  eapply history_goes_on; [exact opened_history|]. by eapply generator_run; [apply env_quiet|].
Qed.
Lemma used_history : sample_history used.
Proof.
  eapply history_goes_on; [exact offering_history|].
  by eapply http_request; [apply env_quiet|].
Qed.

Lemma rooms_are_never_double_booked_witness :
  size (db_bookings (w_db used)) = 1%nat /\ deployed quiet (w_db used).
Proof.
  split; [by vm_compute|].
  exact (proj1 (rooms_are_never_double_booked quiet sample wiring_times short_id used
    wiring_times_agree used_history)).
Defined.

(** The three slots of that day. *)
Lemma opened_due : emission short_id daily (w_db opened) =
  (fun m => buildSlot short_id 10 (m * Minute) ((m + 30) * Minute) one_am) <$> [540; 570; 600]%Z.
Proof. by vm_compute. Qed.

Lemma opened_distinct : distinct_ids short_id daily (w_db opened).
Proof.
  assert (primary rm_ID (db_rooms (w_db opened))) as Hpk
    by apply schema_rooms, (dp_schema quiet), (history_deployed _ _ _ _ _ wiring_times_agree opened_history).
  intros s s' Hs [Hs'|[Hs' Hid]].
  - assert (db_slots (w_db opened) = ∅) as Hnone by by vm_compute.
    rewrite Hnone, lookup_empty in Hs'. discriminate Hs'.
  - apply elem_of_emission in Hs, Hs'; [|done..]. rewrite opened_due in Hs, Hs'.
    rewrite !fmap_cons, fmap_nil, !elem_of_cons, elem_of_nil in Hs, Hs'.
    clear Hpk. destruct Hs as [->|[->|[->|[]]]], Hs' as [->|[->|[->|[]]]];
      first [split; reflexivity | apply N.eqb_eq in Hid; vm_compute in Hid; discriminate Hid].
Qed.

Lemma schedules_are_always_offered_witness :
  (run env (Generate short_id daily) opened).1 = Ok tt /\
  exists i s', db_slots (w_db offering) !! i = Some s' /\ sl_StartTime s' = (570 * Minute)%Z.
Proof.
  destruct (schedules_are_always_offered quiet sample wiring_times short_id daily env opened
    wiring_times_agree opened_history) as [Hok Hslots]; [done|exact opened_distinct|].
  split; [exact Hok|].
  destruct (Hslots (buildSlot short_id 10 (570 * Minute) (600 * Minute) one_am))
    as (i & s' & Hi & _ & Hst & _).
  - apply elem_of_emission.
    + apply schema_rooms, (dp_schema quiet), (history_deployed _ _ _ _ _ wiring_times_agree opened_history).
    + rewrite opened_due. right. left.
  - exists i, s'. by split.
Defined.
