(* ===== verification/Realtime.v ===== *)
(** * Realtime: event.go, message.go, redis_publisher.go and redis_subscriber.go of internal/realtime

    The events as they travel through Redis: how the publisher writes them, what the
    subscriber accepts, and whom it hands them to.  Redis itself carries the payload. *)

From Stdlib Require Import Ascii.
From S2P Require Import Prelude Domain GoStd Text Json Dates Platform Database Program.
From S2P Require Import Sessions.

(** ** event.go *)

Definition EventTypeSlotBooked : string := "slot_booked".
Definition EventTypeSlotReleased : string := "slot_released".
Definition EventTypeSlotAvailable : string := "slot_available".
Definition EventTypeSlotReserved : string := "slot_reserved".
Definition EventTypeSlotReservationExpired : string := "slot_reservation_expired".
Definition EventTypeWaitlistSlotAvailable : string := "waitlist_slot_available".
Definition EventTypeWaitlistSlotReserved : string := "waitlist_slot_reserved".
Definition EventTypeReservationExpired : string := "reservation_expired".

Definition EventTargetRoom : string := "room".
Definition EventTargetUser : string := "user".

(** Types and targets are strings: a payload may hold any. *)
Record Event := {
  ev_Type : string;
  ev_Target : string;
  ev_RoomID : string;
  ev_UserID : string;
  ev_SlotID : string;
  ev_BookingID : string;
  ev_ReservationID : string;
  ev_WaitlistEntryID : string;
  ev_ExpiresAt : string;
  ev_Timestamp : string }.

#[export] Instance decode_event : Decode Event := {
  zero := Build_Event "" "" "" "" "" "" "" "" "" "";
  decode := decode_struct [
    at_field "type" ev_Type (fun x e => Build_Event x (ev_Target e) (ev_RoomID e) (ev_UserID e)
      (ev_SlotID e) (ev_BookingID e) (ev_ReservationID e) (ev_WaitlistEntryID e) (ev_ExpiresAt e)
      (ev_Timestamp e));
    at_field "target" ev_Target (fun x e => Build_Event (ev_Type e) x (ev_RoomID e) (ev_UserID e)
      (ev_SlotID e) (ev_BookingID e) (ev_ReservationID e) (ev_WaitlistEntryID e) (ev_ExpiresAt e)
      (ev_Timestamp e));
    at_field "roomId" ev_RoomID (fun x e => Build_Event (ev_Type e) (ev_Target e) x (ev_UserID e)
      (ev_SlotID e) (ev_BookingID e) (ev_ReservationID e) (ev_WaitlistEntryID e) (ev_ExpiresAt e)
      (ev_Timestamp e));
    at_field "userId" ev_UserID (fun x e => Build_Event (ev_Type e) (ev_Target e) (ev_RoomID e) x
      (ev_SlotID e) (ev_BookingID e) (ev_ReservationID e) (ev_WaitlistEntryID e) (ev_ExpiresAt e)
      (ev_Timestamp e));
    at_field "slotId" ev_SlotID (fun x e => Build_Event (ev_Type e) (ev_Target e) (ev_RoomID e)
      (ev_UserID e) x (ev_BookingID e) (ev_ReservationID e) (ev_WaitlistEntryID e) (ev_ExpiresAt
      e) (ev_Timestamp e));
    at_field "bookingId" ev_BookingID (fun x e => Build_Event (ev_Type e) (ev_Target e)
      (ev_RoomID e) (ev_UserID e) (ev_SlotID e) x (ev_ReservationID e) (ev_WaitlistEntryID e)
      (ev_ExpiresAt e) (ev_Timestamp e));
    at_field "reservationId" ev_ReservationID (fun x e => Build_Event (ev_Type e) (ev_Target e)
      (ev_RoomID e) (ev_UserID e) (ev_SlotID e) (ev_BookingID e) x (ev_WaitlistEntryID e)
      (ev_ExpiresAt e) (ev_Timestamp e));
    at_field "waitlistEntryId" ev_WaitlistEntryID (fun x e => Build_Event (ev_Type e) (ev_Target
      e) (ev_RoomID e) (ev_UserID e) (ev_SlotID e) (ev_BookingID e) (ev_ReservationID e) x
      (ev_ExpiresAt e) (ev_Timestamp e));
    at_field "expiresAt" ev_ExpiresAt (fun x e => Build_Event (ev_Type e) (ev_Target e)
      (ev_RoomID e) (ev_UserID e) (ev_SlotID e) (ev_BookingID e) (ev_ReservationID e)
      (ev_WaitlistEntryID e) x (ev_Timestamp e));
    at_field "timestamp" ev_Timestamp (fun x e => Build_Event (ev_Type e) (ev_Target e)
      (ev_RoomID e) (ev_UserID e) (ev_SlotID e) (ev_BookingID e) (ev_ReservationID e)
      (ev_WaitlistEntryID e) (ev_ExpiresAt e) x)] }.

(** [omitempty] on a string. *)
Definition omit_empty (name : string) (s : string) : list (bytes * json) :=
  if bool_decide (s = EmptyString) then [] else [(bytes_of name, of_string s)].

Definition member_of (name : string) (s : string) : list (bytes * json) :=
  [(bytes_of name, of_string s)].

Definition event_json (e : Event) : json :=
  JObj (member_of "type" (ev_Type e) ++ member_of "target" (ev_Target e) ++
        omit_empty "roomId" (ev_RoomID e) ++ omit_empty "userId" (ev_UserID e) ++
        member_of "slotId" (ev_SlotID e) ++ omit_empty "bookingId" (ev_BookingID e) ++
        omit_empty "reservationId" (ev_ReservationID e) ++
        omit_empty "waitlistEntryId" (ev_WaitlistEntryID e) ++
        omit_empty "expiresAt" (ev_ExpiresAt e) ++ member_of "timestamp" (ev_Timestamp e)).

Definition id_text (u : uuid) : string := string_of (uuid_String u).
Definition time_text (t : time) : string := string_of (FormatRFC3339 t).

Definition NewRoomEvent (eventType : string) (roomID slotID bookingID : uuid) (now : time) : Event :=
  {| ev_Type := eventType; ev_Target := EventTargetRoom; ev_RoomID := id_text roomID;
     ev_UserID := ""; ev_SlotID := id_text slotID; ev_BookingID := id_text bookingID;
     ev_ReservationID := ""; ev_WaitlistEntryID := ""; ev_ExpiresAt := "";
     ev_Timestamp := time_text now |}.

Definition NewUserEvent (eventType : string) (roomID slotID userID waitlistEntryID : uuid) (now : time)
    : Event :=
  {| ev_Type := eventType; ev_Target := EventTargetUser; ev_RoomID := id_text roomID;
     ev_UserID := id_text userID; ev_SlotID := id_text slotID; ev_BookingID := "";
     ev_ReservationID := ""; ev_WaitlistEntryID := id_text waitlistEntryID; ev_ExpiresAt := "";
     ev_Timestamp := time_text now |}.

Definition NewReservationRoomEvent (eventType : string) (roomID slotID reservationID : uuid) (now : time)
    : Event :=
  {| ev_Type := eventType; ev_Target := EventTargetRoom; ev_RoomID := id_text roomID;
     ev_UserID := ""; ev_SlotID := id_text slotID; ev_BookingID := "";
     ev_ReservationID := id_text reservationID; ev_WaitlistEntryID := ""; ev_ExpiresAt := "";
     ev_Timestamp := time_text now |}.

Definition NewSlotAvailableEvent (roomID slotID : uuid) (now : time) : Event :=
  {| ev_Type := EventTypeSlotAvailable; ev_Target := EventTargetRoom; ev_RoomID := id_text roomID;
     ev_UserID := ""; ev_SlotID := id_text slotID; ev_BookingID := ""; ev_ReservationID := "";
     ev_WaitlistEntryID := ""; ev_ExpiresAt := ""; ev_Timestamp := time_text now |}.

Definition NewWaitlistReservationEvent (eventType : string)
    (roomID slotID userID reservationID waitlistEntryID : uuid) (expiresAt now : time) : Event :=
  {| ev_Type := eventType; ev_Target := EventTargetUser; ev_RoomID := id_text roomID;
     ev_UserID := id_text userID; ev_SlotID := id_text slotID; ev_BookingID := "";
     ev_ReservationID := id_text reservationID; ev_WaitlistEntryID := id_text waitlistEntryID;
     ev_ExpiresAt := time_text expiresAt; ev_Timestamp := time_text now |}.

Definition NewReservationExpiredEvent (eventType : string) (roomID slotID userID reservationID : uuid)
    (now : time) : Event :=
  {| ev_Type := eventType; ev_Target := EventTargetUser; ev_RoomID := id_text roomID;
     ev_UserID := id_text userID; ev_SlotID := id_text slotID; ev_BookingID := "";
     ev_ReservationID := id_text reservationID; ev_WaitlistEntryID := ""; ev_ExpiresAt := "";
     ev_Timestamp := time_text now |}.

(** ** message.go *)

Record ServerMessage := {
  sm_Type : string;
  sm_RoomID : string;
  sm_UserID : string;
  sm_SlotID : string;
  sm_BookingID : string;
  sm_ReservationID : string;
  sm_WaitlistEntryID : string;
  sm_ExpiresAt : string;
  sm_Timestamp : string;
  sm_Message : string }.

Definition message_json (m : ServerMessage) : json :=
  JObj (member_of "type" (sm_Type m) ++ omit_empty "roomId" (sm_RoomID m) ++
        omit_empty "userId" (sm_UserID m) ++ omit_empty "slotId" (sm_SlotID m) ++
        omit_empty "bookingId" (sm_BookingID m) ++ omit_empty "reservationId" (sm_ReservationID m) ++
        omit_empty "waitlistEntryId" (sm_WaitlistEntryID m) ++
        omit_empty "expiresAt" (sm_ExpiresAt m) ++ omit_empty "timestamp" (sm_Timestamp m) ++
        omit_empty "message" (sm_Message m)).

Record ClientMessage := { cm_Type : string; cm_RoomID : string }.

#[export] Instance decode_client_message : Decode ClientMessage := {
  zero := {| cm_Type := ""; cm_RoomID := "" |};
  decode := decode_struct [
    at_field "type" cm_Type (fun x m => {| cm_Type := x; cm_RoomID := cm_RoomID m |});
    at_field "roomId" cm_RoomID (fun x m => {| cm_Type := cm_Type m; cm_RoomID := x |})] }.

Definition ToServerMessage (e : Event) : ServerMessage :=
  {| sm_Type := ev_Type e; sm_RoomID := ev_RoomID e; sm_UserID := ev_UserID e;
     sm_SlotID := ev_SlotID e; sm_BookingID := ev_BookingID e;
     sm_ReservationID := ev_ReservationID e; sm_WaitlistEntryID := ev_WaitlistEntryID e;
     sm_ExpiresAt := ev_ExpiresAt e; sm_Timestamp := ev_Timestamp e; sm_Message := "" |}.

(** ** Validate *)

Definition room_types : list string :=
  [EventTypeSlotBooked; EventTypeSlotReleased; EventTypeSlotAvailable; EventTypeSlotReserved;
   EventTypeSlotReservationExpired].
Definition user_types : list string :=
  [EventTypeWaitlistSlotAvailable; EventTypeWaitlistSlotReserved; EventTypeReservationExpired].

(** [fmt.Errorf("...: %s", ...)]. *)
Definition errorf (message : string) : error := PlainError message.

(** A check, with the error of its failure. *)
Definition require (b : bool) (err : error) (k : result unit) : result unit :=
  if b then k else Err err.

Section validate.
Context (P : Platform).

Definition RoomUUID (e : Event) : option uuid := uuid_Parse P (bytes_of (ev_RoomID e)).
Definition UserUUID (e : Event) : option uuid := uuid_Parse P (bytes_of (ev_UserID e)).

Definition is_uuid (s : string) : bool := bool_decide (is_Some (uuid_Parse P (bytes_of s))).
Definition is_RFC3339 (s : string) : bool := bool_decide (is_Some (ParseRFC3339 (bytes_of s))).

Definition invalid (field : string) : error :=
  Wrapped ("invalid " ++ field)%string (PlainError "parse").

Definition Validate (e : Event) : result unit :=
  let type_in l := bool_decide (ev_Type e ∈ l) in
  require (type_in (room_types ++ user_types)) (errorf ("unsupported event type: " ++ ev_Type e))
  (require (bool_decide (ev_Target e = EventTargetRoom) || bool_decide (ev_Target e = EventTargetUser))
     (errorf ("unsupported event target: " ++ ev_Target e))
  (require (negb (type_in room_types) || bool_decide (ev_Target e = EventTargetRoom))
     (errorf ("event type " ++ ev_Type e ++ " requires room target"))
  (require (negb (type_in user_types) || bool_decide (ev_Target e = EventTargetUser))
     (errorf ("event type " ++ ev_Type e ++ " requires user target"))
  (require (is_uuid (ev_RoomID e)) (invalid "roomId")
  (require (negb (bool_decide (ev_Target e = EventTargetUser)) || is_uuid (ev_UserID e))
     (invalid "userId")
  (require (is_uuid (ev_SlotID e)) (invalid "slotId")
  (require (negb (type_in [EventTypeSlotBooked; EventTypeSlotReleased]) || is_uuid (ev_BookingID e))
     (invalid "bookingId")
  (require
     (negb (type_in [EventTypeSlotReserved; EventTypeSlotReservationExpired;
                     EventTypeReservationExpired]) || is_uuid (ev_ReservationID e))
     (invalid "reservationId")
  (require
     (negb (type_in [EventTypeWaitlistSlotAvailable; EventTypeWaitlistSlotReserved]) ||
      is_uuid (ev_WaitlistEntryID e))
     (invalid "waitlistEntryId")
  (require (negb (type_in [EventTypeWaitlistSlotReserved]) || is_uuid (ev_ReservationID e))
     (invalid "reservationId")
  (require (negb (type_in [EventTypeWaitlistSlotReserved]) || is_RFC3339 (ev_ExpiresAt e))
     (invalid "expiresAt")
  (require (is_RFC3339 (ev_Timestamp e)) (invalid "timestamp") (Ok tt))))))))))))).

(** ** redis_subscriber.go *)

(** What the subscriber asks of the hub. *)
Inductive Delivery :=
| Broadcast (roomID : uuid) (payload : bytes)
| SendToUser (userID : uuid) (payload : bytes).

Definition eventTypeLabel (eventType : string) : string :=
  if bool_decide (eventType = EmptyString) then "unknown" else eventType.

Definition dropped (e : Event) (err : error) : result Delivery * (string * string) :=
  (Err err, (eventTypeLabel (ev_Type e), "error"%string)).

(** The delivery, and the labels of the counter [redis_realtime_events_received_total]. *)
Definition handleMessage (payload : bytes) : result Delivery * (string * string) :=
  match (Unmarshal payload : option Event) with
  | None => (Err (Wrapped "unmarshal event" (PlainError "json")), ("unknown", "error")%string)
  | Some event =>
      match Validate event with
      | Err err => dropped event (Wrapped "invalid event" err)
      | Ok _ =>
          let outbound := print (message_json (ToServerMessage event)) in
          let delivered d := (Ok d, (eventTypeLabel (ev_Type event), "success"%string)) in
          if bool_decide (ev_Target event = EventTargetRoom) then
            match RoomUUID event with
            | None => dropped event (invalid "room uuid")
            | Some roomID => delivered (Broadcast roomID outbound)
            end
          else if bool_decide (ev_Target event = EventTargetUser) then
            match UserUUID event with
            | None => dropped event (invalid "user uuid")
            | Some userID => delivered (SendToUser userID outbound)
            end
          else dropped event (errorf ("unsupported target: " ++ ev_Target event))
      end
  end.
End validate.

(** ** redis_publisher.go *)

(** The methods of the publisher. *)
Inductive Call :=
| Announce (ev : Program.Event)
| WaitlistSlotAvailable (roomID slotID userID waitlistEntryID : uuid).

(** The event a method builds, at the time [now]. *)
Definition event_of (call : Call) (now : time) : Event :=
  match call with
  | Announce (EvSlotBooked roomID slotID bookingID) =>
      NewRoomEvent EventTypeSlotBooked roomID slotID bookingID now
  | Announce (EvSlotReleased roomID slotID bookingID) =>
      NewRoomEvent EventTypeSlotReleased roomID slotID bookingID now
  | Announce (EvSlotAvailable roomID slotID) => NewSlotAvailableEvent roomID slotID now
  | Announce (EvSlotReserved roomID slotID reservationID) =>
      NewReservationRoomEvent EventTypeSlotReserved roomID slotID reservationID now
  | Announce (EvSlotReservationExpired roomID slotID reservationID) =>
      NewReservationRoomEvent EventTypeSlotReservationExpired roomID slotID reservationID now
  | Announce (EvWaitlistSlotReserved roomID slotID userID reservationID waitlistEntryID expiresAt) =>
      NewWaitlistReservationEvent EventTypeWaitlistSlotReserved roomID slotID userID reservationID
        waitlistEntryID expiresAt now
  | Announce (EvReservationExpired roomID slotID userID reservationID) =>
      NewReservationExpiredEvent EventTypeReservationExpired roomID slotID userID reservationID now
  | WaitlistSlotAvailable roomID slotID userID waitlistEntryID =>
      NewUserEvent EventTypeWaitlistSlotAvailable roomID slotID userID waitlistEntryID now
  end.

(** [publishEvent]: what is sent to the channel, if there is one. *)
Definition publishEvent (channel : string) (event : Event) : option bytes :=
  if bool_decide (channel = EmptyString) then None else Some (print (event_json event)).

(** ** Texts that JSON carries as they are *)

Definition plain_text (s : string) : Prop := Json.plain (bytes_of s).

Record plain_event (e : Event) : Prop := {
  pe_type : plain_text (ev_Type e);
  pe_target : plain_text (ev_Target e);
  pe_room : plain_text (ev_RoomID e);
  pe_user : plain_text (ev_UserID e);
  pe_slot : plain_text (ev_SlotID e);
  pe_booking : plain_text (ev_BookingID e);
  pe_reservation : plain_text (ev_ReservationID e);
  pe_entry : plain_text (ev_WaitlistEntryID e);
  pe_expires : plain_text (ev_ExpiresAt e);
  pe_timestamp : plain_text (ev_Timestamp e) }.

Lemma flat_app l1 l2 : flat l1 -> flat l2 -> flat (l1 ++ l2).
Proof. apply Forall_app_2. Qed.

Lemma flat_member name s : Json.plain (bytes_of name) -> plain_text s -> flat (member_of name s).
Proof. intros Hn Hs. by repeat constructor. Qed.

Lemma flat_omit name s : Json.plain (bytes_of name) -> plain_text s -> flat (omit_empty name s).
Proof. intros Hn Hs. unfold omit_empty. case_bool_decide; [constructor|by apply flat_member]. Qed.

(** Reading a string member, and one that is left out when it is empty. *)
Lemma decode_text {S} (fields : list (field S)) s s' name store x rest :
  field_of fields (bytes_of name) = Some store -> store s (of_string x) = Some s' ->
  decode_members fields s (member_of name x ++ rest) = decode_members fields s' rest.
Proof. intros Hf Hs. unfold member_of. cbn [app]. by rewrite (decode_member _ _ _ _ _ _ Hf), Hs. Qed.

Lemma decode_omitted {S} (fields : list (field S)) s s' name store x rest :
  field_of fields (bytes_of name) = Some store -> store s (of_string x) = Some s' ->
  (x = ""%string -> s' = s) ->
  decode_members fields s (omit_empty name x ++ rest) = decode_members fields s' rest.
Proof.
  intros Hf Hs Hx. unfold omit_empty. case_bool_decide; [by rewrite Hx|]. by eapply decode_text.
Qed.

(** The struct after the next member. *)
Ltac reads s' :=
  etransitivity;
  [first [eapply (decode_text _ _ s') | eapply (decode_omitted _ _ s')];
   [reflexivity|cbn; by rewrite string_of_bytes_of|..]; by intros ->|].

(** An event is read as it was written. *)
Lemma Unmarshal_event e : plain_event e -> Unmarshal (print (event_json e)) = Some e.
Proof.
  intros []. unfold event_json. rewrite Unmarshal_flat; [|by repeat apply flat_app;
    first [apply flat_member|apply flat_omit]|done].
  destruct e as [a b c d f g h i j k].
  cbn [ev_Type ev_Target ev_RoomID ev_UserID ev_SlotID ev_BookingID ev_ReservationID
    ev_WaitlistEntryID ev_ExpiresAt ev_Timestamp].
  set (l := member_of "timestamp" k). rewrite <- (app_nil_r l). subst l.
  unfold decode, decode_event, decode_struct. cbn [zero].
  reads (Build_Event a "" "" "" "" "" "" "" "" "").
  reads (Build_Event a b "" "" "" "" "" "" "" "").
  reads (Build_Event a b c "" "" "" "" "" "" "").
  reads (Build_Event a b c d "" "" "" "" "" "").
  reads (Build_Event a b c d f "" "" "" "" "").
  reads (Build_Event a b c d f g "" "" "" "").
  reads (Build_Event a b c d f g h "" "" "").
  reads (Build_Event a b c d f g h i "" "").
  reads (Build_Event a b c d f g h i j "").
  by reads (Build_Event a b c d f g h i j k).
Qed.

Lemma id_text_plain u : plain_text (id_text u).
Proof. unfold plain_text, id_text. rewrite bytes_of_string_of. apply uuid_String_plain. Qed.

Lemma padded_plain n x : Json.plain (padded n x).
Proof.
  revert x. induction n as [|n IH]; intros x; cbn [padded]; [done|]. apply plain_app; [apply IH|].
  assert (forallb (fun k => plain_char (ascii_of_N (48 + Z.to_N (Z.of_nat k)))) (seq 0 10) = true)
    as Hall by done.
  rewrite forallb_forall in Hall. pose proof (Z.mod_pos_bound x 10 ltac:(done)) as Hx.
  unfold Json.plain. simpl. rewrite andb_true_r. set (d := (x `mod` 10)%Z) in *. clearbody d.
  rewrite <- (Z2Nat.id d) by lia. apply Hall, in_seq. lia.
Qed.

Lemma time_text_plain t : plain_text (time_text t).
Proof.
  unfold plain_text, time_text. rewrite bytes_of_string_of. unfold FormatRFC3339, format_date.
  destruct (date_of _) as [[y m] d].
  repeat first [apply padded_plain|reflexivity|apply plain_app].
Qed.

Lemma event_of_plain call now : plain_event (event_of call now).
Proof.
  destruct call as [[]|]; constructor;
    cbn [event_of NewRoomEvent NewUserEvent NewReservationRoomEvent NewSlotAvailableEvent
      NewWaitlistReservationEvent NewReservationExpiredEvent ev_Type ev_Target ev_RoomID ev_UserID
      ev_SlotID ev_BookingID ev_ReservationID ev_WaitlistEntryID ev_ExpiresAt ev_Timestamp];
    lazymatch goal with
    | |- plain_text (id_text _) => apply id_text_plain
    | |- plain_text (time_text _) => apply time_text_plain
    | |- _ => reflexivity
    end.
Qed.

(** ** From the publisher to the hub *)

Definition fits_uuid (u : uuid) : Prop := (u < 2 ^ 128)%N.

(** Identifiers of 128 bits, and an expiration time that can be written. *)
Definition fits (call : Call) : Prop :=
  match call with
  | Announce (EvSlotBooked a b c) | Announce (EvSlotReleased a b c)
  | Announce (EvSlotReserved a b c) | Announce (EvSlotReservationExpired a b c) =>
      fits_uuid a /\ fits_uuid b /\ fits_uuid c
  | Announce (EvSlotAvailable a b) => fits_uuid a /\ fits_uuid b
  | Announce (EvWaitlistSlotReserved a b c d e t) =>
      fits_uuid a /\ fits_uuid b /\ fits_uuid c /\ fits_uuid d /\ fits_uuid e /\ four_digit_year t
  | Announce (EvReservationExpired a b c d) | WaitlistSlotAvailable a b c d =>
      fits_uuid a /\ fits_uuid b /\ fits_uuid c /\ fits_uuid d
  end.

(** Whom an event is for: everybody who follows the room, or one user. *)
Definition audience (call : Call) : bytes -> Delivery :=
  match call with
  | Announce (EvSlotBooked roomID _ _) | Announce (EvSlotReleased roomID _ _)
  | Announce (EvSlotAvailable roomID _) | Announce (EvSlotReserved roomID _ _)
  | Announce (EvSlotReservationExpired roomID _ _) => Broadcast roomID
  | Announce (EvWaitlistSlotReserved _ _ userID _ _ _) | Announce (EvReservationExpired _ _ userID _)
  | WaitlistSlotAvailable _ _ userID _ => SendToUser userID
  end.

Section delivery.
Context (P : Platform) (HP : parses_uuids P).

Lemma parse_id_text u : fits_uuid u -> uuid_Parse P (bytes_of (id_text u)) = Some u.
Proof. unfold id_text. rewrite bytes_of_string_of. apply HP. Qed.

Lemma id_text_is_uuid u : fits_uuid u -> is_uuid P (id_text u) = true.
Proof. intros Hu. unfold is_uuid. by rewrite parse_id_text, bool_decide_true. Qed.

Lemma time_text_is_RFC3339 t : four_digit_year t -> is_RFC3339 (time_text t) = true.
Proof.
  intros Ht. unfold is_RFC3339, time_text. rewrite bytes_of_string_of, ParseRFC3339_Format by done.
  by rewrite bool_decide_true.
Qed.

Lemma event_of_valid call now :
  fits call -> four_digit_year now -> Validate P (event_of call now) = Ok tt.
Proof.
  intros Hc Hn. pose proof (time_text_is_RFC3339 now Hn) as Ht.
  destruct call as [[]|]; cbn [fits] in Hc; unfold Validate;
    cbn [event_of NewRoomEvent NewUserEvent NewReservationRoomEvent NewSlotAvailableEvent
      NewWaitlistReservationEvent NewReservationExpiredEvent ev_Type ev_Target ev_RoomID ev_UserID
      ev_SlotID ev_BookingID ev_ReservationID ev_WaitlistEntryID ev_ExpiresAt ev_Timestamp];
    rewrite ?Ht; repeat rewrite id_text_is_uuid by tauto;
    rewrite ?time_text_is_RFC3339 by tauto; reflexivity.
Qed.
End delivery.

(** The message of an event, as the websocket clients get it. *)
Definition message_of (call : Call) (now : time) : bytes :=
  print (message_json (ToServerMessage (event_of call now))).

Lemma event_of_audience P call now msg : parses_uuids P -> fits call ->
  match ev_Target (event_of call now), RoomUUID P (event_of call now), UserUUID P (event_of call now) with
  | "room"%string, Some roomID, _ => audience call msg = Broadcast roomID msg
  | "user"%string, _, Some userID => audience call msg = SendToUser userID msg
  | _, _, _ => False
  end.
Proof.
  intros HP Hc. unfold RoomUUID, UserUUID. destruct call as [[]|]; cbn [fits] in Hc;
    cbn [event_of NewRoomEvent NewUserEvent NewReservationRoomEvent NewSlotAvailableEvent
      NewWaitlistReservationEvent NewReservationExpiredEvent ev_Target ev_RoomID ev_UserID];
    rewrite ?(parse_id_text P HP) by tauto; try done.
Qed.

(** What the subscriber makes of the payload of an event. *)
Lemma handled_event P call now : parses_uuids P -> fits call -> four_digit_year now ->
  handleMessage P (print (event_json (event_of call now))) =
    (Ok (audience call (message_of call now)), (ev_Type (event_of call now), "success"%string)).
Proof.
  intros HP Hc Hn. unfold handleMessage.
  rewrite (Unmarshal_event _ (event_of_plain call now)), (event_of_valid P HP) by done.
  assert (eventTypeLabel (ev_Type (event_of call now)) = ev_Type (event_of call now)) as ->
    by by destruct call as [[]|].
  pose proof (event_of_audience P call now (message_of call now) HP Hc) as Ha.
  fold (message_of call now). set (e := event_of call now) in *. clearbody e.
  unfold EventTargetRoom, EventTargetUser. destruct (decide (ev_Target e = "room")) as [Hr|Hr].
  - rewrite Hr in *. rewrite bool_decide_true by done. destruct (RoomUUID P e); [by rewrite Ha|done].
  - rewrite bool_decide_false by done. destruct (decide (ev_Target e = "user")) as [Hu|Hu].
    + rewrite Hu in *. rewrite bool_decide_true by done.
      destruct (UserUUID P e); [rewrite Ha|]; [done|by destruct (RoomUUID P e)].
    + exfalso. clear -Ha Hr Hu. revert Ha. repeat case_match; congruence.
Qed.

(** C39. Every event the service announces arrives: the subscriber reads the payload the
    publisher wrote back as the same event, finds it valid and hands the hub the message for
    exactly the clients concerned - those who follow the room, or those of the one user. *)
Theorem events_reach_their_audience P channel call now :
  parses_uuids P -> channel <> ""%string -> fits call -> four_digit_year now ->
  exists payload,
    publishEvent channel (event_of call now) = Some payload /\
    Unmarshal payload = Some (event_of call now) /\
    handleMessage P payload =
      (Ok (audience call (message_of call now)), (ev_Type (event_of call now), "success"%string)).
Proof.
  intros HP Hch Hc Hn. exists (print (event_json (event_of call now))).
  unfold publishEvent. rewrite bool_decide_false by done. split; [done|].
  split; [apply Unmarshal_event, event_of_plain|by apply handled_event].
Qed.

(** Bob is offered the morning slot at two o'clock. *)
Definition offer : Call := Announce (EvWaitlistSlotReserved 10 20 2 1003 1001 (7500 * Second)).

Lemma events_reach_their_audience_witness :
  (exists payload, publishEvent "bookings" (event_of offer (7200 * Second)) = Some payload /\
    (handleMessage sample payload).1 = Ok (SendToUser 2 (message_of offer (7200 * Second)))) /\
  string_of (FormatRFC3339 (7500 * Second)) = "1970-01-01T02:05:00Z".
Proof.
  destruct (events_reach_their_audience sample "bookings" offer (7200 * Second))
    as (payload & Hp & _ & Hh).
  - exact sample_parses_uuids.
  - done.
  - by repeat split.
  - by split.
  - split; [|by vm_compute]. exists payload. split; [exact Hp|]. by rewrite Hh.
Defined.
