(* ===== verification/Hub.v ===== *)
(** * Hub: hub.go and client.go of internal/realtime

    The hub is shared by the goroutines of every websocket client - one reads, one writes -
    and by those that deliver events.  A goroutine is a program over atomic actions: a
    critical section of the hub's or the client's mutex, an operation on the channel or the
    [sync.Once] of a client, a call of the websocket.  [move] lets any goroutine do its next
    action, so that a history is an interleaving. *)

From Stdlib Require Import Ascii.
From S2P Require Import Prelude Domain Text Json Dates Platform Realtime.

Definition maxSubscriptions : nat := 100.
Definition outboundQueueSize : nat := 64.

(** Clients (pointers) and goroutines. *)
Definition cid : Type := N.
Definition tid : Type := N.
Bind Scope N_scope with cid tid.

Record outboundMessage := { om_payload : bytes; om_messageType : string }.

(** [sync.Once]: while the function runs, other callers wait. *)
Inductive Once :=
| NotRun
| Running (t : tid)
| Ran.

#[global] Instance Once_eq_dec : EqDecision Once.
Proof. solve_decision. Defined.

Record Client := {
  cl_user : uuid;
  cl_send : list outboundMessage;
  (** [close(c.send)] was executed. *)
  cl_closed : bool;
  cl_subscribed : gset uuid;
  cl_closeOnce : Once }.

Definition NewClient (user : uuid) : Client :=
  {| cl_user := user; cl_send := []; cl_closed := false; cl_subscribed := ∅; cl_closeOnce := NotRun |}.

Definition with_send (q : list outboundMessage) (cl : Client) : Client :=
  Build_Client (cl_user cl) q (cl_closed cl) (cl_subscribed cl) (cl_closeOnce cl).
Definition with_closed (cl : Client) : Client :=
  Build_Client (cl_user cl) (cl_send cl) true (cl_subscribed cl) (cl_closeOnce cl).
Definition with_subscribed (s : gset uuid) (cl : Client) : Client :=
  Build_Client (cl_user cl) (cl_send cl) (cl_closed cl) s (cl_closeOnce cl).
Definition with_once (o : Once) (cl : Client) : Client :=
  Build_Client (cl_user cl) (cl_send cl) (cl_closed cl) (cl_subscribed cl) o.

(** What the program never reads: who asked for which room, what was to be delivered, what
    was handed to the websockets, and whether a goroutine has crashed. *)
Record History := {
  h_asked : gset (cid * uuid);
  h_deliveries : list Delivery;
  h_written : list (cid * outboundMessage);
  h_crashed : bool }.

Record Hub := {
  hb_clients : gmap cid Client;
  hb_rooms : gmap uuid (gset cid);
  hb_users : gmap uuid (gset cid);
  (** The gauges of active connections and subscriptions. *)
  hb_connections : Z;
  hb_subscriptions : Z;
  hb_history : History }.

Definition set_clients (x : gmap cid Client) (h : Hub) : Hub :=
  Build_Hub x (hb_rooms h) (hb_users h) (hb_connections h) (hb_subscriptions h) (hb_history h).
Definition set_rooms (x : gmap uuid (gset cid)) (h : Hub) : Hub :=
  Build_Hub (hb_clients h) x (hb_users h) (hb_connections h) (hb_subscriptions h) (hb_history h).
Definition set_users (x : gmap uuid (gset cid)) (h : Hub) : Hub :=
  Build_Hub (hb_clients h) (hb_rooms h) x (hb_connections h) (hb_subscriptions h) (hb_history h).
Definition add_connections (n : Z) (h : Hub) : Hub :=
  Build_Hub (hb_clients h) (hb_rooms h) (hb_users h) (hb_connections h + n)%Z (hb_subscriptions h)
    (hb_history h).
Definition add_subscriptions (n : Z) (h : Hub) : Hub :=
  Build_Hub (hb_clients h) (hb_rooms h) (hb_users h) (hb_connections h) (hb_subscriptions h + n)%Z
    (hb_history h).
Definition set_history (x : History) (h : Hub) : Hub :=
  Build_Hub (hb_clients h) (hb_rooms h) (hb_users h) (hb_connections h) (hb_subscriptions h) x.

Definition asked (c : cid) (roomID : uuid) (h : Hub) : Hub :=
  let x := hb_history h in
  set_history (Build_History ({[(c, roomID)]} ∪ h_asked x) (h_deliveries x) (h_written x) (h_crashed x)) h.
Definition announced (d : Delivery) (h : Hub) : Hub :=
  let x := hb_history h in
  set_history (Build_History (h_asked x) (d :: h_deliveries x) (h_written x) (h_crashed x)) h.
Definition written (c : cid) (m : outboundMessage) (h : Hub) : Hub :=
  let x := hb_history h in
  set_history (Build_History (h_asked x) (h_deliveries x) ((c, m) :: h_written x) (h_crashed x)) h.
Definition crashed (h : Hub) : Hub :=
  let x := hb_history h in
  set_history (Build_History (h_asked x) (h_deliveries x) (h_written x) true) h.

Definition NewHub : Hub :=
  {| hb_clients := ∅; hb_rooms := ∅; hb_users := ∅; hb_connections := 0; hb_subscriptions := 0;
     hb_history := {| h_asked := ∅; h_deliveries := []; h_written := []; h_crashed := false |} |}.

(** ** Sets of clients by key *)

Definition set_add (k : uuid) (c : cid) (m : gmap uuid (gset cid)) : gmap uuid (gset cid) :=
  <[k := {[c]} ∪ default ∅ (m !! k)]> m.

(** The set without [c], and no entry for an empty set. *)
Definition without (c : cid) (s : gset cid) : option (gset cid) :=
  let s := s ∖ {[c]} in if bool_decide (s = ∅) then None else Some s.

Definition set_remove (k : uuid) (c : cid) (m : gmap uuid (gset cid)) : gmap uuid (gset cid) :=
  match m !! k with
  | None => m
  | Some s => match without c s with Some s => <[k := s]> m | None => delete k m end
  end.

(** ** Actions *)

Inductive subscribing := AlreadySubscribed | TooManySubscriptions | NewlySubscribed.
Inductive received := Outbound (m : outboundMessage) | SendClosed | Tick.

Inductive action : Type -> Type :=
(** Hub. *)
| Subscribe (roomID : uuid) (c : cid) : action unit
| Unsubscribe (roomID : uuid) (c : cid) : action unit
| UnsubscribeAll (c : cid) : action unit
| RegisterUser (userID : uuid) (c : cid) : action unit
| UnregisterUser (userID : uuid) (c : cid) : action unit
| clientsOfRoom (roomID : uuid) : action (list cid)
| clientsOfUser (userID : uuid) : action (list cid)
(** Client: the sections under [c.mu], the channel, the Once. *)
| add_subscribed (c : cid) (roomID : uuid) : action subscribing
| remove_subscribed (c : cid) (roomID : uuid) : action bool
| clear_subscribed (c : cid) : action nat
| userOf (c : cid) : action uuid
| try_send (c : cid) (m : outboundMessage) : action bool
| receive (c : cid) : action received
| close_send (c : cid) : action unit
| once_enter (c : cid) : action bool
| once_exit (c : cid) : action unit
(** Websocket. *)
| ReadMessage (c : cid) : action (option bytes)
| WriteText (c : cid) (m : outboundMessage) : action bool
| WriteControl (c : cid) : action bool
| conn_Close (c : cid) : action unit
(** Metrics. *)
| AddWSConnections (n : Z) : action unit
| AddWSSubscriptions (n : Z) : action unit.

(** What is not up to the program: the next message of the client, if it can be read;
    whether a write succeeds; whether the ticker is served; the order of a map. *)
Record Choice := {
  ch_read : option bytes;
  ch_write : bool;
  ch_tick : bool;
  ch_order : list cid }.

Definition listed (ch : Choice) (s : gset cid) : option (list cid) :=
  if bool_decide (NoDup (ch_order ch)) && bool_decide (list_to_set (ch_order ch) = s)
  then Some (ch_order ch) else None.

(** An action on a client that exists. *)
Definition on_client {R} (c : cid) (h : Hub) (f : Client -> option (R * Hub)) : option (R * Hub) :=
  match hb_clients h !! c with
  | Some cl => f cl
  | None => None
  end.

Definition update (c : cid) (cl : Client) (h : Hub) : Hub := set_clients (<[c := cl]> (hb_clients h)) h.

(** One action of the goroutine [t]; [None] while it has to wait. *)
Definition act (t : tid) (ch : Choice) {R} (a : action R) (h : Hub) : option (R * Hub) :=
  match a in action R return option (R * Hub) with
  | Subscribe roomID c => Some (tt, set_rooms (set_add roomID c (hb_rooms h)) h)
  | Unsubscribe roomID c => Some (tt, set_rooms (set_remove roomID c (hb_rooms h)) h)
  | UnsubscribeAll c => Some (tt, set_rooms (omap (without c) (hb_rooms h)) h)
  | RegisterUser userID c => Some (tt, set_users (set_add userID c (hb_users h)) h)
  | UnregisterUser userID c => Some (tt, set_users (set_remove userID c (hb_users h)) h)
  | clientsOfRoom roomID => l ← listed ch (default ∅ (hb_rooms h !! roomID)); Some (l, h)
  | clientsOfUser userID => l ← listed ch (default ∅ (hb_users h !! userID)); Some (l, h)
  | add_subscribed c roomID => on_client c h (fun cl =>
      if bool_decide (roomID ∈ cl_subscribed cl) then Some (AlreadySubscribed, h)
      else if (maxSubscriptions <=? size (cl_subscribed cl))%nat then Some (TooManySubscriptions, h)
      else Some (NewlySubscribed, asked c roomID
             (update c (with_subscribed ({[roomID]} ∪ cl_subscribed cl) cl) h)))
  | remove_subscribed c roomID => on_client c h (fun cl =>
      if bool_decide (roomID ∈ cl_subscribed cl)
      then Some (true, update c (with_subscribed (cl_subscribed cl ∖ {[roomID]}) cl) h)
      else Some (false, h))
  | clear_subscribed c => on_client c h (fun cl =>
      Some (size (cl_subscribed cl), update c (with_subscribed ∅ cl) h))
  | userOf c => on_client c h (fun cl => Some (cl_user cl, h))
  | try_send c m => on_client c h (fun cl =>
      if cl_closed cl then Some (false, h)
      else if (length (cl_send cl) <? outboundQueueSize)%nat
      then Some (true, update c (with_send (cl_send cl ++ [m]) cl) h)
      else Some (false, h))
  | receive c => on_client c h (fun cl =>
      if ch_tick ch then Some (Tick, h)
      else
        match cl_send cl with
        | m :: q => Some (Outbound m, update c (with_send q cl) h)
        | [] => if cl_closed cl then Some (SendClosed, h) else None
        end)
  | close_send c => on_client c h (fun cl =>
      if cl_closed cl then Some (tt, crashed h) else Some (tt, update c (with_closed cl) h))
  | once_enter c => on_client c h (fun cl =>
      match cl_closeOnce cl with
      | NotRun => Some (true, update c (with_once (Running t) cl) h)
      | Running _ => None
      | Ran => Some (false, h)
      end)
  | once_exit c => on_client c h (fun cl => Some (tt, update c (with_once Ran cl) h))
  | ReadMessage c => Some (ch_read ch, h)
  | WriteText c m => Some (ch_write ch, written c m h)
  | WriteControl c => Some (ch_write ch, h)
  | conn_Close c => Some (tt, h)
  | AddWSConnections n => Some (tt, add_connections n h)
  | AddWSSubscriptions n => Some (tt, add_subscriptions n h)
  end.

(** ** Goroutines *)

Inductive proc (A : Type) : Type :=
| Return (a : A)
| Act {R} (a : action R) (k : R -> proc A).
Arguments Return {A} a.
Arguments Act {A R} a k.

Fixpoint seq_proc {A B} (p : proc A) (k : A -> proc B) : proc B :=
  match p with
  | Return a => k a
  | Act a k' => Act a (fun r => seq_proc (k' r) k)
  end.

Definition do {R} (a : action R) : proc R := Act a Return.
Definition skip : proc unit := Return tt.

Declare Scope proc_scope.
Delimit Scope proc_scope with proc.
Open Scope proc_scope.
Notation "x <~ p ; k" := (seq_proc p (fun x => k))
  (at level 90, p at level 85, right associativity) : proc_scope.
Notation "p >>> k" := (seq_proc p (fun _ => k)) (at level 90, right associativity) : proc_scope.

(** ** client.go *)

Definition Close (c : cid) : proc unit :=
  first <~ do (once_enter c);
  if (first : bool) then
    remaining <~ do (clear_subscribed c);
    (if (0 <? remaining)%nat then do (AddWSSubscriptions (- Z.of_nat remaining)) else skip) >>>
    do (AddWSConnections (-1)) >>>
    do (conn_Close c) >>>
    do (UnsubscribeAll c) >>>
    user <~ do (userOf c);
    do (UnregisterUser user c) >>>
    do (close_send c) >>>
    do (once_exit c)
  else skip.

Definition MessageTypeSubscribe : string := "subscribe".
Definition MessageTypeUnsubscribe : string := "unsubscribe".
Definition MessageTypeSubscribed : string := "subscribed".
Definition MessageTypeUnsubscribed : string := "unsubscribed".
Definition MessageTypeError : string := "error".

Definition enqueue (c : cid) (payload : bytes) (messageType : string) : proc bool :=
  do (try_send c {| om_payload := payload; om_messageType := messageType |}).

Definition sendServerMessage (c : cid) (msg : ServerMessage) : proc unit :=
  sent <~ enqueue c (print (message_json msg)) (sm_Type msg);
  if (sent : bool) then skip else Close c.

Definition error_message (msg : string) : ServerMessage :=
  Build_ServerMessage MessageTypeError "" "" "" "" "" "" "" "" msg.
Definition room_message (messageType : string) (roomID : uuid) : ServerMessage :=
  Build_ServerMessage messageType (id_text roomID) "" "" "" "" "" "" "" "".

Definition sendError (c : cid) (msg : string) : proc unit := sendServerMessage c (error_message msg).

Definition subscribe (c : cid) (roomID : uuid) : proc unit :=
  outcome <~ do (add_subscribed c roomID);
  match outcome with
  | AlreadySubscribed => skip
  | TooManySubscriptions => sendError c "too many subscriptions"
  | NewlySubscribed =>
      do (AddWSSubscriptions 1) >>>
      do (Subscribe roomID c) >>>
      sendServerMessage c (room_message MessageTypeSubscribed roomID)
  end.

Definition unsubscribe (c : cid) (roomID : uuid) : proc unit :=
  removed <~ do (remove_subscribed c roomID);
  if (removed : bool) then
    do (AddWSSubscriptions (-1)) >>>
    do (Unsubscribe roomID c) >>>
    sendServerMessage c (room_message MessageTypeUnsubscribed roomID)
  else skip.

(** One round of the loop of [readPump]; [false] leaves it. *)
Definition read_round (P : Platform) (c : cid) : proc bool :=
  data <~ do (ReadMessage c);
  match data with
  | None => Return false
  | Some data =>
      (match (Unmarshal data : option ClientMessage) with
       | None => sendError c "invalid message"
       | Some msg =>
           let with_room (k : uuid -> proc unit) :=
             match uuid_Parse P (bytes_of (cm_RoomID msg)) with
             | None => sendError c "invalid roomId"
             | Some roomID => k roomID
             end in
           if bool_decide (cm_Type msg = MessageTypeSubscribe) then with_room (subscribe c)
           else if bool_decide (cm_Type msg = MessageTypeUnsubscribe) then with_room (unsubscribe c)
           else sendError c "unsupported message type"
       end) >>> Return true
  end.

(** One round of the loop of [writePump]. *)
Definition write_round (c : cid) : proc bool :=
  x <~ do (receive c);
  match x with
  | Outbound outbound => do (WriteText c outbound)
  | SendClosed => do (WriteControl c) >>> Return false
  | Tick => do (WriteControl c)
  end.

(** The start of [Run], up to the loop of the reader. *)
Definition run_prelude (c : cid) : proc unit :=
  do (AddWSConnections 1) >>> (user <~ do (userOf c); do (RegisterUser user c)).

(** ** hub.go *)

Record typed := { ty_Type : string }.
#[export] Instance decode_typed : Decode typed := {
  zero := {| ty_Type := "" |};
  decode := decode_struct [at_field "type" ty_Type (fun x _ => {| ty_Type := x |})] }.

Definition extractMessageType (payload : bytes) : string :=
  match (Unmarshal payload : option typed) with
  | None => "unknown"
  | Some message =>
      if bool_decide (ty_Type message = EmptyString) then "unknown" else ty_Type message
  end.

(** The loop over the clients: those that could not take the message. *)
Fixpoint enqueue_all (payload : bytes) (messageType : string) (clients : list cid) : proc (list cid) :=
  match clients with
  | [] => Return []
  | c :: clients =>
      sent <~ enqueue c payload messageType;
      slow <~ enqueue_all payload messageType clients;
      Return (if (sent : bool) then slow else c :: slow)
  end.

Fixpoint close_all (slow : list cid) : proc unit :=
  match slow with
  | [] => skip
  | c :: slow => Close c >>> close_all slow
  end.

(** [Broadcast] and [SendToUser]. *)
Definition deliver (d : Delivery) : proc unit :=
  let send (clients : list cid) (payload : bytes) : proc unit :=
    slow <~ enqueue_all payload (extractMessageType payload) clients; close_all slow in
  match d with
  | Broadcast roomID payload => clients <~ do (clientsOfRoom roomID); send clients payload
  | SendToUser userID payload => clients <~ do (clientsOfUser userID); send clients payload
  end.

(** ** Interleavings *)

(** A goroutine: what is left of its current round or call. *)
Inductive goroutine :=
| Starting (c : cid) (p : proc unit)
| Reading (c : cid) (p : proc bool)
| Writing (c : cid) (p : proc bool)
(** The deferred [Close] of a loop. *)
| Leaving (p : proc unit)
| Delivering (p : proc unit).

Record System := {
  sy_hub : Hub;
  sy_threads : gmap tid goroutine }.

Inductive Move :=
(** A user connects; an event is to be delivered. *)
| Connect (t : tid) (c : cid) (user : uuid)
| Arrive (t : tid) (d : Delivery)
(** The goroutine [t] does its next action. *)
| Go (t : tid) (ch : Choice)
(** It is at the end of a round or call; [t'] is the writer that [Run] starts. *)
| Next (t t' : tid).

(** The first action of a program. *)
Definition proceed (t : tid) (ch : Choice) {A} (p : proc A) (h : Hub) : option (proc A * Hub) :=
  match p with
  | Return _ => None
  | Act a k => '(r, h) ← act t ch a h; Some (k r, h)
  end.

Definition fresh_thread (t : tid) (s : System) : bool := bool_decide (sy_threads s !! t = None).

Definition resume (t : tid) (g : goroutine) (h : Hub) (s : System) : System :=
  {| sy_hub := h; sy_threads := <[t := g]> (sy_threads s) |}.

Definition move (P : Platform) (m : Move) (s : System) : option System :=
  let h := sy_hub s in
  match m with
  | Connect t c user =>
      if fresh_thread t s && bool_decide (hb_clients h !! c = None)
      then Some (resume t (Starting c (run_prelude c)) (update c (NewClient user) h) s)
      else None
  | Arrive t d =>
      if fresh_thread t s then Some (resume t (Delivering (deliver d)) (announced d h) s) else None
  | Go t ch =>
      g ← sy_threads s !! t;
      match g with
      | Starting c p => '(p, h) ← proceed t ch p h; Some (resume t (Starting c p) h s)
      | Reading c p => '(p, h) ← proceed t ch p h; Some (resume t (Reading c p) h s)
      | Writing c p => '(p, h) ← proceed t ch p h; Some (resume t (Writing c p) h s)
      | Leaving p => '(p, h) ← proceed t ch p h; Some (resume t (Leaving p) h s)
      | Delivering p => '(p, h) ← proceed t ch p h; Some (resume t (Delivering p) h s)
      end
  | Next t t' =>
      g ← sy_threads s !! t;
      match g with
      | Starting c (Return _) =>
          if fresh_thread t' s
          then Some (resume t' (Writing c (write_round c)) h (resume t (Reading c (read_round P c)) h s))
          else None
      | Reading c (Return true) => Some (resume t (Reading c (read_round P c)) h s)
      | Writing c (Return true) => Some (resume t (Writing c (write_round c)) h s)
      | Reading c (Return false) | Writing c (Return false) => Some (resume t (Leaving (Close c)) h s)
      | Leaving (Return _) | Delivering (Return _) =>
          Some {| sy_hub := h; sy_threads := delete t (sy_threads s) |}
      | _ => None
      end
  end.

Definition initial : System := {| sy_hub := NewHub; sy_threads := ∅ |}.

Inductive interleaving (P : Platform) : System -> Prop :=
| interleaving_start : interleaving P initial
| interleaving_move s m s' : interleaving P s -> move P m s = Some s' -> interleaving P s'.

Fixpoint moves (P : Platform) (l : list Move) (s : System) : option System :=
  match l with
  | [] => Some s
  | m :: l => s ← move P m s; moves P l s
  end.

Lemma moves_interleaving P l s s' : interleaving P s -> moves P l s = Some s' -> interleaving P s'.
Proof.
  revert s. induction l as [|m l IH]; intros s Hs; simpl; [by intros [= <-]|].
  destruct (move P m s) as [s1|] eqn:Hm; [|done]. apply IH. by eapply interleaving_move.
Qed.
