(* ===== verification/HubSafety.v ===== *)
(** * HubSafety: what holds of every interleaving of the goroutines of the hub *)

From Stdlib Require Import Ascii.
From S2P Require Import Prelude Domain GoStd Text Json Dates Platform Database Program Realtime Hub.

(** ** A sample *)

Definition silent : Choice := {| ch_read := None; ch_write := false; ch_tick := true; ch_order := [] |}.
Definition says (data : bytes) : Choice :=
  {| ch_read := Some data; ch_write := true; ch_tick := false; ch_order := [] |}.
Definition lets (order : list cid) : Choice :=
  {| ch_read := None; ch_write := true; ch_tick := false; ch_order := order |}.

Definition subscribe_to (roomID : uuid) : bytes :=
  print (JObj (member_of "type" MessageTypeSubscribe ++ member_of "roomId" (id_text roomID))).

(** User 2 connects with goroutine 0; goroutine 1 becomes the writer. *)
Definition connected : list Move :=
  [Connect 0 7 2] ++ replicate 3 (Go 0 (lets [])) ++ [Next 0 1].

(** The reader of client 7 adds room 10 to its subscriptions, but not yet to the hub; the
    writer fails to ping and closes the client; then the reader goes on to its end. *)
Definition late_subscription : list Move :=
  connected ++ [Go 0 (says (subscribe_to 10)); Go 0 silent; Go 0 silent] ++
  [Go 1 silent; Go 1 silent; Next 1 2] ++ replicate 10 (Go 1 silent) ++ [Next 1 2] ++
  replicate 3 (Go 0 silent) ++ [Next 0 2; Go 0 silent; Next 0 2; Go 0 silent; Next 0 2].

(** ** What is promised *)

Definition user_of (h : Hub) (c : cid) (u : uuid) : Prop :=
  exists cl, hb_clients h !! c = Some cl /\ cl_user cl = u.

(** A reply of the server to the client itself. *)
Definition reply (m : outboundMessage) : Prop :=
  exists msg, m = {| om_payload := print (message_json msg); om_messageType := sm_Type msg |} /\
    sm_Type msg ∈ [MessageTypeSubscribed; MessageTypeUnsubscribed; MessageTypeError].

Definition event_message (payload : bytes) : outboundMessage :=
  {| om_payload := payload; om_messageType := extractMessageType payload |}.

(** A message that client [c] may get: a reply, an event of a room it asked for, or an event
    for its own user. *)
Definition addressed (h : Hub) (c : cid) (m : outboundMessage) : Prop :=
  reply m \/
  (exists roomID payload, m = event_message payload /\
     Broadcast roomID payload ∈ h_deliveries (hb_history h) /\ (c, roomID) ∈ h_asked (hb_history h)) \/
  (exists userID payload, m = event_message payload /\
     SendToUser userID payload ∈ h_deliveries (hb_history h) /\ user_of h c userID).

(** The channel is closed inside the function of the Once. *)
Definition once_fine (cl : Client) : Prop :=
  (cl_closed cl = true -> cl_closeOnce cl <> NotRun) /\ (cl_closeOnce cl = Ran -> cl_closed cl = true).

Record fine (h : Hub) : Prop := {
  (** No goroutine closes a channel that is closed. *)
  no_crash : h_crashed (hb_history h) = false;
  (** Messages reach those they are for. *)
  queued_addressed : forall c cl m,
    hb_clients h !! c = Some cl -> m ∈ cl_send cl -> addressed h c m;
  written_addressed : forall c m, (c, m) ∈ h_written (hb_history h) -> addressed h c m;
  (** The sets of the hub. *)
  rooms_asked : forall roomID s c,
    hb_rooms h !! roomID = Some s -> c ∈ s -> (c, roomID) ∈ h_asked (hb_history h);
  users_own : forall userID s c, hb_users h !! userID = Some s -> c ∈ s -> user_of h c userID;
  no_empty_sets : forall k s, hb_rooms h !! k = Some s \/ hb_users h !! k = Some s -> s <> ∅;
  (** Bounds. *)
  bounded_queue : forall c cl, hb_clients h !! c = Some cl ->
    (length (cl_send cl) <= outboundQueueSize)%nat;
  bounded_subscriptions : forall c cl, hb_clients h !! c = Some cl ->
    (size (cl_subscribed cl) <= maxSubscriptions)%nat;
  closed_once : forall c cl, hb_clients h !! c = Some cl -> once_fine cl }.

(** ** What other goroutines cannot undo *)

Record grows (h h' : Hub) : Prop := {
  gr_asked : h_asked (hb_history h) ⊆ h_asked (hb_history h');
  gr_deliveries : forall d, d ∈ h_deliveries (hb_history h) -> d ∈ h_deliveries (hb_history h');
  gr_user : forall c u, user_of h c u -> user_of h' c u }.

(** The goroutine [t] is in the function of the Once of [c], before the channel is closed. *)
Definition once_held (t : tid) (h : Hub) (c : cid) (closed : bool) : Prop :=
  exists cl, hb_clients h !! c = Some cl /\ cl_closeOnce cl = Running t /\ cl_closed cl = closed.

Record later (t : tid) (h h' : Hub) : Prop := {
  la_grows : grows h h';
  la_once : forall c closed, once_held t h c closed -> once_held t h' c closed }.

#[export] Instance grows_preorder : PreOrder grows.
Proof.
  split; [by split|]. intros h1 h2 h3 [A1 D1 U1] [A2 D2 U2]. split; [by etrans|auto|auto].
Qed.
#[export] Instance later_preorder t : PreOrder (later t).
Proof. split; [by split|]. intros h1 h2 h3 [G1 O1] [G2 O2]. split; [by etrans|auto]. Qed.

Lemma addressed_grows h h' c m : grows h h' -> addressed h c m -> addressed h' c m.
Proof.
  intros [Ha Hd Hu] [Hr|[(r & p & -> & Hin & Hc)|(u & p & -> & Hin & Hc)]]; [by left|..].
  - right. left. exists r, p. split_and!; [done|by apply Hd|by apply Ha].
  - right. right. exists u, p. split_and!; [done|by apply Hd|by apply Hu].
Qed.

(** What an action needs to be safe. *)
Definition pre (t : tid) {R} (a : action R) (h : Hub) : Prop :=
  match a with
  | Subscribe roomID c => (c, roomID) ∈ h_asked (hb_history h)
  | RegisterUser userID c => user_of h c userID
  | try_send c m | WriteText c m => addressed h c m
  | close_send c => once_held t h c false
  | once_exit c => once_held t h c true
  | _ => True
  end.

(** ** One action *)

Lemma on_client_Some {R} c h (f : Client -> option (R * Hub)) x :
  on_client c h f = Some x -> exists cl, hb_clients h !! c = Some cl /\ f cl = Some x.
Proof. unfold on_client. destruct (hb_clients h !! c) as [cl|]; [|done]. by exists cl. Qed.

Lemma user_of_update h c cl cl' d u :
  hb_clients h !! c = Some cl -> cl_user cl' = cl_user cl ->
  user_of h d u -> user_of (update c cl' h) d u.
Proof.
  intros Hc Hu (x & Hx & <-). unfold user_of. simpl. destruct (decide (c = d)) as [<-|].
  - exists cl'. rewrite lookup_insert_eq. split; [done|]. congruence.
  - exists x. by rewrite lookup_insert_ne.
Qed.

Lemma grows_update h c cl cl' :
  hb_clients h !! c = Some cl -> cl_user cl' = cl_user cl -> grows h (update c cl' h).
Proof. intros Hc Hu. split; [done|done|]. intros d u. by apply (user_of_update h c cl). Qed.

(** Case analysis on an action that was done. *)
Ltac acted H :=
  cbn [act] in H;
  try (apply on_client_Some in H as (?cl & ?Hcl & H));
  try match type of H with
    listed ?ch ?s ≫= _ = _ => destruct (listed ch s) eqn:?; cbn [mbind option_bind] in H; [|done]
  end;
  repeat case_match; simplify_eq.

Lemma act_grows t ch {R} (a : action R) h r h' : act t ch a h = Some (r, h') -> grows h h'.
Proof.
  intros H. destruct a; acted H; try reflexivity; try (split; done);
    try (by eapply grows_update).
  split; simpl; [set_solver|done|]. intros d u. by apply (user_of_update h c cl).
Qed.

Lemma once_held_update t h c cl cl' d closed :
  hb_clients h !! c = Some cl ->
  (cl_closeOnce cl = Running t -> cl_closeOnce cl' = Running t /\ cl_closed cl' = cl_closed cl) ->
  once_held t h d closed -> once_held t (update c cl' h) d closed.
Proof.
  intros Hc Hcl (x & Hx & Hr & <-). unfold once_held. simpl. destruct (decide (c = d)) as [<-|].
  - simplify_eq. exists cl'. rewrite lookup_insert_eq. by destruct (Hcl Hr).
  - exists x. by rewrite lookup_insert_ne.
Qed.

Lemma act_later t t' ch {R} (a : action R) h r h' :
  t <> t' -> pre t a h -> act t ch a h = Some (r, h') -> later t' h h'.
Proof.
  intros Hne Hpre Hact. split; [by eapply act_grows|]. intros d closed Hd.
  destruct a; cbn [pre] in Hpre; acted Hact; try exact Hd;
    try (eapply once_held_update; [done| |exact Hd]; try done).
  - destruct Hpre as (x & Hx & Hr & _). simplify_eq. intros Hr'. congruence.
  - congruence.
  - destruct Hpre as (x & Hx & Hr & _). simplify_eq. intros Hr'. congruence.
Qed.

(** ** The promises are kept: one lemma for each part of the hub that changes *)

Lemma fine_update h c cl cl' :
  fine h -> hb_clients h !! c = Some cl -> cl_user cl' = cl_user cl ->
  (forall m, m ∈ cl_send cl' -> addressed h c m) -> (length (cl_send cl') <= outboundQueueSize)%nat ->
  (size (cl_subscribed cl') <= maxSubscriptions)%nat ->
  once_fine cl' -> fine (update c cl' h).
Proof.
  intros [] Hc Hu Hm Hq Hs Ho. pose proof (grows_update h c cl cl' Hc Hu) as Hg.
  split; simpl; try done.
  - intros d x m Hx Hin. apply (addressed_grows h); [done|].
    apply lookup_insert_Some in Hx as [[<- <-]|[_ Hx]]; eauto.
  - intros d m Hin. apply (addressed_grows h); eauto.
  - intros u s d Hs' Hd. apply (gr_user _ _ Hg). eauto.
  - intros d x Hx. apply lookup_insert_Some in Hx as [[<- <-]|[_ Hx]]; eauto.
  - intros d x Hx. apply lookup_insert_Some in Hx as [[<- <-]|[_ Hx]]; eauto.
  - intros d x Hx. apply lookup_insert_Some in Hx as [[<- <-]|[_ Hx]]; eauto.
Qed.

Lemma fine_set_rooms h m :
  fine h ->
  (forall roomID s, m !! roomID = Some s ->
     s <> ∅ /\ forall c, c ∈ s -> (c, roomID) ∈ h_asked (hb_history h)) ->
  fine (set_rooms m h).
Proof.
  intros [] Hm. split; simpl; try done.
  - intros r s c Hs. by apply (proj2 (Hm r s Hs)).
  - intros k s [Hs|Hs]; [by apply (Hm k)|by eapply no_empty_sets0; right].
Qed.

Lemma fine_set_users h m :
  fine h ->
  (forall userID s, m !! userID = Some s -> s <> ∅ /\ forall c, c ∈ s -> user_of h c userID) ->
  fine (set_users m h).
Proof.
  intros [] Hm. split; simpl; try done.
  - intros r s c Hs. by apply (proj2 (Hm r s Hs)).
  - intros k s [Hs|Hs]; [by eapply no_empty_sets0; left|by apply (Hm k)].
Qed.

Lemma fine_gauges h n m : fine h -> fine (add_connections n (add_subscriptions m h)).
Proof. by intros []. Qed.

Lemma fine_asked h c roomID : fine h -> fine (asked c roomID h).
Proof.
  intros Hf. assert (grows h (asked c roomID h)) as Hg by (split; simpl; [set_solver|done|done]).
  destruct Hf. split; simpl; try done.
  - intros d cl m Hd Hm. apply (addressed_grows h); eauto.
  - intros d m Hm. apply (addressed_grows h); eauto.
  - intros r s d Hs Hd. set_solver.
Qed.

Lemma fine_announced h d : fine h -> fine (announced d h).
Proof.
  intros Hf. assert (grows h (announced d h)) as Hg
    by (split; simpl; [done|intros x Hx; by right|done]).
  destruct Hf. split; simpl; try done.
  - intros c cl m Hc Hm. apply (addressed_grows h); eauto.
  - intros c m Hm. apply (addressed_grows h); eauto.
Qed.

Lemma fine_written h c m : fine h -> addressed h c m -> fine (written c m h).
Proof.
  intros [] Hm. split; simpl; try done. intros d x [[= -> ->]|Hx]%elem_of_cons; [done|].
  by apply (written_addressed0 d x).
Qed.

(** The sets. *)
Lemma set_add_spec (Q : uuid -> cid -> Prop) k c m :
  (forall k' s, m !! k' = Some s -> s <> ∅ /\ forall d, d ∈ s -> Q k' d) -> Q k c ->
  forall k' s, set_add k c m !! k' = Some s -> s <> ∅ /\ forall d, d ∈ s -> Q k' d.
Proof.
  intros Hm Hc k' s Hs. unfold set_add in Hs.
  apply lookup_insert_Some in Hs as [[<- <-]|[_ Hs]]; [|by apply Hm]. split; [set_solver|].
  intros d [->%elem_of_singleton|Hd]%elem_of_union; [done|].
  destruct (m !! k) as [s|] eqn:Hk; [by apply (proj2 (Hm k s Hk))|simpl in Hd; set_solver].
Qed.

Lemma without_Some c s s' : without c s = Some s' -> s' <> ∅ /\ s' ⊆ s.
Proof. unfold without. case_bool_decide; [done|]. intros [= <-]. split; [done|set_solver]. Qed.

Lemma set_remove_spec (Q : uuid -> cid -> Prop) k c m :
  (forall k' s, m !! k' = Some s -> s <> ∅ /\ forall d, d ∈ s -> Q k' d) ->
  forall k' s, set_remove k c m !! k' = Some s -> s <> ∅ /\ forall d, d ∈ s -> Q k' d.
Proof.
  intros Hm k' s Hs. unfold set_remove in Hs. destruct (m !! k) as [s0|] eqn:Hk; [|by apply Hm].
  destruct (without c s0) as [s1|] eqn:Hw.
  - apply lookup_insert_Some in Hs as [[<- <-]|[_ Hs]]; [|by apply Hm].
    apply without_Some in Hw as [Hne Hsub]. split; [done|]. intros d Hd.
    apply (proj2 (Hm k s0 Hk)). set_solver.
  - apply lookup_delete_Some in Hs as [_ Hs]. by apply Hm.
Qed.

Lemma omap_without_spec (Q : uuid -> cid -> Prop) c (m : gmap uuid (gset cid)) :
  (forall k' s, m !! k' = Some s -> s <> ∅ /\ forall d, d ∈ s -> Q k' d) ->
  forall k' (s : gset cid), omap (without c) m !! k' = Some s -> s <> ∅ /\ forall d, d ∈ s -> Q k' d.
Proof.
  intros Hm k' s Hs. apply lookup_omap_Some in Hs as (s0 & Hw & Hs0).
  apply without_Some in Hw as [Hne Hsub]. split; [done|]. intros d Hd.
  apply (proj2 (Hm k' s0 Hs0)). set_solver.
Qed.

Lemma fine_rooms h : fine h -> forall roomID s, hb_rooms h !! roomID = Some s ->
  s <> ∅ /\ forall c, c ∈ s -> (c, roomID) ∈ h_asked (hb_history h).
Proof. intros [] r s Hs. split; [by eapply no_empty_sets0; left|eauto]. Qed.
Lemma fine_users h : fine h -> forall userID s, hb_users h !! userID = Some s ->
  s <> ∅ /\ forall c, c ∈ s -> user_of h c userID.
Proof. intros [] r s Hs. split; [by eapply no_empty_sets0; right|eauto]. Qed.

(** A client with some of its parts changed. *)
Ltac keeps_client cl :=
  match goal with
  | Hf : fine ?h, Hcl : hb_clients ?h !! ?c = Some cl |- _ =>
      apply (fine_update h c cl);
      [exact Hf|exact Hcl|reflexivity
      |try exact (fun m => queued_addressed h Hf c cl m Hcl)
      |try exact (bounded_queue h Hf c cl Hcl)
      |try exact (bounded_subscriptions h Hf c cl Hcl)
      |try exact (closed_once h Hf c cl Hcl); try done]
  end.

Lemma act_fine t ch {R} (a : action R) h r h' :
  fine h -> pre t a h -> act t ch a h = Some (r, h') -> fine h'.
Proof.
  intros Hf Hpre Hact. pose proof (fine_rooms h Hf) as Hrooms. pose proof (fine_users h Hf) as Husers.
  destruct a; cbn [pre] in Hpre; acted Hact; try done;
    try (apply fine_set_rooms; [done|]); try (apply fine_set_users; [done|]).
  - by apply (set_add_spec (fun k d => (d, k) ∈ h_asked (hb_history h))).
  - by apply (set_remove_spec (fun k d => (d, k) ∈ h_asked (hb_history h))).
  - by apply (omap_without_spec (fun k d => (d, k) ∈ h_asked (hb_history h))).
  - by apply (set_add_spec (fun k d => user_of h d k)).
  - by apply (set_remove_spec (fun k d => user_of h d k)).
  - apply fine_asked. keeps_client cl. simpl.
    apply bool_decide_eq_false in H. match goal with Hn : (_ <=? _)%nat = false |- _ =>
      apply Nat.leb_gt in Hn end.
    rewrite size_union, size_singleton by set_solver. unfold cid in *. lia.
  - keeps_client cl. simpl. etrans; [|by apply (bounded_subscriptions h Hf c)].
    apply subseteq_size. set_solver.
  - keeps_client cl. apply Nat.le_0_l.
  - keeps_client cl; simpl.
    + intros x [Hx| ->%list_elem_of_singleton]%elem_of_app; [by apply (queued_addressed h Hf c cl)|done].
    + rewrite length_app. simpl. match goal with Hn : (_ <? _)%nat = true |- _ =>
        apply Nat.ltb_lt in Hn end. lia.
  - keeps_client cl; simpl.
    + intros x Hx. apply (queued_addressed h Hf c cl); [done|]. rewrite H0. by right.
    + pose proof (bounded_queue h Hf c cl Hcl) as Hb. rewrite H0 in Hb. simpl in Hb. lia.
  - destruct Hpre as (x & Hx & _ & Hclosed). simplify_eq. congruence.
  - destruct Hpre as (x & Hx & Hrun & _). simplify_eq. keeps_client x. split; simpl; congruence.
  - keeps_client cl.
  - destruct Hpre as (x & Hx & Hrun & Hclosed). simplify_eq. keeps_client x.
  - by apply fine_written.
  - by destruct Hf.
  - by destruct Hf.
Qed.

(** ** Programs

    [safe t p h]: whatever the other goroutines do from [h] on, the goroutine [t] that runs
    [p] does an action only when its precondition holds. *)

Fixpoint safe (t : tid) {A} (p : proc A) (h : Hub) : Prop :=
  match p with
  | Return _ => True
  | Act a k => forall h1, later t h h1 -> fine h1 ->
      pre t a h1 /\ forall ch r h2, act t ch a h1 = Some (r, h2) -> safe t (k r) h2
  end.

Lemma safe_later t {A} (p : proc A) h h' : later t h h' -> safe t p h -> safe t p h'.
Proof.
  destruct p as [a|R a k]; simpl; [done|]. intros Hl Hs h1 Hl1. apply Hs. by etrans.
Qed.

(** The step of a goroutine: what it learns from its action. *)
Lemma safe_act t {A R} (a : action R) (k : R -> proc A) h :
  (forall h1, later t h h1 -> fine h1 -> pre t a h1) ->
  (forall h1 ch r h2, later t h h1 -> fine h1 -> pre t a h1 -> act t ch a h1 = Some (r, h2) ->
     grows h h2 -> safe t (k r) h2) ->
  safe t (Act a k) h.
Proof.
  intros Hpre Hk h1 Hl Hf. split; [by apply Hpre|]. intros ch r h2 Ha.
  apply (Hk h1 ch r h2); auto. etrans; [apply Hl|]. by eapply act_grows.
Qed.

Lemma safe_bind t {A R} (a : action R) (k : R -> proc A) h :
  (forall h1, later t h h1 -> fine h1 -> pre t a h1) ->
  (forall h1 ch r h2, later t h h1 -> fine h1 -> pre t a h1 -> act t ch a h1 = Some (r, h2) ->
     grows h h2 -> safe t (k r) h2) ->
  safe t (seq_proc (do a) k) h.
Proof. apply safe_act. Qed.

Lemma safe_seq t {A B} (p : proc A) (k : A -> proc B) h :
  safe t p h -> (forall a h', grows h h' -> safe t (k a) h') -> safe t (seq_proc p k) h.
Proof.
  revert h. induction p as [a|R a k' IH]; intros h; simpl; [intros _ Hk; by apply Hk|].
  intros Hp Hk h1 Hl Hf. destruct (Hp h1 Hl Hf) as [Hpre Hnext]. split; [done|].
  intros ch r h2 Ha. apply IH; [by apply (Hnext ch)|]. intros b h3 Hg. apply Hk.
  etrans; [apply Hl|]. etrans; [by eapply act_grows|done].
Qed.

Lemma safe_skip t h : safe t skip h.
Proof. done. Qed.

(** An action without a precondition, or with one that the goroutine has established. *)
Lemma safe_do t {R} (a : action R) h :
  (forall h1, later t h h1 -> fine h1 -> pre t a h1) -> safe t (do a) h.
Proof. intros Hpre. by apply safe_act. Qed.

#[export] Hint Resolve safe_skip safe_do : hub.
#[export] Hint Extern 2 (pre _ _ _) => exact I : hub.

(** *** [Close] *)

(** What [t] does in the function of the Once, but for its last two actions. *)
Definition keeps_once {R} (a : action R) : bool :=
  match a with close_send _ | once_exit _ => false | _ => true end.

Lemma act_keeps_once t ch {R} (a : action R) h r h' c closed :
  keeps_once a = true -> act t ch a h = Some (r, h') -> once_held t h c closed ->
  once_held t h' c closed.
Proof.
  intros Hk Hact Hd. destruct a; try discriminate Hk; acted Hact; try exact Hd;
    (eapply once_held_update; [done| |exact Hd]; try done).
Qed.

(** The same as a step of a program. *)
Lemma safe_in_once t {A R} (a : action R) (k : R -> proc A) h c :
  keeps_once a = true -> (forall h1, pre t a h1) -> once_held t h c false ->
  (forall r h', once_held t h' c false -> safe t (k r) h') -> safe t (Act a k) h.
Proof.
  intros Hk Hpre Hc Hnext. apply safe_act; [auto|]. intros h1 ch r h2 Hl _ _ Ha _. apply Hnext.
  eapply act_keeps_once; [done..|]. by apply (la_once _ _ _ Hl).
Qed.

Lemma once_entered t ch h c h' : fine h -> act t ch (once_enter c) h = Some (true, h') ->
  once_held t h' c false.
Proof.
  intros Hf Ha. acted Ha. exists (with_once (Running t) cl). simpl. rewrite lookup_insert_eq.
  split_and!; [done..|]. destruct (cl_closed cl) eqn:Hclosed; [|done].
  by destruct (proj1 (closed_once h Hf c cl Hcl) Hclosed).
Qed.

Lemma send_closed t ch h c h' :
  once_held t h c false -> act t ch (close_send c) h = Some (tt, h') -> once_held t h' c true.
Proof.
  intros (x & Hx & Hrun & Hclosed) Ha. acted Ha; [congruence|].
  exists (with_closed x). simpl. by rewrite lookup_insert_eq.
Qed.

Lemma Close_safe t c h : safe t (Close c) h.
Proof.
  apply safe_act; [done|]. intros h1 ch [] h2 _ Hf _ Ha _; [|done].
  pose proof (once_entered t ch h1 c h2 Hf Ha) as Hheld. clear Ha Hf h1.
  apply (safe_in_once t _ _ _ c); [done..|]. intros n h3 H3. cbn [seq_proc].
  assert (forall h', once_held t h' c false ->
    safe t (do (AddWSConnections (-1)) >>> do (conn_Close c) >>> do (UnsubscribeAll c) >>>
            user <~ do (userOf c); do (UnregisterUser user c) >>> do (close_send c) >>>
            do (once_exit c)) h') as Hrest.
  { intros h4 H4. do 5 (apply (safe_in_once t _ _ _ c); [done..|]; clear h4 H4; intros ? h4 H4).
    apply safe_act; [intros h5 Hl _; by apply (la_once _ _ _ Hl)|].
    intros h5 ch' [] h6 _ _ Hpre Ha' _. apply safe_do. intros h7 Hl7 _.
    apply (la_once _ _ _ Hl7). by eapply send_closed. }
  destruct (0 <? n)%nat; [|by apply Hrest].
  by apply (safe_in_once t _ _ _ c).
Qed.

#[export] Hint Resolve Close_safe : hub.

(** *** The other programs *)

Lemma enqueue_safe t c payload messageType h :
  addressed h c {| om_payload := payload; om_messageType := messageType |} ->
  safe t (enqueue c payload messageType) h.
Proof.
  intros Ha. apply safe_do. intros h1 Hl _. by apply (addressed_grows h); [apply Hl|].
Qed.

Lemma sendServerMessage_safe t c msg h :
  sm_Type msg ∈ [MessageTypeSubscribed; MessageTypeUnsubscribed; MessageTypeError] ->
  safe t (sendServerMessage c msg) h.
Proof.
  intros Hm. apply safe_seq; [|intros [] h' _; auto with hub].
  apply enqueue_safe. left. by exists msg.
Qed.

Lemma sendError_safe t c msg h : safe t (sendError c msg) h.
Proof. apply sendServerMessage_safe. simpl. set_solver. Qed.
Lemma room_message_safe t c messageType roomID h :
  messageType ∈ [MessageTypeSubscribed; MessageTypeUnsubscribed] ->
  safe t (sendServerMessage c (room_message messageType roomID)) h.
Proof. intros Hm. apply sendServerMessage_safe. simpl. set_solver. Qed.

#[export] Hint Resolve sendError_safe : hub.

Lemma subscribe_safe t c roomID h : safe t (subscribe c roomID) h.
Proof.
  apply safe_bind; [done|]. intros h1 ch o h2 Hl Hf _ Ha _.
  destruct o; [auto with hub..|]. apply safe_seq; [auto with hub|]. intros _ h3 Hg3.
  assert ((c, roomID) ∈ h_asked (hb_history h3)) as Hin.
  { apply (gr_asked _ _ Hg3). acted Ha. simpl. set_solver. }
  apply safe_seq; [|intros _ h4 _; apply room_message_safe; set_solver].
  apply safe_do. intros h4 Hl4 _. by apply (gr_asked _ _ (la_grows _ _ _ Hl4)).
Qed.

Lemma unsubscribe_safe t c roomID h : safe t (unsubscribe c roomID) h.
Proof.
  apply safe_bind; [done|]. intros h1 ch [] h2 _ _ _ _ _; [|auto with hub].
  apply safe_seq; [auto with hub|]. intros _ h3 _. apply safe_seq; [auto with hub|].
  intros _ h4 _. apply room_message_safe. set_solver.
Qed.

#[export] Hint Resolve subscribe_safe unsubscribe_safe : hub.

Lemma read_round_safe P t c h : safe t (read_round P c) h.
Proof.
  apply safe_seq; [auto with hub|]. intros [data|] h1 _; [|done].
  apply safe_seq; [|done]. destruct (Unmarshal data : option ClientMessage) as [msg|]; [|auto with hub].
  cbv zeta. repeat case_bool_decide; auto with hub; destruct (uuid_Parse _ _); auto with hub.
Qed.

Lemma write_round_safe t c h : safe t (write_round c) h.
Proof.
  apply safe_bind; [done|]. intros h1 ch x h2 Hl Hf _ Ha Hg.
  destruct x as [m| |]; [|apply safe_seq; auto with hub; done|auto with hub].
  apply safe_do. intros h3 Hl3 _. apply (addressed_grows h1); [etrans; [by eapply act_grows|apply Hl3]|].
  acted Ha. eapply (queued_addressed h1); [done..|].
  match goal with Hq : cl_send _ = _ |- _ => rewrite Hq end. by left.
Qed.

Lemma run_prelude_safe t c h : safe t (run_prelude c) h.
Proof.
  apply safe_seq; [auto with hub|]. intros _ h1 _. apply safe_bind; [done|].
  intros h2 ch user h3 _ _ _ Ha _. apply safe_do. intros h4 Hl4 _.
  apply (gr_user _ _ (la_grows _ _ _ Hl4)). acted Ha. by eexists.
Qed.

Lemma enqueue_all_safe t payload clients h :
  (forall c, c ∈ clients -> addressed h c (event_message payload)) ->
  safe t (enqueue_all payload (extractMessageType payload) clients) h.
Proof.
  revert h. induction clients as [|c clients IH]; intros h Hc; cbn [enqueue_all]; [done|].
  apply safe_seq; [apply enqueue_safe, Hc; by left|].
  intros sent h2 Hg. apply safe_seq; [|done]. apply IH. intros d Hd.
  apply (addressed_grows h); [done|]. apply Hc. set_solver.
Qed.

Lemma close_all_safe t slow h : safe t (close_all slow) h.
Proof.
  revert h. induction slow as [|c slow IH]; intros h; cbn [close_all]; [done|].
  apply safe_seq; auto with hub.
Qed.

Lemma listed_elem ch s l : listed ch s = Some l -> forall c, c ∈ l -> c ∈ s.
Proof.
  unfold listed. intros H c. case_match eqn:Hb; [|done]. simplify_eq.
  apply andb_true_iff in Hb as [_ <-%bool_decide_eq_true]. by rewrite elem_of_list_to_set.
Qed.

Lemma deliver_safe t d h : d ∈ h_deliveries (hb_history h) -> safe t (deliver d) h.
Proof.
  intros Hd. assert (forall payload clients h',
    (forall c, c ∈ clients -> addressed h' c (event_message payload)) ->
    safe t (slow <~ enqueue_all payload (extractMessageType payload) clients; close_all slow) h') as Hs.
  { intros payload clients h' Hc. apply safe_seq; [by apply enqueue_all_safe|].
    intros slow h'' _. apply close_all_safe. }
  destruct d as [k payload|k payload]; (apply safe_bind; [done|]);
    intros h1 ch clients h2 Hl Hf _ Ha Hg; apply Hs; intros c Hc;
    apply (addressed_grows h1); (try by eapply act_grows); acted Ha;
    (match goal with Hl : listed _ _ = Some _ |- _ => apply (listed_elem _ _ _ Hl) in Hc end);
    right; [left|right]; exists k, payload; (split; [done|]);
    (split; [by apply (gr_deliveries _ _ (la_grows _ _ _ Hl))|]).
  - destruct (hb_rooms h2 !! k) as [s|] eqn:Hk; [by apply (rooms_asked h2 Hf k s)|].
    simpl in Hc. set_solver.
  - destruct (hb_users h2 !! k) as [s|] eqn:Hk; [by apply (users_own h2 Hf k s)|].
    simpl in Hc. set_solver.
Qed.

(** ** Interleavings *)

Definition goroutine_safe (t : tid) (g : goroutine) (h : Hub) : Prop :=
  match g with
  | Starting _ p => safe t p h
  | Reading _ p | Writing _ p => safe t p h
  | Leaving p | Delivering p => safe t p h
  end.

Record well (s : System) : Prop := {
  well_hub : fine (sy_hub s);
  well_threads : forall t g, sy_threads s !! t = Some g -> goroutine_safe t g (sy_hub s) }.

Lemma goroutine_safe_later t g h h' : later t h h' -> goroutine_safe t g h -> goroutine_safe t g h'.
Proof. destruct g; apply safe_later. Qed.

(** A goroutine that leaves the others their facts. *)
Lemma well_resume t g h s :
  well s -> fine h -> (forall t', t <> t' -> later t' (sy_hub s) h) -> goroutine_safe t g h ->
  well (resume t g h s).
Proof.
  intros [Hh Ht] Hf Hl Hg. split; [done|]. simpl. intros t' g' [[<- <-]|[Hne Hg']]%lookup_insert_Some; [done|].
  apply (goroutine_safe_later _ _ (sy_hub s)); auto.
Qed.

Lemma safe_proceed t ch {A} (p p' : proc A) h h' :
  fine h -> safe t p h -> proceed t ch p h = Some (p', h') ->
  fine h' /\ safe t p' h' /\ forall t', t <> t' -> later t' h h'.
Proof.
  intros Hf Hs Hp. destruct p as [a|R a k]; [done|]. cbn [proceed] in Hp.
  destruct (act t ch a h) as [[r h1]|] eqn:Ha; simplify_eq/=.
  destruct (Hs h (reflexivity h) Hf) as [Hpre Hnext]. split_and!.
  - by eapply act_fine.
  - by eapply Hnext.
  - intros t' Hne. by eapply act_later.
Qed.

Lemma user_of_connect h c d user u :
  hb_clients h !! c = None -> user_of h d u -> user_of (update c (NewClient user) h) d u.
Proof. intros Hc (x & Hx & Hu). exists x. split; [|done]. simpl. rewrite lookup_insert_ne; [done|congruence]. Qed.

Lemma later_connect t h c user : hb_clients h !! c = None -> later t h (update c (NewClient user) h).
Proof.
  intros Hc. split; [split; [done|done|intros d u; by apply user_of_connect]|].
  intros d closed (x & Hx & Hr). exists x. simpl. rewrite lookup_insert_ne; [done|congruence].
Qed.

Lemma fine_connect h c user :
  hb_clients h !! c = None -> fine h -> fine (update c (NewClient user) h).
Proof.
  intros Hc Hf. pose proof (la_grows _ _ _ (later_connect 0%N h c user Hc)) as Hg.
  destruct Hf. split; simpl; try done.
  - intros d cl m [[<- <-]|[_ Hcl]]%lookup_insert_Some Hm; [by apply elem_of_nil in Hm|].
    apply (addressed_grows h); eauto.
  - intros d m Hm. apply (addressed_grows h); eauto.
  - intros u s d Hs Hd. apply (gr_user _ _ Hg). eauto.
  - intros d cl [[<- <-]|[_ Hcl]]%lookup_insert_Some; [apply Nat.le_0_l|eauto].
  - intros d cl [[<- <-]|[_ Hcl]]%lookup_insert_Some; [apply Nat.le_0_l|eauto].
  - intros d cl [[<- <-]|[_ Hcl]]%lookup_insert_Some; [done|eauto].
Qed.

Lemma later_announced t h d : later t h (announced d h).
Proof. split; [split; simpl; [done|intros x Hx; by right|done]|done]. Qed.

Lemma move_well P m s s' : well s -> move P m s = Some s' -> well s'.
Proof.
  intros Hw Hm. pose proof Hw as [Hh Ht]. destruct m as [t c user|t d|t ch|t t']; cbn [move] in Hm.
  - case_match eqn:Hc; simplify_eq. apply andb_true_iff in Hc as [_ Hc%bool_decide_eq_true].
    apply well_resume; [done|by apply fine_connect|intros; by apply later_connect|apply run_prelude_safe].
  - case_match eqn:Hc; simplify_eq.
    apply well_resume; [done|by apply fine_announced|intros; apply later_announced|].
    apply deliver_safe. by left.
  - destruct (sy_threads s !! t) as [g|] eqn:Hg; [|done]. cbn [mbind option_bind] in Hm.
    pose proof (Ht t g Hg) as Hs. destruct g; cbn [goroutine_safe] in Hs;
      (destruct (proceed t ch p (sy_hub s)) as [[p' h']|] eqn:Hp; simplify_eq/=);
      destruct (safe_proceed t ch p p' _ h' Hh Hs Hp) as (Hf & Hs' & Hl); by apply well_resume.
  - destruct (sy_threads s !! t) as [g|] eqn:Hg; [|done]. cbn [mbind option_bind] in Hm.
    assert (forall g', goroutine_safe t g' (sy_hub s) -> well (resume t g' (sy_hub s) s)) as Hr
      by (intros; by apply well_resume).
    repeat case_match; simplify_eq; try (apply Hr; first [apply read_round_safe|apply write_round_safe|apply Close_safe]).
    + apply (well_resume t' _ (sy_hub s)); [apply Hr, read_round_safe|done..|apply write_round_safe].
    + split; [done|]. simpl. intros t1 g1 [_ Hg1]%lookup_delete_Some. by apply Ht.
    + split; [done|]. simpl. intros t1 g1 [_ Hg1]%lookup_delete_Some. by apply Ht.
Qed.

Lemma fine_new : fine NewHub.
Proof.
  split; simpl; try done; try (intros; exfalso; set_solver).
Qed.

Lemma interleaving_well P s : interleaving P s -> well s.
Proof.
  induction 1 as [|s m s' _ IH Hm]; [|by eapply move_well]. split; [apply fine_new|done].
Qed.

(** C40. In every interleaving of readers, writers and deliveries, no goroutine closes a closed
    channel - the [sync.Once] of the client sees to that, whoever calls [Close] how often -,
    a message is handed to the websocket of a client only if it is a reply to the client
    itself, an event of a room that the client asked for or an event for the client's own
    user, and no client has more messages queued or rooms subscribed than the limits say. *)
Theorem messages_reach_only_their_audience P s :
  interleaving P s ->
  h_crashed (hb_history (sy_hub s)) = false /\
  (forall c m, (c, m) ∈ h_written (hb_history (sy_hub s)) -> addressed (sy_hub s) c m) /\
  (forall c cl, hb_clients (sy_hub s) !! c = Some cl ->
     (length (cl_send cl) <= outboundQueueSize)%nat /\
     (size (cl_subscribed cl) <= maxSubscriptions)%nat).
Proof.
  intros [[] _]%interleaving_well. split_and!; [done|done|]. intros c cl Hc. eauto.
Qed.

(** User 3 connects too.  User 2 follows room 10, where a slot is booked: its client gets the
    confirmation and the event. *)
Definition booked : bytes := message_of (Announce (EvSlotBooked 10 20 30)) (7200 * Second).

Definition delivery : list Move :=
  connected ++ [Connect 3 8 3] ++ replicate 3 (Go 3 (lets [])) ++ [Next 3 4] ++
  [Go 0 (says (subscribe_to 10))] ++ replicate 4 (Go 0 silent) ++ [Next 0 9] ++
  [Arrive 2 (Broadcast 10 booked); Go 2 (lets [7%N]); Go 2 (lets []); Next 2 9] ++
  [Go 1 (lets []); Go 1 (lets []); Next 1 9; Go 1 (lets []); Go 1 (lets []); Next 1 9].

(** The end of a run, if all its moves can be done. *)
Definition reached (l : list Move) : System := default initial (moves sample l initial).
Definition runs (l : list Move) : bool := if moves sample l initial then true else false.

Lemma runs_interleaving l : runs l = true -> interleaving sample (reached l).
Proof.
  unfold runs, reached. destruct (moves sample l initial) as [s|] eqn:Hs; [|done]. intros _.
  by eapply moves_interleaving; [apply interleaving_start|].
Qed.

Definition sent_types (h : Hub) : list (cid * string) :=
  prod_map id om_messageType <$> h_written (hb_history h).

Lemma messages_reach_only_their_audience_witness :
  sent_types (sy_hub (reached delivery)) = [(7%N, "slot_booked"%string); (7%N, MessageTypeSubscribed)] /\
  (forall c m, (c, m) ∈ h_written (hb_history (sy_hub (reached delivery))) ->
     addressed (sy_hub (reached delivery)) c m) /\
  h_crashed (hb_history (sy_hub (reached delivery))) = false.
Proof.
  destruct (messages_reach_only_their_audience sample (reached delivery)) as (Hc & Hw & _).
  - apply runs_interleaving. by vm_compute.
  - split; [by vm_compute|]. split; [exact Hw|exact Hc].
Defined.

(** *** A late subscription

    [Close] forgets the rooms of the client and takes it out of the hub once; a reader that
    has passed its own check enters the hub after that.  In the state that is reached no
    goroutine is left, the only client is closed, and yet the hub holds it for room 10; every
    later event of the room finds a closed channel and calls [Close], which does nothing. *)
Lemma closed_client_stays_subscribed :
  let s := reached late_subscription in
  interleaving sample s /\ sy_threads s = ∅ /\ hb_rooms (sy_hub s) = {[10%N := {[7%N]}]} /\
  (fun cl => (cl_closed cl, cl_subscribed cl, cl_closeOnce cl)) <$> hb_clients (sy_hub s) =
    {[7%N := (true, ∅, Ran)]}.
Proof.
  split; [apply runs_interleaving; by vm_compute|]. split; [by vm_compute|]. split; by vm_compute.
Qed.
