(* ===== verification/Gateway.v ===== *)
(** * Gateway: how clients and events come to the hub

    ws_handler.go lets an authenticated user in, redis_subscriber.go turns the messages of
    the Redis channel into deliveries and connects again when the channel breaks; manager.go
    delivers without Redis.  The upgrade of the connection, the Redis client and the context
    are what the environment decides. *)

From Stdlib Require Import Ascii.
From S2P Require Import Prelude Domain GoStd Text Json Dates Platform Database Program Postgres.
From S2P Require Import Middleware Sessions Response.
From S2P Require Handlers.
From S2P Require Import Handlers Realtime Hub.

(** ** ws_handler.go *)

Section handler.
Context (P : Platform) (secret : bytes).

Definition authenticate (r : HttpRequest) : prog (result User) :=
  let! user := AuthenticateRequest P secret (rq_Header r "Authorization") in
  match user with
  | Ok user => Ret (Ok user)
  | Err _ =>
      let token := rq_Query r "token" in
      if bool_decide (token = []) then fail (unauthorized "missing bearer token")
      else AuthenticateToken P secret token
  end.

Inductive admission :=
| Refused (r : Response)
| NotUpgraded
| LetIn (user : User).

(** [ServeHTTP], up to the start of the client. *)
Definition ServeHTTP (r : HttpRequest) (upgraded : bool) : prog admission :=
  let! user := authenticate r in
  match user with
  | Err err => Ret (Refused (WriteError err))
  | Ok user => Ret (if upgraded then LetIn user else NotUpgraded)
  end.
End handler.

(** ** redis_subscriber.go *)

(** What [select] yields inside [consume]. *)
Inductive arrival :=
| Done
| ChannelClosed
| Payload (payload : bytes).

(** One round of the loop of [Run]: whether the context was done before it, whether the
    subscription was confirmed, what arrived, and whether the context was done after it or
    while waiting to try again. *)
Record round := {
  rd_done_before : bool;
  rd_received : bool;
  rd_arrivals : list arrival;
  rd_done_after : bool;
  rd_done_waiting : bool }.

Inductive ending := Returned (err : option error) | Waiting.

Section subscriber.
Context (P : Platform).

Fixpoint consume_loop (l : list arrival) : list (result Delivery) * ending :=
  match l with
  | [] => ([], Waiting)
  | Done :: _ => ([], Returned None)
  | ChannelClosed :: _ => ([], Returned (Some (errorf "redis pubsub channel closed")))
  | Payload payload :: l =>
      let '(handled, e) := consume_loop l in ((handleMessage P payload).1 :: handled, e)
  end.

Definition consume (channel : string) (rd : round) : list (result Delivery) * ending :=
  if rd_received rd then consume_loop (rd_arrivals rd)
  else ([], Returned (Some (Wrapped ("subscribe channel " ++ channel) (errorf "receive")))).

(** The loop of [Run]: the messages handled, the number of reconnects and the end. *)
Fixpoint run_loop (channel : string) (l : list round) : list (result Delivery) * nat * ending :=
  match l with
  | [] => ([], O, Waiting)
  | rd :: l =>
      if rd_done_before rd then ([], O, Returned None)
      else
        let '(handled, e) := consume channel rd in
        match e with
        | Waiting => (handled, O, Waiting)
        | Returned None => (handled, O, Returned None)
        | Returned (Some _) =>
            if rd_done_after rd then (handled, O, Returned None)
            else if rd_done_waiting rd then (handled, 1, Returned None)
            else let '(more, n, e) := run_loop channel l in (handled ++ more, S n, e)
        end
  end.

Definition Run (client hub : bool) (channel : string) (l : list round)
    : list (result Delivery) * nat * ending :=
  if negb client then ([], O, Returned (Some (errorf "redis subscriber client is nil")))
  else if negb hub then ([], O, Returned (Some (errorf "redis subscriber hub is nil")))
  else if bool_decide (channel = EmptyString)
  then ([], O, Returned (Some (errorf "redis subscriber channel is empty")))
  else run_loop channel l.
End subscriber.

(** ** manager.go *)

Definition publish (msgType : string) (roomID slotID bookingID : uuid) (now : time) : proc unit :=
  deliver (Broadcast roomID (print (message_json
    {| sm_Type := msgType; sm_RoomID := id_text roomID; sm_UserID := ""; sm_SlotID := id_text slotID;
       sm_BookingID := id_text bookingID; sm_ReservationID := ""; sm_WaitlistEntryID := "";
       sm_ExpiresAt := ""; sm_Timestamp := time_text now; sm_Message := "" |}))).

Definition SlotBooked := publish EventTypeSlotBooked.
Definition SlotReleased := publish EventTypeSlotReleased.

(** ** Who is let in *)

Lemma admitted_vouched P secret r upgraded E w user :
  (run E (ServeHTTP P secret r upgraded) w).1 = LetIn user ->
  exists token now, vouched P secret token now user /\
    (token = TrimSpace (drop 7 (rq_Header r "Authorization")) \/ token = rq_Query r "token").
Proof.
  unfold ServeHTTP, authenticate. rewrite !run_bind.
  pose proof (header_vouched P secret (rq_Header r "Authorization") E w) as Hv.
  destruct (run E (AuthenticateRequest _ _ _) w) as [[u|err] w1]; cbn [fst snd] in *.
  - cbn. destruct upgraded; [|done]. intros [= <-]. destruct (Hv u eq_refl) as [_ ?]. eauto.
  - case_bool_decide; [done|]. unfold AuthenticateToken.
    pose proof (token_vouched P secret (rq_Query r "token") E w1) as Ht.
    destruct (run E (parseAndValidateToken _ _ _) w1) as [[u|err'] w2]; cbn; [|done].
    destruct upgraded; [|done]. intros [= <-]. do 2 eexists. split; [by apply Ht|by right].
Qed.

(** ** What the subscriber delivers *)

Definition payloads (l : list arrival) : list bytes :=
  omap (fun x => match x with Payload p => Some p | _ => None end) l.

(** The arrivals before the first that ends the round. *)
Fixpoint before_end (l : list arrival) : list arrival :=
  match l with
  | Payload p :: l => Payload p :: before_end l
  | _ => []
  end.

Lemma consume_loop_handles P l :
  (consume_loop P l).1 = (fun p => (handleMessage P p).1) <$> payloads (before_end l).
Proof.
  induction l as [|[| |p] l IH]; simpl; try done.
  destruct (consume_loop P l) as [handled e]. simpl in *. by rewrite IH.
Qed.

(** A message that cannot be handled is dropped and the next one is handled; broken channels
    and failed subscriptions never end [Run]. *)
Lemma Run_returns P channel l err :
  channel <> EmptyString -> (Run P true true channel l).2 = Returned err ->
  err = None /\ exists rd, rd ∈ l /\
    (rd_done_before rd = true \/ rd_done_after rd = true \/ rd_done_waiting rd = true \/
     Done ∈ rd_arrivals rd).
Proof.
  intros Hc. unfold Run. rewrite bool_decide_false by done. simpl.
  assert (forall a, (consume_loop P a).2 = Returned None -> Done ∈ a) as Hdone.
  { induction a as [|[| |p] a IH]; simpl; try done; [by left|].
    destruct (consume_loop P a). simpl in *. intros. right. auto. }
  induction l as [|rd l IH]; simpl; [done|].
  destruct (rd_done_before rd) eqn:Hb; [intros [= <-]; split; [done|exists rd; split; [by left|auto]]|].
  destruct (consume P channel rd) as [handled e] eqn:Hcons.
  destruct e as [[err'|]|]; [|intros [= <-]|done].
  - destruct (rd_done_after rd) eqn:?; [intros [= <-]; split; [done|exists rd; split; [by left|auto]]|].
    destruct (rd_done_waiting rd) eqn:?; [intros [= <-]; split; [done|exists rd; split; [by left|auto]]|].
    destruct (run_loop P channel l) as [[more n] e]. cbn [fst snd] in *. intros Hr.
    destruct (IH Hr) as (-> & rd' & Hin & ?). split; [done|]. exists rd'. split; [by right|done].
  - split; [done|]. exists rd. split; [by left|]. do 3 right. apply Hdone. unfold consume in Hcons.
    destruct (rd_received rd); [by rewrite Hcons|done].
Qed.

(** While the context is not done, every message of every confirmed round is handled. *)
Lemma Run_handles P channel l :
  channel <> EmptyString ->
  (forall rd, rd ∈ l -> rd_done_before rd = false /\ rd_done_after rd = false /\
     rd_done_waiting rd = false /\ exists l' : list bytes, rd_arrivals rd = (Payload <$> l') ++ [ChannelClosed]) ->
  (Run P true true channel l).1 =
    ((fun p => (handleMessage P p).1) <$>
       (l ≫= fun rd => if rd_received rd then payloads (rd_arrivals rd) else []),
     length l).
Proof.
  intros Hc. unfold Run. rewrite bool_decide_false by done. simpl.
  assert (forall l' : list bytes, consume_loop P ((Payload <$> l') ++ [ChannelClosed]) =
    ((fun p => (handleMessage P p).1) <$> payloads ((Payload <$> l') ++ [ChannelClosed]),
     Returned (Some (errorf "redis pubsub channel closed")))) as Hloop.
  { induction l' as [|p l' IH]; [done|]. rewrite fmap_cons. cbn [app consume_loop].
    by rewrite IH. }
  induction l as [|rd l IH]; intros Hl; simpl; [done|].
  destruct (Hl rd) as (-> & -> & -> & l' & Hl'); [by left|].
  specialize (IH (fun rd' Hin => Hl rd' (list_elem_of_further _ _ _ Hin))).
  unfold consume. destruct (run_loop P channel l) as [[more n] e]. simpl in IH. injection IH as -> ->.
  rewrite fmap_app. destruct (rd_received rd); [by rewrite Hl', Hloop|done].
Qed.

(** ** With and without Redis *)

(** The manager delivers what the subscriber would have delivered. *)
Lemma manager_agrees P roomID slotID bookingID now :
  let call := Announce (EvSlotBooked roomID slotID bookingID) in
  parses_uuids P -> fits call -> four_digit_year now ->
  exists d, (handleMessage P (print (event_json (event_of call now)))).1 = Ok d /\
    SlotBooked roomID slotID bookingID now = deliver d.
Proof.
  intros call HP Hc Hn. exists (Broadcast roomID (message_of call now)). split; [|done].
  by rewrite (handled_event P).
Qed.
