(* ===== verification/Concurrency.v ===== *)
(** * Concurrency: transactions that run at the same time

    Requests do not really run one after the other: between two statements of a transaction
    the server executes statements of others.  Under READ COMMITTED, the level the service
    uses, a statement sees what is committed and what its own transaction has written.

    A transaction keeps the rows it has written in a [Delta]; its [view] is the committed
    database under that delta, and COMMIT makes the view the committed database.  Until it
    ends it holds the locks of the rows it has written and of those it has selected FOR
    UPDATE.  A statement waits while it would write or lock a row that another open
    transaction has locked ([unblocked]), or write one that a unique index could not hold
    together with a row of such a transaction ([free]); a deadlock ends when the server fails
    a statement.  A statement that skips locked rows has its answer say which they are.
    What a query sees is left open ([cs_read]), so that stale reads and the re-check after a
    wait are covered.  Referenced rows are locked FOR KEY SHARE, which conflicts with none of
    these locks: no statement deletes a row or changes a key. *)

From S2P Require Import Prelude Domain Database Program Postgres Schema.

#[global] Instance Booking_eq_dec : EqDecision Booking.
Proof. solve_decision. Defined.
#[global] Instance WaitlistEntry_eq_dec : EqDecision WaitlistEntry.
Proof. solve_decision. Defined.
#[global] Instance SlotReservation_eq_dec : EqDecision SlotReservation.
Proof. solve_decision. Defined.

(** ** Deltas *)

(** The rows an open transaction has written.  Users, rooms, schedules and slots are written
    outside of transactions only. *)
Record Delta := {
  dl_bookings : gmap uuid Booking;
  dl_waitlist : gmap uuid WaitlistEntry;
  dl_reservations : gmap uuid SlotReservation }.

Definition no_rows : Delta := {| dl_bookings := ∅; dl_waitlist := ∅; dl_reservations := ∅ |}.

Definition view (d : Delta) (c : DB) : DB :=
  {| db_users := db_users c; db_rooms := db_rooms c;
     db_schedule_rows := db_schedule_rows c;
     db_slots := db_slots c; db_bookings := dl_bookings d ∪ db_bookings c;
     db_waitlist := dl_waitlist d ∪ db_waitlist c;
     db_reservations := dl_reservations d ∪ db_reservations c;
     db_waitlist_seq := db_waitlist_seq c |}.

(** The later rows over the earlier ones. *)
Definition over (e d : Delta) : Delta :=
  {| dl_bookings := dl_bookings e ∪ dl_bookings d; dl_waitlist := dl_waitlist e ∪ dl_waitlist d;
     dl_reservations := dl_reservations e ∪ dl_reservations d |}.

Definition changed_rows {A} `{EqDecision A} (t t' : gmap uuid A) : gmap uuid A :=
  filter (fun ix => t !! ix.1 <> Some ix.2) t'.

Definition changed (v v' : DB) : Delta :=
  {| dl_bookings := changed_rows (db_bookings v) (db_bookings v');
     dl_waitlist := changed_rows (db_waitlist v) (db_waitlist v');
     dl_reservations := changed_rows (db_reservations v) (db_reservations v') |}.

(** ** Conflicts *)

#[global] Instance same_active_booking_dec x y : Decision (same_active_booking x y).
Proof.
  refine (cast_if (decide (active_booking (bk_SlotID x) x /\ active_booking (bk_SlotID x) y))).
  - abstract (by exists (bk_SlotID x)).
  - abstract (intros (slot & [<- Hx] & Hy); by apply n).
Defined.
#[global] Instance same_open_entry_dec x y : Decision (same_open_entry x y).
Proof.
  refine (cast_if (decide (open_entry (wl_SlotID x) (wl_UserID x) x /\
                           open_entry (wl_SlotID x) (wl_UserID x) y))).
  - abstract (by exists (wl_SlotID x), (wl_UserID x)).
  - abstract (intros (slot & user & (<- & <- & Hx) & Hy); by apply n).
Defined.
#[global] Instance same_active_reservation_dec x y : Decision (same_active_reservation x y).
Proof.
  refine (cast_if (decide (active_reservation (rs_SlotID x) x /\ active_reservation (rs_SlotID x) y))).
  - abstract (by exists (rs_SlotID x)).
  - abstract (intros (slot & [<- Hx] & Hy); by apply n).
Defined.

(** Different rows that a unique index can hold together. *)
Definition rows_apart {A} (clash : A -> A -> Prop) (t u : gmap uuid A) : Prop :=
  map_Forall (fun i x => u !! i = None /\ map_Forall (fun _ y => ~ clash x y) u) t.

#[global] Instance rows_apart_dec {A} (clash : A -> A -> Prop) `{!RelDecision clash} t u :
  Decision (rows_apart clash t u).
Proof. unfold rows_apart. apply _. Defined.

Definition apart (d e : Delta) : Prop :=
  rows_apart same_active_booking (dl_bookings d) (dl_bookings e) /\
  rows_apart same_open_entry (dl_waitlist d) (dl_waitlist e) /\
  rows_apart same_active_reservation (dl_reservations d) (dl_reservations e).

#[global] Instance apart_dec d e : Decision (apart d e).
Proof. unfold apart. apply _. Defined.

(** ** Sessions *)

Notation sid := N (only parsing).

Record Server := {
  sv_db : DB;
  (** The open transactions. *)
  sv_tx : gmap sid Delta;
  (** The rows they have locked. *)
  sv_locks : gmap sid (gset Row);
  (** The requests that are being served: what is left to do. *)
  sv_prog : sid -> option (prog (result unit));
  sv_out : list Output }.

Definition upd {A} (t : sid) (x : A) (f : sid -> A) : sid -> A :=
  fun t' => if decide (t' = t) then x else f t'.

Lemma upd_eq {A} t (x : A) f : upd t x f t = x.
Proof. unfold upd. by rewrite decide_True. Qed.
Lemma upd_ne {A} t t' (x : A) f : t' <> t -> upd t x f t' = f t'.
Proof. intros Hne. unfold upd. by rewrite decide_False. Qed.

Definition delta (tx : option Delta) : Delta := default no_rows tx.

(** What the environment decides. *)
Record Choice := {
  ch_answer : Answer;
  ch_now : time;
  ch_uuid : uuid }.

(** An effect of a session with transaction [tx] over the committed database [c]: its result,
    the transaction, the committed database and the outputs after it.  A transaction call
    that no transaction is open for, or one too many, has no meaning. *)
Definition exec (ch : Choice) {R} (e : effect R) (tx : option Delta) (c : DB)
    : option (R * option Delta * DB * list Output) :=
  let a := ch_answer ch in
  match e in effect R return option (R * option Delta * DB * list Output) with
  | Statement _ s =>
      let v := view (delta tx) c in
      let '(r, v') := respond a s v in
      match tx with
      | Some d => Some (r, Some (over (changed v v') d), set_waitlist_seq (db_waitlist_seq v') c, [])
      | None => Some (r, None, v', [])
      end
  | Begin =>
      match tx, a_fault a with
      | Some _, _ => None
      | None, None => Some (Ok (Build_Tx c), Some no_rows, c, [])
      | None, Some m => Some (Err (PlainError m), None, c, [])
      end
  | Commit _ =>
      match tx, a_fault a with
      | None, _ => None
      | Some d, None => Some (None, None, view d c, [])
      | Some d, Some m => Some (Some (PlainError m), None, if a_lost a then view d c else c, [])
      end
  | Rollback _ =>
      match tx with
      | None => None
      | Some _ => Some (PlainError <$> a_fault a, None, c, [])
      end
  | Now => Some (ch_now ch, tx, c, [])
  | NewUUID => Some (ch_uuid ch, tx, c, [])
  | Output_ o => Some (tt, tx, c, [o])
  end.

(** The rows an effect writes: none, but for a statement. *)
Definition writes (ch : Choice) {R} (e : effect R) (tx : option Delta) (c : DB) : Delta :=
  match e with
  | Statement _ s =>
      let v := view (delta tx) c in
      changed v (respond (ch_answer ch) s v).2
  | _ => no_rows
  end.

(** Rows that no transaction but that of [t] stands in the way of. *)
Definition free (t : sid) (d : Delta) (l : gmap sid Delta) : Prop :=
  map_Forall (fun t' e => t' <> t -> apart d e) l.

#[global] Instance free_dec t d l : Decision (free t d l).
Proof. unfold free. apply _. Defined.

(** The rows a delta has, and those an effect locks: the rows it writes, and those of a
    SELECT ... FOR UPDATE. *)
Definition rows_of (d : Delta) : gset Row :=
  set_map BookingRow (dom (dl_bookings d)) ∪ set_map WaitlistRow (dom (dl_waitlist d)) ∪
  set_map ReservationRow (dom (dl_reservations d)).

Definition touches (ch : Choice) {R} (e : effect R) (tx : option Delta) (c : DB) : gset Row :=
  rows_of (writes ch e tx c) ∪
  match e with Statement locks _ => locks (view (delta tx) c) | _ => ∅ end.

(** Rows that no session but [t] has locked. *)
Definition unblocked (t : sid) (rows : gset Row) (l : gmap sid (gset Row)) : Prop :=
  map_Forall (fun t' rows' => t' <> t -> rows ## rows') l.

#[global] Instance unblocked_dec t rows l : Decision (unblocked t rows l).
Proof. unfold unblocked. apply _. Defined.

(** Locks are kept until the transaction ends; a statement outside of one keeps none. *)
Definition hold (t : sid) (tx : option Delta) (rows : gset Row) (l : gmap sid (gset Row))
    : gmap sid (gset Row) :=
  partial_alter (fun held => (fun _ => rows ∪ default ∅ held) <$> tx) t l.

(** One effect of the session [t]; [None] while it has to wait. *)
Definition advance (t : sid) (ch : Choice) (s : Server) : option Server :=
  let tx := sv_tx s !! t in
  match sv_prog s t with
  | Some (Do e k) =>
      let rows := touches ch e tx (sv_db s) in
      if decide (free t (writes ch e tx (sv_db s)) (sv_tx s) /\ unblocked t rows (sv_locks s)) then
        match exec ch e tx (sv_db s) with
        | Some (r, tx, c, o) =>
            Some {| sv_db := c; sv_tx := partial_alter (fun _ => tx) t (sv_tx s);
                    sv_locks := hold t tx rows (sv_locks s);
                    sv_prog := upd t (Some (k r)) (sv_prog s); sv_out := sv_out s ++ o |}
        | None => None
        end
      else None
  | _ => None
  end.

(** A request arrives; a session is over. *)
Definition arrive (t : sid) (p : prog (result unit)) (s : Server) : option Server :=
  match sv_prog s t with
  | None => Some {| sv_db := sv_db s; sv_tx := sv_tx s; sv_locks := sv_locks s;
                    sv_prog := upd t (Some p) (sv_prog s); sv_out := sv_out s |}
  | Some _ => None
  end.
Definition leave (t : sid) (s : Server) : Server :=
  {| sv_db := sv_db s; sv_tx := delete t (sv_tx s); sv_locks := delete t (sv_locks s);
     sv_prog := upd t None (sv_prog s); sv_out := sv_out s |}.

(** ** Interleavings *)

Section interleavings.
(** The programs that are run, and what is assumed of the environment. *)
Context (jobs : prog (result unit) -> Prop) (H : Assm).

Definition admissible (ch : Choice) : Prop :=
  ok_answer H (ch_answer ch) /\ ok_now H (ch_now ch) /\ ok_uuid H (ch_uuid ch).

Inductive cstep (s : Server) : Server -> Prop :=
| cs_arrive t p s' : jobs p -> arrive t p s = Some s' -> cstep s s'
| cs_advance t ch s' : admissible ch -> advance t ch s = Some s' -> cstep s s'
(** A query may have read the database [v] of another time, or of several; the rows it
    locks are those it found there. *)
| cs_read t R locks (f : DB -> R) k v :
    sv_prog s t = Some (Do (Statement locks (query f)) k) ->
    unblocked t (locks v) (sv_locks s) ->
    cstep s {| sv_db := sv_db s; sv_tx := sv_tx s;
               sv_locks := hold t (sv_tx s !! t) (locks v) (sv_locks s);
               sv_prog := upd t (Some (k (Ok (f v)))) (sv_prog s); sv_out := sv_out s |}
(** A session ends, with its request or because the connection is lost: what it has not
    committed is gone. *)
| cs_leave t : cstep s (leave t s).

Definition idle (c : DB) : Server :=
  {| sv_db := c; sv_tx := ∅; sv_locks := ∅; sv_prog := fun _ => None; sv_out := [] |}.

Inductive interleaving (c : DB) : Server -> Prop :=
| interleaving_start : interleaving c (idle c)
| interleaving_step s s' : interleaving c s -> cstep s s' -> interleaving c s'.
End interleavings.

(** ** A schedule that can be evaluated *)

Inductive Move :=
| Arrive (t : sid) (p : prog (result unit))
| Advance (t : sid) (ch : Choice)
| Leave (t : sid).

Definition move (m : Move) (s : Server) : option Server :=
  match m with
  | Arrive t p => arrive t p s
  | Advance t ch => advance t ch s
  | Leave t => Some (leave t s)
  end.

Fixpoint moves (l : list Move) (s : Server) : option Server :=
  match l with
  | [] => Some s
  | m :: l => match move m s with Some s => moves l s | None => None end
  end.

Definition allowed (jobs : prog (result unit) -> Prop) (H : Assm) (m : Move) : Prop :=
  match m with
  | Arrive _ p => jobs p
  | Advance _ ch => admissible H ch
  | Leave _ => True
  end.

Lemma move_cstep jobs H mv s s' : allowed jobs H mv -> move mv s = Some s' -> cstep jobs H s s'.
Proof.
  destruct mv as [t p|t ch|t]; simpl; intros Ha Hm; [by eapply cs_arrive|by eapply cs_advance|].
  injection Hm as <-. apply cs_leave.
Qed.

Lemma schedule_interleaving jobs H c l s s' :
  Forall (allowed jobs H) l -> interleaving jobs H c s -> moves l s = Some s' ->
  interleaving jobs H c s'.
Proof.
  intros Hl. revert s. induction Hl as [|m l Hm _ IH]; intros s Hs; simpl; [by intros [= <-]|].
  destruct (move m s) as [s1|] eqn:Hmove; [|done]. apply IH.
  apply (interleaving_step _ _ _ s); [done|]. by eapply move_cstep.
Qed.

(** ** Locks *)

(** Only open transactions hold locks. *)
Definition locks_inside (s : Server) : Prop :=
  forall t, sv_tx s !! t = None -> sv_locks s !! t = None.

Lemma hold_inside tx rows t (txs : gmap sid Delta) l :
  (forall t', txs !! t' = None -> l !! t' = None) ->
  forall t', partial_alter (fun _ => tx) t txs !! t' = None -> hold t tx rows l !! t' = None.
Proof.
  intros Hl t'. unfold hold. destruct (decide (t' = t)) as [->|Hne].
  - rewrite !lookup_partial_alter_eq. by intros ->.
  - rewrite !lookup_partial_alter_ne by done. apply Hl.
Qed.

Lemma cstep_inside jobs H s s' : locks_inside s -> cstep jobs H s s' -> locks_inside s'.
Proof.
  intros Hs [t p s1 _ Harr|t ch s1 _ Hadv|t R locks f k v _ _|t].
  - unfold arrive in Harr. destruct (sv_prog s t); [done|]. by injection Harr as <-.
  - unfold advance in Hadv. destruct (sv_prog s t) as [[a|R e k]|]; [done| |done].
    case_decide; [|done]. destruct (exec ch e _ _) as [[[[r tx] c] o]|]; [|done].
    injection Hadv as <-. intros t'. simpl. by apply hold_inside.
  - intros t'. simpl. rewrite <- (partial_alter_id (fun _ => sv_tx s !! t) (sv_tx s) t) at 1 by done.
    by apply hold_inside.
  - intros t'. unfold leave. cbn [sv_tx sv_locks].
    destruct (decide (t' = t)) as [->|Hne]; [by rewrite !lookup_delete_eq|].
    rewrite !lookup_delete_ne by done. apply Hs.
Qed.

Lemma interleaving_inside jobs H c s : interleaving jobs H c s -> locks_inside s.
Proof. induction 1 as [|s s' _ IH Hstep]; [by intros t|by eapply cstep_inside]. Qed.

(** Without transactions nobody is in the way. *)
Lemma waits_for t ch s {R} (e : effect R) k :
  locks_inside s -> sv_prog s t = Some (Do e k) ->
  is_Some (exec ch e (sv_tx s !! t) (sv_db s)) -> advance t ch s = None ->
  exists t', t' <> t /\ is_Some (sv_tx s !! t').
Proof.
  intros Hin Hp [[[[r tx] c] o] He] Hadv. unfold advance in Hadv. rewrite Hp, He in Hadv.
  case_decide as Hfree; [done|]. apply not_and_l in Hfree as [Hf|Hu].
  - apply map_not_Forall in Hf as (t' & d & Ht' & Hd); [|apply _].
    exists t'. split; [naive_solver|by eexists].
  - apply map_not_Forall in Hu as (t' & rows & Ht' & Hd); [|apply _].
    exists t'. split; [naive_solver|]. destruct (sv_tx s !! t') eqn:Htx; [by eexists|].
    by rewrite (Hin t' Htx) in Ht'.
Qed.

(** ** Rows of a view *)

Lemma view_nothing c : view no_rows c = c.
Proof. destruct c. unfold view. simpl. by rewrite !(left_id_L ∅ (∪)). Qed.

(** No row is ever deleted. *)
Definition extends {A B} (t : gmap uuid A) (t' : gmap uuid B) : Prop :=
  forall i, is_Some (t !! i) -> is_Some (t' !! i).

Lemma lookup_changed {A} `{EqDecision A} (t t' : gmap uuid A) i x :
  changed_rows t t' !! i = Some x <-> t' !! i = Some x /\ t !! i <> Some x.
Proof. apply map_lookup_filter_Some. Qed.

Lemma changed_over {A} `{EqDecision A} (d c t' : gmap uuid A) :
  extends (d ∪ c) t' -> (changed_rows (d ∪ c) t' ∪ d) ∪ c = t'.
Proof.
  intros Hext. apply map_eq. intros i. rewrite <- (assoc_L (∪)).
  destruct (changed_rows (d ∪ c) t' !! i) as [x|] eqn:Hx.
  - rewrite (lookup_union_Some_l _ _ _ _ Hx). by apply lookup_changed in Hx as [-> _].
  - rewrite lookup_union_r by done. destruct ((d ∪ c) !! i) as [y|] eqn:Hy.
    + destruct (Hext i (ex_intro _ y Hy)) as [z Hz]. rewrite Hz. destruct (decide (z = y)) as [->|Hne]; [done|].
      exfalso. assert (changed_rows (d ∪ c) t' !! i = Some z) as Hz'; [|congruence].
      apply lookup_changed. split; [done|]. rewrite Hy. congruence.
    + destruct (t' !! i) as [z|] eqn:Hz; [|done]. exfalso.
      assert (changed_rows (d ∪ c) t' !! i = Some z) as Hz'; [|congruence].
      apply lookup_changed. split; [done|]. by rewrite Hy.
Qed.
