(* ===== verification/Discipline.v ===== *)
(** * Discipline: the protocol the transactions follow

    [disciplined] types a program by the transaction it is in: outside of one, or inside one
    (with its handle and at most one waitlist entry claimed and not yet turned into a reservation).
    A reservation may be created from the claimed entry only, and a claimed entry is used
    at most once.  Every request, and every program over rooms, schedules, slots and users, is
    well typed; [Interleaving] shows what that buys. *)

From S2P Require Import Prelude Domain Database Program Postgres Schema Usecase Handover Invariant.
From S2P Require Import System Frame Concurrency.
From S2P Require Booking Waitlist Reservation.

(** ** What statements do to the rows *)

Definition entry_fine (e : WaitlistEntry) : Prop :=
  wl_Status e <> WaitlistStatusExpired /\
  (wl_Status e = WaitlistStatusActive -> wl_NotifiedAt e = None) /\
  (wl_Status e = WaitlistStatusNotified -> is_Some (wl_NotifiedAt e)).

(** An entry keeps its place, does not come back to the queue once it has left it, and stays
    cancelled. *)
Definition moves_on (e e' : WaitlistEntry) : Prop :=
  wl_SlotID e' = wl_SlotID e /\ wl_UserID e' = wl_UserID e /\ wl_Position e' = wl_Position e /\
  (e' = e \/ (wl_Status e' <> WaitlistStatusActive /\ entry_fine e' /\
             wl_Status e <> WaitlistStatusCancelled)).

(** A reservation goes back to the same entry, and changes once, when it is active. *)
Definition same_origin (r r' : SlotReservation) : Prop :=
  rs_SlotID r' = rs_SlotID r /\ rs_UserID r' = rs_UserID r /\
  rs_WaitlistEntryID r' = rs_WaitlistEntryID r /\ (stamped r -> stamped r') /\
  (r' = r \/ (rs_Status r = ReservationStatusActive /\ rs_Status r' <> ReservationStatusActive /\
              rs_ExpiresAt r' = rs_ExpiresAt r)).

(** A booking can be cancelled, and nothing else. *)
Definition same_booking (b b' : Booking) : Prop :=
  b' = b \/ (bk_Status b = BookingStatusActive /\ b' = BookingRepo.with_Status BookingStatusCancelled b).

#[export] Instance moves_on_preorder : PreOrder moves_on.
Proof.
  split; [intros e; split_and!; auto|].
  intros e1 e2 e3 (Hs1 & Hu1 & Hp1 & H1) (Hs2 & Hu2 & Hp2 & H2).
  split_and!; [congruence..|]. destruct H2 as [->|(? & ? & ?)]; [done|right].
  destruct H1 as [->|(? & ? & ?)]; by split_and!.
Qed.
#[export] Instance same_origin_preorder : PreOrder same_origin.
Proof.
  split; [intros r; split_and!; auto|]. intros r1 r2 r3 (Hs1 & Hu1 & He1 & Hst1 & H1) (Hs2 & Hu2 & He2 & Hst2 & H2).
  split_and!; [congruence..|auto|]. destruct H1 as [->|(? & ? & ?)]; [done|].
  destruct H2 as [->|(? & _)]; [by right|done].
Qed.
#[export] Instance same_booking_preorder : PreOrder same_booking.
Proof.
  split; [by left|]. intros b1 b2 b3 [->|[H1 ->]] [->|[H2 ->]]; first [by left|by right|done].
Qed.

Definition settings_of (db : DB) := (db_users db, db_rooms db, db_schedule_rows db, db_slots db).

(** A statement on bookings, waitlist and reservations that creates no reservation. *)
Record regular (v v' : DB) : Prop := {
  rg_settings : settings_of v' = settings_of v;
  rg_seq : (db_waitlist_seq v <= db_waitlist_seq v')%Z;
  rg_bookings : extends (db_bookings v) (db_bookings v');
  rg_booking : forall i b b', db_bookings v !! i = Some b -> db_bookings v' !! i = Some b' -> same_booking b b';
  rg_waitlist : extends (db_waitlist v) (db_waitlist v');
  rg_rows : extends (db_reservations v) (db_reservations v');
  rg_entries : forall i e', db_waitlist v' !! i = Some e' ->
    match db_waitlist v !! i with
    | Some e => moves_on e e'
    | None => entry_fine e' /\ (db_waitlist_seq v < wl_Position e' <= db_waitlist_seq v')%Z
    end;
  rg_reservations : forall i r', db_reservations v' !! i = Some r' ->
    exists r, db_reservations v !! i = Some r /\ same_origin r r' }.

Class Regular {R} (s : sql R) : Prop :=
  regularly : forall a v, schema v -> regular v (s a v).2.

Lemma regular_refl v : regular v v.
Proof.
  split; [done|lia|by intros i|by intros i b b' -> [= ->]; left|by intros i..| |].
  - intros i e' ->. reflexivity.
  - intros i r Hr. exists r. split; [done|reflexivity].
Qed.

Lemma extends_refl {A} (t : gmap uuid A) : extends t t.
Proof. by intros i. Qed.
Lemma extends_insert {A} (t : gmap uuid A) i x : extends t (<[i := x]> t).
Proof. intros j Hj. apply lookup_insert_is_Some'. by right. Qed.
#[export] Hint Resolve extends_refl extends_insert : svc.
#[export] Hint Extern 0 (_ ⊆ _) => reflexivity : svc.

(** Only the bookings change. *)
Lemma regular_bookings v i b' :
  (forall b, db_bookings v !! i = Some b -> same_booking b b') ->
  regular v (set_bookings (<[i := b']> (db_bookings v)) v).
Proof.
  intros Hb. destruct (regular_refl v). split; simpl; auto with svc.
  intros j x x' Hx [[<- <-]|[_ Hx']]%lookup_insert_Some; [by apply Hb|eauto].
Qed.

(** One entry moves on. *)
Lemma regular_entry v i e e' :
  db_waitlist v !! i = Some e -> moves_on e e' ->
  regular v (set_waitlist (<[i := e']> (db_waitlist v)) v).
Proof.
  intros Hi Hm. destruct (regular_refl v). split; simpl; auto with svc.
  intros j x Hx. apply lookup_insert_Some in Hx as [[<- <-]|[_ Hx]]; [by rewrite Hi|exact (rg_entries0 j x Hx)].
Qed.

(** One reservation changes. *)
Lemma regular_reservation v i r r' :
  db_reservations v !! i = Some r -> same_origin r r' ->
  regular v (set_reservations (<[i := r']> (db_reservations v)) v).
Proof.
  intros Hi Hm. destruct (regular_refl v). split; simpl; auto with svc.
  intros j x Hx. apply lookup_insert_Some in Hx as [[<- <-]|[_ Hx]]; eauto.
Qed.

#[export] Instance booking_insert_regular b : Regular (BookingRepo.insert b).
Proof.
  intros a v _. unfold BookingRepo.insert.
  repeat case_match; try apply regular_refl. apply regular_bookings. intros x Hx. exfalso.
  match goal with Hh : has (db_bookings v) _ = false |- _ =>
    apply bool_decide_eq_false in Hh; apply Hh; by exists x end.
Qed.
#[export] Instance booking_cancel_regular id : Regular (BookingRepo.update_cancelled id).
Proof.
  intros a v _. unfold BookingRepo.update_cancelled.
  destruct (db_bookings v !! id) as [b|] eqn:Hb; [|apply regular_refl].
  case_bool_decide; [|apply regular_refl]. apply regular_bookings. intros x Hx. simplify_eq. by right.
Qed.
#[export] Instance select_regular {R} (f : Answer -> DB -> R) : Regular (select f).
Proof. intros a v _. apply regular_refl. Qed.
#[export] Instance booking_page_regular l o : Regular (BookingRepo.page_of l o).
Proof. intros a v _. unfold BookingRepo.page_of. repeat case_match; apply regular_refl. Qed.

Lemma regular_new_entry v i e n :
  db_waitlist v !! i = None -> entry_fine e -> (db_waitlist_seq v < wl_Position e <= n)%Z ->
  regular v (set_waitlist (<[i := e]> (db_waitlist v)) (set_waitlist_seq n v)).
Proof.
  intros Hi He Hp. destruct (regular_refl v). split; simpl; auto with svc; [lia|].
  intros j x Hx. apply lookup_insert_Some in Hx as [[<- <-]|[_ Hx]]; [by rewrite Hi|].
  specialize (rg_entries0 j x Hx). case_match; [done|]. split; [tauto|lia].
Qed.

Lemma regular_seq v n : (db_waitlist_seq v <= n)%Z -> regular v (set_waitlist_seq n v).
Proof.
  intros Hn. destruct (regular_refl v). split; simpl; auto.
  intros i e' He'. specialize (rg_entries0 i e' He'). case_match; [done|]. split; [tauto|lia].
Qed.

Lemma waitlist_insert_regular e :
  wl_Status e = WaitlistStatusActive -> Regular (WaitlistRepo.insert e).
Proof.
  intros He a v _. unfold WaitlistRepo.insert. destruct (has _ (wl_ID e)) eqn:Hh.
  { apply regular_seq. lia. }
  repeat case_match; try (apply regular_seq; lia).
  apply (regular_new_entry v (wl_ID e)); simpl; [|by rewrite He|lia].
  unfold has in Hh. apply bool_decide_eq_false in Hh. by apply eq_None_not_Some.
Qed.

#[export] Instance waitlist_cancel_regular id u : Regular (WaitlistRepo.update_cancelled id u).
Proof.
  intros a v _. unfold WaitlistRepo.update_cancelled.
  destruct (db_waitlist v !! id) as [e|] eqn:He; [|apply regular_refl].
  case_match eqn:Hopen; [|apply regular_refl]. apply (regular_entry v id e); [done|].
  split_and!; try done. right. split; [done|]. split; [done|]. intros Hst. rewrite Hst in Hopen.
  by apply andb_true_iff in Hopen as [_ ?].
Qed.

#[export] Instance claim_regular slot : Regular (WaitlistRepo.claim_next slot).
Proof.
  intros a v Hs. unfold WaitlistRepo.claim_next.
  destruct (WaitlistRepo.next_entry _ _ _) as [e|] eqn:He; [|apply regular_refl].
  apply next_entry_Some in He as (He & _ & Hst & _); [|apply schema_waitlist, Hs].
  apply (regular_entry v (wl_ID e) e); [done|]. split_and!; try done. right.
  split; [done|]. split; [done|]. by rewrite Hst.
Qed.

(** The updates of a reservation, with their time stamps. *)
Lemma update_active_regular id upd :
  (forall r, rs_Status r = ReservationStatusActive -> same_origin r (upd r)) ->
  Regular (ReservationRepo.update_active id upd).
Proof.
  intros Hu a v _. unfold ReservationRepo.update_active.
  destruct (db_reservations v !! id) as [r|] eqn:Hr; [|apply regular_refl].
  case_bool_decide; [|apply regular_refl]. by apply (regular_reservation v id r); auto.
Qed.

Lemma confirm_origin now r : rs_Status r = ReservationStatusActive ->
  same_origin r (ReservationRepo.confirm now r).
Proof.
  intros Hr. split_and!; try done; [|by right]. intros [_ [_ He]]. split; split; simpl; intros; try done.
  specialize (He H). congruence.
Qed.
Lemma cancel_origin r : rs_Status r = ReservationStatusActive ->
  same_origin r (ReservationRepo.cancel r).
Proof.
  intros Hr. split_and!; try done; [|by right]. intros [[_ Hc] [_ He]]. split; split; simpl; intros Hx; try done.
  - specialize (Hc Hx). congruence.
  - specialize (He Hx). congruence.
Qed.
Lemma expire_origin now r : rs_Status r = ReservationStatusActive ->
  same_origin r (ReservationRepo.expire now r).
Proof.
  intros Hr. split_and!; try done; [|by right]. intros [[_ Hc] _]. split; split; simpl; intros Hx; try done.
  specialize (Hc Hx). congruence.
Qed.

#[export] Instance confirm_regular id now :
  Regular (ReservationRepo.update_active id (ReservationRepo.confirm now)).
Proof. apply update_active_regular. intros r. apply confirm_origin. Qed.
#[export] Instance cancel_regular id : Regular (ReservationRepo.update_active id ReservationRepo.cancel).
Proof. apply update_active_regular. intros r. apply cancel_origin. Qed.

#[export] Instance expire_regular now limit : Regular (ReservationRepo.expire_batch now limit).
Proof.
  intros a v Hs. unfold ReservationRepo.expire_batch. case_match; [apply regular_refl|]. simpl.
  set (l := ReservationRepo.picked _ _ _ _).
  assert (forall r, r ∈ l -> db_reservations v !! rs_ID r = Some r /\
    rs_Status r = ReservationStatusActive) as Hl.
  { intros r Hr. apply elem_of_picked in Hr as ([i Hi] & Ha & _). split; [|done].
    by rewrite (reservations_pkey _ _ _ _ (schema_reservations _ Hs) i r Hi). }
  clearbody l. destruct (regular_refl v). split; simpl; auto.
  - intros i Hi. induction l as [|x l IH]; simpl; [done|]. apply lookup_insert_is_Some'. right.
    apply IH. intros r Hr. apply Hl. by right.
  - intros i r' Hr'. induction l as [|x l IH]; simpl in Hr'; [eauto|].
    apply lookup_insert_Some in Hr' as [[<- <-]|[_ Hr']].
    + destruct (Hl x) as [Hx Ha]; [by left|]. exists x. split; [done|]. by apply expire_origin.
    + apply IH; [intros r Hr; apply Hl; by right|done].
Qed.

(** A statement on users, rooms, schedules or slots. *)
Class Catalogue {R} (s : sql R) : Prop := {
  #[global] cg_schema :: Preserves schema s;
  cg_grows :: Grows s;
  cg_occupancy :: Skips occupancy s;
  cg_seq : forall a v, db_waitlist_seq (s a v).2 = db_waitlist_seq v;
  cg_users : forall a v, extends (db_users v) (db_users (s a v).2);
  cg_rooms : forall a v, extends (db_rooms v) (db_rooms (s a v).2);
  cg_slots : forall a v, db_slots v ⊆ db_slots (s a v).2 }.

(** ** Typing *)

Inductive mode :=
| Outside
| Inside (tx : Tx) (mine : option WaitlistEntry).

(** After a statement that may have changed the claimed entry. *)
Definition forget (m : mode) : mode :=
  match m with
  | Outside => Outside
  | Inside tx _ => Inside tx None
  end.

(** [r] is the reservation that the claimed entry [e] gives. *)
Record gives (e : WaitlistEntry) (r : SlotReservation) : Prop := {
  gv_slot : rs_SlotID r = wl_SlotID e;
  gv_user : rs_UserID r = wl_UserID e;
  gv_entry : rs_WaitlistEntryID r = Some (wl_ID e);
  gv_status : rs_Status r = ReservationStatusActive;
  gv_confirmed : rs_ConfirmedAt r = None;
  gv_expired : rs_ExpiredAt r = None }.

(** [disciplined Q m p]: started in mode [m], [p] ends in a mode and with a result in [Q]. *)
Inductive disciplined {A} (Q : mode -> A -> Prop) : mode -> prog A -> Prop :=
| d_ret m a : Q m a -> disciplined Q m (Ret a)
| d_now m k : (forall t, disciplined Q m (k t)) -> disciplined Q m (Do Now k)
| d_uuid m k : (forall i, disciplined Q m (k i)) -> disciplined Q m (Do NewUUID k)
| d_output m o k : disciplined Q m (k tt) -> disciplined Q m (Do (Output_ o) k)
| d_query m R locks (f : DB -> R) k :
    (forall r, disciplined Q m (k r)) -> disciplined Q m (Do (Statement locks (query f)) k)
| d_regular m R (s : sql R) k :
    Regular s -> Preserves schema s -> (forall r, disciplined Q (forget m) (k r)) ->
    disciplined Q m (Do (Sql s) k)
| d_catalogue R (s : sql R) k :
    Catalogue s -> (forall r, disciplined Q Outside (k r)) -> disciplined Q Outside (Do (Sql s) k)
| d_claim tx mine slot k :
    (forall e, wl_SlotID e = slot -> disciplined Q (Inside tx (Some e)) (k (Ok (Some e)))) ->
    disciplined Q (Inside tx None) (k (Ok None)) ->
    (forall err, disciplined Q (Inside tx None) (k (Err err))) ->
    disciplined Q (Inside tx mine) (Do (Sql (WaitlistRepo.claim_next slot)) k)
| d_reserve tx e r k :
    gives e r -> (forall x, disciplined Q (Inside tx None) (k x)) ->
    disciplined Q (Inside tx (Some e)) (Do (Sql (ReservationRepo.insert r)) k)
| d_begin k :
    (forall tx, disciplined Q (Inside tx None) (k (Ok tx))) ->
    (forall err, disciplined Q Outside (k (Err err))) -> disciplined Q Outside (Do Begin k)
| d_commit mine tx k :
    (forall r, disciplined Q Outside (k r)) -> disciplined Q (Inside tx mine) (Do (Commit tx) k)
| d_rollback mine tx k :
    (forall r, disciplined Q Outside (k r)) -> disciplined Q (Inside tx mine) (Do (Rollback tx) k).

Lemma disciplined_bind {A B} (Q : mode -> B -> Prop) (Q' : mode -> A -> Prop) m (p : prog A) k :
  disciplined Q' m p -> (forall m' a, Q' m' a -> disciplined Q m' (k a)) ->
  disciplined Q m (bind p k).
Proof.
  intros Hp Hk. induction Hp; cbn [bind]; [by apply Hk|..].
  - by apply d_now.
  - by apply d_uuid.
  - by apply d_output.
  - by apply d_query.
  - by apply d_regular.
  - by apply d_catalogue.
  - by apply d_claim.
  - by apply d_reserve.
  - by apply d_begin.
  - by apply d_commit.
  - by apply d_rollback.
Qed.

(** A whole request; the body of the transaction [tx]. *)
Definition whole {A} : prog A -> Prop := disciplined (fun m _ => m = Outside) Outside.
Definition body {A} (tx : Tx) : prog A -> Prop :=
  disciplined (fun m _ => exists mine, m = Inside tx mine) (Inside tx None).

Lemma whole_bind {A B} (p : prog A) (k : A -> prog B) :
  whole p -> (forall a, whole (k a)) -> whole (bind p k).
Proof. intros Hp Hk. eapply disciplined_bind; [exact Hp|]. intros m a ->. apply Hk. Qed.

Lemma whole_tx {A} (fn : prog (result A)) : (forall tx, body tx fn) -> whole (WithinTransaction fn).
Proof.
  intros Hfn. unfold WithinTransaction. cbn [bind perform]. apply d_begin.
  - intros tx. eapply disciplined_bind; [exact (Hfn tx)|]. intros m r [mine ->]. destruct r.
    + cbn [bind perform]. apply d_commit. intros [err|]; by apply d_ret.
    + cbn [bind perform]. apply d_rollback. intros [err|]; by apply d_ret.
  - intros err. by apply d_ret.
Qed.

(** ** The requests *)

#[export] Hint Extern 1 (gives _ _) => (split; (reflexivity || assumption)) : svc.

(** Symbolic typing: [norm] exposes the next effect. *)
Ltac type_step :=
  norm;
  lazymatch goal with
  | |- disciplined _ _ (Ret _) => apply d_ret; first [done|by eexists]
  | |- disciplined _ _ (Do Now _) => apply d_now; intros ?now
  | |- disciplined _ _ (Do NewUUID _) => apply d_uuid; intros ?id
  | |- disciplined _ _ (Do (Output_ _) _) => apply d_output
  | |- disciplined _ _ (Do (Statement _ (query _)) _) => apply d_query; intros ?r
  | |- disciplined _ _ (Do (Sql (WaitlistRepo.claim_next _)) _) =>
      apply d_claim; [intros ?e ?He| |intros ?err]
  | |- disciplined _ _ (Do (Sql (ReservationRepo.insert _)) _) =>
      apply d_reserve; [by auto with svc|intros ?x]
  | |- disciplined _ _ (Do (Sql (WaitlistRepo.insert _)) _) =>
      apply d_regular; [by apply waitlist_insert_regular|apply _|intros ?r]; cbn [forget]
  | |- disciplined _ _ (Do (Sql _) _) => apply d_regular; [apply _|apply _|intros ?r]; cbn [forget]
  | |- disciplined _ _ (bind (publish ?p _) _) => destruct p
  | |- disciplined _ _ (bind (inc ?p _) _) => destruct p
  | |- context [match ?x with _ => _ end] => destruct x eqn:?
  end.

Ltac type_all := unfold whole, body; repeat type_step.

Lemma create_booking_tx_body tx s user slotID now :
  body tx (Booking.create_booking_tx s user slotID now).
Proof. unfold Booking.create_booking_tx. type_all. Qed.
Lemma cancel_booking_tx_body tx s user id : body tx (Booking.cancel_booking_tx s user id).
Proof. unfold Booking.cancel_booking_tx. type_all. Qed.
Lemma join_waitlist_tx_body tx user slotID : body tx (Waitlist.join_waitlist_tx user slotID).
Proof. unfold Waitlist.join_waitlist_tx. type_all. Qed.
Lemma leave_waitlist_tx_body tx user id : body tx (Waitlist.leave_waitlist_tx user id).
Proof. unfold Waitlist.leave_waitlist_tx. type_all. Qed.
Lemma confirm_reservation_tx_body tx user id now :
  body tx (Reservation.confirm_reservation_tx user id now).
Proof. unfold Reservation.confirm_reservation_tx. type_all. Qed.
Lemma cancel_reservation_tx_body tx s user id now :
  body tx (Reservation.cancel_reservation_tx s user id now).
Proof. unfold Reservation.cancel_reservation_tx. type_all. Qed.

Lemma expire_loop_body tx s now l v : body tx (Reservation.expire_loop s now l v).
Proof.
  unfold body. revert v. induction l as [|item l IH]; intros v; cbn [Reservation.expire_loop]; [type_all|].
  type_all; apply IH.
Qed.
Lemma expire_due_tx_body tx s now limit : body tx (Reservation.expire_due_tx s now limit).
Proof.
  unfold body, Reservation.expire_due_tx. type_step.
  destruct r; [|type_all]. norm.
  eapply disciplined_bind; [apply expire_loop_body|]. intros m r [mine ->]. destruct r; type_all.
Qed.

#[export] Hint Resolve create_booking_tx_body cancel_booking_tx_body join_waitlist_tx_body
  leave_waitlist_tx_body confirm_reservation_tx_body cancel_reservation_tx_body
  expire_due_tx_body : svc.

(** Programs outside of transactions. *)
Lemma whole_ret {A} (a : A) : whole (Ret a).
Proof. by apply d_ret. Qed.
Lemma whole_publish p ev : whole (publish p ev).
Proof. destruct p; unfold publish; type_all. Qed.
Lemma whole_inc m c : whole (inc m c).
Proof. destruct m; unfold inc; type_all. Qed.
Lemma whole_observe c : whole (observe c).
Proof. unfold observe. type_all. Qed.
Lemma whole_now : whole (perform Now).
Proof. type_all. Qed.
#[export] Hint Resolve whole_ret whole_publish whole_inc whole_observe whole_now : svc.

(** [whole] by the structure of the program. *)
Ltac wholly :=
  repeat first
    [ by auto with svc
    | apply whole_tx; intros ?; by auto with svc
    | apply whole_bind; [|intros ?]
    | progress cbv beta iota zeta delta [ok fail bind_ok answered on_err]
    | case_match ].

Lemma announce_expired_whole s v l : whole (Reservation.announce_expired s v l).
Proof. induction l; cbn [Reservation.announce_expired]; wholly. Qed.
Lemma announce_replacements_whole s l : whole (Reservation.announce_replacements s l).
Proof. induction l; cbn [Reservation.announce_replacements]; wholly. Qed.
#[export] Hint Resolve announce_expired_whole announce_replacements_whole : svc.

Lemma query_whole {R} (f : DB -> R) : whole (perform (Sql (query f))).
Proof. type_all. Qed.
Lemma regular_whole {R} (s : sql R) : Regular s -> Preserves schema s -> whole (perform (Sql s)).
Proof. intros. apply d_regular; [done..|]. intros r. by apply d_ret. Qed.
Lemma catalogue_whole {R} (s : sql R) : Catalogue s -> whole (perform (Sql s)).
Proof. intros. apply d_catalogue; [done|]. intros r. by apply d_ret. Qed.
#[export] Hint Resolve query_whole : svc.
#[export] Hint Extern 2 (whole (perform (Sql (select _)))) => (apply regular_whole; apply _) : svc.
#[export] Hint Extern 2 (whole (perform (Sql (BookingRepo.page_of _ _)))) =>
  (apply regular_whole; apply _) : svc.

Lemma CreateBooking_whole s user slotID link : whole (Booking.CreateBooking s user slotID link).
Proof. unfold Booking.CreateBooking. wholly. Qed.
Lemma CancelBooking_whole s user id : whole (Booking.CancelBooking s user id).
Proof. unfold Booking.CancelBooking. wholly. Qed.
Lemma ListBookings_whole user page pageSize : whole (Booking.ListBookings user page pageSize).
Proof. unfold Booking.ListBookings, BookingRepo.List. wholly. Qed.
Lemma ListMyBookings_whole user : whole (Booking.ListMyBookings user).
Proof. unfold Booking.ListMyBookings, BookingRepo.ListFutureByUser. wholly. Qed.
Lemma JoinWaitlist_whole user slotID : whole (Waitlist.JoinWaitlist user slotID).
Proof. unfold Waitlist.JoinWaitlist. wholly. Qed.
Lemma LeaveWaitlist_whole user id : whole (Waitlist.LeaveWaitlist user id).
Proof. unfold Waitlist.LeaveWaitlist. wholly. Qed.
Lemma ConfirmReservation_whole s user id : whole (Reservation.ConfirmReservation s user id).
Proof. unfold Reservation.ConfirmReservation. wholly. Qed.
Lemma CancelReservation_whole s user id : whole (Reservation.CancelReservation s user id).
Proof. unfold Reservation.CancelReservation. wholly. Qed.
Lemma ListMyActiveReservations_whole user : whole (Reservation.ListMyActiveReservations user).
Proof. unfold Reservation.ListMyActiveReservations, ReservationRepo.ListActiveByUser. wholly. Qed.
Lemma ExpireDue_whole s limit : whole (Reservation.ExpireDue s limit).
Proof. unfold Reservation.ExpireDue. wholly. Qed.
#[export] Hint Resolve CreateBooking_whole CancelBooking_whole ListBookings_whole
  ListMyBookings_whole JoinWaitlist_whole LeaveWaitlist_whole ConfirmReservation_whole
  CancelReservation_whole ListMyActiveReservations_whole ExpireDue_whole : svc.

Lemma serve_whole cfg req : whole (serve cfg req).
Proof. destruct req; unfold serve; wholly. Qed.
