(* ===== verification/Interleaving.v ===== *)
(** * Interleaving: what transactions that run at the same time cannot break

    [sound] is the invariant of [Concurrency.cstep] for disciplined programs: the committed
    database satisfies the constraints and [traced], so would the view of every open
    transaction, and no two transactions have written rows that exclude each other. *)

From S2P Require Import Prelude Domain Database Program Postgres Schema Usecase Handover Invariant.
From S2P Require Import System Frame Scenario Concurrency Discipline.

(** ** Tables under two deltas *)

Section merge.
Context {A : Type}.
Implicit Types (c d e : gmap uuid A) (clash : A -> A -> Prop).

(** The rows of [d] and [e] have different keys and do not exclude each other. *)
Definition compatible clash d e : Prop :=
  forall i j x y, d !! i = Some x -> e !! j = Some y -> i <> j /\ ~ clash x y /\ ~ clash y x.

Lemma compatible_sym clash d e : compatible clash d e -> compatible clash e d.
Proof. intros Hc i j x y Hx Hy. destruct (Hc j i y x Hy Hx) as (? & ? & ?). by split_and!. Qed.

Lemma compatible_weaken clash clash' d e :
  (forall x y, clash' x y -> clash x y) -> compatible clash d e -> compatible clash' d e.
Proof. intros Hw Hc i j x y Hx Hy. destruct (Hc i j x y Hx Hy) as (? & ? & ?). split_and!; auto. Qed.

Lemma compatible_keys clash d e i x : compatible clash d e -> d !! i = Some x -> e !! i = None.
Proof.
  intros Hc Hx. destruct (e !! i) as [y|] eqn:Hy; [|done]. by destruct (Hc i i x y Hx Hy) as [? _].
Qed.

(** Where a row under both deltas comes from. *)
Lemma lookup_merge clash c d e i x :
  compatible clash d e -> (e ∪ (d ∪ c)) !! i = Some x ->
  e !! i = Some x /\ (e ∪ c) !! i = Some x \/
  d !! i = Some x /\ (d ∪ c) !! i = Some x \/
  e !! i = None /\ d !! i = None /\ (e ∪ c) !! i = Some x /\ (d ∪ c) !! i = Some x.
Proof.
  intros Hc [He|[He [Hd|[Hd Hx]]%lookup_union_Some_raw]]%lookup_union_Some_raw.
  - left. split; [done|]. by apply lookup_union_Some_l.
  - right; left. split; [done|]. by apply lookup_union_Some_l.
  - right; right. split_and!; try done; apply lookup_union_Some_raw; by right.
Qed.

Lemma unique_merge clash c d e :
  unique_on clash (d ∪ c) -> unique_on clash (e ∪ c) -> compatible clash d e ->
  unique_on clash (e ∪ (d ∪ c)).
Proof.
  intros Hd He Hc i j x y Hx Hy Hcl.
  destruct (lookup_merge _ _ _ _ _ _ Hc Hx) as [[Hx1 Hx2]|[[Hx1 Hx2]|(? & ? & Hx1 & Hx2)]],
    (lookup_merge _ _ _ _ _ _ Hc Hy) as [[Hy1 Hy2]|[[Hy1 Hy2]|(? & ? & Hy1 & Hy2)]]; eauto.
  - by destruct (Hc j i y x Hy1 Hx1) as (_ & _ & Hn).
  - by destruct (Hc i j x y Hx1 Hy1) as (_ & Hn & _).
Qed.

(** What holds row by row. *)
Lemma rows_merge (Q : uuid -> A -> Prop) c d e :
  (forall i x, (d ∪ c) !! i = Some x -> Q i x) -> (forall i x, (e ∪ c) !! i = Some x -> Q i x) ->
  forall i x, (e ∪ (d ∪ c)) !! i = Some x -> Q i x.
Proof.
  intros Hd He i x [Hx|[_ Hx]]%lookup_union_Some_raw; [|by apply Hd].
  apply He. by apply lookup_union_Some_l.
Qed.

Lemma primary_merge (ID : A -> uuid) c d e :
  primary ID (d ∪ c) -> primary ID (e ∪ c) -> primary ID (e ∪ (d ∪ c)).
Proof. intros Hd He. exact (rows_merge (fun i x => ID x = i) c d e Hd He). Qed.

Lemma references_merge {B} (keys keys' keys'' : gmap uuid B) ref c d e :
  extends keys keys'' -> extends keys' keys'' ->
  references keys ref (d ∪ c) -> references keys' ref (e ∪ c) ->
  references keys'' ref (e ∪ (d ∪ c)).
Proof.
  intros Hk Hk' Hd He i x k Hx. revert i x Hx k.
  apply (rows_merge (fun i x => forall k, ref x = Some k -> is_Some (keys'' !! k))); intros i x Hx k Hr.
  - apply Hk. by apply (Hd i x).
  - apply Hk'. by apply (He i x).
Qed.

Lemma extends_union c d : extends c (d ∪ c).
Proof. intros i [x Hx]. rewrite lookup_union, Hx. by destruct (d !! i); eexists. Qed.
End merge.

(** ** Two transactions *)

Definition same_position (x y : WaitlistEntry) : Prop := wl_Position x = wl_Position y.

(** What no two open transactions have written. *)
Record separate (d e : Delta) : Prop := {
  sp_bookings : compatible same_active_booking (dl_bookings d) (dl_bookings e);
  sp_waitlist : compatible same_open_entry (dl_waitlist d) (dl_waitlist e);
  sp_positions : compatible same_position (dl_waitlist d) (dl_waitlist e);
  sp_reservations : compatible same_active_reservation (dl_reservations d) (dl_reservations e) }.

Lemma separate_sym d e : separate d e -> separate e d.
Proof. intros []. split; by apply compatible_sym. Qed.

Lemma schema_merge c d e :
  separate d e -> schema (view d c) -> schema (view e c) -> schema (view e (view d c)).
Proof.
  intros [Hb Hw Hp Hr] [U R SC S [B1 B2 B3 B4] [W1 W2 W3 W4 W5 W6] [R1 R2 R3 R4 R5]]
    [_ _ _ _ [B1' B2' B3' B4'] [W1' W2' W3' W4' W5' W6'] [R1' R2' R3' R4' R5']].
  constructor; try done; simpl in *.
  - constructor; [by apply primary_merge|by apply unique_merge|..];
      by eapply references_merge; try apply extends_refl.
  - constructor; [by apply primary_merge|by apply unique_merge|
      by eapply references_merge; try apply extends_refl|
      by eapply references_merge; try apply extends_refl| |by apply unique_merge].
    by apply rows_merge.
  - constructor; [by apply primary_merge|by apply unique_merge|
      by eapply references_merge; try apply extends_refl|
      by eapply references_merge; try apply extends_refl|].
    eapply references_merge; [| |exact R5|exact R5']; intros i Hi.
    + by apply extends_union.
    + apply lookup_union_is_Some in Hi as [Hi|Hi]; apply lookup_union_is_Some; [by left|right].
      apply lookup_union_is_Some. by right.
Qed.

(** ** Where reservations come from *)

Record traced (db : DB) : Prop := {
  tr_stems : forall j r, db_reservations db !! j = Some r -> stems_from (db_waitlist db) r;
  tr_once : unique_on (fun r r' => rs_WaitlistEntryID r = rs_WaitlistEntryID r') (db_reservations db);
  tr_stamped : forall j r, db_reservations db !! j = Some r -> stamped r;
  tr_entry : forall i e, db_waitlist db !! i = Some e -> entry_fine e }.

Lemma coherent_traced db : coherent db -> traced db.
Proof. intros []. split; try done. Qed.

(** An open transaction with delta [d] over the committed database [c]. *)
Record pending (c : DB) (d : Delta) : Prop := {
  pd_schema : schema (view d c);
  pd_traced : traced (view d c);
  pd_bookings : forall i b b', db_bookings c !! i = Some b -> dl_bookings d !! i = Some b' -> same_booking b b';
  pd_entries : forall i e e', db_waitlist c !! i = Some e -> dl_waitlist d !! i = Some e' -> moves_on e e';
  (** A new reservation stems from an entry that this transaction took from the queue. *)
  pd_reservations : forall j r', dl_reservations d !! j = Some r' ->
    (exists r, db_reservations c !! j = Some r /\ same_origin r r') \/
    (db_reservations c !! j = None /\ exists i e', rs_WaitlistEntryID r' = Some i /\
       dl_waitlist d !! i = Some e' /\ wl_Status e' <> WaitlistStatusActive /\
       forall e, db_waitlist c !! i = Some e -> wl_Status e = WaitlistStatusActive) }.

(** The reservations that [d] adds have entries that no reservation of [c] has. *)
Lemma stems_merge c d e r :
  separate d e -> pending c d -> pending c e ->
  stems_from (dl_waitlist d ∪ db_waitlist c) r -> stems_from (dl_waitlist e ∪ (dl_waitlist d ∪ db_waitlist c)) r.
Proof.
  intros Hs Hd He (i & x & Hi & Hx & Hslot & Huser & Hact). exists i.
  destruct (dl_waitlist e !! i) as [y|] eqn:Hy.
  - exists y. rewrite (lookup_union_Some_l _ _ _ _ Hy).
    apply lookup_union_Some_raw in Hx as [Hx|[_ Hx]].
    + by destruct (sp_waitlist _ _ Hs i i x y Hx Hy) as [? _].
    + destruct (pd_entries _ _ He i x y Hx Hy) as (? & ? & _ & [->|[? _]]); split_and!; congruence.
  - exists x. rewrite lookup_union_r by done. by split_and!.
Qed.

Lemma stems_merge' c d e r :
  separate d e -> pending c d -> pending c e ->
  stems_from (dl_waitlist e ∪ db_waitlist c) r -> stems_from (dl_waitlist e ∪ (dl_waitlist d ∪ db_waitlist c)) r.
Proof.
  intros Hs Hd He Hr. pose proof (stems_merge c e d r (separate_sym _ _ Hs) He Hd Hr) as Hm.
  rewrite (assoc_L (∪)), (map_union_comm (dl_waitlist e)), <- (assoc_L (∪)); [done|].
  apply map_disjoint_spec. intros i x y Hx Hy.
  by destruct (sp_waitlist _ _ Hs i i y x Hy Hx) as [? _].
Qed.

(** No entry of a reservation under [d] is the entry of one under [e]. *)
Lemma once_merge c d e i j x y :
  separate d e -> pending c d -> pending c e ->
  dl_reservations e !! i = Some x -> dl_reservations d !! j = Some y ->
  rs_WaitlistEntryID x = rs_WaitlistEntryID y -> i = j.
Proof.
  intros Hs Hd He Hx Hy Heq. exfalso.
  destruct (sp_reservations _ _ Hs j i y x Hy Hx) as [Hne _].
  assert (dl_reservations d !! i = None /\ dl_reservations e !! j = None) as [Hdi Hej].
  { pose proof (sp_reservations _ _ Hs) as Hc. split.
    - by eapply compatible_keys; [apply compatible_sym|].
    - by eapply compatible_keys. }
  destruct (pd_reservations _ _ He i x Hx) as [(r & Hr & _ & _ & Hre & _)|(_ & k & en & Hk & Hen & _)].
  - (* [x] replaces a committed reservation, which [d] sees *)
    apply Hne. symmetry. apply (tr_once _ (pd_traced _ _ Hd) i j r y); simpl; [|by apply lookup_union_Some_l|congruence].
    by rewrite lookup_union_r.
  - destruct (pd_reservations _ _ Hd j y Hy) as [(r & Hr & _ & _ & Hre & _)|(_ & l & el & Hl & Hel & _)].
    + apply Hne. symmetry. apply (tr_once _ (pd_traced _ _ He) i j x r); simpl; [by apply lookup_union_Some_l| |congruence].
      by rewrite lookup_union_r.
    + assert (l = k) as -> by congruence. by destruct (sp_waitlist _ _ Hs k k el en Hel Hen) as [? _].
Qed.

Lemma traced_merge c d e :
  separate d e -> pending c d -> pending c e -> traced (view e (view d c)).
Proof.
  intros Hs Hd He. pose proof (pd_traced _ _ Hd) as [D1 D2 D3 D4].
  pose proof (pd_traced _ _ He) as [E1 E2 E3 E4]. split; simpl in *.
  - apply rows_merge; intros j r Hr; [by eapply stems_merge; eauto|by eapply stems_merge'; eauto].
  - intros i j x y Hx Hy Heq. pose proof (sp_reservations _ _ Hs) as Hc.
    destruct (lookup_merge _ _ _ _ _ _ Hc Hx) as [[Hx1 Hx2]|[[Hx1 Hx2]|(? & ? & Hx1 & Hx2)]],
      (lookup_merge _ _ _ _ _ _ Hc Hy) as [[Hy1 Hy2]|[[Hy1 Hy2]|(? & ? & Hy1 & Hy2)]]; eauto.
    + by eapply (once_merge c d e).
    + symmetry. by eapply (once_merge c d e).
  - by apply rows_merge.
  - by apply rows_merge.
Qed.

(** ** COMMIT, as the other transactions see it *)

Lemma merge_absent {A} (d c : gmap uuid A) i : d !! i = None -> (d ∪ c) !! i = c !! i.
Proof. apply lookup_union_r. Qed.

Lemma pending_commit c d e : separate d e -> pending c d -> pending c e -> pending (view d c) e.
Proof.
  intros Hs Hd He.
  assert (forall i x, dl_waitlist e !! i = Some x -> dl_waitlist d !! i = None) as Hw
    by (intros i x; eapply compatible_keys, compatible_sym, Hs).
  assert (forall i x, dl_reservations e !! i = Some x -> dl_reservations d !! i = None) as Hr
    by (intros i x; eapply compatible_keys, compatible_sym, Hs).
  assert (forall i x, dl_bookings e !! i = Some x -> dl_bookings d !! i = None) as Hb
    by (intros i x; eapply compatible_keys, compatible_sym, Hs).
  split.
  - apply schema_merge; [done|apply Hd|apply He].
  - by apply traced_merge.
  - intros i x b' Hx Hb'. simpl in Hx. rewrite merge_absent in Hx by eauto. by eapply pd_bookings.
  - intros i x e' Hx He'. simpl in Hx. rewrite merge_absent in Hx by eauto. by eapply pd_entries.
  - intros j r' Hr'. simpl. rewrite merge_absent by eauto.
    destruct (pd_reservations _ _ He j r' Hr') as [?|(Hj & i & e' & Hi & He' & Hact & Hc)]; [by left|].
    right. split; [done|]. exists i, e'. split_and!; try done. intros x Hx.
    rewrite merge_absent in Hx by eauto. by apply Hc.
Qed.

(** The entry [w] is claimed by the transaction with delta [d], and not used yet. *)
Record holds (c : DB) (d : Delta) (w : WaitlistEntry) : Prop := {
  hd_entry : dl_waitlist d !! wl_ID w = Some w;
  hd_status : wl_Status w = WaitlistStatusNotified;
  hd_active : forall x, db_waitlist c !! wl_ID w = Some x -> wl_Status x = WaitlistStatusActive;
  hd_unused : forall j r, (dl_reservations d ∪ db_reservations c) !! j = Some r ->
    rs_WaitlistEntryID r <> Some (wl_ID w) }.

Lemma holds_commit c d e w : separate d e -> pending c d -> holds c e w -> holds (view d c) e w.
Proof.
  intros Hs Hd [H1 H2 H3 H4].
  assert (dl_waitlist d !! wl_ID w = None) as Hw by (eapply compatible_keys; [apply compatible_sym, Hs|done]).
  split; try done; simpl.
  - by rewrite merge_absent.
  - intros j r [Hr|[Hr [Hr'|[_ Hr']]%lookup_union_Some_raw]]%lookup_union_Some_raw Heq.
    + apply (H4 j r); [|done]. by apply lookup_union_Some_l.
    + destruct (pd_reservations _ _ Hd j r Hr') as [(r0 & Hr0 & _ & _ & Hentry & _)|(_ & i & x & Hi & Hx & _)].
      * apply (H4 j r0); [by rewrite lookup_union_r|congruence].
      * congruence.
    + apply (H4 j r); [by rewrite lookup_union_r|done].
Qed.

(** ** A statement of a transaction *)

(** The rows a statement may leave in the view of a transaction. *)
Record advances (c : DB) (d : Delta) (v' : DB) : Prop := {
  ad_settings : settings_of v' = settings_of c;
  ad_seq : (db_waitlist_seq c <= db_waitlist_seq v')%Z;
  ad_bookings : extends (dl_bookings d ∪ db_bookings c) (db_bookings v');
  ad_waitlist : extends (dl_waitlist d ∪ db_waitlist c) (db_waitlist v');
  ad_rows : extends (dl_reservations d ∪ db_reservations c) (db_reservations v');
  ad_booking : forall i b b', (dl_bookings d ∪ db_bookings c) !! i = Some b ->
    db_bookings v' !! i = Some b' -> same_booking b b';
  ad_entries : forall i e', db_waitlist v' !! i = Some e' ->
    match (dl_waitlist d ∪ db_waitlist c) !! i with
    | Some e => moves_on e e'
    | None => entry_fine e' /\ (db_waitlist_seq c < wl_Position e' <= db_waitlist_seq v')%Z
    end;
  ad_reservations : forall i r', db_reservations v' !! i = Some r' ->
    (exists r, (dl_reservations d ∪ db_reservations c) !! i = Some r /\ same_origin r r') \/
    ((dl_reservations d ∪ db_reservations c) !! i = None /\
     exists k e', rs_WaitlistEntryID r' = Some k /\ dl_waitlist d !! k = Some e' /\
       wl_Status e' <> WaitlistStatusActive /\
       forall e, db_waitlist c !! k = Some e -> wl_Status e = WaitlistStatusActive);
  ad_schema : schema v';
  ad_traced : traced v' }.

Lemma subseteq_extends {A} (t t' : gmap uuid A) : t ⊆ t' -> extends t t'.
Proof. intros Ht i [x Hx]. exists x. by eapply lookup_weaken. Qed.

(** What a statement on the catalogue may leave. *)
Record settles (c v' : DB) : Prop := {
  st_occupancy : occupancy v' = occupancy c;
  st_seq : db_waitlist_seq v' = db_waitlist_seq c;
  st_schema : schema v';
  st_users : extends (db_users c) (db_users v');
  st_slots : db_slots c ⊆ db_slots v' }.

Definition written (c : DB) (d : Delta) (v' : DB) : Delta := over (changed (view d c) v') d.

Section statement.
Context (c : DB) (d : Delta) (v' : DB) (Hd : pending c d) (Ha : advances c d v').
Local Abbreviation c' := (set_waitlist_seq (db_waitlist_seq v') c).

Lemma view_written : view (written c d v') c' = v'.
Proof.
  destruct Ha as [Hset _ Hb Hw Hr _ _ _ _ _]. injection Hset as H1 H2 H3 H4.
  destruct v' as [u r s sl b w rs q]. unfold view, written, over. simpl in *.
  by rewrite !changed_over, H1, H2, H3, H4 by done.
Qed.

(** A row of the new delta: one that has changed, or one of the old delta. *)
Lemma lookup_written {A} `{EqDecision A} (t t' d0 : gmap uuid A) i x :
  extends d0 t -> (forall y, d0 !! i = Some y -> t !! i = Some y) -> extends t t' ->
  (changed_rows t t' ∪ d0) !! i = Some x -> t' !! i = Some x.
Proof.
  intros Hdt Hsub Hext [Hx|[Hx Hd0]]%lookup_union_Some_raw; [by apply lookup_changed in Hx as [? _]|].
  specialize (Hsub x Hd0). destruct (Hext i (ex_intro _ x Hsub)) as [y Hy].
  destruct (decide (y = x)) as [->|Hne]; [done|]. exfalso.
  assert (changed_rows t t' !! i = Some y) as Hy'; [|congruence].
  apply lookup_changed. split; [done|]. congruence.
Qed.

Lemma written_booking i b :
  dl_bookings (written c d v') !! i = Some b -> db_bookings v' !! i = Some b.
Proof.
  apply lookup_written; [|by intros y; apply lookup_union_Some_l|apply Ha].
  intros j [x Hx]. exists x. by apply lookup_union_Some_l.
Qed.
Lemma written_entry i e : dl_waitlist (written c d v') !! i = Some e -> db_waitlist v' !! i = Some e.
Proof.
  apply lookup_written; [|by intros y; apply lookup_union_Some_l|apply Ha].
  intros j [x Hx]. exists x. by apply lookup_union_Some_l.
Qed.
Lemma written_reservation i r :
  dl_reservations (written c d v') !! i = Some r -> db_reservations v' !! i = Some r.
Proof.
  apply lookup_written; [|by intros y; apply lookup_union_Some_l|apply Ha].
  intros j [x Hx]. exists x. by apply lookup_union_Some_l.
Qed.

(** Entries that the transaction has taken stay taken. *)
Lemma entry_stays i e : dl_waitlist d !! i = Some e ->
  exists e', dl_waitlist (written c d v') !! i = Some e' /\ moves_on e e'.
Proof.
  intros He. simpl. assert ((dl_waitlist d ∪ db_waitlist c) !! i = Some e) as Hv by by apply lookup_union_Some_l.
  destruct (ad_waitlist _ _ _ Ha i (ex_intro _ e Hv)) as [e' He'].
  pose proof (ad_entries _ _ _ Ha i e' He') as Hm. rewrite Hv in Hm. exists e'. split; [|done].
  destruct (decide (e' = e)) as [->|Hne].
  - rewrite lookup_union_r; [done|].
    destruct (changed_rows _ _ !! i) as [x|] eqn:Hx; [|done]. apply lookup_changed in Hx as [? ?].
    simpl in *. congruence.
  - apply lookup_union_Some_l, lookup_changed. split; [done|]. simpl. congruence.
Qed.

Lemma pending_written : pending c' (written c d v').
Proof.
  split; try (rewrite view_written; apply Ha).
  - intros i b b' Hb Hb'%written_booking. simpl in Hb.
    pose proof (fun x Hx => ad_booking _ _ _ Ha i x b' Hx Hb') as Hm.
    destruct (dl_bookings d !! i) as [x|] eqn:Hx.
    + etrans; [by apply (pd_bookings _ _ Hd i b x)|]. apply Hm. by apply lookup_union_Some_l.
    + apply Hm. by rewrite lookup_union_r.
  - intros i e e' He He'%written_entry. simpl in He. pose proof (ad_entries _ _ _ Ha i e' He') as Hm.
    destruct (dl_waitlist d !! i) as [x|] eqn:Hx.
    + rewrite (lookup_union_Some_l _ _ _ _ Hx) in Hm.
      etrans; [by apply (pd_entries _ _ Hd i e x)|done].
    + by rewrite lookup_union_r, He in Hm.
  - intros j r' Hr'%written_reservation. simpl.
    destruct (ad_reservations _ _ _ Ha j r' Hr') as [(r & Hr & Ho)|(Hnone & k & e & Hk & He & Hst & Hc)].
    + apply lookup_union_Some_raw in Hr as [Hr|[_ Hr]]; [|by left; exists r].
      destruct (pd_reservations _ _ Hd j r Hr) as [(r0 & Hr0 & Ho0)|(Hj & i & e & Hi & He & Hst & Hc)].
      * left. exists r0. split; [done|]. by etrans.
      * right. split; [done|]. destruct (entry_stays i e He) as (e' & He' & Hm). exists i, e'.
        destruct Ho as (_ & _ & Hentry & _). split_and!; [congruence|done| |done].
        by destruct Hm as (_ & _ & _ & [->|[? _]]).
    + right. apply lookup_union_None in Hnone as [_ Hnone]. split; [done|].
      destruct (entry_stays k e He) as (e' & He' & Hm). exists k, e'. split_and!; try done.
      by destruct Hm as (_ & _ & _ & [->|[? _]]).
Qed.

(** The rows written stay apart from those of another transaction. *)
Lemma separate_written e :
  pending c e -> separate d e -> apart (changed (view d c) v') e -> separate (written c d v') e.
Proof.
  intros He Hs (Hb & Hw & Hr).
  assert (forall A (clash : A -> A -> Prop) t u u', (forall x y, clash x y -> clash y x) ->
    rows_apart clash t u -> compatible clash u' u -> compatible clash (t ∪ u') u) as Hunion.
  { intros A clash t u u' Hsym Ht Hu i j x y [Hx|[_ Hx]]%lookup_union_Some_raw Hy; [|by apply (Hu i j)].
    destruct (Ht i x Hx) as [Hi Hj]. specialize (Hj j y Hy).
    split_and!; [intros ->; congruence|done|auto]. }
  split.
  - apply Hunion; [|done|apply Hs]. intros x y (s & ? & ?). by exists s.
  - apply Hunion; [|done|apply Hs]. intros x y (s & u & ? & ?). by exists s, u.
  - intros i j x y Hx Hy. assert (db_waitlist v' !! i = Some x) as Hx' by by apply written_entry.
    pose proof (ad_entries _ _ _ Ha i x Hx') as Hm.
    assert (i <> j) as Hne.
    { intros ->. apply lookup_union_Some_raw in Hx as [Hx|[_ Hx]].
      - destruct (Hw j x Hx). congruence.
      - by destruct (sp_positions _ _ Hs j j x y Hx Hy). }
    assert (wl_Position x <> wl_Position y) as Hpos; [|by split_and!; [|intros ?|intros ?]].
    destruct (dl_waitlist d !! i) as [x0|] eqn:Hx0.
    + rewrite (lookup_union_Some_l _ _ _ _ Hx0) in Hm. destruct Hm as (_ & _ & -> & _).
      by destruct (sp_positions _ _ Hs i j x0 y Hx0 Hy) as (_ & Hn & _).
    + rewrite lookup_union_r in Hm by done.
      assert ((dl_waitlist e ∪ db_waitlist c) !! j = Some y) as Hy' by by apply lookup_union_Some_l.
      pose proof (schema_waitlist _ (pd_schema _ _ He)) as Hsch.
      destruct (db_waitlist c !! i) as [x0|] eqn:Hc0.
      * destruct Hm as (_ & _ & Hp & _). intros Heq. apply Hne.
        apply (waitlist_position_distinct _ _ _ _ Hsch i j x0 y); simpl; [|done|congruence].
        rewrite lookup_union_r; [done|]. destruct (dl_waitlist e !! i) as [z|] eqn:Hz; [|done].
        apply lookup_union_Some_raw in Hx as [Hx|[_ Hx]]; [|congruence].
        destruct (Hw i x Hx). congruence.
      * pose proof (waitlist_position_seq _ _ _ _ Hsch j y Hy') as Hle. simpl in Hle. lia.
  - apply Hunion; [|done|apply Hs]. intros x y (s & ? & ?). by exists s.
Qed.
End statement.

(** ** The statements of the discipline *)

Lemma regular_traced v v' : schema v' -> traced v -> regular v v' -> traced v'.
Proof.
  intros Hs [T1 T2 T3 T4] [_ _ _ _ Hw _ He Hr]. split.
  - intros j r' Hr'. destruct (Hr j r' Hr') as (r & Hj & Hslot & Huser & Hentry & _).
    destruct (T1 j r Hj) as (i & e & Hi & Hei & Hes & Heu & Hact).
    destruct (Hw i (ex_intro _ e Hei)) as [e' He']. pose proof (He i e' He') as Hm. rewrite Hei in Hm.
    destruct Hm as (Hm1 & Hm2 & _ & Hm4). exists i, e'.
    split_and!; try congruence. by destruct Hm4 as [->|[? _]].
  - intros i j x' y' Hx' Hy' Heq.
    destruct (Hr i x' Hx') as (x & Hx & _ & _ & Hxe & _), (Hr j y' Hy') as (y & Hy & _ & _ & Hye & _).
    apply (T2 i j x y); [done..|congruence].
  - intros j r' Hr'. destruct (Hr j r' Hr') as (r & Hj & _ & _ & _ & Hst & _). eauto.
  - intros i e' He'. pose proof (He i e' He') as Hm. destruct (db_waitlist v !! i) as [e|] eqn:Hi; [|by destruct Hm].
    destruct Hm as (_ & _ & _ & [->|(_ & ? & _)]); [by eapply T4|done].
Qed.

Lemma respond_regular {R} (s : sql R) `{!Regular s} a v : schema v -> regular v (respond a s v).2.
Proof.
  intros Hs. unfold respond. destruct (a_fault a); [destruct (a_lost a)|]; simpl;
    try apply regular_refl; by apply regularly.
Qed.

Lemma regular_advances {R} (s : sql R) `{!Regular s, !Preserves schema s} a c d :
  pending c d -> advances c d (respond a s (view d c)).2.
Proof.
  intros [Hs Ht _ _ _]. pose proof (respond_regular s a (view d c) Hs) as Hr.
  pose proof (respond_preserves schema s a (view d c) Hs) as Hs'.
  set (v' := (respond a s (view d c)).2) in *. clearbody v'. pose proof (regular_traced _ _ Hs' Ht Hr).
  destruct Hr as [Q1 Q2 Q3 QB Q4 Q5 Q6 Q7]. split; try done. intros i r' Hr'. left. by apply Q7.
Qed.

(** The insert of a reservation for an entry that is held. *)
Lemma reserve_advances a c d e r :
  pending c d -> holds c d e -> gives e r ->
  advances c d (respond a (ReservationRepo.insert r) (view d c)).2.
Proof.
  intros [Hs [T1 T2 T3 T4] _ _ _] [H1 H2 H3 H4] [G1 G2 G3 G4 G5 G6].
  pose proof (respond_preserves schema (ReservationRepo.insert r) a (view d c) Hs) as Hs'.
  assert ((respond a (ReservationRepo.insert r) (view d c)).2 = view d c \/
    (dl_reservations d ∪ db_reservations c) !! rs_ID r = None /\
    (respond a (ReservationRepo.insert r) (view d c)).2 =
      set_reservations (<[rs_ID r := r]> (db_reservations (view d c))) (view d c)) as Hcases.
  { unfold respond. destruct (reservation_insert_inv r a (view d c)) as [[err ->]|(-> & Hn & _)];
      simpl; destruct (a_fault a); simpl; try (by left); destruct (a_lost a); auto. }
  destruct (regular_refl (view d c)).
  destruct Hcases as [Heq|[Hnew Heq]]; rewrite Heq in *; split; simpl; auto with svc.
  - by split.
  - intros i x Hx. apply lookup_insert_Some in Hx as [[<- <-]|[_ Hx]].
    + right. split; [done|]. exists (wl_ID e), e. split_and!; try done. by rewrite H2.
    + left. exists x. split; [done|reflexivity].
  - split; simpl; try done.
    + intros j x Hx. apply lookup_insert_Some in Hx as [[<- <-]|[_ Hx]]; [|by eapply T1].
      exists (wl_ID e), e. split_and!; try done; [by apply lookup_union_Some_l|by rewrite H2].
    + apply unique_insert; [done|]. intros j y Hy _ Hor. apply (H4 j y Hy). rewrite <- G3.
      by destruct Hor.
    + intros j x Hx. apply lookup_insert_Some in Hx as [[<- <-]|[_ Hx]]; [|by eapply T3].
      split; rewrite ?G4, ?G5, ?G6; split; first [done|by intros []].
Qed.

(** What a claim that answers an entry has done. *)
Lemma claim_holds a c d slot e :
  pending c d -> (respond a (WaitlistRepo.claim_next slot) (view d c)).1 = Ok (Some e) ->
  let v' := (respond a (WaitlistRepo.claim_next slot) (view d c)).2 in
  wl_SlotID e = slot /\ holds (set_waitlist_seq (db_waitlist_seq v') c) (written c d v') e.
Proof.
  intros Hd. unfold respond. destruct (a_fault a); [done|]. unfold WaitlistRepo.claim_next.
  destruct (WaitlistRepo.next_entry _ _ _) as [x|] eqn:Hx; [|done]. cbn [fst snd]. intros [= <-].
  apply next_entry_Some in Hx as (Hx & Hslot & Hact & _); [|apply schema_waitlist, Hd].
  split; [done|]. simpl in Hx. split; try done.
  - simpl. apply lookup_union_Some_l, lookup_changed. rewrite lookup_insert_eq. split; [done|].
    rewrite Hx. intros [= Heq]. apply (f_equal wl_Status) in Heq. simpl in Heq. congruence.
  - simpl. intros y Hy. destruct (dl_waitlist d !! wl_ID x) as [z|] eqn:Hz.
    + rewrite (lookup_union_Some_l _ _ _ _ Hz) in Hx. injection Hx as ->.
      destruct (pd_entries _ _ Hd _ y x Hy Hz) as (_ & _ & _ & [->|[? _]]); congruence.
    + rewrite lookup_union_r in Hx by done. congruence.
  - simpl. intros j r Hr Heq.
    assert ((dl_reservations d ∪ db_reservations c) !! j = Some r) as Hr'.
    { apply lookup_union_Some_raw in Hr as [Hr|[Hn Hr]].
      - apply lookup_union_Some_raw in Hr as [Hr|[_ Hr]]; [by apply lookup_changed in Hr as [? _]|].
        by apply lookup_union_Some_l.
      - apply lookup_union_None in Hn as [_ Hn]. by rewrite lookup_union_r. }
    destruct (tr_stems _ (pd_traced _ _ Hd) j r Hr') as (i & y & Hi & Hy & _ & _ & Hna).
    simpl in Hy. congruence.
Qed.

(** ** The invariant *)

Definition mode_ok (c : DB) (tx : option Delta) (m : mode) : Prop :=
  match m, tx with
  | Outside, None => True
  | Inside _ mine, Some d => match mine with Some w => holds c d w | None => True end
  | _, _ => False
  end.

Definition typed : mode -> prog (result unit) -> Prop := disciplined (fun m _ => m = Outside).

Definition session_ok (c : DB) (tx : option Delta) (p : option (prog (result unit))) : Prop :=
  match p with
  | Some p => exists m, typed m p /\ mode_ok c tx m
  | None => tx = None
  end.

Record sound (s : Server) : Prop := {
  so_schema : schema (sv_db s);
  so_traced : traced (sv_db s);
  so_pending : forall t d, sv_tx s !! t = Some d -> pending (sv_db s) d;
  so_separate : forall t t' d e, t <> t' -> sv_tx s !! t = Some d -> sv_tx s !! t' = Some e -> separate d e;
  so_sessions : forall t, session_ok (sv_db s) (sv_tx s !! t) (sv_prog s t) }.

(** What a session [t] may make of a sound server: the committed database [c'], its
    transaction [tx'] and its program [p']. *)
Record evolved (s : Server) (t : sid) (c' : DB) (tx' : option Delta) (p' : option (prog (result unit)))
    : Prop := {
  ev_schema : schema c';
  ev_traced : traced c';
  ev_others : forall t' e, t' <> t -> sv_tx s !! t' = Some e ->
    pending c' e /\ forall w, holds (sv_db s) e w -> holds c' e w;
  ev_own : forall d', tx' = Some d' -> pending c' d' /\
    forall t' e, t' <> t -> sv_tx s !! t' = Some e -> separate d' e;
  ev_session : session_ok c' tx' p' }.

Lemma evolved_sound s t c' tx' p' locks out :
  sound s -> evolved s t c' tx' p' ->
  sound {| sv_db := c'; sv_tx := partial_alter (fun _ => tx') t (sv_tx s); sv_locks := locks;
           sv_prog := upd t p' (sv_prog s); sv_out := out |}.
Proof.
  intros [S1 S2 S3 S4 S5] [V1 V2 V3 V4 V5].
  assert (forall t' e, partial_alter (fun _ => tx') t (sv_tx s) !! t' = Some e ->
    t' = t /\ tx' = Some e \/ t' <> t /\ sv_tx s !! t' = Some e) as Hlook.
  { intros t' e. destruct (decide (t' = t)) as [->|Hne].
    - rewrite lookup_partial_alter_eq. auto.
    - rewrite lookup_partial_alter_ne by done. auto. }
  split; simpl; try done.
  - intros t' e [[-> He]|[Hne He]]%Hlook; [by apply V4|by apply (V3 t')].
  - intros t1 t2 d e Hne [[-> Hd]|[Hn1 Hd]]%Hlook [[-> He]|[Hn2 He]]%Hlook; [done|..].
    + by apply (proj2 (V4 d Hd) t2).
    + by apply separate_sym, (proj2 (V4 e He) t1).
    + by apply (S4 t1 t2).
  - intros t'. destruct (decide (t' = t)) as [->|Hne].
    + by rewrite lookup_partial_alter_eq, upd_eq.
    + rewrite lookup_partial_alter_ne, upd_ne by done. specialize (S5 t').
      destruct (sv_prog s t') as [p|]; [|done]. destruct S5 as (m & Hm & Hok). exists m. split; [done|].
      destruct m as [|tx [w|]], (sv_tx s !! t') as [e|] eqn:He; try done. by apply (proj2 (V3 t' e Hne He)).
Qed.

(** The committed database as a transaction that has not written anything. *)
Lemma pending_nothing c : schema c -> traced c -> pending c no_rows.
Proof.
  intros Hs Ht. split; try (rewrite view_nothing; done).
  - intros i b b' _ Hb. simpl in Hb. by rewrite lookup_empty in Hb.
  - intros i e e' _ He. simpl in He. by rewrite lookup_empty in He.
  - intros j r Hr. simpl in Hr. by rewrite lookup_empty in Hr.
Qed.

Lemma separate_nothing e : separate no_rows e.
Proof. split; intros i j x y Hx; simpl in Hx; by rewrite lookup_empty in Hx. Qed.

Section evolution.
Context (s : Server) (t : sid) (Hs : sound s).
Local Abbreviation c := (sv_db s).

Lemma free_apart d t' e : free t d (sv_tx s) -> t' <> t -> sv_tx s !! t' = Some e -> apart d e.
Proof. intros Hf Hne He. by apply (Hf t' e He). Qed.

(** The committed database and the transaction stay. *)
Lemma evolved_stay p' : session_ok c (sv_tx s !! t) p' -> evolved s t c (sv_tx s !! t) p'.
Proof.
  destruct Hs as [S1 S2 S3 S4 _]. intros Hp. split; try done.
  - intros t' e _ He. split; [by apply (S3 t')|done].
  - intros d' Hd. split; [by apply (S3 t)|]. intros t' e Hne He. by apply (S4 t t').
Qed.

(** The transaction is over, nothing is committed. *)
Lemma evolved_over p' : session_ok c None p' -> evolved s t c None p'.
Proof.
  destruct Hs as [S1 S2 S3 S4 _]. intros Hp. split; try done.
  intros t' e _ He. split; [by apply (S3 t')|done].
Qed.

Lemma evolved_begin p' : session_ok c (Some no_rows) p' -> evolved s t c (Some no_rows) p'.
Proof.
  destruct Hs as [S1 S2 S3 S4 _]. intros Hp. split; try done.
  - intros t' e _ He. split; [by apply (S3 t')|done].
  - intros d' [= <-]. split; [by apply pending_nothing|]. intros. apply separate_nothing.
Qed.

Lemma evolved_commit d p' : sv_tx s !! t = Some d -> session_ok (view d c) None p' ->
  evolved s t (view d c) None p'.
Proof.
  intros Hd Hp. destruct Hs as [S1 S2 S3 S4 _]. pose proof (S3 t d Hd) as Hpd.
  split; try done; [apply Hpd|apply Hpd|]. intros t' e Hne He.
  assert (separate d e) by by apply (S4 t t' d e). split; [by apply pending_commit; [| |apply (S3 t')]|].
  intros w. by apply holds_commit.
Qed.

(** A statement inside a transaction. *)
Lemma pending_seq n e : (db_waitlist_seq c <= n)%Z -> pending c e -> pending (set_waitlist_seq n c) e.
Proof.
  intros Hn [H1 H2 HB H3 H4]. split; try done.
  - exact (set_waitlist_seq_schema (view e c) n H1 Hn).
  - by destruct H2.
Qed.

Lemma holds_seq n e w : holds c e w -> holds (set_waitlist_seq n c) e w.
Proof. by intros []. Qed.

Lemma evolved_statement d v' p' :
  sv_tx s !! t = Some d -> advances c d v' -> free t (changed (view d c) v') (sv_tx s) ->
  session_ok (set_waitlist_seq (db_waitlist_seq v') c) (Some (written c d v')) p' ->
  evolved s t (set_waitlist_seq (db_waitlist_seq v') c) (Some (written c d v')) p'.
Proof.
  intros Hd Ha Hf Hp. destruct Hs as [S1 S2 S3 S4 _]. pose proof (S3 t d Hd) as Hpd.
  pose proof (ad_seq _ _ _ Ha) as Hn. split; try done.
  - by apply set_waitlist_seq_schema.
  - by destruct S2.
  - intros t' e _ He. split; [apply pending_seq; [done|by apply (S3 t')]|apply holds_seq].
  - intros d' [= <-]. split; [by apply pending_written|]. intros t' e Hne He.
    apply separate_written; [done|by apply (S3 t')|by apply (S4 t t')|by apply (free_apart _ t')].
Qed.

(** A statement outside of a transaction: it is committed at once. *)
Lemma evolved_autocommit v' p' :
  advances c no_rows v' -> free t (changed c v') (sv_tx s) -> session_ok v' None p' ->
  evolved s t v' None p'.
Proof.
  intros Ha Hf Hp. destruct Hs as [S1 S2 S3 S4 _].
  pose proof (pending_written c no_rows v' (pending_nothing c S1 S2) Ha) as Hw.
  pose proof (view_written c no_rows v' Ha) as Hv. pose proof (ad_seq _ _ _ Ha) as Hn.
  split; try done; [apply Ha|apply Ha|]. intros t' e Hne He.
  assert (separate (written c no_rows v') e) as Hsep.
  { apply separate_written; [done|by apply (S3 t')|apply separate_nothing|].
    rewrite view_nothing. by apply (free_apart _ t'). }
  assert (pending (set_waitlist_seq (db_waitlist_seq v') c) e) as Hpe
    by (apply pending_seq; [done|by apply (S3 t')]).
  rewrite <- Hv. split; [by apply pending_commit|]. intros w Hw'.
  by apply holds_commit, holds_seq.
Qed.

(** A statement on the catalogue. *)
Lemma evolved_catalogue v' p' : settles c v' -> session_ok v' None p' -> evolved s t v' None p'.
Proof.
  intros [Hocc Hseq Hsv Hu Hsl%subseteq_extends] Hp. injection Hocc as H1 H2 H3. destruct Hs as [S1 [T1 T2 T3 T4] S3 S4 _].
  assert (forall A (keys keys' : gmap uuid A) B (ref : B -> option uuid) u,
    extends keys keys' -> references keys ref u -> references keys' ref u) as Href.
  { intros A keys keys' B ref u Hk Hr i x k Hx Hi. apply Hk. by eapply Hr. }
  split; try done.
  - split; rewrite ?H2, ?H3; done.
  - intros t' e _ He. destruct (S3 t' e He) as [P1 [Q1 Q2 Q3 Q4] PB P3 P4].
    split; [|intros w [W1 W2 W3 W4]; split; rewrite ?H2, ?H3; done].
    split; [| |by rewrite H1|by rewrite H2|by rewrite H2, H3].
    + destruct Hsv as [V1 V2 V3 V4 _ _ _].
      destruct P1 as [_ _ _ _ [B1 B2 B3 B4] [W1 W2 W3 W4 W5 W6] [R1 R2 R3 R4 R5]].
      constructor; simpl in *; rewrite ?H1, ?H2, ?H3, ?Hseq; try done; constructor; eauto.
    + split; simpl in *; rewrite ?H2, ?H3; done.
Qed.
End evolution.

(** ** Every step keeps the invariant *)

(** What a statement that has been executed leaves. *)
Lemma exec_sql {R} ch locks (q : sql R) tx c r tx' c' o :
  exec ch (Statement locks q) tx c = Some (r, tx', c', o) ->
  let v := view (delta tx) c in
  r = (respond (ch_answer ch) q v).1 /\
  let v' := (respond (ch_answer ch) q v).2 in
  match tx with
  | Some d => tx' = Some (written c d v') /\ c' = set_waitlist_seq (db_waitlist_seq v') c
  | None => tx' = None /\ c' = v'
  end.
Proof. simpl. destruct (respond _ _ _) as [r0 v']. by destruct tx; intros [= <- <- <- <-]. Qed.

Lemma respond_query {R} (f : DB -> R) a v : (respond a (query f) v).2 = v.
Proof. unfold respond. by destruct (a_fault a); [destruct (a_lost a)|]. Qed.

Lemma written_nothing c d : written c d (view d c) = d.
Proof.
  assert (forall A `{EqDecision A} (u : gmap uuid A), changed_rows u u = ∅) as Hnil.
  { intros A ? u. apply map_eq. intros i. rewrite lookup_empty, eq_None_not_Some.
    intros [x [Hx Hn]%lookup_changed]. congruence. }
  destruct d as [b w r]. unfold written, over, changed. cbn [dl_bookings dl_waitlist dl_reservations].
  by rewrite !Hnil, !(left_id_L ∅ (∪)).
Qed.

(** What the typing says of the next effect [e] of a session in mode [m]. *)
Definition follows (m : mode) {R} (e : effect R) : (R -> prog (result unit)) -> Prop :=
  match e in effect R return (R -> prog (result unit)) -> Prop with
  | Statement _ q => fun k =>
      match m with
      | Outside =>
          (forall r, typed Outside (k r)) /\
          (forall a c, schema c -> traced c ->
             advances c no_rows (respond a q c).2 \/ settles c (respond a q c).2)
      | Inside tx _ => forall a c d, pending c d -> mode_ok c (Some d) m ->
          let x := respond a q (view d c) in
          advances c d x.2 /\
          exists mine, typed (Inside tx mine) (k x.1) /\
            mode_ok (set_waitlist_seq (db_waitlist_seq x.2) c) (Some (written c d x.2)) (Inside tx mine)
      end
  | Begin => fun k =>
      m = Outside /\ (forall tx, typed (Inside tx None) (k (Ok tx))) /\
      (forall err, typed Outside (k (Err err)))
  | Commit tx | Rollback tx => fun k =>
      (exists mine, m = Inside tx mine) /\ forall r, typed Outside (k r)
  | Now | NewUUID | Output_ _ => fun k => forall r, typed m (k r)
  end.

#[export] Instance query_regular {R} (f : DB -> R) : Regular (query f).
Proof. intros a v _. apply regular_refl. Qed.

(** A regular statement. *)
Lemma regular_follows {R} (q : sql R) k m :
  Regular q -> Preserves schema q -> (forall r, typed (forget m) (k r)) -> follows m (Sql q) k.
Proof.
  intros Hq Hpq Hk. destruct m as [|tx mine]; simpl.
  - split; [done|]. intros a c Hs Ht. left. rewrite <- (view_nothing c) at 2.
    by apply (regular_advances q), pending_nothing.
  - intros a c d Hd _. split; [by apply (regular_advances q)|]. by exists None.
Qed.

Lemma respond_catalogue {R} (q : sql R) `{!Catalogue q} a c : schema c -> settles c (respond a q c).2.
Proof.
  intros Hs.
  assert (forall (Q : DB -> Prop), Q c -> (forall a, Q (q a c).2) -> Q (respond a q c).2) as Hresp.
  { intros Q H1 H2. unfold respond. destruct (a_fault _); [destruct (a_lost _)|]; simpl; auto. }
  split.
  - by apply Hresp; [|intros a'; apply skips].
  - by apply Hresp; [|intros a'; apply cg_seq].
  - by apply Hresp; [|intros a'; apply preserves].
  - apply Hresp; [apply extends_refl|intros a'; apply cg_users].
  - apply Hresp; [done|intros a'; apply cg_slots].
Qed.

Lemma typed_follows m p :
  typed m p -> match p with Ret _ => True | Do e k => follows m e k end.
Proof.
  intros [m' a _|m' k Hk|m' k Hk|m' o k Hk|m' R locks f k Hk|m' R q k Hq Hpq Hk|R q k Hq Hk
    |tx mine slot k Hk1 Hk2 Hk3|tx w x k Hg Hk|k Hk1 Hk2|mine tx k Hk|mine tx k Hk]; try done.
  - by intros [].
  - (* query *)
    destruct m' as [|tx mine]; simpl.
    + split; [done|]. intros a c Hs Ht. left. rewrite <- (view_nothing c) at 2.
      by apply (regular_advances (query f)), pending_nothing.
    + intros a c d Hd Hm. split; [by apply (regular_advances (query f))|]. exists mine.
      split; [apply Hk|]. rewrite respond_query, written_nothing. by destruct c.
  - by apply regular_follows.
  - (* catalogue *)
    split; [done|]. intros a c Hs _. right. by apply respond_catalogue.
  - (* claim *)
    intros a c d Hd Hm. split; [by apply (regular_advances (WaitlistRepo.claim_next slot))|].
    pose proof (claim_holds a c d slot) as Hclaim.
    destruct (respond a (WaitlistRepo.claim_next slot) _) as [[[e|]|err] v'] eqn:Hr; cbn [fst snd] in *.
    + destruct (Hclaim e Hd eq_refl) as [Hslot Hh]. exists (Some e). split; [by apply Hk1|done].
    + by exists None.
    + exists None. split; [apply Hk3|done].
  - (* reservation *)
    intros a c d Hd Hm. split; [by apply (reserve_advances _ _ _ w)|]. exists None.
    split; [apply Hk|done].
  - by split; [eexists|].
  - by split; [eexists|].
Qed.

(** What a typed session does next. *)
Lemma typed_evolves s t m {R} (e : effect R) k ch r tx' c' o :
  sound s -> typed m (Do e k) -> mode_ok (sv_db s) (sv_tx s !! t) m ->
  free t (writes ch e (sv_tx s !! t) (sv_db s)) (sv_tx s) ->
  exec ch e (sv_tx s !! t) (sv_db s) = Some (r, tx', c', o) ->
  evolved s t c' tx' (Some (k r)).
Proof.
  intros Hs Hp Hm. pose proof Hs as [S1 S2 S3 _ _]. apply typed_follows in Hp.
  assert (forall c0 r0, (forall r, typed Outside (k r)) -> session_ok c0 None (Some (k r0))) as Hout
    by (intros; by exists Outside).
  destruct e as [R locks q| |tx|tx| | |x]; cbn [writes follows] in *; intros Hf He.
  - apply exec_sql in He as [-> He]. destruct m as [|tx mine], (sv_tx s !! t) as [d|] eqn:Hd; try done;
      destruct He as [-> ->]; cbn [delta default id] in *.
    + rewrite view_nothing in *. destruct Hp as [Hk Hv].
      destruct (Hv (ch_answer ch) _ S1 S2) as [Ha|Ha];
        [by apply evolved_autocommit, Hout|by apply evolved_catalogue, Hout].
    + destruct (Hp (ch_answer ch) _ d (S3 t d Hd) Hm) as [Ha Hnext].
      apply evolved_statement; [done..|]. destruct Hnext as (mine' & ? & ?). by exists (Inside tx mine').
  - (* begin *)
    destruct Hp as (-> & Hk1 & Hk2). destruct (sv_tx s !! t) as [d|] eqn:Hd; [done|]. simpl in He.
    destruct (a_fault (ch_answer ch)); injection He as <- <- <- <-.
    + apply evolved_over; [done|]. by exists Outside.
    + apply evolved_begin; [done|]. by eexists (Inside _ None).
  - (* commit *)
    destruct Hp as ((mine & ->) & Hk). destruct (sv_tx s !! t) as [d|] eqn:Hd; [|done]. simpl in He.
    destruct (a_fault (ch_answer ch)); [destruct (a_lost _)|]; injection He as <- <- <- <-;
      first [by apply evolved_over, Hout|by apply evolved_commit, Hout].
  - (* rollback *)
    destruct Hp as ((mine & ->) & Hk). destruct (sv_tx s !! t) as [d|] eqn:Hd; [|done]. simpl in He.
    injection He as <- <- <- <-. by apply evolved_over, Hout.
  - injection He as <- <- <- <-. apply evolved_stay; [done|]. by exists m.
  - injection He as <- <- <- <-. apply evolved_stay; [done|]. by exists m.
  - injection He as <- <- <- <-. apply evolved_stay; [done|]. by exists m.
Qed.

(** A typed session has ended its transaction when it is done, and never begins, commits or
    rolls back a transaction out of turn. *)
Lemma typed_done m r c tx : typed m (Ret r) -> mode_ok c tx m -> tx = None.
Proof. intros Hm. inversion Hm as [m' a Hq| | | | | | | | | | |]; subst. by destruct tx. Qed.

Lemma typed_exec m {R} (e : effect R) k ch tx c :
  typed m (Do e k) -> mode_ok c tx m -> is_Some (exec ch e tx c).
Proof.
  intros Hp Hm. apply typed_follows in Hp. destruct e as [R locks q| |tx0|tx0| | |x]; cbn [follows exec] in *; try by eexists.
  - destruct (respond _ _ _). by destruct tx; eexists.
  - destruct Hp as (-> & _). destruct tx; [done|]. by case_match; eexists.
  - destruct Hp as ((mine & ->) & _). destruct tx; [|done]. by case_match; eexists.
  - destruct Hp as ((mine & ->) & _). destruct tx; [|done]. by eexists.
Qed.

(** A claim is not a query: it changes the entry. *)
Lemma claim_no_query slot f : WaitlistRepo.claim_next slot <> query f.
Proof.
  intros Heq.
  set (x := {| wl_ID := 0; wl_SlotID := slot; wl_UserID := 0; wl_Position := 0;
    wl_Status := WaitlistStatusActive; wl_CreatedAt := 0; wl_NotifiedAt := None |}).
  set (db := set_waitlist {[ 0%N := x ]} db0).
  pose proof (f_equal (fun s => (s answer db).2) Heq) as Hdb.
  unfold WaitlistRepo.claim_next, query in Hdb.
  destruct (WaitlistRepo.next_entry _ _ _) as [e|] eqn:He; cbn [snd] in Hdb.
  - apply (f_equal (fun db => db_waitlist db !! wl_ID e)) in Hdb. cbn [db_waitlist set_waitlist] in Hdb.
    rewrite lookup_insert_eq in Hdb. symmetry in Hdb. subst db. cbn [db_waitlist set_waitlist] in Hdb.
    apply lookup_singleton_Some in Hdb as [_ Hx]. by apply (f_equal wl_Status) in Hx.
  - rewrite next_entry_None in He. specialize (He 0%N x (lookup_singleton_eq _ _) eq_refl eq_refl). set_solver.
Qed.

(** Whatever a query answers, the session stays typed. *)
Lemma typed_query m p :
  typed m p ->
  match p with
  | Ret _ => True
  | Do e k =>
      match e in effect R return (R -> prog (result unit)) -> Prop with
      | Statement _ s => fun k => forall f, s = query f -> forall r, typed m (k r) \/ typed (forget m) (k r)
      | _ => fun _ => True
      end k
  end.
Proof.
  unfold typed. intros []; try done; intros ? Heq ?; try solve [left; auto|right; auto].
  by apply claim_no_query in Heq.
Qed.

Lemma cstep_sound H s s' : sound s -> cstep whole H s s' -> sound s'.
Proof.
  intros Hs Hstep. pose proof (so_sessions _ Hs) as Hses.
  destruct Hstep as [t p s' Hp Harr|t ch s' _ Hadv|t R locks f k v Hp _|t]; specialize (Hses t).
  - unfold arrive in Harr. destruct (sv_prog s t) eqn:Hpt; [done|]. injection Harr as <-.
    simpl in Hses. rewrite <- (partial_alter_id (fun _ => None) (sv_tx s) t) by done.
    apply evolved_sound; [done|]. apply evolved_over; [done|]. by exists Outside.
  - unfold advance in Hadv. destruct (sv_prog s t) as [[a|R e k]|] eqn:Hpt; [done| |done].
    destruct Hses as (m & Hm & Hok). case_decide as Hf; [|done]. destruct Hf as [Hf _].
    destruct (exec ch e _ _) as [[[[r tx'] c'] o]|] eqn:He; [|done]. injection Hadv as <-.
    apply evolved_sound; [done|]. by eapply typed_evolves.
  - rewrite Hp in Hses. destruct Hses as (m & Hm & Hok).
    rewrite <- (partial_alter_id (fun _ => sv_tx s !! t) (sv_tx s) t) by done.
    apply evolved_sound; [done|]. apply evolved_stay; [done|].
    destruct (typed_query m _ Hm f eq_refl (Ok (f v))) as [Hk|Hk]; [by exists m|exists (forget m)].
    split; [done|]. by destruct m, (sv_tx s !! t).
  - unfold leave, delete, map_delete. apply evolved_sound; [done|]. by apply evolved_over.
Qed.

Lemma idle_sound c : schema c -> traced c -> sound (idle c).
Proof.
  intros Hs Ht. split; [done..| | |done]; [intros t d Hd|intros t t' d e _ Hd];
    simpl in Hd; by rewrite lookup_empty in Hd.
Qed.

Lemma interleaving_sound H c s : schema c -> traced c -> interleaving whole H c s -> sound s.
Proof.
  intros Hs Ht. induction 1 as [|s s' _ IH Hstep]; [by apply idle_sound|by eapply cstep_sound].
Qed.

(** The programs may be any that are well typed. *)
Lemma cstep_mono (jobs jobs' : prog (result unit) -> Prop) H s s' :
  (forall p, jobs p -> jobs' p) -> cstep jobs H s s' -> cstep jobs' H s s'.
Proof.
  intros Hj [t p s1 Hp Harr|t ch s1 Hch Hadv|t R locks f k v Hp Hu|t].
  - eapply cs_arrive; [by apply Hj|done].
  - by eapply cs_advance.
  - by eapply cs_read.
  - apply cs_leave.
Qed.

Lemma interleaving_mono (jobs jobs' : prog (result unit) -> Prop) H c s :
  (forall p, jobs p -> jobs' p) -> interleaving jobs H c s -> interleaving jobs' H c s.
Proof.
  intros Hj. induction 1 as [|s s' _ IH Hstep]; [apply interleaving_start|].
  apply (interleaving_step _ _ _ s); [done|]. by eapply cstep_mono.
Qed.
