(* ===== verification/Parallel.v ===== *)
(** * Parallel: the requests of a deployment, interleaved

    Every request, every tick of the expiration worker and every run of the slot generator is
    disciplined, so that [Interleaving] applies to the whole service: however the statements
    of its requests interleave, the database keeps its constraints and its reservations stay
    accounted for. *)

From Stdlib Require Import Ascii.
From S2P Require Import Prelude Domain GoStd Text Json Platform Database Program Postgres Schema Usecase.
From S2P Require Import Handover Invariant System Scenario Machine Safety Frame Auth Middleware Sessions Response.
From S2P Require Booking Waitlist Reservation Handlers.
From S2P Require Import SlotGen SlotGenSpec Rooms Schedules Calendar Http Deployment.
From S2P Require Import Concurrency Discipline Interleaving.

(** ** The statements on the catalogue *)

Ltac extend := intros ? ?; simpl; repeat case_match; simpl; auto with svc.

#[export] Instance user_insert_catalogue u : Catalogue (UserRepo.insert u).
Proof. split; try apply _; unfold UserRepo.insert; [by skip|extend..]. Qed.
#[export] Instance room_insert_catalogue r : Catalogue (RoomRepo.insert r).
Proof. split; try apply _; unfold RoomRepo.insert; [by skip|extend..]. Qed.

Section schedules.
Context (time_in : string -> option Duration) (time_out : Duration -> string).

#[export] Instance schedule_batch_catalogue l : Catalogue (insert_batch time_in time_out l).
Proof.
  split; try apply _; intros a v; destruct (batch_only_schedules time_in time_out l a v) as [t ->];
    auto with svc.
Qed.
End schedules.

Lemma set_slots_id db : db = set_slots (db_slots db) db.
Proof. by destruct db. Qed.

(** The rows of a batch of slots go to the table of slots. *)
Lemma slots_only_slots l db db' :
  SlotRepo.insert_rows l db = Ok db' ->
  exists t, db' = set_slots t db /\ db_slots db ⊆ t.
Proof.
  revert db. induction l as [|s l IH]; intros db; simpl.
  - intros [= <-]. eexists. by split; [apply set_slots_id|].
  - destruct (SlotRepo.insert_row s db) as [db1|] eqn:Hrow; [|done]. intros Hl.
    assert (exists t, db1 = set_slots t db /\ db_slots db ⊆ t) as (t1 & -> & H1).
    { unfold SlotRepo.insert_row, has in Hrow. repeat case_match; simplify_eq;
        eexists; (split; [first [apply set_slots_id|reflexivity]|]); [done|].
      apply insert_subseteq, eq_None_not_Some. by eapply bool_decide_eq_false_1. }
    destruct (IH _ Hl) as (t & -> & Ht). exists t. split; [done|]. by etrans.
Qed.

#[export] Instance slot_batch_catalogue l : Catalogue (SlotRepo.insert_batch l).
Proof.
  assert (forall a v, exists t, (SlotRepo.insert_batch l a v).2 = set_slots t v /\
    db_slots v ⊆ t) as Honly.
  { intros a v. unfold SlotRepo.insert_batch. destruct (SlotRepo.insert_rows l v) as [v'|] eqn:Hl.
    - by eapply slots_only_slots.
    - eexists. by split; [apply set_slots_id|]. }
  split; try apply _; intros a v; destruct (Honly a v) as (t & -> & Ht); auto with svc.
Qed.

(** ** The programs of the other use cases *)

Lemma whole_uuid : whole (perform NewUUID).
Proof. type_all. Qed.
#[export] Hint Resolve whole_uuid : svc.

Lemma make_schedules_whole roomID input t days : whole (make_schedules roomID input t days).
Proof. induction days; cbn [make_schedules]; wholly. Qed.
#[export] Hint Resolve make_schedules_whole : svc.
#[export] Hint Extern 2 (whole (perform (Sql (UserRepo.insert _)))) => (apply catalogue_whole; apply _) : svc.
#[export] Hint Extern 2 (whole (perform (Sql (RoomRepo.insert _)))) => (apply catalogue_whole; apply _) : svc.
#[export] Hint Extern 2 (whole (perform (Sql (insert_batch _ _ _)))) => (apply catalogue_whole; apply _) : svc.
#[export] Hint Extern 2 (whole (perform (Sql (SlotRepo.insert_batch _)))) => (apply catalogue_whole; apply _) : svc.

Lemma Register_whole P email password role : whole (Auth.Register P email password role).
Proof. unfold Auth.Register, UserRepo.GetByEmail, UserRepo.Create. wholly. Qed.
Lemma Login_whole P secret email password : whole (Auth.Login P secret email password).
Proof. unfold Auth.Login, Auth.Sign, UserRepo.GetByEmail. wholly. Qed.
Lemma DummyLogin_whole P secret role : whole (Auth.DummyLogin P secret role).
Proof. unfold Auth.DummyLogin, Auth.Sign. wholly. Qed.
Lemma ListRooms_whole user : whole (Rooms.ListRooms user).
Proof. unfold Rooms.ListRooms, RoomRepo.List. wholly. Qed.
Lemma CreateRoom_whole user input : whole (CreateRoom user input).
Proof. unfold CreateRoom, RoomRepo.Create. wholly. Qed.
Lemma CreateSchedule_whole time_in time_out pg_message user roomID input :
  whole (CreateSchedule time_in time_out pg_message user roomID input).
Proof. unfold CreateSchedule, CreateBatch, RoomRepo.GetByID, ScheduleRepo.ExistsByRoomID. wholly. Qed.
Lemma ListAvailableSlots_whole user room date : whole (Calendar.ListAvailableSlots user room date).
Proof. unfold Calendar.ListAvailableSlots, Calendar.validateAndNormalizeRequest,
    RoomRepo.GetByID, SlotRepo.ListAvailableByRoomAndDate, SlotRepo.ListAllByRoomAndDate. wholly. Qed.
Lemma ListRoomSlots_whole user room date : whole (Calendar.ListRoomSlots user room date).
Proof. unfold Calendar.ListRoomSlots, Calendar.validateAndNormalizeRequest,
    RoomRepo.GetByID, SlotRepo.ListAvailableByRoomAndDate, SlotRepo.ListAllByRoomAndDate. wholly. Qed.
#[export] Hint Resolve Register_whole Login_whole DummyLogin_whole ListRooms_whole CreateRoom_whole
  CreateSchedule_whole ListAvailableSlots_whole ListRoomSlots_whole : svc.

(** ** The slot generator *)

Section generator.
Context (NewSHA1 : uuid -> list ascii -> uuid) (g : Generator).

Lemma ctx_Err_whole : whole ctx_Err.
Proof. unfold ctx_Err. auto with svc. Qed.
Lemma flushBatch_whole batch : whole (flushBatch batch).
Proof. destruct batch; unfold flushBatch, SlotRepo.InsertBatchIgnoreConflicts; wholly. Qed.
#[local] Hint Resolve ctx_Err_whole flushBatch_whole : svc.
Lemma appendSlot_whole batch slot : whole (appendSlot g batch slot).
Proof. unfold appendSlot. wholly. Qed.
#[local] Hint Resolve appendSlot_whole : svc.
Lemma each_start_whole roomID lowerBound target createdAt batch starts :
  whole (each_start NewSHA1 g roomID lowerBound target createdAt batch starts).
Proof. revert batch. induction starts; intros batch; cbn [each_start]; wholly. Qed.
#[local] Hint Resolve each_start_whole : svc.
Lemma each_schedule_whole roomID day lowerBound target createdAt batch schedules :
  whole (each_schedule NewSHA1 g roomID day lowerBound target createdAt batch schedules).
Proof.
  revert batch. induction schedules; intros batch; cbn [each_schedule]; unfold generateForSchedule; wholly.
Qed.
#[local] Hint Resolve each_schedule_whole : svc.
Lemma each_day_whole roomID schedules lowerBound target createdAt batch ds :
  whole (each_day NewSHA1 g roomID schedules lowerBound target createdAt batch ds).
Proof. revert batch. induction ds; intros batch; cbn [each_day]; wholly. Qed.
#[local] Hint Resolve each_day_whole : svc.
Lemma each_room_whole schedByRoom now target rooms :
  whole (each_room NewSHA1 g schedByRoom now target rooms).
Proof.
  induction rooms; cbn [each_room]; unfold generateForRoom, SlotRepo.GetLastSlotStartByRoomID; wholly.
Qed.
#[local] Hint Resolve each_room_whole : svc.
Lemma Generate_whole : whole (Generate NewSHA1 g).
Proof. unfold Generate, RoomRepo.ListWithSchedule, ScheduleRepo.ListByRoomIDs. wholly. Qed.
End generator.

(** ** HTTP *)

Lemma respond_whole (p : prog (result Handlers.reply)) : whole p -> whole (Handlers.respond p).
Proof. intros Hp. unfold Handlers.respond. wholly. Qed.

Section http.
Context (P : Platform) (c : Wiring).

Lemma dispatch_whole ep user r : whole (dispatch P (router_deps P c) ep user r).
Proof.
  destruct ep;
    cbn [dispatch router_deps AuthUC RoomUC ScheduleUC SlotUC BookingUC WaitlistUC ReservationUC];
    unfold Handlers.Register, Handlers.Login, Handlers.DummyLogin, Handlers.ListRooms,
      Handlers.CreateRoom, Handlers.CreateSchedule, Handlers.ListAvailableSlots,
      Handlers.ListRoomSlots, Handlers.CreateBooking, Handlers.ListBookings,
      Handlers.ListMyBookings, Handlers.CancelBooking, Handlers.JoinWaitlist,
      Handlers.LeaveWaitlist, Handlers.ListMyActiveReservations, Handlers.ConfirmReservation,
      Handlers.CancelReservation, Handlers.with_user, Handlers.with_auth, Handlers.parsed,
      Handlers.write; try apply respond_whole; destruct user; simpl; wholly.
Qed.

Lemma authenticate_whole secret authorization : whole (AuthenticateRequest P secret authorization).
Proof. unfold AuthenticateRequest, AuthenticateToken, parseAndValidateToken. wholly. Qed.
#[local] Hint Resolve dispatch_whole authenticate_whole : svc.

Lemma ServeHTTP_whole ep r : whole (ServeHTTP P (router_deps P c) ep r).
Proof. unfold ServeHTTP, request_id, RequireUser. wholly. Qed.
End http.

(** ** The jobs of a deployment *)

Section jobs.
Context (P : Platform) (c : Wiring) (NewSHA1 : uuid -> list ascii -> uuid).

Inductive job : prog (result unit) -> Prop :=
| job_http ep r : job (let! _ := ServeHTTP P (router_deps P c) ep r in ok tt)
| job_serve req : job (serve (wi_settings c) req)
| job_generate g : job (Generate NewSHA1 g).

Lemma job_whole p : job p -> whole p.
Proof.
  intros [ep r|req|g]; [|apply serve_whole|apply Generate_whole].
  apply whole_bind; [apply ServeHTTP_whole|]. intros _. apply whole_ret.
Qed.

Lemma jobs_sound H db s : schema db -> traced db -> interleaving job H db s -> sound s.
Proof.
  intros Hs Ht Hi. eapply (interleaving_sound H); [exact Hs|exact Ht|].
  by eapply interleaving_mono; [exact job_whole|].
Qed.
End jobs.

(** C8. Type soundness: however requests of every kind, ticks and generator runs interleave, and
    whatever fails, no session goes wrong.  A session that is done, or whose connection is
    lost, holds no transaction and no lock; the next effect of every other session has a
    meaning in the state it finds: no transaction is begun inside another one, none is
    committed or rolled back that is not open.  A session that has to wait, for a row that was
    written or selected FOR UPDATE or for a unique index, waits for another request that is
    in the middle of its transaction and still has something to do: never for one that is
    over. *)
Theorem sessions_never_go_wrong P c NewSHA1 H db s t :
  schema db -> traced db -> interleaving (job P c NewSHA1) H db s ->
  match sv_prog s t with
  | None | Some (Ret _) => sv_tx s !! t = None /\ sv_locks s !! t = None
  | Some (Do e k) => forall ch,
      is_Some (exec ch e (sv_tx s !! t) (sv_db s)) /\
      (advance t ch s = None -> exists t' R (e' : effect R) k',
         t' <> t /\ is_Some (sv_tx s !! t') /\ sv_prog s t' = Some (Do e' k'))
  end.
Proof.
  intros Hs Ht Hi. pose proof (interleaving_inside _ _ _ _ Hi) as Hin.
  pose proof (so_sessions _ (jobs_sound P c NewSHA1 H db s Hs Ht Hi)) as Hses.
  assert (forall t', sv_prog s t' = None \/ (exists r, sv_prog s t' = Some (Ret r)) ->
    sv_tx s !! t' = None) as Hover.
  { intros t' Hp. specialize (Hses t'). destruct Hp as [Hp|[r Hp]]; rewrite Hp in Hses; [done|].
    destruct Hses as (m & Hm & Hok). by eapply typed_done. }
  destruct (sv_prog s t) as [[r|R e k]|] eqn:Hp.
  - assert (sv_tx s !! t = None) as Htx by eauto. auto.
  - intros ch. pose proof (Hses t) as Ht'. rewrite Hp in Ht'. destruct Ht' as (m & Hm & Hok).
    pose proof (typed_exec m e k ch _ (sv_db s) Hm Hok) as Hex. split; [done|]. intros Hwait.
    destruct (waits_for t ch s e k Hin Hp Hex Hwait) as (t' & Hne & [d Hd]). exists t'.
    destruct (sv_prog s t') as [[r'|R' e' k']|] eqn:Hp'; [|by exists R', e', k'; rewrite Hd; eauto|];
      rewrite Hover in Hd by eauto; done.
  - assert (sv_tx s !! t = None) as Htx by eauto. auto.
Qed.

(** C6. Any number of HTTP requests of every kind, use-case calls, ticks of the expiration
    worker and runs of the slot generator run at the same time; their statements interleave in
    any order that the server's row locks allow, reads may be stale, statements,
    commits and connections may fail at any point.  The committed database still satisfies
    every constraint and every transaction that is open could commit: no two active bookings
    are of overlapping slots of a room, and every reservation was made from a waitlist entry of
    its user and its slot that has left the queue and that no other reservation was made from. *)
Theorem constraints_survive_interleaving P c NewSHA1 H db s :
  schema db -> traced db -> interleaving (job P c NewSHA1) H db s ->
  (schema (sv_db s) /\ traced (sv_db s)) /\
  (forall t d, sv_tx s !! t = Some d -> schema (view d (sv_db s)) /\ traced (view d (sv_db s))) /\
  (forall i j b b' x x', db_bookings (sv_db s) !! i = Some b -> db_bookings (sv_db s) !! j = Some b' ->
     bk_Status b = BookingStatusActive -> bk_Status b' = BookingStatusActive -> i <> j ->
     db_slots (sv_db s) !! bk_SlotID b = Some x -> db_slots (sv_db s) !! bk_SlotID b' = Some x' ->
     sl_RoomID x = sl_RoomID x' ->
     (sl_EndTime x <= sl_StartTime x')%Z \/ (sl_EndTime x' <= sl_StartTime x)%Z) /\
  (forall j r, db_reservations (sv_db s) !! j = Some r -> exists i e,
     rs_WaitlistEntryID r = Some i /\ db_waitlist (sv_db s) !! i = Some e /\
     wl_SlotID e = rs_SlotID r /\ wl_UserID e = rs_UserID r /\ wl_Status e <> WaitlistStatusActive /\
     forall j' r', db_reservations (sv_db s) !! j' = Some r' -> rs_WaitlistEntryID r' = Some i -> j' = j).
Proof.
  intros Hs Ht Hi. destruct (jobs_sound P c NewSHA1 H db s Hs Ht Hi) as [S1 S2 S3 _ _].
  split_and!; [done..| | |].
  - intros t d Hd. destruct (S3 t d Hd). by split.
  - intros i j b b' x x' Hb Hb' Ha Ha' Hne Hx Hx' Hroom.
    destruct (decide (sl_EndTime x <= sl_StartTime x')%Z); [by left|].
    destruct (decide (sl_EndTime x' <= sl_StartTime x)%Z); [by right|]. destruct Hne.
    apply (uq_bookings_active_slot _ _ _ (schema_bookings _ S1) i j b b' Hb Hb'). exists (bk_SlotID b).
    split; [done|]. split; [|done]. symmetry.
    eapply (slots_no_overlap _ _ (schema_slots _ S1)); [done..|]. split; [done|]. lia.
  - intros j r Hr. destruct (tr_stems _ S2 j r Hr) as (i & e & He & Hi' & ?).
    exists i, e. split_and!; try tauto. intros j' r' Hr' He'.
    apply (tr_once _ S2 j' j r' r); [done..|]. congruence.
Qed.

(** ** Two requests that overlap *)

(** [n] effects of the session [t]. *)
Definition act (t : sid) (n : nat) (id : uuid) : list Move :=
  repeat (Advance t {| ch_answer := answer; ch_now := one_am; ch_uuid := id |}) n.

(** Alice has the morning slot, Bob and Carol queue for it.  Carol's booking request finds no
    reservation; then Alice's cancellation runs to its end and reserves the slot for Bob;
    then Carol's request goes on. *)
Definition overtaking : list Move :=
  Arrive 1 (serve settings (ReqCreateBooking carol 20 false)) :: act 1 4 2000 ++
  Arrive 2 (serve settings (ReqCancelBooking alice 1000)) :: act 2 14 3000 ++ act 1 5 2000.

Lemma overtaking_allowed P NewSHA1 : Forall (allowed (job P wiring_times NewSHA1) quiet) overtaking.
Proof.
  repeat (constructor; [first [by split_and!|by apply (job_serve _ wiring_times)]|]). constructor.
Qed.

(** The result of a session that is done. *)
Definition result_of (s : Server) (t : sid) : option (result unit) :=
  match sv_prog s t with
  | Some (Ret r) => Some r
  | _ => None
  end.

(** What a schedule leads to: the database, and the results of the sessions [ts]. *)
Definition ends (l : list Move) (ts : list sid) (db : DB) : option (DB * list (option (result unit))) :=
  match moves l (idle db) with
  | Some s => Some (sv_db s, map (result_of s) ts)
  | None => None
  end.

Lemma ends_interleaving jobs H l ts db db' rs :
  Forall (allowed jobs H) l -> ends l ts db = Some (db', rs) ->
  exists s, interleaving jobs H db s /\ sv_db s = db' /\ map (result_of s) ts = rs.
Proof.
  intros Hl. unfold ends. destruct (moves l (idle db)) as [s|] eqn:Hmoves; [|discriminate].
  apply (schedule_interleaving jobs H db) in Hmoves; [|exact Hl|apply interleaving_start].
  intros [= <- <-]. by exists s.
Qed.

(** A slot that is booked by one user and reserved for another. *)
Definition given_twice (db : DB) (slot : uuid) : Prop :=
  exists i j b r, db_bookings db !! i = Some b /\ db_reservations db !! j = Some r /\
    active_booking slot b /\ active_reservation slot r /\ bk_UserID b <> rs_UserID r.

(** Both requests succeed, and the slot is booked by Carol and reserved for Bob, who was
    before her in the queue: locking the reservations of the slot locks no row when there is
    none, and no constraint excludes the two. *)
Lemma booked_and_reserved P NewSHA1 :
  exists s, interleaving (job P wiring_times NewSHA1) quiet (w_db queued) s /\
    map (result_of s) [1; 2]%N = [Some (Ok tt); Some (Ok tt)] /\ given_twice (sv_db s) 20.
Proof.
  assert (exists db, ends overtaking [1; 2]%N (w_db queued) = Some (db, [Some (Ok tt); Some (Ok tt)]) /\
    given_twice db 20) as (db & Hends & Hdb).
  { eexists. split; [vm_compute; reflexivity|]. exists 2000%N, 3000%N.
    eexists _, _. split; [reflexivity|]. by split. }
  destruct (ends_interleaving _ _ _ _ _ _ _ (overtaking_allowed P NewSHA1) Hends) as (s & Hs & <- & Hr).
  exists s. split; [exact Hs|]. split; [exact Hr|exact Hdb].
Qed.

(** Alice cancels twice at the same time.  The first request has read that her booking is
    active; the second one cancels it, Carol books the slot, Bob queues for it; then the first
    request, for which the booking still was active, claims Bob's entry. *)
Definition booked : World := after env [ReqCreateBooking alice 20 false] start.

Definition double_cancel : list Move :=
  Arrive 1 (serve settings (ReqCancelBooking alice 1000)) :: act 1 2 0 ++
  Arrive 2 (serve settings (ReqCancelBooking alice 1000)) :: act 2 8 0 ++
  Arrive 3 (serve settings (ReqCreateBooking carol 20 false)) :: act 3 9 4000 ++
  Arrive 4 (serve settings (ReqJoinWaitlist bob 20)) :: act 4 9 4001 ++ act 1 13 5000.

Lemma double_cancel_allowed P NewSHA1 :
  Forall (allowed (job P wiring_times NewSHA1) quiet) double_cancel.
Proof.
  repeat (constructor; [first [by split_and!|by apply (job_serve _ wiring_times)]|]). constructor.
Qed.

(** All four requests succeed, and the slot that Carol has booked is reserved for Bob. *)
Lemma cancelled_twice P NewSHA1 :
  exists s, interleaving (job P wiring_times NewSHA1) quiet (w_db booked) s /\
    map (result_of s) [1; 2; 3; 4]%N = replicate 4 (Some (Ok tt)) /\ given_twice (sv_db s) 20.
Proof.
  assert (exists db, ends double_cancel [1; 2; 3; 4]%N (w_db booked) =
    Some (db, replicate 4 (Some (Ok tt))) /\ given_twice db 20) as (db & Hends & Hdb).
  { eexists. split; [vm_compute; reflexivity|]. exists 4000%N, 5000%N.
    eexists _, _. split; [reflexivity|]. by split. }
  destruct (ends_interleaving _ _ _ _ _ _ _ (double_cancel_allowed P NewSHA1) Hends) as (s & Hs & <- & Hr).
  exists s. split; [exact Hs|]. split; [exact Hr|exact Hdb].
Qed.

Lemma queued_traced : schema (w_db queued) /\ traced (w_db queued).
Proof.
  destruct (reachable_inv _ _ _ queued_reachable) as [Hs Hi]. split; [done|].
  apply coherent_traced, Hi.
Qed.

Lemma booking_traced : schema (w_db booked) /\ traced (w_db booked).
Proof.
  assert (reachable quiet settings booked) as Hb
    by (apply after_reachable; [apply env_quiet|]; apply reachable_start, start_fresh).
  destruct (reachable_inv _ _ _ Hb) as [Hs Hi]. split; [done|].
  apply coherent_traced, Hi.
Qed.

Lemma constraints_survive_interleaving_witness :
  exists s, interleaving (job sample wiring_times short_id) quiet (w_db queued) s /\
    given_twice (sv_db s) 20 /\ schema (sv_db s) /\ traced (sv_db s).
Proof.
  destruct (booked_and_reserved sample short_id) as (s & Hi & _ & Hs).
  exists s. split; [exact Hi|]. split; [exact Hs|].
  apply (constraints_survive_interleaving sample wiring_times short_id quiet (w_db queued) s).
  - apply queued_traced.
  - apply queued_traced.
  - exact Hi.
Defined.

(** Alice's cancellation has written her booking; Bob's request for the waitlist selects it
    FOR UPDATE. *)
Definition queueing : list Move :=
  Arrive 1 (serve settings (ReqCancelBooking alice 1000)) :: act 1 3 0 ++
  Arrive 2 (serve settings (ReqJoinWaitlist bob 20)) :: act 2 3 0.

Definition bob_waits : Server := default (idle db0) (moves queueing (idle (w_db booked))).

Lemma queueing_allowed P NewSHA1 : Forall (allowed (job P wiring_times NewSHA1) quiet) queueing.
Proof.
  repeat (constructor; [first [by split_and!|by apply (job_serve _ wiring_times)]|]). constructor.
Qed.

Lemma bob_waits_interleaving P NewSHA1 :
  interleaving (job P wiring_times NewSHA1) quiet (w_db booked) bob_waits.
Proof.
  unfold bob_waits. destruct (moves queueing _) as [s|] eqn:Hs; [|by vm_compute in Hs].
  exact (schedule_interleaving _ _ _ _ _ _ (queueing_allowed P NewSHA1)
    (interleaving_start _ _ _) Hs).
Qed.

(** Bob waits for Alice's request, which is not over. *)
Lemma sessions_never_go_wrong_witness :
  exists ch, advance 2 ch bob_waits = None /\ exists t R (e : effect R) k,
    t <> 2%N /\ is_Some (sv_tx bob_waits !! t) /\ sv_prog bob_waits t = Some (Do e k).
Proof.
  exists {| ch_answer := answer; ch_now := one_am; ch_uuid := 0 |}.
  assert (advance 2 {| ch_answer := answer; ch_now := one_am; ch_uuid := 0 |} bob_waits = None)
    as Hwait by by vm_compute.
  split; [exact Hwait|].
  pose proof (sessions_never_go_wrong sample wiring_times short_id quiet (w_db booked) bob_waits 2
    (proj1 booking_traced) (proj2 booking_traced) (bob_waits_interleaving sample short_id)) as Hok.
  destruct (sv_prog bob_waits 2%N) as [[r|R e k]|] eqn:Hp;
    [vm_compute in Hp; discriminate Hp| |vm_compute in Hp; discriminate Hp].
  exact (proj2 (Hok _) Hwait).
Defined.
