(* ===== verification/Serial.v ===== *)
(** * Serial: a request that is not interrupted

    Everything outside of [Concurrency] describes a request by [run], which serves it in one
    go.  Here: a session of [Concurrency] that no other session gets in between of does
    exactly what [run] says, and everything [run] says is done by such a session.  So what is
    proved of [run] holds of the interleavings that serve one request after the other. *)

From Stdlib Require Import Ascii.
From S2P Require Import Prelude Domain GoStd Platform Database Program Postgres Schema Usecase.
From S2P Require Import Handover Invariant System Scenario Deployment Http.
From S2P Require Import Concurrency Discipline Interleaving Parallel.

(** ** Environments and choices *)

(** The choices that [E] makes at [w]. *)
Definition choice (E : Env) (w : World) : Choice :=
  {| ch_answer := env_answer E (w_calls w); ch_now := env_now E (w_clock w);
     ch_uuid := env_uuid E (w_ids w) |}.

(** Environments that agree from [w] on. *)
Record agree (E E' : Env) (w : World) : Prop := {
  ag_answer : forall n, (w_calls w <= n)%nat -> env_answer E n = env_answer E' n;
  ag_now : forall n, (w_clock w <= n)%nat -> env_now E n = env_now E' n;
  ag_uuid : forall n, (w_ids w <= n)%nat -> env_uuid E n = env_uuid E' n }.

Lemma sem_counters E {R} (e : effect R) w :
  let w' := (sem E e w).2 in
  (w_calls w <= w_calls w')%nat /\ (w_clock w <= w_clock w')%nat /\ (w_ids w <= w_ids w')%nat.
Proof.
  destruct e; simpl; try (destruct (respond _ _ _)); try (destruct (a_fault _)); simpl; lia.
Qed.

Lemma sem_agree E E' {R} (e : effect R) w : choice E w = choice E' w -> sem E e w = sem E' e w.
Proof. unfold choice. intros [= Ha Hn Hu]. destruct e; simpl; by rewrite ?Ha, ?Hn, ?Hu. Qed.

Lemma run_agree E E' {A} (p : prog A) w : agree E E' w -> run E p w = run E' p w.
Proof.
  revert w. induction p as [a|R e k IH]; intros w Hag; simpl; [done|].
  rewrite (sem_agree E E') by (unfold choice; destruct Hag; f_equal; auto).
  pose proof (sem_counters E' e w) as Hc. destruct (sem E' e w) as [r w']. apply IH.
  destruct Hag. split; intros n Hn; simpl in Hc; auto with lia.
Qed.

(** [E] from [w] on, but for the choices [ch] at [w] that the effect [e] consumes. *)
Definition first {R} (e : effect R) (ch : Choice) (E : Env) (w : World) : Env :=
  match e with
  | Now => {| env_answer := env_answer E; env_uuid := env_uuid E;
              env_now n := if decide (n = w_clock w) then ch_now ch else env_now E n |}
  | NewUUID => {| env_answer := env_answer E; env_now := env_now E;
              env_uuid n := if decide (n = w_ids w) then ch_uuid ch else env_uuid E n |}
  | Output_ _ => E
  | _ => {| env_now := env_now E; env_uuid := env_uuid E;
            env_answer n := if decide (n = w_calls w) then ch_answer ch else env_answer E n |}
  end.

Lemma first_respects H {R} (e : effect R) ch E w :
  admissible H ch -> respects H E -> respects H (first e ch E w).
Proof.
  intros (Ha & Hn & Hu) []. destruct e; split; simpl; intros; repeat case_decide; auto.
Qed.

(** What the effect does is decided by the choices alone. *)
Definition fixed (ch : Choice) : Env :=
  {| env_answer _ := ch_answer ch; env_now _ := ch_now ch; env_uuid _ := ch_uuid ch |}.

Lemma sem_first {R} (e : effect R) ch E w : sem (first e ch E w) e w = sem (fixed ch) e w.
Proof. destruct e; simpl; rewrite ?decide_True by done; done. Qed.

Lemma first_agree {R} (e : effect R) ch E w : agree (first e ch E w) E (sem (fixed ch) e w).2.
Proof.
  destruct e; simpl; try (destruct (respond _ _ _)); try (destruct (a_fault _)); split; simpl;
    intros n Hn; try done; rewrite decide_False by lia; done.
Qed.

(** ** A session that is alone *)

(** The server [s], where only the session [t] has a transaction, in mode [m], is what [run]
    sees as the world [w]. *)
Record meets (t : sid) (s : Server) (m : mode) (w : World) : Prop := {
  mt_alone : forall t', t' <> t -> sv_tx s !! t' = None;
  mt_locks : locks_inside s;
  mt_out : sv_out s = w_out w;
  mt_mode : mode_ok (sv_db s) (sv_tx s !! t) m;
  mt_db : view (delta (sv_tx s !! t)) (sv_db s) = w_db w;
  mt_back : match m with
    | Outside => True
    | Inside tx _ => restore (tx_snapshot tx) (w_db w) = sv_db s
    end }.

Section session.
Context (t : sid).

Lemma free_alone s d : (forall t', t' <> t -> sv_tx s !! t' = None) -> free t d (sv_tx s).
Proof. intros Hal t' e He Hne. by rewrite Hal in He. Qed.

Lemma unblocked_alone s rows :
  (forall t', t' <> t -> sv_tx s !! t' = None) -> locks_inside s -> unblocked t rows (sv_locks s).
Proof. intros Hal Hin t' u Hu Hne. by rewrite Hin in Hu by by apply Hal. Qed.

(** An effect of the session, if [exec] gives it a meaning. *)
Lemma advance_alone s ch {R} (e : effect R) k r tx c o :
  (forall t', t' <> t -> sv_tx s !! t' = None) -> locks_inside s -> sv_prog s t = Some (Do e k) ->
  exec ch e (sv_tx s !! t) (sv_db s) = Some (r, tx, c, o) ->
  exists s', advance t ch s = Some s' /\ sv_prog s' t = Some (k r) /\
    sv_db s' = c /\ sv_tx s' !! t = tx /\ sv_out s' = sv_out s ++ o /\
    locks_inside s' /\ forall t', t' <> t -> sv_tx s' !! t' = None.
Proof.
  intros Hal Hin Hp He. unfold advance.
  rewrite Hp, decide_True by (split; [by apply free_alone|by apply unblocked_alone]). rewrite He.
  eexists. split; [done|]. simpl. rewrite upd_eq, lookup_partial_alter_eq. split_and!; try done.
  - intros t'. simpl. by apply hold_inside.
  - intros t' Hne. rewrite lookup_partial_alter_ne by done. by apply Hal.
Qed.

Lemma restore_seq n c c0 db : restore c0 db = c -> set_waitlist_seq n c0 = set_waitlist_seq n c.
Proof. intros <-. done. Qed.

(** A step of the session that agrees with the effect of [run]. *)
Lemma alone_next s m w ch {R} (e : effect R) k tx c o m' :
  sv_prog s t = Some (Do e k) -> meets t s m w ->
  let x := sem (fixed ch) e w in
  exec ch e (sv_tx s !! t) (sv_db s) = Some (x.1, tx, c, o) ->
  sv_out s ++ o = w_out x.2 -> typed m' (k x.1) -> mode_ok c tx m' ->
  view (delta tx) c = w_db x.2 ->
  match m' with Outside => True | Inside tx _ => restore (tx_snapshot tx) (w_db x.2) = c end ->
  exists s' m', advance t ch s = Some s' /\ sv_prog s' t = Some (k x.1) /\
    typed m' (k x.1) /\ meets t s' m' x.2.
Proof.
  intros Hp [Hal Hin _ _ _ _] x He Ho Hk Hm' Hdb' Hback'.
  destruct (advance_alone s ch e k _ tx c o Hal Hin Hp He)
    as (s' & Hadv & Hp' & Hc & Htx & Ho' & Hin' & Hal').
  exists s', m'. split_and!; try done. split; [done|done|congruence|by rewrite Htx, Hc|by rewrite Htx, Hc|].
  by rewrite Hc.
Qed.

Lemma alone_step s m w ch {R} (e : effect R) k :
  sound s -> sv_prog s t = Some (Do e k) -> typed m (Do e k) -> meets t s m w ->
  let x := sem (fixed ch) e w in
  exists s' m', advance t ch s = Some s' /\ sv_prog s' t = Some (k x.1) /\
    typed m' (k x.1) /\ meets t s' m' x.2.
Proof.
  intros Hs Hp Ht Hmeets x. pose proof (alone_next s m w ch e k) as Hnext. fold x in Hnext.
  pose proof Hmeets as [_ _ Hout Hm Hdb Hback]. apply typed_follows in Ht.
  specialize (fun tx c o m' => Hnext tx c o m' Hp Hmeets).
  subst x. destruct e as [R locks q| |tx|tx| | |o]; cbn [follows] in Ht.
  - (* statement *)
    simpl in Hnext. simpl. destruct m as [|tx mine], (sv_tx s !! t) as [d|] eqn:Hd; try done;
      cbn [delta default id] in *.
    + rewrite view_nothing in *. rewrite <- Hdb in *. destruct Ht as [Hk _].
      destruct (respond (ch_answer ch) q (sv_db s)) as [r v'] eqn:Hr. simpl in *.
      apply (Hnext None v' [] Outside); try done; [by rewrite app_nil_r|by rewrite view_nothing].
    + destruct (Ht (ch_answer ch) (sv_db s) d (so_pending s Hs t d Hd) Hm) as [Ha (mine' & Hk & Hm')].
      rewrite <- Hdb in *. destruct (respond (ch_answer ch) q (view d (sv_db s))) as [r v'] eqn:Hr. simpl in *.
      apply (Hnext (Some (written (sv_db s) d v')) (set_waitlist_seq (db_waitlist_seq v') (sv_db s)) []
        (Inside tx mine')); try done; [by rewrite app_nil_r|by apply view_written|by eapply restore_seq].
  - (* begin *)
    destruct Ht as (-> & Hk1 & Hk2). destruct (sv_tx s !! t) as [d|] eqn:Hd; [done|].
    cbn [delta default id] in *. rewrite view_nothing in Hdb. simpl in Hnext. simpl.
    destruct (a_fault (ch_answer ch)) as [msg|]; simpl in *; rewrite <- Hdb in *.
    + eapply (Hnext _ _ _ Outside); try done; [by rewrite app_nil_r|by rewrite view_nothing].
    + eapply (Hnext _ _ _ (Inside _ None)); try done;
        [by rewrite app_nil_r|by rewrite view_nothing|]. by destruct (sv_db s).
  - (* commit *)
    destruct Ht as ((mine & ->) & Hk). destruct (sv_tx s !! t) as [d|] eqn:Hd; [|done].
    cbn [delta default id] in *. simpl in Hnext. simpl.
    destruct (a_fault (ch_answer ch)) as [msg|]; [destruct (a_lost _)|]; simpl in *;
      (eapply (Hnext _ _ _ Outside); try done; [by rewrite app_nil_r|by rewrite view_nothing]).
  - (* rollback *)
    destruct Ht as ((mine & ->) & Hk). destruct (sv_tx s !! t) as [d|] eqn:Hd; [|done].
    cbn [delta default id] in *. simpl in Hnext. simpl.
    destruct (a_fault (ch_answer ch)) as [msg|]; simpl in *;
      (eapply (Hnext _ _ _ Outside); try done; [by rewrite app_nil_r|by rewrite view_nothing]).
  - eapply (Hnext _ _ _ m); try done. by rewrite app_nil_r.
  - eapply (Hnext _ _ _ m); try done. by rewrite app_nil_r.
  - eapply (Hnext _ _ _ m); try done. simpl. by rewrite Hout.
Qed.

(** Effects of the session, one after the other. *)
Definition advances (l : list Choice) : list Move := map (Advance t) l.

Lemma step_sound s ch s' : sound s -> advance t ch s = Some s' -> sound s'.
Proof.
  intros Hs Hadv. apply (cstep_sound anything s); [done|]. by apply (cs_advance _ _ _ t ch).
Qed.

Lemma typed_ret m a : typed m (Ret a) -> m = Outside.
Proof.
  intros Ht. by inversion Ht.
Qed.

(** What [run] says is done. *)
Lemma run_is_served H E p m s w :
  respects H E -> sound s -> sv_prog s t = Some p -> typed m p -> meets t s m w ->
  let x := run E p w in
  exists l s', Forall (admissible H) l /\ moves (advances l) s = Some s' /\
    sv_prog s' t = Some (Ret x.1) /\ meets t s' Outside x.2.
Proof.
  intros HE. revert m s w. induction p as [a|R e k IH]; intros m s w Hs Hp Ht Hm; simpl.
  - exists [], s. split; [constructor|]. apply typed_ret in Ht as ->. done.
  - destruct (alone_step s m w (choice E w) e k Hs Hp Ht Hm) as (s1 & m1 & Hadv & Hp1 & Ht1 & Hm1).
    rewrite (sem_agree (fixed (choice E w)) E) in * by done.
    destruct (sem E e w) as [r w1]. simpl in *.
    destruct (IH r m1 s1 w1) as (l & s' & Hl & Hmoves & Hend); [by eapply step_sound|done..|].
    exists (choice E w :: l), s'. split; [|split; [|done]].
    + constructor; [|done]. destruct HE. unfold admissible. simpl. auto.
    + simpl. by rewrite Hadv.
Qed.

(** What is done is what [run] says. *)
Lemma served_is_run H E0 p m s w l s' r :
  respects H E0 -> sound s -> sv_prog s t = Some p -> typed m p -> meets t s m w ->
  Forall (admissible H) l -> moves (advances l) s = Some s' -> sv_prog s' t = Some (Ret r) ->
  exists E, respects H E /\ (run E p w).1 = r /\ meets t s' Outside (run E p w).2.
Proof.
  intros HE0. revert m s w l. induction p as [a|R e k IH]; intros m s w l Hs Hp Ht Hm Hl Hmoves Hend.
  - exists E0. split; [done|]. apply typed_ret in Ht as ->. destruct l as [|ch l]; simpl in Hmoves.
    + by simplify_eq.
    + unfold advance in Hmoves. by rewrite Hp in Hmoves.
  - destruct l as [|ch l]; simpl in Hmoves; [simplify_eq; congruence|].
    apply Forall_cons_1 in Hl as [Hch Hl].
    destruct (alone_step s m w ch e k Hs Hp Ht Hm) as (s1 & m1 & Hadv & Hp1 & Ht1 & Hm1).
    rewrite Hadv in Hmoves.
    destruct (IH _ m1 s1 _ l (step_sound s ch s1 Hs Hadv) Hp1 Ht1 Hm1 Hl Hmoves Hend) as (E & HE & Hr & Hm').
    exists (first e ch E w). split; [by apply first_respects|].
    simpl. rewrite sem_first. pose proof (first_agree e ch E w) as Hag.
    destruct (sem (fixed ch) e w) as [r1 w1]. by rewrite (run_agree _ E).
Qed.
End session.

(** ** The two models agree *)

(** A server that does nothing, with its database and what it has put out. *)
Definition resting (db : DB) (out : list Output) : Server :=
  {| sv_db := db; sv_tx := ∅; sv_locks := ∅; sv_prog := fun _ => None; sv_out := out |}.

(** [p] is served from its arrival to its result [r], without another session in between. *)
Definition served_alone (H : Assm) (p : prog (result unit)) (db : DB) (out : list Output)
    (r : result unit) (db' : DB) (out' : list Output) : Prop :=
  exists t l s', Forall (admissible H) l /\
    moves (Arrive t p :: advances t l) (resting db out) = Some s' /\
    sv_prog s' t = Some (Ret r) /\ sv_tx s' = ∅ /\ sv_db s' = db' /\ sv_out s' = out'.

Definition runs_to (H : Assm) (p : prog (result unit)) (db : DB) (out : list Output)
    (r : result unit) (db' : DB) (out' : list Output) : Prop :=
  exists E w, respects H E /\ w_db w = db /\ w_out w = out /\
    let x := run E p w in x.1 = r /\ w_db x.2 = db' /\ w_out x.2 = out'.

(** The session [t] has just arrived. *)
Definition arrived (t : sid) (p : prog (result unit)) (db : DB) (out : list Output) : Server :=
  {| sv_db := db; sv_tx := ∅; sv_locks := ∅; sv_prog := upd t (Some p) (fun _ => None); sv_out := out |}.

Lemma arrived_sound t p db out : schema db -> traced db -> whole p -> sound (arrived t p db out).
Proof.
  intros Hs Ht Hp. destruct (idle_sound db Hs Ht) as [_ _ H3 H4 _]. split; try done.
  intros t'. simpl. destruct (decide (t' = t)) as [->|Hne].
  - rewrite upd_eq. by exists Outside.
  - by rewrite upd_ne.
Qed.

Lemma arrived_meets t p db out w :
  w_db w = db -> w_out w = out -> meets t (arrived t p db out) Outside w.
Proof. intros <- <-. split; try done. apply view_nothing. Qed.

Lemma meets_outside t s w :
  meets t s Outside w -> sv_tx s = ∅ /\ sv_db s = w_db w /\ sv_out s = w_out w.
Proof.
  intros [Hal _ Hout Hm Hdb _]. destruct (sv_tx s !! t) eqn:Ht; [done|].
  split_and!; [|by rewrite <- (view_nothing (sv_db s))|done].
  apply map_eq. intros t'. rewrite lookup_empty. destruct (decide (t' = t)) as [->|]; auto.
Qed.

(** A request, tick or generator run that no other session interrupts ends with exactly
    the results, databases and outputs that [run] gives it in some admissible environment:
    nothing more and nothing less.  The theorems about [run] are about the concurrent server
    when it serves one request after the other. *)
Theorem served_alone_is_run P c NewSHA1 H E0 p db out r db' out' :
  schema db -> traced db -> job P c NewSHA1 p -> respects H E0 ->
  served_alone H p db out r db' out' <-> runs_to H p db out r db' out'.
Proof.
  intros Hs Ht Hp HE0. apply job_whole in Hp. split.
  - intros (t & l & s' & Hl & Hmoves & Hr & _ & <- & <-).
    set (w := {| w_db := db; w_calls := 0; w_clock := 0; w_ids := 0; w_out := out |}).
    destruct (served_is_run t H E0 p Outside (arrived t p db out) w l s' r) as (E & HE & Hr' & Hm);
      [done|by apply arrived_sound|by apply upd_eq|done|by apply arrived_meets|done..|].
    apply meets_outside in Hm as (_ & Hdb & Hout). by exists E, w.
  - intros (E & w & HE & Hdb & Hout & <- & <- & <-).
    destruct (run_is_served 0 H E p Outside (arrived 0 p db out) w) as (l & s' & Hl & Hmoves & Hr & Hm);
      [done|by apply arrived_sound|by apply upd_eq|done|by apply arrived_meets|].
    apply meets_outside in Hm as (Htx & Hdb' & Hout'). by exists 0%N, l, s'.
Qed.

(** Alice's cancellation, as [run] has it, is served by a session. *)
Lemma cancellation_served_alone :
  served_alone quiet (serve settings (ReqCancelBooking alice 1000)) (w_db queued) (w_out queued)
    (Ok tt) (w_db offered) (w_out offered).
Proof.
  apply (served_alone_is_run sample wiring_times short_id quiet env _ (w_db queued) (w_out queued)
    (Ok tt) (w_db offered) (w_out offered)).
  - apply queued_traced.
  - apply queued_traced.
  - apply (job_serve _ wiring_times).
  - apply env_quiet.
  - exists env, queued. split; [apply env_quiet|]. split; [reflexivity|]. split; [reflexivity|].
    split; [by vm_compute|]. split; reflexivity.
Defined.
