(* ===== verification/Finality.v ===== *)
(** * Finality: what is decided stays decided

    In every interleaving of requests: a booking can only be cancelled, once; a waitlist entry
    that has left the queue does not come back, and stays cancelled once it is; a reservation
    leaves its active state at most once, so that none is both confirmed and expired, or
    confirmed and declined, however the requests and the worker race for it. *)

From Stdlib Require Import Ascii.
From S2P Require Import Prelude Domain GoStd Platform Database Program Postgres Schema Usecase.
From S2P Require Import Handover Invariant System Frame Scenario SlotGenSpec SlotGenSafety Http Deployment.
From S2P Require Import Concurrency Discipline Interleaving Parallel.

(** The committed database [c'] is what [c] may have become. *)
Record outlives (c c' : DB) : Prop := {
  ol_bookings : forall i b, db_bookings c !! i = Some b ->
    exists b', db_bookings c' !! i = Some b' /\ same_booking b b';
  ol_waitlist : forall i e, db_waitlist c !! i = Some e ->
    exists e', db_waitlist c' !! i = Some e' /\ moves_on e e';
  ol_reservations : forall i r, db_reservations c !! i = Some r ->
    exists r', db_reservations c' !! i = Some r' /\ same_origin r r';
  ol_slots : db_slots c ⊆ db_slots c' }.

#[export] Instance outlives_preorder : PreOrder outlives.
Proof.
  split; [intros c; split; [by intros i x Hx; exists x..|done]|].
  intros c1 c2 c3 [B1 W1 R1 S1] [B2 W2 R2 S2]. split; [..|by etrans]; intros i x Hx.
  - destruct (B1 i x Hx) as (y & Hy & Hxy), (B2 i y Hy) as (z & Hz & Hyz). exists z. split; [done|by etrans].
  - destruct (W1 i x Hx) as (y & Hy & Hxy), (W2 i y Hy) as (z & Hz & Hyz). exists z. split; [done|by etrans].
  - destruct (R1 i x Hx) as (y & Hy & Hxy), (R2 i y Hy) as (z & Hz & Hyz). exists z. split; [done|by etrans].
Qed.

(** Only the sequence, or only the catalogue, has moved. *)
Lemma same_rows_outlive c c' : occupancy c' = occupancy c -> db_slots c ⊆ db_slots c' -> outlives c c'.
Proof.
  intros Hocc Hs. injection Hocc as H1 H2 H3.
  split; rewrite ?H1, ?H2, ?H3; [by intros i x Hx; exists x..|done].
Qed.

(** COMMIT. *)
Lemma view_outlives c d : pending c d -> outlives c (view d c).
Proof.
  intros [_ _ Hb He Hr]. split; [..|done]; intros i x Hx; simpl.
  - destruct (dl_bookings d !! i) as [y|] eqn:Hy.
    + exists y. split; [by apply lookup_union_Some_l|eauto].
    + exists x. split; [by rewrite lookup_union_r|reflexivity].
  - destruct (dl_waitlist d !! i) as [y|] eqn:Hy.
    + exists y. split; [by apply lookup_union_Some_l|eauto].
    + exists x. split; [by rewrite lookup_union_r|reflexivity].
  - destruct (dl_reservations d !! i) as [y|] eqn:Hy.
    + exists y. split; [by apply lookup_union_Some_l|].
      destruct (Hr i y Hy) as [(r & Hr' & Ho)|[Hn _]]; congruence.
    + exists x. split; [by rewrite lookup_union_r|reflexivity].
Qed.

(** A statement outside of a transaction. *)
Lemma autocommit_outlives c v' : schema c -> traced c -> advances c no_rows v' -> outlives c v'.
Proof.
  intros Hs Ht Ha. pose proof (pending_written c no_rows v' (pending_nothing c Hs Ht) Ha) as Hw.
  rewrite <- (view_written c no_rows v' Ha). transitivity (set_waitlist_seq (db_waitlist_seq v') c).
  - by apply same_rows_outlive.
  - by apply view_outlives.
Qed.

Lemma settles_outlives c v' : settles c v' -> outlives c v'.
Proof. intros [Hocc _ _ _ Hs]. by apply same_rows_outlive. Qed.

(** ** One step *)

Lemma typed_outlives s t m {R} (e : effect R) k ch r tx' c' o :
  sound s -> typed m (Do e k) -> mode_ok (sv_db s) (sv_tx s !! t) m ->
  exec ch e (sv_tx s !! t) (sv_db s) = Some (r, tx', c', o) -> outlives (sv_db s) c'.
Proof.
  intros [S1 S2 S3 _ _] Hp Hm He. apply typed_follows in Hp.
  destruct e as [R q| |tx|tx| | |x]; cbn [follows] in Hp; try (injection He as <- <- <- <-; reflexivity).
  - apply exec_sql in He as [_ He]. destruct m as [|tx mine], (sv_tx s !! t) as [d|] eqn:Hd; try done;
      destruct He as [_ ->]; cbn [delta default id] in *.
    + rewrite view_nothing. destruct Hp as [_ Hv].
      destruct (Hv (ch_answer ch) _ S1 S2) as [Ha|Ha]; [by apply autocommit_outlives|by apply settles_outlives].
    + by apply same_rows_outlive.
  - destruct (sv_tx s !! t); [done|]. simpl in He.
    destruct (a_fault (ch_answer ch)); injection He as <- <- <- <-; reflexivity.
  - destruct (sv_tx s !! t) as [d|] eqn:Hd; [|done]. simpl in He. pose proof (view_outlives _ _ (S3 t d Hd)).
    destruct (a_fault (ch_answer ch)); [destruct (a_lost _)|]; injection He as <- <- <- <-; first [done|reflexivity].
  - destruct (sv_tx s !! t); [|done]. injection He as <- <- <- <-. reflexivity.
Qed.

Lemma cstep_outlives H s s' : sound s -> cstep whole H s s' -> outlives (sv_db s) (sv_db s').
Proof.
  intros Hs Hstep. pose proof (so_sessions _ Hs) as Hses.
  destruct Hstep as [t p s' Hp Harr|t ch s' _ Hadv|t R f k r Hp|t]; specialize (Hses t); try reflexivity.
  - unfold arrive in Harr. destruct (sv_prog s t); [done|]. injection Harr as <-. reflexivity.
  - unfold advance in Hadv. destruct (sv_prog s t) as [[a|R e k]|]; [done| |done].
    destruct Hses as (m & Hm & Hok). case_decide; [|done].
    destruct (exec ch e _ _) as [[[[r tx'] c'] o]|] eqn:He; [|done]. injection Hadv as <-.
    by eapply typed_outlives.
Qed.

(** ** Any number of steps *)

Section steps.
Context (jobs : prog (result unit) -> Prop) (H : Assm).

(** What the server [s] may become. *)
Inductive onwards (s : Server) : Server -> Prop :=
| onwards_refl : onwards s s
| onwards_step s1 s2 : onwards s s1 -> cstep jobs H s1 s2 -> onwards s s2.

Lemma onwards_interleaving c s s' : interleaving jobs H c s -> onwards s s' -> interleaving jobs H c s'.
Proof. intros Hs. induction 1 as [|s1 s2 _ IH Hstep]; [done|by eapply interleaving_step]. Qed.
End steps.

Lemma onwards_outlives P c NewSHA1 H db s s' :
  schema db -> traced db -> interleaving (job P c NewSHA1) H db s -> onwards (job P c NewSHA1) H s s' ->
  outlives (sv_db s) (sv_db s').
Proof.
  intros Hs Ht Hi. induction 1 as [|s1 s2 Hon IH Hstep]; [reflexivity|]. etrans; [exact IH|].
  apply (cstep_outlives H).
  - by eapply (jobs_sound P c NewSHA1 H db), onwards_interleaving.
  - by eapply cstep_mono; [apply job_whole|].
Qed.

(** C27. However requests of every kind, ticks and generator runs race with each other, what was
    committed once is only ever changed as the life of its row allows: a booking stays as it is
    or, if it was active, is cancelled; a waitlist entry keeps its slot, user and position, does
    not come back to the queue when it has left it, and does not change when it is cancelled; a
    reservation keeps its slot, user and entry, and does not change any more when it was
    confirmed, declined or has expired; a slot never changes. *)
Theorem decisions_are_final P c NewSHA1 H db s s' :
  schema db -> traced db ->
  interleaving (job P c NewSHA1) H db s -> onwards (job P c NewSHA1) H s s' ->
  (forall i b, db_bookings (sv_db s) !! i = Some b -> exists b', db_bookings (sv_db s') !! i = Some b' /\
     (b' = b \/ bk_Status b = BookingStatusActive /\ b' = BookingRepo.with_Status BookingStatusCancelled b)) /\
  (forall i e, db_waitlist (sv_db s) !! i = Some e -> exists e', db_waitlist (sv_db s') !! i = Some e' /\
     (wl_SlotID e' = wl_SlotID e /\ wl_UserID e' = wl_UserID e /\ wl_Position e' = wl_Position e) /\
     (wl_Status e <> WaitlistStatusActive -> wl_Status e' <> WaitlistStatusActive) /\
     (wl_Status e = WaitlistStatusCancelled -> e' = e)) /\
  (forall i r, db_reservations (sv_db s) !! i = Some r -> exists r', db_reservations (sv_db s') !! i = Some r' /\
     (rs_SlotID r' = rs_SlotID r /\ rs_UserID r' = rs_UserID r /\ rs_WaitlistEntryID r' = rs_WaitlistEntryID r) /\
     (rs_Status r <> ReservationStatusActive -> r' = r)) /\
  (forall i x, db_slots (sv_db s) !! i = Some x -> db_slots (sv_db s') !! i = Some x).
Proof.
  intros Hs Ht Hi Hon. destruct (onwards_outlives P c NewSHA1 H db s s' Hs Ht Hi Hon) as [Hb Hw Hr Hslots].
  split_and!; [exact Hb|..].
  - intros i e He. destruct (Hw i e He) as (e' & He' & H1 & H2 & H3 & H4). exists e'. split; [done|].
    split; [done|]. destruct H4 as [->|(Hna & _ & Hnc)]; [done|]. by split.
  - intros i r Hri. destruct (Hr i r Hri) as (r' & Hr' & H1 & H2 & H3 & _ & H4). exists r'. split; [done|].
    split; [done|]. by destruct H4 as [->|[? _]].
  - intros i x Hx. by eapply lookup_weaken.
Qed.

(** *** A race *)

(** Bob asks to confirm his reservation just before it expires; before the request has read
    it, a tick finds it overdue and offers the slot to Carol; then the request goes on. *)
Definition at_time (t : sid) (now : time) (n : nat) : list Move :=
  repeat (Advance t {| ch_answer := answer; ch_now := now; ch_uuid := 7000 |}) n.

Definition expiring : list Move :=
  Arrive 1 (serve settings (ReqConfirmReservation bob 1003)) :: at_time 1 (3899 * Second) 2 ++
  Arrive 2 (serve settings TickExpireDue) :: at_time 2 (3901 * Second) 15.
Definition confirming : list Move := at_time 1 (3901 * Second) 2.

Lemma expiring_allowed P NewSHA1 : Forall (allowed (job P wiring_times NewSHA1) anything) expiring.
Proof.
  repeat (constructor; [first [by split_and!|by apply (job_serve _ wiring_times)]|]). constructor.
Qed.
Lemma confirming_allowed P NewSHA1 : Forall (allowed (job P wiring_times NewSHA1) anything) confirming.
Proof.
  repeat (constructor; [first [by split_and!|by apply (job_serve _ wiring_times)]|]). constructor.
Qed.

Definition after_tick : Server := default (idle (w_db offered)) (moves expiring (idle (w_db offered))).
Definition after_request : Server := default after_tick (moves confirming after_tick).

Lemma race_runs :
  moves expiring (idle (w_db offered)) = Some after_tick /\ moves confirming after_tick = Some after_request.
Proof.
  assert ((if moves expiring (idle (w_db offered)) then true else false) = true) as H1 by by vm_compute.
  assert ((if moves confirming after_tick then true else false) = true) as H2 by by vm_compute.
  unfold after_request. destruct (moves confirming after_tick) as [s2|]; [|discriminate H2]. clear H2.
  split; [|reflexivity]. unfold after_tick. by destruct (moves expiring _).
Qed.

Lemma moves_onwards jobs H l s s' : Forall (allowed jobs H) l -> moves l s = Some s' -> onwards jobs H s s'.
Proof.
  intros Hl Hm. assert (forall s0, onwards jobs H s0 s -> onwards jobs H s0 s') as Hon; [|apply Hon, onwards_refl].
  revert s Hm. induction Hl as [|m l Ha _ IH]; intros s Hm s0 Hs; simpl in Hm; [by injection Hm as <-|].
  destruct (move m s) as [s1|] eqn:Hmove; [|discriminate Hm]. apply (IH s1 Hm).
  apply (onwards_step _ _ _ s); [done|]. by eapply move_cstep.
Qed.

Lemma offered_traced : schema (w_db offered) /\ traced (w_db offered).
Proof.
  destruct (reachable_inv _ _ _ offered_reachable) as [Hs Hi]. split; [done|]. apply coherent_traced, Hi.
Qed.

(** The reservation has expired, and it stays expired when the request goes on, which is told
    so. *)
Lemma decisions_are_final_witness :
  rs_Status <$> db_reservations (sv_db after_tick) !! 1003%N = Some ReservationStatusExpired /\
  (exists err, result_of after_request 1 = Some (Err err)) /\
  db_reservations (sv_db after_request) !! 1003%N = db_reservations (sv_db after_tick) !! 1003%N.
Proof.
  destruct race_runs as [H1 H2]. destruct offered_traced as [Hs Ht].
  destruct (decisions_are_final sample wiring_times short_id anything (w_db offered) after_tick after_request)
    as (_ & _ & Hr & _).
  - exact Hs.
  - exact Ht.
  - eapply schedule_interleaving; [apply expiring_allowed|apply interleaving_start|exact H1].
  - eapply moves_onwards; [apply confirming_allowed|exact H2].
  - assert (rs_Status <$> db_reservations (sv_db after_tick) !! 1003%N = Some ReservationStatusExpired) as Hst
      by by vm_compute.
    split; [exact Hst|]. split; [eexists; vm_compute; reflexivity|].
    destruct (db_reservations (sv_db after_tick) !! 1003%N) as [r|] eqn:Hri; [|discriminate Hst].
    destruct (Hr _ r Hri) as (r' & Hr' & _ & Heq). simpl in Hst. injection Hst as Hst.
    rewrite Hr', Heq; [reflexivity|]. rewrite Hst. discriminate.
Defined.
