(* ===== verification/HubGauges.v ===== *)
(** * HubGauges: what ws_connections_current and ws_subscriptions_current show

    A goroutine that changes a client adjusts the gauges in a later step, so that at some
    moments they are not the numbers they stand for.  [owes] says which adjustments a
    goroutine still has to make; a gauge and the debts of all goroutines together always add
    up to what is counted. *)

From Stdlib Require Import Ascii.
From S2P Require Import Prelude Domain GoStd Text Json Dates Platform Database Program Realtime Hub.
From S2P Require Import HubSafety.

(** ** Sums over maps *)

Definition total {A} (f : A -> Z) (m : gmap N A) : Z := map_fold (fun _ x z => (f x + z)%Z) 0%Z m.

Section total.
Context {A : Type} (f : A -> Z).

Lemma total_empty : total f ∅ = 0%Z.
Proof. apply map_fold_empty. Qed.

Lemma total_insert m i x : m !! i = None -> total f (<[i := x]> m) = (f x + total f m)%Z.
Proof. 
  intros Hi. unfold total. by rewrite (map_fold_insert_L (fun _ x z => (f x + z)%Z)) by (try done; intros; lia).
 Qed.

Lemma total_delete m i x : m !! i = Some x -> total f (delete i m) = (total f m - f x)%Z.
Proof.
  intros Hi. unfold total. rewrite (map_fold_delete_L (fun _ x z => (f x + z)%Z) 0%Z i x m); [lia|intros; lia|done].
Qed.

Lemma total_update m i x y : m !! i = Some x -> total f (<[i := y]> m) = (total f m - f x + f y)%Z.
Proof.
  intros Hi. rewrite <- insert_delete_eq, total_insert by apply lookup_delete_eq.
  rewrite (total_delete _ _ x) by done. lia.
Qed.
End total.

(** ** What is counted *)

Definition subscriptions (h : Hub) : Z :=
  total (fun cl => Z.of_nat (size (cl_subscribed cl))) (hb_clients h).

Definition open_client (cl : Client) : Z := if decide (cl_closeOnce cl = NotRun) then 1%Z else 0%Z.
Definition connections (h : Hub) : Z := total open_client (hb_clients h).

(** ** Debts *)

(** An action of a goroutine that owes [s] to the gauge of subscriptions and [k] to that of
    connections; [K] is what it owes afterwards. *)
Definition act_owes {R} (a : action R) (s k : Z) : (R -> Z -> Z -> Prop) -> Prop :=
  match a in action R return (R -> Z -> Z -> Prop) -> Prop with
  | AddWSSubscriptions n => fun K => K tt (s - n)%Z k
  | AddWSConnections n => fun K => K tt s (k - n)%Z
  | add_subscribed _ _ => fun K =>
      forall o, K o (match o with NewlySubscribed => s + 1 | _ => s end)%Z k
  | remove_subscribed _ _ => fun K => forall b : bool, K b (if b then s - 1 else s)%Z k
  | clear_subscribed _ => fun K => forall n : nat, K n (s - Z.of_nat n)%Z k
  | once_enter _ => fun K => forall b : bool, K b s (if b then k - 1 else k)%Z
  | _ => fun K => forall r, K r s k
  end.

Fixpoint owes {A} (p : proc A) (s k : Z) : Prop :=
  match p with
  | Return _ => s = 0%Z /\ k = 0%Z
  | Act a f => act_owes a s k (fun r => owes (f r))
  end.

Definition debt : Type := Z * Z.

Record balanced (h : Hub) (d : debt) (h' : Hub) (d' : debt) : Prop := {
  bl_subscriptions : (hb_subscriptions h' + d'.1 - subscriptions h' =
                      hb_subscriptions h + d.1 - subscriptions h)%Z;
  bl_connections : (hb_connections h' + d'.2 - connections h' =
                    hb_connections h + d.2 - connections h)%Z }.

(** A client that is replaced. *)
Lemma subscriptions_update h c cl cl' : hb_clients h !! c = Some cl ->
  subscriptions (update c cl' h) =
    (subscriptions h - Z.of_nat (size (cl_subscribed cl)) + Z.of_nat (size (cl_subscribed cl')))%Z.
Proof. intros Hc. unfold subscriptions. simpl. by rewrite (total_update _ _ c cl). Qed.
Lemma connections_update h c cl cl' : hb_clients h !! c = Some cl ->
  connections (update c cl' h) = (connections h - open_client cl + open_client cl')%Z.
Proof. intros Hc. unfold connections. simpl. by rewrite (total_update _ _ c cl). Qed.

Lemma balanced_update h c cl cl' d d' :
  hb_clients h !! c = Some cl ->
  (d'.1 - Z.of_nat (size (cl_subscribed cl')) = d.1 - Z.of_nat (size (cl_subscribed cl)))%Z ->
  (d'.2 - open_client cl' = d.2 - open_client cl)%Z ->
  balanced h d (update c cl' h) d'.
Proof.
  intros Hc Hs Hk. split; [rewrite (subscriptions_update h c cl)|rewrite (connections_update h c cl)]; simpl; try done; lia.
Qed.

(** An action moves between the gauges, the debts and what is counted. *)
Lemma act_balanced t ch {R} (a : action R) h r h' s k K :
  pre t a h -> act t ch a h = Some (r, h') -> act_owes a s k K ->
  exists s' k', K r s' k' /\ balanced h (s, k) h' (s', k').
Proof.
  intros Hpre Ha HK. destruct a; cbn [pre] in Hpre; acted Ha; cbn [act_owes] in HK;
    try (eexists _, _; split; [by apply HK|]; first [by split|apply (balanced_update h c cl); simpl; try done; lia]).
  - apply bool_decide_eq_false in H. eexists _, _. split; [apply HK|].
    cut (balanced h (s, k) (update c (with_subscribed ({[roomID]} ∪ cl_subscribed cl) cl) h) (s + 1, k)%Z);
      [by intros []|].
    apply (balanced_update h c cl); simpl; [done| |done].
    rewrite size_union, size_singleton by set_solver. unfold cid in *. lia.
  - apply bool_decide_eq_true in H. eexists _, _. split; [apply HK|].
    apply (balanced_update h c cl); simpl; [done| |done].
    assert ({[roomID]} ⊆ cl_subscribed cl) as Hin by set_solver.
    pose proof (subseteq_size _ _ Hin) as Hsize. rewrite size_singleton in Hsize.
    rewrite (size_difference (cl_subscribed cl) {[roomID]}), size_singleton by done. lia.
  - eexists _, _. split; [apply HK|]. apply (balanced_update h c cl); [done| |done].
    cbn [with_subscribed cl_subscribed fst snd]. rewrite size_empty. lia.
  - eexists _, _. split; [apply HK|]. apply (balanced_update h c cl); simpl; [done|done|].
    unfold open_client. simpl. rewrite decide_True by done. lia.
  - destruct Hpre as (x & Hx & Hr & _). simplify_eq. eexists _, _. split; [apply HK|].
    apply (balanced_update h c x); simpl; [done|done|].
    unfold open_client. simpl. by rewrite decide_False by congruence.
  - eexists _, _. split; [exact HK|]. split; simpl; [done|]. unfold connections. simpl. lia.
  - eexists _, _. split; [exact HK|]. split; simpl; [|done]. unfold subscriptions. simpl. lia.
Qed.

(** ** What the programs owe *)

Lemma act_owes_add {R} (a : action R) s k s0 k0 (K K' : R -> Z -> Z -> Prop) :
  (forall r s k, K r s k -> K' r (s + s0)%Z (k + k0)%Z) ->
  act_owes a s k K -> act_owes a (s + s0) (k + k0) K'.
Proof.
  intros HK. destruct a; simpl; auto.
  - intros H o. specialize (HK o _ _ (H o)). destruct o; [exact HK..|].
    by replace (s + s0 + 1)%Z with (s + 1 + s0)%Z by lia.
  - intros H b. specialize (HK b _ _ (H b)). destruct b; [|exact HK].
    by replace (s + s0 - 1)%Z with (s - 1 + s0)%Z by lia.
  - intros H n. specialize (HK n _ _ (H n)).
    by replace (s + s0 - Z.of_nat n)%Z with (s - Z.of_nat n + s0)%Z by lia.
  - intros H b. specialize (HK b _ _ (H b)). destruct b; [|exact HK].
    by replace (k + k0 - 1)%Z with (k - 1 + k0)%Z by lia.
  - intros H. replace (k + k0 - n)%Z with (k - n + k0)%Z by lia. auto.
  - intros H. replace (s + s0 - n)%Z with (s - n + s0)%Z by lia. auto.
Qed.

(** The debts of a program are paid first. *)
Lemma owes_seq {A B} (p : proc A) (q : A -> proc B) s k s0 k0 :
  owes p s k -> (forall x, owes (q x) s0 k0) -> owes (seq_proc p q) (s + s0) (k + k0).
Proof.
  intros Hp Hq. revert s k Hp. induction p as [x|R a f IH]; intros s k; simpl.
  - intros [-> ->]. apply Hq.
  - apply act_owes_add. intros r. apply IH.
Qed.

(** A program that settles what it does itself. *)
Definition even {A} (p : proc A) : Prop := owes p 0 0.

Lemma even_seq {A B} (p : proc A) (q : A -> proc B) : even p -> (forall x, even (q x)) -> even (seq_proc p q).
Proof. intros Hp Hq. by apply (owes_seq p q 0 0 0 0). Qed.
Lemma even_return {A} (x : A) : even (Return x).
Proof. done. Qed.
Lemma even_skip : even skip.
Proof. done. Qed.
#[local] Hint Resolve even_return even_skip : hub.

Lemma Close_even c : even (Close c).
Proof.
  intros [|]; [|done]. intros n. simpl. destruct (0 <? n)%nat eqn:Hn; simpl.
  - repeat (intros _ || split); lia.
  - apply Nat.ltb_ge in Hn. repeat (intros _ || split); lia.
Qed.
#[local] Hint Resolve Close_even : hub.

Lemma enqueue_even c payload messageType : even (enqueue c payload messageType).
Proof. by intros r. Qed.
#[local] Hint Resolve enqueue_even : hub.

Lemma sendServerMessage_even c msg : even (sendServerMessage c msg).
Proof. apply even_seq; [auto with hub|]. intros []; auto with hub. Qed.
#[local] Hint Resolve sendServerMessage_even : hub.

Lemma subscribe_even c roomID : even (subscribe c roomID).
Proof.
  intros [| |]; [done|apply sendServerMessage_even|].
  intros r. apply (sendServerMessage_even c (room_message MessageTypeSubscribed roomID)).
Qed.
Lemma unsubscribe_even c roomID : even (unsubscribe c roomID).
Proof.
  intros [|]; [|done]. intros r. apply (sendServerMessage_even c (room_message MessageTypeUnsubscribed roomID)).
Qed.
#[local] Hint Resolve subscribe_even unsubscribe_even : hub.

Lemma read_round_even P c : even (read_round P c).
Proof.
  apply even_seq; [by intros r|]. intros [data|]; [|done]. apply even_seq; [|done].
  unfold sendError. destruct (Unmarshal data : option ClientMessage) as [msg|]; [|auto with hub].
  cbv zeta. repeat case_bool_decide; auto with hub; destruct (uuid_Parse _ _); auto with hub.
Qed.

Lemma write_round_even c : even (write_round c).
Proof. intros [m| |]; [by intros r|by intros r|by intros r]. Qed.

Lemma run_prelude_owes c : owes (run_prelude c) 0 1.
Proof. by intros user r. Qed.

Lemma enqueue_all_even payload messageType clients : even (enqueue_all payload messageType clients).
Proof.
  induction clients as [|c clients IH]; cbn [enqueue_all]; [done|].
  apply even_seq; [auto with hub|]. intros sent. by apply even_seq.
Qed.
Lemma close_all_even slow : even (close_all slow).
Proof. induction slow; cbn [close_all]; [done|]. by apply even_seq; [auto with hub|]. Qed.
Lemma deliver_even d : even (deliver d).
Proof.
  destruct d; intros clients; apply (even_seq (enqueue_all _ _ _)); auto using enqueue_all_even, close_all_even.
Qed.

(** ** The invariant *)

Definition goroutine_owes (g : goroutine) (d : debt) : Prop :=
  match g with
  | Starting _ p | Leaving p | Delivering p => owes p d.1 d.2
  | Reading _ p | Writing _ p => owes p d.1 d.2
  end.

(** The gauges and the debts of all goroutines are what is counted. *)
Record accounted (s : System) (debts : gmap tid debt) : Prop := {
  ac_threads : forall t, match sy_threads s !! t, debts !! t with
    | Some g, Some d => goroutine_owes g d
    | None, None => True
    | _, _ => False
    end;
  ac_subscriptions : (hb_subscriptions (sy_hub s) + total fst debts = subscriptions (sy_hub s))%Z;
  ac_connections : (hb_connections (sy_hub s) + total snd debts = connections (sy_hub s))%Z }.

(** A goroutine goes on with a hub in which the balance is kept. *)
Lemma accounted_resume t g h s debts d d' :
  accounted s debts -> debts !! t = Some d -> balanced (sy_hub s) d h d' -> goroutine_owes g d' ->
  accounted (resume t g h s) (<[t := d']> debts).
Proof.
  intros [At As Ak] Hd [Bs Bk] Hg. split; simpl.
  - intros t'. destruct (decide (t' = t)) as [->|Hne].
    + by rewrite !lookup_insert_eq.
    + rewrite !lookup_insert_ne by done. apply At.
  - rewrite (total_update _ _ t d) by done. unfold tid, debt in *. lia.
  - rewrite (total_update _ _ t d) by done. unfold tid, debt in *. lia.
Qed.

(** A new goroutine. *)
Lemma accounted_start t g h s debts d :
  accounted s debts -> sy_threads s !! t = None -> balanced (sy_hub s) (0, 0)%Z h d ->
  goroutine_owes g d -> accounted (resume t g h s) (<[t := d]> debts).
Proof.
  intros [At As Ak] Ht [Bs Bk] Hg. simpl in *.
  assert (debts !! t = None) as Hd by (specialize (At t); rewrite Ht in At; by destruct (debts !! t)).
  split; simpl.
  - intros t'. destruct (decide (t' = t)) as [->|Hne].
    + by rewrite !lookup_insert_eq.
    + rewrite !lookup_insert_ne by done. apply At.
  - rewrite total_insert by done. unfold tid, debt in *. lia.
  - rewrite total_insert by done. unfold tid, debt in *. lia.
Qed.

Lemma balanced_refl h d : balanced h d h d.
Proof. done. Qed.

Lemma accounted_thread s debts t g :
  accounted s debts -> sy_threads s !! t = Some g -> exists d, debts !! t = Some d /\ goroutine_owes g d.
Proof. intros [At _ _] Hg. specialize (At t). rewrite Hg in At. destruct (debts !! t) as [d|]; [by exists d|done]. Qed.

Lemma accounted_debt s debts t d :
  accounted s debts -> debts !! t = Some d -> exists g, sy_threads s !! t = Some g /\ goroutine_owes g d.
Proof. intros [At _ _] Hd. specialize (At t). destruct (sy_threads s !! t) as [g|]; rewrite Hd in At; [by exists g|done]. Qed.

(** A goroutine that ends owes nothing. *)
Lemma accounted_end s debts t :
  accounted s debts -> debts !! t = Some (0, 0)%Z ->
  accounted {| sy_hub := sy_hub s; sy_threads := delete t (sy_threads s) |} (delete t debts).
Proof.
  intros [At As Ak] Hd. split; simpl.
  - intros t'. destruct (decide (t' = t)) as [->|Hne].
    + by rewrite !lookup_delete_eq.
    + rewrite !lookup_delete_ne by done. apply At.
  - rewrite (total_delete _ _ t (0, 0)%Z) by done. unfold tid, debt in *. simpl. lia.
  - rewrite (total_delete _ _ t (0, 0)%Z) by done. unfold tid, debt in *. simpl. lia.
Qed.

Lemma proceed_owes t ch {A} (p p' : proc A) h h' d :
  fine h -> safe t p h -> owes p d.1 d.2 -> proceed t ch p h = Some (p', h') ->
  exists d', owes p' d'.1 d'.2 /\ balanced h d h' d'.
Proof.
  intros Hf Hs Ho Hp. destruct p as [a|R a k]; [done|]. cbn [proceed] in Hp.
  destruct (act t ch a h) as [[r h1]|] eqn:Ha; simplify_eq/=.
  destruct (Hs h (reflexivity h) Hf) as [Hpre _].
  destruct (act_balanced t ch a h r h' d.1 d.2 _ Hpre Ha Ho) as (s' & k' & Hk & Hb).
  exists (s', k'). split; [exact Hk|]. by destruct d.
Qed.

Lemma balanced_connect h c user : hb_clients h !! c = None ->
  balanced h (0, 0)%Z (update c (NewClient user) h) (0, 1)%Z.
Proof.
  intros Hc. split; unfold subscriptions, connections; cbn [update set_clients hb_clients hb_subscriptions
    hb_connections fst snd]; rewrite total_insert by done; [|unfold open_client; simpl; lia].
  cbn [NewClient cl_subscribed]. rewrite size_empty. lia.
Qed.

(** A goroutine at the end of its program owes nothing. *)
Lemma zero_debt (d : debt) : d.1 = 0%Z /\ d.2 = 0%Z -> d = (0, 0)%Z.
Proof. destruct d. simpl. by intros [-> ->]. Qed.

Lemma move_accounted P m s s' debts :
  well s -> accounted s debts -> move P m s = Some s' -> exists debts', accounted s' debts'.
Proof.
  intros [Hf Hs] Hacc Hm. destruct m as [t c user|t d|t ch|t t']; cbn [move] in Hm.
  - case_match eqn:Hc; simplify_eq. apply andb_true_iff in Hc as [Ht Hc].
    apply bool_decide_eq_true in Ht, Hc. eexists. eapply (accounted_start t _ _ _ _ (0, 1)%Z); [done..| |].
    + by apply balanced_connect.
    + apply run_prelude_owes.
  - case_match eqn:Ht; simplify_eq. apply bool_decide_eq_true in Ht.
    eexists. eapply (accounted_start t _ _ _ _ (0, 0)%Z); [done..|apply deliver_even].
  - destruct (sy_threads s !! t) as [g|] eqn:Hg; [|done]. cbn [mbind option_bind] in Hm.
    destruct (accounted_thread s debts t g Hacc Hg) as (d & Hd & Ho). pose proof (Hs t g Hg) as Hsafe.
    destruct g; cbn [goroutine_safe goroutine_owes] in Hsafe, Ho;
      (destruct (proceed t ch p (sy_hub s)) as [[p' h']|] eqn:Hp; simplify_eq/=);
      destruct (proceed_owes t ch p p' _ h' d Hf Hsafe Ho Hp) as (d' & Ho' & Hb);
      eexists; by eapply accounted_resume.
  - destruct (sy_threads s !! t) as [g|] eqn:Hg; [|done]. cbn [mbind option_bind] in Hm.
    destruct (accounted_thread s debts t g Hacc Hg) as (d & Hd & Ho).
    assert (forall g', goroutine_owes g' (0, 0)%Z -> d = (0, 0)%Z ->
      accounted (resume t g' (sy_hub s) s) (<[t := (0, 0)%Z]> debts)) as Hnext.
    { intros g' Hg' ->. by eapply accounted_resume. }
    repeat case_match; simplify_eq; cbn [goroutine_owes owes] in Ho; apply zero_debt in Ho;
      try (eexists; apply Hnext; [|done]; first [apply read_round_even|apply write_round_even|apply Close_even]).
    + eexists. eapply (accounted_start t' _ _ (resume t _ (sy_hub s) s)); [apply Hnext; [|done]; apply read_round_even
        | |done|apply write_round_even].
      simpl. match goal with Hfr : fresh_thread _ _ = true |- _ => apply bool_decide_eq_true in Hfr end.
      rewrite lookup_insert_ne by congruence. done.
    + subst d. eexists. by apply (accounted_end _ debts).
    + subst d. eexists. by apply (accounted_end _ debts).
Qed.

Lemma interleaving_accounted P s : interleaving P s -> exists debts, accounted s debts.
Proof.
  induction 1 as [|s m s' Hi [debts IH] Hm].
  - exists ∅. split; [|done|done]. intros t. by rewrite !lookup_empty.
  - by eapply move_accounted; [eapply interleaving_well|..].
Qed.

(** What a program owes is determined by the program. *)
Lemma owes_inj {A} (p : proc A) s k s' k' : owes p s k -> owes p s' k' -> s = s' /\ k = k'.
Proof.
  revert s k s' k'. induction p as [a|R a f IH]; intros s k s' k'; simpl; [intros [-> ->] [-> ->]; done|].
  destruct a; simpl; intros H H';
    first [apply (IH tt _ _ _ _ (H tt) (H' tt))|apply (IH [] _ _ _ _ (H []) (H' []))
      |apply (IH _ _ _ _ _ (H AlreadySubscribed) (H' AlreadySubscribed))
      |apply (IH _ _ _ _ _ (H false) (H' false))|apply (IH _ _ _ _ _ (H 0%N) (H' 0%N))
      |apply (IH _ _ _ _ _ (H None) (H' None))|apply (IH _ _ _ _ _ (H Tick) (H' Tick))
      |destruct (IH 0%nat _ _ _ _ (H 0%nat) (H' 0%nat)); split; lia
      |destruct (IH _ _ _ _ _ H H'); split; lia].
Qed.

(** A goroutine at the start of a round or call. *)
Definition at_rest (P : Platform) (g : goroutine) : Prop :=
  (exists c, g = Reading c (read_round P c)) \/ (exists c, g = Writing c (write_round c)) \/
  (exists d, g = Delivering (deliver d)) \/ (exists c, g = Leaving (Close c)).

Lemma at_rest_owes P g d : at_rest P g -> goroutine_owes g d -> d = (0, 0)%Z.
Proof.
  assert (forall A (p : proc A), even p -> owes p d.1 d.2 -> d = (0, 0)%Z) as Heven.
  { intros A p Hp Hd. destruct (owes_inj p _ _ _ _ Hd Hp). by apply zero_debt. }
  intros [[c ->]|[[c ->]|[[x ->]|[c ->]]]]; cbn [goroutine_owes]; apply Heven;
    [apply read_round_even|apply write_round_even|apply deliver_even|apply Close_even].
Qed.

Lemma no_debts debts (f : debt -> Z) :
  (forall t d, debts !! t = Some d -> f d = 0%Z) -> total f debts = 0%Z.
Proof.
  induction debts as [|t d m Ht IH] using map_ind; intros Hd; [apply total_empty|].
  rewrite total_insert by done. rewrite (Hd t d), IH; [done| |by apply lookup_insert_eq].
  intros t' d' Hd'. apply (Hd t'). apply lookup_insert_Some. right. split; [congruence|done].
Qed.

(** C21. However readers, writers, closings and deliveries interleave: whenever no goroutine is
    in the middle of a round or call, ws_subscriptions_current is the number of rooms that
    clients are subscribed to, and ws_connections_current the number of clients that nobody
    has begun to close.  In between, the difference is what the goroutines still have to add
    or take away. *)
Theorem gauges_count P s :
  interleaving P s ->
  exists debts, accounted s debts /\
    ((forall t g, sy_threads s !! t = Some g -> at_rest P g) ->
     hb_subscriptions (sy_hub s) = subscriptions (sy_hub s) /\
     hb_connections (sy_hub s) = connections (sy_hub s)).
Proof.
  intros Hi. destruct (interleaving_accounted P s Hi) as [debts Hacc]. exists debts. split; [done|].
  intros Hrest. pose proof Hacc as [_ As Ak].
  assert (forall t d, debts !! t = Some d -> d = (0, 0)%Z) as Hzero.
  { intros t d Hd. destruct (accounted_debt s debts t d Hacc Hd) as (g & Hg & Ho).
    by eapply at_rest_owes; eauto. }
  pose proof (no_debts debts fst) as H1. pose proof (no_debts debts snd) as H2.
  unfold tid, debt in *. rewrite H1 in As by (intros t d Hd; by rewrite (Hzero t d Hd)).
  rewrite H2 in Ak by (intros t d Hd; by rewrite (Hzero t d Hd)).
  split; lia.
Qed.

(** *** A sample *)

(** The goroutines that a schedule leaves in the middle of something. *)
Definition busy_after (m : Move) (busy : gset tid) : gset tid :=
  match m with
  | Connect t _ _ | Go t _ => {[t]} ∪ busy
  | Arrive _ _ => busy
  | Next t _ => busy ∖ {[t]}
  end.

Lemma move_rests P m s s' busy :
  (forall t g, sy_threads s !! t = Some g -> t ∉ busy -> at_rest P g) -> move P m s = Some s' ->
  forall t g, sy_threads s' !! t = Some g -> t ∉ busy_after m busy -> at_rest P g.
Proof.
  intros Hrest Hm. destruct m as [t c user|t d|t ch|t t']; cbn [move busy_after] in *.
  - case_match; simplify_eq. simpl. intros t1 g [[<- <-]|[_ Hg]]%lookup_insert_Some Hb; [set_solver|].
    apply (Hrest t1); [done|set_solver].
  - case_match; simplify_eq. simpl. intros t1 g [[<- <-]|[_ Hg]]%lookup_insert_Some Hb; [|by apply (Hrest t1)].
    right; right; left. by exists d.
  - destruct (sy_threads s !! t) as [g0|] eqn:Hg0; [|done]. cbn [mbind option_bind] in Hm.
    assert (exists g1 h1, s' = resume t g1 h1 s) as (g1 & h1 & ->).
    { destruct g0; destruct (proceed t ch p (sy_hub s)) as [[p' h']|]; simplify_eq/=; by eexists _, _. }
    simpl. intros t1 g [[<- <-]|[_ Hg]]%lookup_insert_Some Hb; [set_solver|].
    apply (Hrest t1); [done|set_solver].
  - destruct (sy_threads s !! t) as [g0|] eqn:Hg0; [|done]. cbn [mbind option_bind] in Hm.
    assert (forall t1 g, t1 <> t -> sy_threads s !! t1 = Some g -> t1 ∉ busy ∖ {[t]} -> at_rest P g) as Hold.
    { intros t1 g Hne Hg Hb. apply (Hrest t1); [done|set_solver]. }
    repeat case_match; simplify_eq; simpl; intros t1 g;
      rewrite ?lookup_insert_Some, ?lookup_delete_Some; intros Hg Hb;
      destruct_or?; destruct_and?; subst; eauto;
      unfold at_rest; naive_solver.
Qed.

Lemma moves_rest P l s s' busy :
  (forall t g, sy_threads s !! t = Some g -> t ∉ busy -> at_rest P g) -> moves P l s = Some s' ->
  forall t g, sy_threads s' !! t = Some g -> t ∉ fold_left (fun b m => busy_after m b) l busy -> at_rest P g.
Proof.
  revert s busy. induction l as [|m l IH]; intros s busy Hrest; simpl; [by intros [= <-]|].
  destruct (move P m s) as [s1|] eqn:Hm; [|done]. cbn [mbind option_bind]. apply IH.
  by eapply move_rests.
Qed.

Lemma reached_rests l :
  runs l = true -> fold_left (fun b m => busy_after m b) l ∅ = ∅ ->
  forall t g, sy_threads (reached l) !! t = Some g -> at_rest sample g.
Proof.
  unfold runs, reached. destruct (moves sample l initial) as [s|] eqn:Hs; [|done]. intros _ Hb t g Hg.
  eapply (moves_rest sample l initial s ∅); [|done|exact Hg|by rewrite Hb; apply not_elem_of_empty].
  intros t' g' Hg'. simpl in Hg'. by rewrite lookup_empty in Hg'.
Qed.

(** Two users are connected, and one of them follows a room. *)
Lemma gauges_count_witness :
  subscriptions (sy_hub (reached delivery)) = 1%Z /\ connections (sy_hub (reached delivery)) = 2%Z /\
  hb_subscriptions (sy_hub (reached delivery)) = 1%Z /\ hb_connections (sy_hub (reached delivery)) = 2%Z.
Proof.
  destruct (gauges_count sample (reached delivery)) as (debts & _ & Hrest).
  - apply runs_interleaving. by vm_compute.
  - destruct Hrest as [Hs Hk].
    + apply reached_rests; by vm_compute.
    + rewrite Hs, Hk. split; [by vm_compute|]. split; [by vm_compute|]. split; by vm_compute.
Defined.

(** *** A subscription that is counted for ever

    The reader has read a request to subscribe when the writer closes the client; [subscribe]
    does not look whether the client is closed.  No goroutine and no connection is left, and
    the gauge still shows a subscription: nothing takes it away any more. *)
Definition closed_subscription : list Move :=
  connected ++ [Go 0 (says (subscribe_to 10)); Go 1 silent; Go 1 silent; Next 1 2] ++
  replicate 9 (Go 1 silent) ++ [Next 1 2] ++ replicate 5 (Go 0 silent) ++
  [Next 0 2; Go 0 silent; Next 0 2; Go 0 silent; Next 0 2].

Lemma closed_client_stays_counted :
  let s := reached closed_subscription in
  interleaving sample s /\ sy_threads s = ∅ /\ hb_connections (sy_hub s) = 0%Z /\
  hb_subscriptions (sy_hub s) = 1%Z /\ cl_closed <$> hb_clients (sy_hub s) = {[7%N := true]}.
Proof.
  split; [apply runs_interleaving; by vm_compute|]. split; [by vm_compute|]. split; [by vm_compute|].
  split; by vm_compute.
Qed.
