(* ===== verification/HubDelivery.v ===== *)
(** * HubDelivery: messages arrive, once and in order

    [stream] is what a client was ever given: what was handed to its websocket, what its
    writer has taken from the channel and not yet handed over, and what waits in the channel.
    It only ever grows at its end, and a delivery that has returned has left its message in
    the stream of everybody it was for, or has closed the client. *)

From Stdlib Require Import Ascii.
From S2P Require Import Prelude Domain GoStd Text Json Dates Platform Database Program Realtime Hub.
From S2P Require Import HubSafety.

#[global] Instance outboundMessage_eq_dec : EqDecision outboundMessage.
Proof. solve_decision. Defined.

(** ** Streams *)

Definition handed (h : Hub) (c : cid) : list outboundMessage :=
  (reverse (filter (fun x => x.1 = c) (h_written (hb_history h)))).*2.
Definition queue (h : Hub) (c : cid) : list outboundMessage :=
  match hb_clients h !! c with Some cl => cl_send cl | None => [] end.

(** What a writer holds for the client [c]. *)
Definition in_flight (c : cid) (g : goroutine) : list outboundMessage :=
  match g with
  | Writing _ (Act (WriteText c' m) _) => if decide (c' = c) then [m] else []
  | _ => []
  end.
Definition flights (c : cid) (threads : gmap tid goroutine) : list outboundMessage :=
  map_fold (fun _ g l => in_flight c g ++ l) [] threads.

Definition stream (s : System) (c : cid) : list outboundMessage :=
  handed (sy_hub s) c ++ flights c (sy_threads s) ++ queue (sy_hub s) c.

Definition closed (h : Hub) (c : cid) : Prop :=
  exists cl, hb_clients h !! c = Some cl /\ cl_closed cl = true.

(** ** One action *)

(** What an action puts into the channel of [c]. *)
Definition accepts (c : cid) {R} (a : action R) : R -> list outboundMessage :=
  match a in action R return R -> list outboundMessage with
  | try_send c' m => fun b : bool => if b && bool_decide (c' = c) then [m] else []
  | _ => fun _ => []
  end.

(** What it takes from there, and what it hands to the websocket. *)
Definition takes (c : cid) {R} (a : action R) : R -> list outboundMessage :=
  match a in action R return R -> list outboundMessage with
  | receive c' => fun r => match r with Outbound m => if decide (c' = c) then [m] else [] | _ => [] end
  | _ => fun _ => []
  end.
Definition hands (c : cid) {R} (a : action R) : list outboundMessage :=
  match a with
  | WriteText c' m => if decide (c' = c) then [m] else []
  | _ => []
  end.

Lemma queue_update h c cl d :
  queue (update d cl h) c = if decide (c = d) then cl_send cl else queue h c.
Proof.
  unfold queue. simpl. case_decide as Hc; [by rewrite Hc, lookup_insert_eq|by rewrite lookup_insert_ne].
Qed.

Lemma handed_written h c d m :
  handed (written d m h) c = handed h c ++ (if decide (d = c) then [m] else []).
Proof.
  unfold handed. simpl. rewrite filter_cons. simpl. case_decide; [|by rewrite app_nil_r].
  by rewrite reverse_cons, fmap_app.
Qed.

Lemma queue_same h c cl cl' d :
  hb_clients h !! d = Some cl -> cl_send cl' = cl_send cl -> queue (update d cl' h) c = queue h c.
Proof.
  intros Hd Hs. rewrite queue_update. case_decide as Hc; [|done]. unfold queue. by rewrite Hc, Hd, Hs.
Qed.

Lemma act_stream t ch {R} (a : action R) h r h' c :
  act t ch a h = Some (r, h') ->
  handed h' c = handed h c ++ hands c a /\ queue h c ++ accepts c a r = takes c a r ++ queue h' c.
Proof.
  intros Ha. destruct a; acted Ha; cbn [hands accepts takes];
    rewrite ?app_nil_r, ?handed_written; try done; (split; [done|]);
    try (symmetry; by apply (queue_same h c cl)).
  - rewrite queue_update. unfold queue. case_decide as Hc.
    + by rewrite bool_decide_true, Hc, Hcl.
    + by rewrite bool_decide_false, app_nil_r.
  - rewrite queue_update. unfold queue. repeat case_decide; try congruence; [|done]. subst.
    by rewrite Hcl, H0.
Qed.

(** Clients stay, and stay closed. *)
Lemma act_closed t ch {R} (a : action R) h r h' c :
  act t ch a h = Some (r, h') -> closed h c -> closed h' c.
Proof.
  intros Ha (x & Hx & Hc). destruct a; acted Ha; try (by exists x); unfold closed; simpl;
    (match goal with |- exists _, <[?d := _]> _ !! _ = _ /\ _ => destruct (decide (d = c)) as [->|] end;
     [rewrite lookup_insert_eq; eexists; split; [done|]; simpl; congruence
     |rewrite lookup_insert_ne by done; by exists x]).
Qed.

Lemma act_clients t ch {R} (a : action R) h r h' c :
  act t ch a h = Some (r, h') -> is_Some (hb_clients h !! c) -> is_Some (hb_clients h' !! c).
Proof.
  intros Ha [cl Hc]. destruct (gr_user _ _ (act_grows t ch a h r h' Ha) c (cl_user cl)) as (x & Hx & _);
    [by exists cl|by exists x].
Qed.

(** ** Who touches the channel *)

(** Only writers take from a channel or write to a websocket. *)
Definition no_io {R} (a : action R) : Prop :=
  match a with
  | receive _ | WriteText _ _ => False
  | _ => True
  end.
Fixpoint quiet {A} (p : proc A) : Prop :=
  match p with
  | Return _ => True
  | Act a k => no_io a /\ forall r, quiet (k r)
  end.

Lemma quiet_seq {A B} (p : proc A) (k : A -> proc B) :
  quiet p -> (forall a, quiet (k a)) -> quiet (seq_proc p k).
Proof. intros Hp Hk. induction p as [a|R a k' IH]; simpl in *; [auto|]. split; [apply Hp|]. intros r. apply IH, Hp. Qed.
Lemma quiet_do {R} (a : action R) : no_io a -> quiet (do a).
Proof. by split. Qed.
#[local] Hint Resolve quiet_seq quiet_do : hub.
#[local] Hint Extern 1 (no_io _) => exact I : hub.
#[local] Hint Extern 1 (quiet (Return _)) => exact I : hub.
#[local] Hint Extern 1 (quiet skip) => exact I : hub.

Lemma Close_quiet c : quiet (Close c).
Proof.
  apply quiet_seq; [auto with hub|]. intros [|]; [|done]. apply quiet_seq; [auto with hub|]. intros n.
  apply quiet_seq; [destruct (0 <? n)%nat; auto with hub|]. intros _. repeat (apply quiet_seq; [auto with hub|intros ?]).
  auto with hub.
Qed.
#[local] Hint Resolve Close_quiet : hub.

Lemma sendServerMessage_quiet c msg : quiet (sendServerMessage c msg).
Proof. apply quiet_seq; [by apply quiet_do|]. intros []; auto with hub. Qed.
#[local] Hint Resolve sendServerMessage_quiet : hub.

Lemma subscribe_quiet c roomID : quiet (subscribe c roomID).
Proof. apply quiet_seq; [auto with hub|]. intros []; unfold sendError; auto 6 with hub. Qed.
Lemma unsubscribe_quiet c roomID : quiet (unsubscribe c roomID).
Proof. apply quiet_seq; [auto with hub|]. intros []; auto 6 with hub. Qed.
#[local] Hint Resolve subscribe_quiet unsubscribe_quiet : hub.

Lemma read_round_quiet P c : quiet (read_round P c).
Proof.
  apply quiet_seq; [auto with hub|]. intros [data|]; [|done]. apply quiet_seq; [|done].
  destruct (Unmarshal data : option ClientMessage) as [msg|]; [|unfold sendError; auto with hub].
  cbv zeta. unfold sendError. repeat case_bool_decide; auto with hub; destruct (uuid_Parse _ _); auto with hub.
Qed.

Lemma run_prelude_quiet c : quiet (run_prelude c).
Proof. unfold run_prelude. auto 6 with hub. Qed.

Lemma deliver_quiet d : quiet (deliver d).
Proof.
  assert (forall payload ty clients, quiet (slow <~ enqueue_all payload ty clients; close_all slow)) as Hs.
  { intros payload ty clients. apply quiet_seq.
    - induction clients as [|c clients IH]; cbn [enqueue_all]; auto with hub.
      apply quiet_seq; [by apply quiet_do|]. intros sent. by apply quiet_seq.
    - intros slow. induction slow as [|c slow IH]; cbn [close_all]; auto with hub. }
  destruct d; (apply quiet_seq; [auto with hub|]); intros clients; apply Hs.
Qed.

(** The writer of [c]. *)
Inductive writer (c : cid) : proc bool -> Prop :=
| writer_start : writer c (write_round c)
| writer_text m : writer c (do (WriteText c m))
| writer_ping : writer c (do (WriteControl c))
| writer_close : writer c (do (WriteControl c) >>> Return false)
| writer_end b : writer c (Return b).

(** ** One writer for each client *)

Definition owner (c : cid) (g : goroutine) : Prop :=
  match g with
  | Starting c' _ | Writing c' _ => c' = c
  | _ => False
  end.

Definition shaped (g : goroutine) : Prop :=
  match g with
  | Starting _ p => quiet p
  | Reading _ p => quiet p
  | Writing c p => writer c p
  | Leaving p | Delivering p => quiet p
  end.

Record orderly (s : System) : Prop := {
  or_shapes : forall t g, sy_threads s !! t = Some g -> shaped g;
  or_owners : forall t t' g g' c, sy_threads s !! t = Some g -> sy_threads s !! t' = Some g' ->
    owner c g -> owner c g' -> t = t';
  or_clients : forall t g c, sy_threads s !! t = Some g -> owner c g ->
    is_Some (hb_clients (sy_hub s) !! c) }.

(** A goroutine that owns what it owned before. *)
Lemma orderly_resume s t g g' h :
  orderly s -> sy_threads s !! t = Some g -> shaped g' -> (forall c, owner c g' -> owner c g) ->
  (forall c, is_Some (hb_clients (sy_hub s) !! c) -> is_Some (hb_clients h !! c)) ->
  orderly (resume t g' h s).
Proof.
  intros [O1 O2 O3] Ht Hg Ho Hc. split; simpl.
  - intros t' g1 [[<- <-]|[_ H1]]%lookup_insert_Some; eauto.
  - intros t1 t2 g1 g2 c [[<- <-]|[Hn1 H1]]%lookup_insert_Some [[<- <-]|[Hn2 H2]]%lookup_insert_Some Hg1 Hg2;
      eauto.
  - intros t1 g1 c [[<- <-]|[_ H1]]%lookup_insert_Some Hg1; eauto.
Qed.

(** A new goroutine that owns nothing, or a client that nobody owns. *)
Lemma orderly_start s t g h :
  orderly s -> sy_threads s !! t = None -> shaped g ->
  (forall c, owner c g -> is_Some (hb_clients h !! c) /\
     forall t' g', sy_threads s !! t' = Some g' -> ~ owner c g') ->
  (forall c, is_Some (hb_clients (sy_hub s) !! c) -> is_Some (hb_clients h !! c)) ->
  orderly (resume t g h s).
Proof.
  intros [O1 O2 O3] Ht Hg Ho Hc. split; simpl.
  - intros t' g1 [[<- <-]|[_ H1]]%lookup_insert_Some; eauto.
  - intros t1 t2 g1 g2 c [[<- <-]|[Hn1 H1]]%lookup_insert_Some [[<- <-]|[Hn2 H2]]%lookup_insert_Some Hg1 Hg2;
      eauto.
    + by destruct (proj2 (Ho c Hg1) t2 g2 H2).
    + by destruct (proj2 (Ho c Hg2) t1 g1 H1).
  - intros t1 g1 c [[<- <-]|[_ H1]]%lookup_insert_Some Hg1; [by apply Ho|eauto].
Qed.

Lemma orderly_end s t : orderly s ->
  orderly {| sy_hub := sy_hub s; sy_threads := delete t (sy_threads s) |}.
Proof.
  intros [O1 O2 O3]. split; simpl.
  - intros t' g [_ H]%lookup_delete_Some. eauto.
  - intros t1 t2 g1 g2 c [_ H1]%lookup_delete_Some [_ H2]%lookup_delete_Some. eauto.
  - intros t1 g1 c [_ H1]%lookup_delete_Some. eauto.
Qed.

Lemma proceed_quiet t ch {A} (p p' : proc A) h h' : quiet p -> proceed t ch p h = Some (p', h') -> quiet p'.
Proof.
  destruct p as [a|R a k]; simpl; [done|]. intros [_ Hk]. destruct (act _ _ _ _) as [[r h1]|]; [|done].
  by intros [= <- _].
Qed.

Lemma proceed_writer t ch c p p' h h' : writer c p -> proceed t ch p h = Some (p', h') -> writer c p'.
Proof.
  intros Hw Hp. destruct Hw; cbn [proceed write_round do seq_proc] in Hp; try done;
    (destruct (act _ _ _ _) as [[r h1]|]; [|done]); injection Hp as <- <-; try constructor.
  destruct r; constructor.
Qed.

Lemma proceed_clients t ch {A} (p p' : proc A) h h' c :
  proceed t ch p h = Some (p', h') -> is_Some (hb_clients h !! c) -> is_Some (hb_clients h' !! c).
Proof.
  destruct p as [a|R a k]; [done|]. cbn [proceed]. destruct (act t ch a h) as [[r h1]|] eqn:Ha; [|done].
  intros [= _ <-]. by eapply act_clients.
Qed.

Lemma move_orderly P m s s' : orderly s -> move P m s = Some s' -> orderly s'.
Proof.
  intros Ho Hm. pose proof Ho as [O1 O2 O3]. destruct m as [t c user|t d|t ch|t t']; cbn [move] in Hm.
  - case_match eqn:Hc; simplify_eq. apply andb_true_iff in Hc as [Ht%bool_decide_eq_true Hc%bool_decide_eq_true].
    apply orderly_start; [done..|apply run_prelude_quiet| |].
    + intros d Hd. simpl in Hd. subst d. simpl. rewrite lookup_insert_eq. split; [done|].
      intros t' g' Hg' Hown. destruct (O3 t' g' c Hg' Hown). congruence.
    + intros d [cl Hd]. simpl. apply lookup_insert_is_Some'. by right; exists cl.
  - case_match eqn:Ht; simplify_eq. apply bool_decide_eq_true in Ht.
    apply orderly_start; [done..|apply deliver_quiet|done|done].
  - destruct (sy_threads s !! t) as [g|] eqn:Hg; [|done]. cbn [mbind option_bind] in Hm.
    pose proof (O1 t g Hg) as Hs.
    destruct g; cbn [shaped] in Hs;
      (destruct (proceed t ch p (sy_hub s)) as [[p' h']|] eqn:Hp; simplify_eq/=);
      (eapply orderly_resume; [done|done| |done|intros d; by apply (proceed_clients t ch p p')]);
      first [by eapply proceed_quiet|by eapply proceed_writer].
  - destruct (sy_threads s !! t) as [g|] eqn:Hg; [|done]. cbn [mbind option_bind] in Hm.
    repeat case_match; simplify_eq;
      try (eapply orderly_resume;
           [done|done|first [apply read_round_quiet|apply Close_quiet|constructor]|done|done]);
      try by apply orderly_end.
    assert (sy_threads s !! t' = None) as Ht' by
      (match goal with Hf : fresh_thread _ _ = true |- _ => by apply bool_decide_eq_true in Hf end).
    apply orderly_start; [|simpl; rewrite lookup_insert_ne by congruence; done|constructor| |done].
    + eapply orderly_resume; [done|done|apply read_round_quiet|done|done].
    + intros d Hd. simpl in Hd. subst d. split; [by apply (O3 t _ c Hg)|]. simpl.
      intros t1 g1 [[<- <-]|[Hne Hg1]]%lookup_insert_Some; [by intros []|]. intros Hown.
      by destruct (O2 _ _ _ _ _ Hg Hg1 eq_refl Hown).
Qed.

Lemma interleaving_orderly P s : interleaving P s -> orderly s.
Proof.
  induction 1 as [|s m s' _ IH Hm]; [|by eapply move_orderly].
  split; simpl; intros *; rewrite lookup_empty; done.
Qed.

(** ** The streams grow at their ends *)

(** All that is in flight for [c] is in flight in the goroutine [t]. *)
Definition alone (c : cid) (t : tid) (threads : gmap tid goroutine) : Prop :=
  forall t' g, threads !! t' = Some g -> t' <> t -> in_flight c g = [].

Lemma flights_none c threads :
  (forall t g, threads !! t = Some g -> in_flight c g = []) -> flights c threads = [].
Proof.
  unfold flights. revert threads.
  apply (map_fold_weak_ind (fun l m => (forall t g, m !! t = Some g -> in_flight c g = []) -> l = [])); [done|].
  intros t g m l Ht IH Hm. rewrite (Hm t g) by apply lookup_insert_eq. apply IH.
  intros t' g' Hg'. apply (Hm t'). rewrite lookup_insert_ne; [done|congruence].
Qed.

Lemma flights_alone c t threads : alone c t threads ->
  flights c threads = match threads !! t with Some g => in_flight c g | None => [] end.
Proof.
  unfold flights. revert threads.
  apply (map_fold_weak_ind (fun l m => alone c t m ->
    l = match m !! t with Some g => in_flight c g | None => [] end)); [by rewrite lookup_empty|].
  intros t1 g m l Ht IH Hm. 
  assert (alone c t m) as Hm'.
  { intros t' g' Hg'. apply (Hm t'). rewrite lookup_insert_ne; [done|congruence]. }
  rewrite (IH Hm'). destruct (decide (t1 = t)) as [->|Hne].
  - by rewrite lookup_insert_eq, Ht, app_nil_r.
  - by rewrite lookup_insert_ne, (Hm t1 g) by (done || apply lookup_insert_eq).
Qed.

Lemma in_flight_owner c g : shaped g -> in_flight c g <> [] -> owner c g.
Proof.
  destruct g as [c' p|c' p|c' p|p|p]; simpl; try done. intros [] Hne; simpl in *; try done.
  by case_decide.
Qed.

(** The goroutine that alone may have something in flight for [c]. *)
Lemma orderly_alone s c t g :
  orderly s -> sy_threads s !! t = Some g -> owner c g -> alone c t (sy_threads s).
Proof.
  intros [O1 O2 O3] Ht Hg t' g' Hg' Hne. destruct (in_flight c g') eqn:Hf; [done|].
  destruct Hne. eapply O2; [done..| |done]. apply in_flight_owner; [by eapply O1|by rewrite Hf].
Qed.

Lemma orderly_somebody s c : orderly s -> exists t, alone c t (sy_threads s).
Proof.
  intros Ho. destruct (decide (map_Exists (fun _ g => in_flight c g <> []) (sy_threads s))) as [Hex|Hno].
  - destruct Hex as (t & g & Ht & Hg). exists t. eapply orderly_alone; [done..|].
    apply in_flight_owner; [by eapply (or_shapes s)|done].
  - exists 0%N. intros t g Ht _. destruct (decide (in_flight c g = [])) as [|Hne]; [done|].
    destruct Hno. by exists t, g.
Qed.

(** The goroutine [t] goes from [g] to [g'] without a change for [c]. *)
Lemma flights_same s c t g g' :
  orderly s -> sy_threads s !! t = Some g -> in_flight c g' = in_flight c g ->
  flights c (<[t := g']> (sy_threads s)) = flights c (sy_threads s).
Proof.
  intros Ho Ht Hg. destruct (orderly_somebody s c Ho) as [t0 H0].
  rewrite (flights_alone c t0 _ H0), (flights_alone c t0).
  - destruct (decide (t0 = t)) as [->|Hne]; [by rewrite lookup_insert_eq, Ht|by rewrite lookup_insert_ne].
  - intros t' g1 [[<- <-]|[_ H1]]%lookup_insert_Some Hne; [|by eapply H0]. rewrite Hg. by eapply H0.
Qed.

(** It is the owner of [c]. *)
Lemma flights_owner s c t g g' :
  orderly s -> sy_threads s !! t = Some g -> owner c g ->
  flights c (sy_threads s) = in_flight c g /\ flights c (<[t := g']> (sy_threads s)) = in_flight c g'.
Proof.
  intros Ho Ht Hg. pose proof (orderly_alone s c t g Ho Ht Hg) as Ha.
  rewrite (flights_alone c t _ Ha), Ht. split; [done|]. rewrite (flights_alone c t), lookup_insert_eq; [done|].
  intros t' g1 [[<- <-]|[_ H1]]%lookup_insert_Some Hne; [done|by eapply Ha].
Qed.

(** A new goroutine has nothing in flight. *)
Lemma flights_start s c t g :
  orderly s -> sy_threads s !! t = None -> in_flight c g = [] ->
  flights c (<[t := g]> (sy_threads s)) = flights c (sy_threads s).
Proof.
  intros Ho Ht Hg. destruct (orderly_somebody s c Ho) as [t0 H0].
  rewrite (flights_alone c t0 _ H0), (flights_alone c t0).
  - destruct (decide (t0 = t)) as [->|Hne]; [by rewrite lookup_insert_eq, Ht, Hg|by rewrite lookup_insert_ne].
  - intros t' g1 [[<- <-]|[_ H1]]%lookup_insert_Some Hne; [done|by eapply H0].
Qed.

Lemma flights_end s c t g :
  orderly s -> sy_threads s !! t = Some g -> in_flight c g = [] ->
  flights c (delete t (sy_threads s)) = flights c (sy_threads s).
Proof.
  intros Ho Ht Hg. destruct (orderly_somebody s c Ho) as [t0 H0].
  rewrite (flights_alone c t0 _ H0), (flights_alone c t0).
  - destruct (decide (t0 = t)) as [->|Hne]; [by rewrite lookup_delete_eq, Ht, Hg|by rewrite lookup_delete_ne].
  - intros t' g1 [_ H1]%lookup_delete_Some Hne. by eapply H0.
Qed.

Lemma quiet_in_flight c g : shaped g -> (forall c' p, g <> Writing c' p) -> in_flight c g = [].
Proof. destruct g; try done. intros _ Hne. by destruct (Hne c0 p). Qed.

(** What the first action of a program, with result [r], puts into the channel of [c]. *)
Definition accepted (c : cid) (t : tid) (ch : Choice) {A} (p : proc A) (h : Hub) : list outboundMessage :=
  match p with
  | Return _ => []
  | Act a _ => match act t ch a h with Some (r, _) => accepts c a r | None => [] end
  end.

(** A program that neither takes nor hands over. *)
Lemma quiet_stream t ch {A} (p p' : proc A) h h' c :
  quiet p -> proceed t ch p h = Some (p', h') ->
  handed h' c = handed h c /\ queue h' c = queue h c ++ accepted c t ch p h.
Proof.
  destruct p as [a|R a k]; [done|]. cbn [quiet proceed accepted]. intros [Ha _].
  destruct (act t ch a h) as [[r h1]|] eqn:Hact; [|done]. intros [= _ <-].
  destruct (act_stream t ch a h r h1 c Hact) as [Hh Hq].
  destruct a; try done; cbn [hands takes app] in *; rewrite ?app_nil_r in Hh; by rewrite Hq.
Qed.

(** The writer of [d], between what it takes and what it hands over. *)
Lemma writer_stream t ch d p p' h h' c :
  writer d p -> proceed t ch p h = Some (p', h') ->
  handed h' c ++ in_flight c (Writing d p') ++ queue h' c = handed h c ++ in_flight c (Writing d p) ++ queue h c.
Proof.
  intros Hw Hp. destruct Hw; cbn [proceed write_round do seq_proc] in Hp; try done;
    (destruct (act _ _ _ _) as [[r h1]|] eqn:Hact; [|done]); injection Hp as <- <-;
    destruct (act_stream t ch _ h r h1 c Hact) as [Hh Hq]; cbn [hands takes accepts app] in *;
    rewrite ?app_nil_r in *; try (destruct r); simpl in *; rewrite Hh, Hq; try done.
  all: by rewrite <- app_assoc.
Qed.

Lemma writer_others t ch d p p' h h' c :
  writer d p -> proceed t ch p h = Some (p', h') -> d <> c ->
  (in_flight c (Writing d p') = [] /\ in_flight c (Writing d p) = []) /\
  handed h' c = handed h c /\ queue h' c = queue h c.
Proof.
  intros Hw Hp Hne. pose proof (proceed_writer _ _ _ _ _ _ _ Hw Hp) as Hw'. split.
  - assert (forall q, writer d q -> in_flight c (Writing d q) = []) as Hnone
      by (intros q []; simpl; by rewrite ?decide_False).
    by split; apply Hnone.
  - clear Hw'. destruct Hw; cbn [proceed write_round do seq_proc] in Hp; try done;
      (destruct (act _ _ _ _) as [[r h1]|] eqn:Hact; [|done]); injection Hp as <- <-;
      destruct (act_stream t ch _ h r h1 c Hact) as [Hh Hq]; cbn [hands takes accepts app] in *;
      rewrite ?app_nil_r in *; try (destruct r); rewrite ?decide_False in * by done; by rewrite ?app_nil_r in *.
Qed.

(** What a move puts into the channel of [c]. *)
Definition given (c : cid) (m : Move) (s : System) : list outboundMessage :=
  match m with
  | Go t ch =>
      match sy_threads s !! t with
      | Some (Starting _ p) | Some (Leaving p) | Some (Delivering p) => accepted c t ch p (sy_hub s)
      | Some (Reading _ p) => accepted c t ch p (sy_hub s)
      | _ => []
      end
  | _ => []
  end.

Lemma queue_connect h c d user : hb_clients h !! d = None -> queue (update d (NewClient user) h) c = queue h c.
Proof. intros Hd. rewrite queue_update. case_decide as Hc; [|done]. unfold queue. by rewrite Hc, Hd. Qed.

Lemma move_stream P m s s' c :
  orderly s -> move P m s = Some s' -> stream s' c = stream s c ++ given c m s.
Proof.
  intros Ho Hm. unfold stream. destruct m as [t d user|t d|t ch|t t']; cbn [move given] in *.
  - case_match eqn:Hc; simplify_eq. apply andb_true_iff in Hc as [Ht%bool_decide_eq_true Hc%bool_decide_eq_true].
    simpl. rewrite flights_start, queue_connect, app_nil_r by done. done.
  - case_match eqn:Ht; simplify_eq. apply bool_decide_eq_true in Ht. simpl.
    rewrite flights_start, app_nil_r by done. done.
  - destruct (sy_threads s !! t) as [g|] eqn:Hg; [|done]. cbn [mbind option_bind] in Hm.
    pose proof (or_shapes s Ho t g Hg) as Hs.
    destruct g; cbn [shaped] in Hs;
      (destruct (proceed t ch p (sy_hub s)) as [[p' h']|] eqn:Hp; simplify_eq/=);
      try (destruct (quiet_stream t ch p p' _ h' c Hs Hp) as [-> ->];
           rewrite (flights_same s c t _ _ Ho Hg) by done; by rewrite <- !app_assoc).
    rewrite app_nil_r. pose proof (writer_stream t ch _ p p' _ h' c Hs Hp) as Heq.
    match type of Hs with writer ?d _ => destruct (decide (d = c)) as [->|Hdc] end.
    + destruct (flights_owner s c t _ (Writing c p') Ho Hg eq_refl) as [-> ->]. exact Heq.
    + destruct (writer_others t ch _ p p' _ h' c Hs Hp Hdc) as ([H1 H2] & Hh & Hq).
      by rewrite (flights_same s c t _ _ Ho Hg), Hh, Hq by congruence.
  - rewrite app_nil_r. destruct (sy_threads s !! t) as [g|] eqn:Hg; [|done]. cbn [mbind option_bind] in Hm.
    repeat case_match; simplify_eq; simpl;
      try (by rewrite (flights_same s c t _ _ Ho Hg)); try (by rewrite (flights_end s c t _ Ho Hg)).
    match goal with Hf : fresh_thread _ _ = true |- _ => apply bool_decide_eq_true in Hf end.
    match type of Hg with _ = Some (Starting ?d _) =>
      pose proof (orderly_resume s t _ (Reading d (read_round P d)) (sy_hub s) Ho Hg
        (read_round_quiet P d) (fun _ => False_ind _) (fun _ H => H)) as Ho1 end.
    rewrite (flights_start _ c t' _ Ho1); [|simpl; by rewrite lookup_insert_ne by congruence|done].
    simpl. by rewrite (flights_same s c t _ _ Ho Hg).
Qed.

Lemma moves_stream P l s s' c :
  interleaving P s -> moves P l s = Some s' -> exists new, stream s' c = stream s c ++ new.
Proof.
  revert s. induction l as [|m l IH]; intros s Hs; simpl.
  - intros [= ->]. exists []. by rewrite app_nil_r.
  - destruct (move P m s) as [s1|] eqn:Hm; [|done]. cbn [mbind option_bind]. intros Hl.
    destruct (IH s1) as [new Hnew]; [by eapply interleaving_move|done|].
    rewrite Hnew, (move_stream P m s s1 c) by (try done; by eapply interleaving_orderly).
    eexists. by rewrite <- app_assoc.
Qed.

(** ** Deliveries *)

Definition payload_of (d : Delivery) : bytes :=
  match d with Broadcast _ payload | SendToUser _ payload => payload end.
Definition audience (d : Delivery) (h : Hub) : gset cid :=
  match d with
  | Broadcast roomID _ => default ∅ (hb_rooms h !! roomID)
  | SendToUser userID _ => default ∅ (hb_users h !! userID)
  end.

(** Run from here, when the clients in [S] are served, [p] ends when those in [T] are: it has
    put [m] into their channels or closed them. *)
Fixpoint serves (m : outboundMessage) {A} (p : proc A) (S : gset cid) (T : A -> gset cid -> Prop) : Prop :=
  match p with
  | Return a => T a S
  | Act a k =>
      match a in action R return (R -> gset cid -> Prop) -> Prop with
      | try_send c m' => fun K =>
          forall b : bool, K b (if b && bool_decide (m' = m) then {[c]} ∪ S else S)
      | close_send c => fun K => K tt ({[c]} ∪ S)
      | once_enter c => fun K => forall b : bool, K b (if b then S else {[c]} ∪ S)
      | _ => fun K => forall r, K r S
      end (fun r S => serves m (k r) S T)
  end.

Lemma serves_mono m {A} (p : proc A) S S' (T T' : A -> gset cid -> Prop) :
  (forall a S S', S ⊆ S' -> T a S -> T' a S') -> S ⊆ S' -> serves m p S T -> serves m p S' T'.
Proof.
  intros HT. revert S S'. induction p as [a|R a k IH]; intros S S' HS; simpl; [by apply HT|].
  destruct a; simpl; try (intros Hp r; by eapply IH, Hp).
  - intros Hp b. eapply IH, Hp. destruct (b && _); set_solver.
  - apply IH. set_solver.
  - intros Hp b. eapply IH, Hp. destruct b; set_solver.
Qed.

Lemma serves_seq m {A B} (p : proc A) (k : A -> proc B) S T :
  serves m p S (fun a S => serves m (k a) S T) -> serves m (seq_proc p k) S T.
Proof.
  revert S. induction p as [a|R a k' IH]; intros S; simpl; [done|].
  destruct a; simpl; intros Hp; try (intros r; by apply IH, Hp). by apply IH.
Qed.

Lemma Close_serves m c S : serves m (Close c) S (fun _ S' => {[c]} ∪ S ⊆ S').
Proof. intros [|]; simpl; [|done]. intros n. destruct (0 <? n)%nat; simpl; repeat intros _; intros; set_solver. Qed.

Lemma close_all_serves m slow S : serves m (close_all slow) S (fun _ S' => list_to_set slow ∪ S ⊆ S').
Proof.
  revert S. induction slow as [|c slow IH]; intros S; cbn [close_all]; [simpl; set_solver|].
  apply serves_seq. eapply serves_mono; [|reflexivity|apply Close_serves]. simpl. intros _ S1 S2 H12 H1.
  eapply serves_mono; [|reflexivity|apply IH]. simpl. set_solver.
Qed.

Lemma enqueue_all_serves payload ty clients S :
  serves {| om_payload := payload; om_messageType := ty |} (enqueue_all payload ty clients) S
    (fun slow S' => S ⊆ S' /\ forall c, c ∈ clients -> c ∈ S' \/ c ∈ slow).
Proof.
  revert S. induction clients as [|c clients IH]; intros S; cbn [enqueue_all].
  - split; [done|]. intros c Hc. by apply elem_of_nil in Hc.
  - apply serves_seq. intros b. rewrite (bool_decide_true (_ = _)), andb_true_r by done.
    cbn beta. apply serves_seq.
    eapply serves_mono; [|reflexivity|apply IH]. intros slow S1 S2 H12 [H1 Hc]. simpl.
    split; [destruct b; set_solver|]. intros d [->|Hd]%elem_of_cons.
    + destruct b; [left; set_solver|right; by left].
    + destruct (Hc d Hd) as [Hin|Hin]; [left; set_solver|right]. destruct b; [done|by right].
Qed.

(** After the clients are listed. *)
Lemma deliver_serves payload clients S :
  serves (event_message payload)
    (slow <~ enqueue_all payload (extractMessageType payload) clients; close_all slow) S
    (fun _ S' => list_to_set clients ⊆ S').
Proof.
  apply serves_seq. eapply serves_mono; [|reflexivity|apply enqueue_all_serves].
  intros slow S1 S2 H12 [_ Hc]. eapply serves_mono; [|reflexivity|apply close_all_serves]. simpl.
  intros _ S3 S4 H34 H3 c Hin. apply elem_of_list_to_set in Hin. apply H34, H3.
  destruct (Hc c Hin) as [H1|H1]; [set_solver|]. apply elem_of_union. left. by apply elem_of_list_to_set.
Qed.

(** In [s], what [m] was to do for [c] since [s0]. *)
Definition served (m : outboundMessage) (s0 s : System) (c : cid) : Prop :=
  closed (sy_hub s) c \/ exists new, stream s c = stream s0 c ++ new /\ m ∈ new.

Lemma move_closed P m s s' c : move P m s = Some s' -> closed (sy_hub s) c -> closed (sy_hub s') c.
Proof.
  intros Hm Hc. destruct m as [t d user|t d|t ch|t t']; cbn [move] in Hm.
  - case_match eqn:Hf; simplify_eq. apply andb_true_iff in Hf as [_ Hf%bool_decide_eq_true].
    destruct Hc as (x & Hx & Hcl). exists x. simpl. rewrite lookup_insert_ne; [done|congruence].
  - case_match; simplify_eq. exact Hc.
  - destruct (sy_threads s !! t) as [g|] eqn:Hg; [|done]. cbn [mbind option_bind] in Hm.
    destruct g; (destruct p as [a|R a k]; [done|]); cbn [proceed] in Hm;
      (destruct (act t ch a (sy_hub s)) as [[r h1]|] eqn:Ha; simplify_eq/=); by eapply act_closed.
  - destruct (sy_threads s !! t) as [g|] eqn:Hg; [|done]. cbn [mbind option_bind] in Hm.
    repeat case_match; simplify_eq; exact Hc.
Qed.

Lemma move_served P mv m s0 s s' c :
  orderly s -> move P mv s = Some s' -> served m s0 s c -> served m s0 s' c.
Proof.
  intros Ho Hm [Hc|(new & Hs & Hin)]; [left; by eapply move_closed|right].
  rewrite (move_stream P mv s s' c Ho Hm), Hs. exists (new ++ given c mv s).
  split; [by rewrite app_assoc|]. apply elem_of_app. by left.
Qed.

(** A goroutine goes on only by its own moves. *)
Lemma move_thread P m s s' t g :
  sy_threads s !! t = Some g -> move P m s = Some s' -> (forall t', m <> Next t t') -> (forall ch, m <> Go t ch) ->
  sy_threads s' !! t = Some g.
Proof.
  intros Hg Hm Hn Hgo. destruct m as [t1 d user|t1 d|t1 ch|t1 t']; cbn [move] in Hm.
  - case_match eqn:Hf; simplify_eq. apply andb_true_iff in Hf as [Hf%bool_decide_eq_true _].
    simpl. rewrite lookup_insert_ne; [done|congruence].
  - case_match eqn:Hf; simplify_eq. apply bool_decide_eq_true in Hf.
    simpl. rewrite lookup_insert_ne; [done|congruence].
  - assert (t1 <> t) as Hne by (intros ->; by destruct (Hgo ch)).
    destruct (sy_threads s !! t1) as [g1|] eqn:Hg1; [|done]. cbn [mbind option_bind] in Hm.
    destruct g1; (destruct (proceed _ _ _ _) as [[p' h']|] eqn:Hp; simplify_eq/=); by rewrite lookup_insert_ne.
  - assert (t1 <> t) as Hne by (intros ->; by destruct (Hn t')).
    destruct (sy_threads s !! t1) as [g1|] eqn:Hg1; [|done]. cbn [mbind option_bind] in Hm.
    repeat case_match; simplify_eq; simpl; rewrite ?lookup_insert_ne, ?lookup_delete_ne by done; try done.
    match goal with Hf : fresh_thread _ _ = true |- _ => apply bool_decide_eq_true in Hf end.
    rewrite !lookup_insert_ne by congruence. done.
Qed.

Lemma close_send_closed t ch c h h1 : act t ch (close_send c) h = Some (tt, h1) -> closed h1 c.
Proof.
  intros Ha. acted Ha; [by exists cl|]. eexists. simpl. by rewrite lookup_insert_eq.
Qed.

(** A [Close] that finds the Once done finds the channel closed. *)
Lemma once_ran_closed t ch c h h1 : fine h -> act t ch (once_enter c) h = Some (false, h1) -> closed h1 c.
Proof. intros Hf Ha. acted Ha. exists cl. split; [done|]. by apply (closed_once h1 Hf c cl). Qed.

(** One action of a delivery. *)
Lemma deliver_step P ch t m s0 s s' p S T :
  well s -> orderly s -> sy_threads s !! t = Some (Delivering p) ->
  move P (Go t ch) s = Some s' -> (forall c, exists new, stream s c = stream s0 c ++ new) ->
  (forall c, c ∈ S -> served m s0 s c) -> serves m p S T ->
  exists p' S', sy_threads s' !! t = Some (Delivering p') /\ (forall c, c ∈ S' -> served m s0 s' c) /\ serves m p' S' T.
Proof.
  intros [Hf _] Ho Hg Hm Hold HS Hp.
  assert (forall c, c ∈ S -> served m s0 s' c) as HS' by (intros c Hc; eapply move_served; eauto).
  assert (forall c, stream s' c = stream s c ++ given c (Go t ch) s) as Hstr by (intros c; by eapply move_stream).
  cbn [move given] in Hm, Hstr. rewrite Hg in Hm, Hstr. cbn [mbind option_bind] in Hm.
  destruct p as [a|R a k]; [done|]. cbn [proceed accepted serves] in *.
  destruct (act t ch a (sy_hub s)) as [[r h1]|] eqn:Ha; simplify_eq/=.
  cut (exists S', (forall c, c ∈ S' -> served m s0 (resume t (Delivering (k r)) h1 s) c) /\ serves m (k r) S' T).
  { intros (S' & H1 & H2). exists (k r), S'. by rewrite lookup_insert_eq. }
  destruct a; try (exists S; split; [exact HS'|exact (Hp r)]).
  - specialize (Hp r). eexists. split; [|exact Hp]. destruct (r && bool_decide (m0 = m)) eqn:Hr; [|exact HS'].
    apply andb_true_iff in Hr as [-> ->%bool_decide_eq_true].
    intros d [->%elem_of_singleton|Hd]%elem_of_union; [|by apply HS'].
    right. destruct (Hold c) as [old Hc]. exists (old ++ [m]). rewrite Hstr, Hc. simpl. rewrite bool_decide_true by done.
    split; [by rewrite app_assoc|]. apply elem_of_app. right. by left.
  - destruct r. eexists. split; [|exact Hp]. intros d [->%elem_of_singleton|Hd]%elem_of_union; [|by apply HS'].
    left. by eapply close_send_closed.
  - specialize (Hp r). eexists. split; [|exact Hp]. destruct r; [exact HS'|].
    intros d [->%elem_of_singleton|Hd]%elem_of_union; [|by apply HS'].
    left. by eapply once_ran_closed.
Qed.

Lemma deliver_runs P l t m s0 s s' p S T :
  interleaving P s -> sy_threads s !! t = Some (Delivering p) -> moves P l s = Some s' ->
  (forall t', Next t t' ∉ l) -> (forall c, exists new, stream s c = stream s0 c ++ new) ->
  (forall c, c ∈ S -> served m s0 s c) -> serves m p S T ->
  exists p' S', sy_threads s' !! t = Some (Delivering p') /\ (forall c, c ∈ S' -> served m s0 s' c) /\ serves m p' S' T.
Proof.
  revert s p S. induction l as [|mv l IH]; intros s p S Hs Hg; simpl.
  { intros [= ->] _ _ HS Hp. by exists p, S. }
  destruct (move P mv s) as [s1|] eqn:Hm; [|done]. cbn [mbind option_bind]. intros Hl Hn Hold HS Hp.
  pose proof (interleaving_orderly P s Hs) as Ho.
  assert (forall c, exists new, stream s1 c = stream s0 c ++ new) as Hold1.
  { intros c. destruct (Hold c) as [old Hc]. rewrite (move_stream P mv s s1 c Ho Hm), Hc.
    eexists. by rewrite <- app_assoc. }
  assert (interleaving P s1) as Hs1 by by eapply interleaving_move.
  assert (forall t', Next t t' ∉ l) as Hn' by (intros t' Hin; apply (Hn t'); by right).
  assert ((exists ch, mv = Go t ch) \/ forall ch, mv <> Go t ch) as [[ch ->]|Hother].
  { destruct mv as [| |t1 ch|]; try (right; congruence). destruct (decide (t1 = t)) as [->|]; [left; by exists ch|right; congruence]. }
  - destruct (deliver_step P ch t m s0 s s1 p S T) as (p' & S' & Hg' & HS' & Hp'); eauto using interleaving_well.
  - eapply (IH s1 p S); try done.
    + eapply move_thread; [done..| |done]. intros t' ->. apply (Hn t'). by left.
    + intros c Hc. eapply move_served; eauto.
Qed.

(** Listing the clients. *)
Lemma listing_step P ch t d s s1 :
  sy_threads s !! t = Some (Delivering (deliver d)) -> move P (Go t ch) s = Some s1 ->
  exists clients, list_to_set clients = audience d (sy_hub s) /\
    sy_threads s1 !! t = Some (Delivering (slow <~ enqueue_all (payload_of d)
      (extractMessageType (payload_of d)) clients; close_all slow)).
Proof.
  intros Hg Hm. cbn [move] in Hm. rewrite Hg in Hm.
  destruct d as [k payload|k payload]; cbn [deliver seq_proc do mbind option_bind proceed act] in Hm;
    (destruct (listed ch _) as [clients|] eqn:Hl; simplify_eq/=); exists clients;
    rewrite lookup_insert_eq; (split; [|done]);
    unfold listed in Hl; (case_match eqn:Hb; [|done]); simplify_eq;
    by apply andb_true_iff in Hb as [_ Hb%bool_decide_eq_true].
Qed.

Lemma first_listing P l t d s s' :
  interleaving P s -> sy_threads s !! t = Some (Delivering (deliver d)) -> moves P l s = Some s' ->
  (forall t', Next t t' ∉ l) -> sy_threads s' !! t = Some (Delivering (Return tt)) ->
  exists l1 ch l2 s1, l = l1 ++ Go t ch :: l2 /\ (forall ch', Go t ch' ∉ l1) /\ moves P l1 s = Some s1 /\
    interleaving P s1 /\ sy_threads s1 !! t = Some (Delivering (deliver d)) /\ moves P (Go t ch :: l2) s1 = Some s'.
Proof.
  revert s. induction l as [|mv l IH]; intros s Hs Hg.
  { intros [= ->] _ Hend. rewrite Hg in Hend. by destruct d. }
  intros Hl Hn Hend. assert ((exists ch, mv = Go t ch) \/ forall ch, mv <> Go t ch) as [[ch ->]|Hother].
  { destruct mv as [| |t1 ch|]; try (right; congruence). destruct (decide (t1 = t)) as [->|]; [left; by exists ch|right; congruence]. }
  - exists [], ch, l, s. split_and!; try done. intros ch'. apply not_elem_of_nil.
  - simpl in Hl. destruct (move P mv s) as [s0|] eqn:Hm; [|done]. cbn [mbind option_bind] in Hl.
    destruct (IH s0) as (l1 & ch & l2 & s1 & -> & Hno & Hl1 & Hrest).
    + by eapply interleaving_move.
    + eapply move_thread; [done..| |done]. intros t' ->. apply (Hn t'). by left.
    + done.
    + intros t' Hin. apply (Hn t'). by right.
    + done.
    + exists (mv :: l1), ch, l2, s1. split; [done|]. split; [|split; [|exact Hrest]; simpl; by rewrite Hm].
      intros ch' [Heq|Hin]%elem_of_cons; [by apply (Hother ch')|by apply (Hno ch')].
Qed.

(** C29. Whatever other goroutines do meanwhile - readers, writers, closings, connections and
    other deliveries -, when Broadcast or SendToUser has returned, every client that was in
    the room, or of the user, when the clients were listed has been given the message, after
    what it was given before, or its channel is closed.  What a client is given is
    never reordered, dropped or repeated: what was handed to its websocket, what its writer
    holds and what waits in its channel together only grow at the end. *)
Theorem deliveries_reach_their_audience P l t d s s' :
  interleaving P s -> sy_threads s !! t = Some (Delivering (deliver d)) ->
  moves P l s = Some s' -> (forall t', Next t t' ∉ l) ->
  sy_threads s' !! t = Some (Delivering (Return tt)) ->
  (forall c, exists new, stream s' c = stream s c ++ new) /\
  exists l1 ch l2 s1, l = l1 ++ Go t ch :: l2 /\ (forall ch', Go t ch' ∉ l1) /\ moves P l1 s = Some s1 /\
    forall c, c ∈ audience d (sy_hub s1) ->
      closed (sy_hub s') c \/
      exists new, stream s' c = stream s1 c ++ new /\ event_message (payload_of d) ∈ new.
Proof.
  intros Hs Hg Hl Hn Hend. split; [intros c; by eapply moves_stream|].
  destruct (first_listing P l t d s s' Hs Hg Hl Hn Hend) as (l1 & ch & l2 & s1 & -> & Hno & Hl1 & Hs1 & Hg1 & Hl2).
  exists l1, ch, l2, s1. split; [done|]. split; [done|]. split; [done|]. cbn [moves] in Hl2.
  destruct (move P (Go t ch) s1) as [s2|] eqn:Hm; [|done]. cbn [mbind option_bind] in Hl2.
  destruct (listing_step P ch t d s1 s2 Hg1 Hm) as (clients & Hc & Hg2).
  destruct (deliver_runs P l2 t (event_message (payload_of d)) s1 s2 s'
    (slow <~ enqueue_all (payload_of d) (extractMessageType (payload_of d)) clients; close_all slow)
    ∅ (fun _ S' => list_to_set clients ⊆ S')) as (p' & S' & Hg' & HS' & Hp').
  - by eapply interleaving_move.
  - exact Hg2.
  - done.
  - intros t' Hin. apply (Hn t'). apply elem_of_app. right. by right.
  - intros c. eexists. apply (move_stream P (Go t ch)); [by eapply interleaving_orderly|done].
  - set_solver.
  - apply deliver_serves.
  - rewrite Hend in Hg'. injection Hg' as <-. intros c Hin. apply HS', Hp'. by rewrite Hc.
Qed.

(** User 2 follows room 10 with client 7; a slot is booked there. *)
Definition following : list Move :=
  connected ++ [Go 0 (says (subscribe_to 10))] ++ replicate 4 (Go 0 silent) ++ [Next 0 9].
Definition starting : System :=
  resume 2 (Delivering (deliver (Broadcast 10 booked)))
    (announced (Broadcast 10 booked) (sy_hub (reached following))) (reached following).
Definition of_delivery : list Move :=
  [Go 1 (lets []); Go 2 (lets [7%N]); Go 1 (lets []); Go 2 (lets [])].
Definition finished : System := default starting (moves sample of_delivery starting).

Lemma starting_interleaving : interleaving sample starting.
Proof.
  eapply (interleaving_move _ (reached following) (Arrive 2 (Broadcast 10 booked))).
  - apply runs_interleaving. by vm_compute.
  - cbn [move]. assert (fresh_thread 2 (reached following) = true) as -> by by vm_compute. done.
Qed.

Lemma moves_finished : moves sample of_delivery starting = Some finished.
Proof.
  unfold finished. destruct (moves sample of_delivery starting) as [s|] eqn:Hs; [done|].
  assert ((if moves sample of_delivery starting then true else false) = true) as Ht by by vm_compute.
  by rewrite Hs in Ht.
Qed.

Lemma deliveries_reach_their_audience_witness :
  om_messageType <$> stream starting 7 = [MessageTypeSubscribed] /\
  om_messageType <$> stream finished 7 = [MessageTypeSubscribed; "slot_booked"%string] /\
  exists s1, audience (Broadcast 10 booked) (sy_hub s1) = {[7%N]} /\
    forall c, c ∈ audience (Broadcast 10 booked) (sy_hub s1) ->
      closed (sy_hub finished) c \/
      exists new, stream finished c = stream s1 c ++ new /\ event_message booked ∈ new.
Proof.
  split; [by vm_compute|]. split; [by vm_compute|].
  destruct (deliveries_reach_their_audience sample of_delivery 2 (Broadcast 10 booked) starting finished)
    as (_ & l1 & ch & l2 & s1 & Hl & Hno & Hl1 & Hs1).
  - exact starting_interleaving.
  - apply lookup_insert_eq.
  - exact moves_finished.
  - intros t' Hin. unfold of_delivery in Hin. set_solver.
  - by vm_compute.
  - exists s1. split; [|exact Hs1].
    assert (l1 = [Go 1 (lets [])]) as ->.
    { destruct l1 as [|m1 [|m2 l1]]; [discriminate Hl| |]; injection Hl as <-; [done|].
      destruct (Hno (lets [7%N])). right. subst m2. left. }
    assert (match moves sample [Go 1 (lets [])] starting with
      | Some s1 => audience (Broadcast 10 booked) (sy_hub s1) = {[7%N]}
      | None => False
      end) as Ha by by vm_compute.
    rewrite Hl1 in Ha. exact Ha.
Defined.
