(* ===== verification/Observability.v ===== *)
(** * Observability: metrics.go, logger.go and the middleware that observes requests

    The registry of the Prometheus client, the functions of internal/observability/metrics
    that write it, and the middlewares recovery.go, metrics.go and request_logger.go of
    internal/transport/http/middleware around a handler: what is counted, what is logged, and
    what the client gets.  The times the middlewares measure and the route pattern that chi
    has matched are arguments. *)

From Stdlib Require Import Ascii.
From S2P Require Import Prelude Domain GoStd Text Json Platform Database Program Postgres Schema Usecase.
From S2P Require Import Response Handlers Http.

(** ** The registry *)

Inductive metric :=
| httpRequestsTotal | httpRequestDurationSeconds
| bookingCreatedTotal | bookingCancelledTotal | bookingConflictsTotal
| bookingCreateErrorsTotal | bookingCancelErrorsTotal
| wsConnectionsCurrent | wsMessagesSentTotal | wsSubscriptionsCurrent
| redisRealtimePublishTotal | redisRealtimeEventsReceivedTotal
| redisRealtimeSubscriberReconnectsTotal
| waitlistJoinedTotal | waitlistNotificationsTotal | waitlistCancelledTotal
| reservationsCreatedTotal | reservationsConfirmedTotal | reservationsExpiredTotal
| reservationsCancelledTotal.

#[global] Instance metric_eq_dec : EqDecision metric.
Proof. solve_decision. Defined.

Definition metric_name (m : metric) : string :=
  match m with
  | httpRequestsTotal => "http_requests_total"
  | httpRequestDurationSeconds => "http_request_duration_seconds"
  | bookingCreatedTotal => "booking_created_total"
  | bookingCancelledTotal => "booking_cancelled_total"
  | bookingConflictsTotal => "booking_conflicts_total"
  | bookingCreateErrorsTotal => "booking_create_errors_total"
  | bookingCancelErrorsTotal => "booking_cancel_errors_total"
  | wsConnectionsCurrent => "ws_connections_current"
  | wsMessagesSentTotal => "ws_messages_sent_total"
  | wsSubscriptionsCurrent => "ws_subscriptions_current"
  | redisRealtimePublishTotal => "redis_realtime_publish_total"
  | redisRealtimeEventsReceivedTotal => "redis_realtime_events_received_total"
  | redisRealtimeSubscriberReconnectsTotal => "redis_realtime_subscriber_reconnects_total"
  | waitlistJoinedTotal => "waitlist_joined_total"
  | waitlistNotificationsTotal => "waitlist_notifications_total"
  | waitlistCancelledTotal => "waitlist_cancelled_total"
  | reservationsCreatedTotal => "reservations_created_total"
  | reservationsConfirmedTotal => "reservations_confirmed_total"
  | reservationsExpiredTotal => "reservations_expired_total"
  | reservationsCancelledTotal => "reservations_cancelled_total"
  end.

Definition all_metrics : list metric :=
  [httpRequestsTotal; httpRequestDurationSeconds; bookingCreatedTotal; bookingCancelledTotal;
   bookingConflictsTotal; bookingCreateErrorsTotal; bookingCancelErrorsTotal;
   wsConnectionsCurrent; wsMessagesSentTotal; wsSubscriptionsCurrent; redisRealtimePublishTotal;
   redisRealtimeEventsReceivedTotal; redisRealtimeSubscriberReconnectsTotal; waitlistJoinedTotal;
   waitlistNotificationsTotal; waitlistCancelledTotal; reservationsCreatedTotal;
   reservationsConfirmedTotal; reservationsExpiredTotal; reservationsCancelledTotal].

Definition metric_labels (m : metric) : list string :=
  match m with
  | httpRequestsTotal | httpRequestDurationSeconds => ["method"; "path"; "status"]
  | wsMessagesSentTotal => ["type"]
  | redisRealtimePublishTotal | redisRealtimeEventsReceivedTotal => ["type"; "result"]
  | _ => []
  end.

(** The values of the counters and gauges by metric name and label values, and the
    observations of the histogram, latest first. *)
Record Registry := {
  rg_values : gmap (string * list string) Z;
  rg_observations : gmap (string * list string) (list Duration) }.

Definition empty_registry : Registry := {| rg_values := ∅; rg_observations := ∅ |}.

(** [promauto] panics when a name is registered twice. *)
Lemma metric_names_differ : NoDup (metric_name <$> all_metrics).
Proof. apply (bool_decide_unpack _). by vm_compute. Qed.

Definition value (m : metric) (lvs : list string) (r : Registry) : Z :=
  default 0%Z (rg_values r !! (metric_name m, lvs)).

(** [m.WithLabelValues(lvs...).Add(n)]; [None] is the panic for a wrong number of values. *)
Definition add (m : metric) (lvs : list string) (n : Z) (r : Registry) : option Registry :=
  if bool_decide (length lvs = length (metric_labels m))
  then Some {| rg_values := <[(metric_name m, lvs) := (value m lvs r + n)%Z]> (rg_values r);
               rg_observations := rg_observations r |}
  else None.

Definition observe_duration (m : metric) (lvs : list string) (d : Duration) (r : Registry) : option Registry :=
  if bool_decide (length lvs = length (metric_labels m))
  then Some {| rg_values := rg_values r;
               rg_observations := <[(metric_name m, lvs) :=
                 d :: default [] (rg_observations r !! (metric_name m, lvs))]> (rg_observations r) |}
  else None.

(** ** The functions of metrics.go *)

Definition metric_op : Type := Registry -> option Registry.
Definition Inc (m : metric) : metric_op := add m [] 1.

(** [strconv.Itoa]. *)
Definition Itoa (n : Z) : string := string_of (FormatInt n).

Definition ObserveHTTPRequest (method path : string) (status : Z) (duration : Duration) : metric_op := fun r =>
  r ← add httpRequestsTotal [method; path; Itoa status] 1 r;
  observe_duration httpRequestDurationSeconds [method; path; Itoa status] duration r.

Definition sanitizeLabel (value fallback : string) : string :=
  if bool_decide (value = EmptyString) then fallback else value.

(** [BookingUsecaseMetrics], [ReservationUsecaseMetrics] and the functions of the package that
    the use cases call. *)
Definition IncCounter (c : Counter) : metric_op :=
  match c with
  | BookingCreated => Inc bookingCreatedTotal
  | BookingCancelled => Inc bookingCancelledTotal
  | BookingConflict => Inc bookingConflictsTotal
  | BookingCreateError => Inc bookingCreateErrorsTotal
  | BookingCancelError => Inc bookingCancelErrorsTotal
  | WaitlistJoined => Inc waitlistJoinedTotal
  | WaitlistNotification => Inc waitlistNotificationsTotal
  | WaitlistCancelled => Inc waitlistCancelledTotal
  | ReservationCreated => Inc reservationsCreatedTotal
  | ReservationConfirmed => Inc reservationsConfirmedTotal
  | ReservationExpired => Inc reservationsExpiredTotal
  | ReservationCancelled => Inc reservationsCancelledTotal
  end.

Definition IncWSConnections : metric_op := Inc wsConnectionsCurrent.
Definition DecWSConnections : metric_op := add wsConnectionsCurrent [] (-1).
Definition AddWSSubscriptions (delta : Z) : metric_op := add wsSubscriptionsCurrent [] delta.
Definition IncWSMessageSent (messageType : string) : metric_op :=
  add wsMessagesSentTotal [sanitizeLabel messageType "unknown"] 1.
Definition IncRedisRealtimePublish (eventType result : string) : metric_op :=
  add redisRealtimePublishTotal [sanitizeLabel eventType "unknown"; sanitizeLabel result "unknown"] 1.
Definition IncRedisRealtimeEventReceived (eventType result : string) : metric_op :=
  add redisRealtimeEventsReceivedTotal [sanitizeLabel eventType "unknown"; sanitizeLabel result "unknown"] 1.
Definition IncRedisRealtimeSubscriberReconnect : metric_op := Inc redisRealtimeSubscriberReconnectsTotal.

(** No function of the package panics for its labels. *)
Lemma add_ok m lvs n r : length lvs = length (metric_labels m) -> is_Some (add m lvs n r).
Proof. intros Hl. unfold add. rewrite bool_decide_true by done. by eexists. Qed.

(** ** logger.go *)

Inductive Level := LevelDebug | LevelInfo | LevelWarn | LevelError.
Inductive LogHandler := TextHandler | JSONHandler.

Definition parseLevel (P : Platform) (level : bytes) : Level :=
  let level := ToLower P (TrimSpace level) in
  if bool_decide (level = bytes_of "debug") then LevelDebug
  else if bool_decide (level = bytes_of "warn" \/ level = bytes_of "warning") then LevelWarn
  else if bool_decide (level = bytes_of "error") then LevelError
  else LevelInfo.

Definition lower (c : ascii) : ascii :=
  let n := N_of_ascii c in if (65 <=? n)%N && (n <=? 90)%N then ascii_of_N (n + 32) else c.

(** [strings.EqualFold] with a text of lower-case letters none of which folds to a letter
    outside ASCII. *)
Definition EqualFold (s : bytes) (t : string) : bool := bool_decide (lower <$> s = bytes_of t).

(** [logging.New]. *)
Definition New (P : Platform) (env level : bytes) : LogHandler * Level :=
  (if EqualFold env "dev" || EqualFold env "local" then TextHandler else JSONHandler,
   parseLevel P level).

(** ** What a handler does to its writer *)

Inductive writer_call :=
| WriteHeader (code : Z)
(** [n] bytes are accepted. *)
| Write (n : nat)
(** The connection is taken over, as [websocket.Upgrader.Upgrade] does, and the handler itself
    sends a response with status [code] on it. *)
| Hijack (code : Z).

(** A handler: its calls, and whether it panics after them. *)
Record Outcome := {
  oc_calls : list writer_call;
  oc_panic : bool }.

(** [net/http]: the first final header, explicit or implied, is the one that is sent; what is
    written to a hijacked connection is dropped. *)
Definition sent_status (calls : list writer_call) : Z :=
  match calls with
  | WriteHeader code :: _ | Hijack code :: _ => code
  | _ => 200
  end.

Record statusRecorder := {
  sr_status : Z;
  sr_bytes : nat }.

Definition record (r : statusRecorder) (c : writer_call) : statusRecorder :=
  match c with
  | WriteHeader code => {| sr_status := code; sr_bytes := sr_bytes r |}
  | Write n => {| sr_status := if (sr_status r =? 0)%Z then 200 else sr_status r;
                  sr_bytes := sr_bytes r + n |}
  | Hijack _ => r
  end.

Definition recorded (calls : list writer_call) : statusRecorder :=
  fold_left record calls {| sr_status := 0; sr_bytes := 0 |}.

Definition Status (r : statusRecorder) : Z := if (sr_status r =? 0)%Z then 200 else sr_status r.

(** [response.WriteJSON] and [response.WriteError]. *)
Definition written (r : Response) : list writer_call :=
  [WriteHeader (rp_status r); Write (length (wire r))].

(** ** The middlewares *)

(** The clock readings of the middlewares. *)
Inductive reading := RecoveryMetric | RecoveryLog | MetricsReading | LoggerReading.

(** What the observers learn of a request. *)
Record Seen := {
  sn_Method : string;
  sn_URLPath : string;
  (** [chi.RouteContext(r.Context()).RoutePattern()]. *)
  sn_RoutePattern : string;
  sn_RemoteAddr : string;
  sn_RequestID : bytes;
  sn_elapsed : reading -> Duration }.

Definition path_or (fallback : string) (s : Seen) : string :=
  if bool_decide (sn_RoutePattern s = EmptyString) then fallback else sn_RoutePattern s.

Inductive log_level := InfoLog | ErrorLog.
Record LogEntry := {
  le_level : log_level;
  le_message : string;
  le_method : string;
  le_path : string;
  le_status : Z;
  le_duration : Duration;
  le_remote_addr : string;
  le_request_id : bytes;
  (** "bytes" of http_request. *)
  le_bytes : option nat;
  le_user_id : option uuid }.

(** What came out of a handler, with the calls of [ObserveHTTPRequest] and the log. *)
Record Observed := {
  ob_outcome : Outcome;
  ob_requests : list (string * string * Z * Duration);
  ob_log : list LogEntry }.

Definition handled (o : Outcome) : Observed := {| ob_outcome := o; ob_requests := []; ob_log := [] |}.

Definition HTTPMetrics (s : Seen) (x : Observed) : Observed :=
  let o := ob_outcome x in
  if oc_panic o then x
  else
    {| ob_outcome := o;
       ob_requests := ob_requests x ++
         [(sn_Method s, path_or "unknown" s, Status (recorded (oc_calls o)), sn_elapsed s MetricsReading)];
       ob_log := ob_log x |}.

(** [user] is what [UserFromContext] finds in the request that the logger was handed. *)
Definition RequestLogger (user : option uuid) (s : Seen) (x : Observed) : Observed :=
  let o := ob_outcome x in
  let recorder := recorded (oc_calls o) in
  let path := path_or (sn_URLPath s) s in
  if oc_panic o then x
  else if bool_decide (path = "/metrics"%string) then x
  else
    {| ob_outcome := o; ob_requests := ob_requests x;
       ob_log := ob_log x ++
         [{| le_level := InfoLog; le_message := "http_request"; le_method := sn_Method s;
             le_path := path; le_status := Status recorder; le_duration := sn_elapsed s LoggerReading;
             le_remote_addr := sn_RemoteAddr s; le_request_id := sn_RequestID s;
             le_bytes := Some (sr_bytes recorder); le_user_id := user |}] |}.

Definition internal_server_error : Response :=
  WriteError (NewDomainError ErrorInternalError "internal server error").

(** [user] as for the logger, but in the request that [Recovery] was handed. *)
Definition Recovery (user : option uuid) (s : Seen) (x : Observed) : Observed :=
  let o := ob_outcome x in
  if negb (oc_panic o) then x
  else
    let recorder := recorded (oc_calls o) in
    let path := path_or (sn_URLPath s) s in
    let calls := oc_calls o ++
      (if (sr_status recorder =? 0)%Z && (sr_bytes recorder =? 0)%nat then written internal_server_error
       else if (sr_status recorder =? 0)%Z then [WriteHeader 500]
       else []) in
    let status := Status (recorded calls) in
    {| ob_outcome := {| oc_calls := calls; oc_panic := false |};
       ob_requests := ob_requests x ++ [(sn_Method s, path, status, sn_elapsed s RecoveryMetric)];
       ob_log := ob_log x ++
         [{| le_level := ErrorLog; le_message := "http_panic"; le_method := sn_Method s;
             le_path := path; le_status := status; le_duration := sn_elapsed s RecoveryLog;
             le_remote_addr := sn_RemoteAddr s; le_request_id := sn_RequestID s;
             le_bytes := None; le_user_id := user |}] |}.

(** [CORS] answers OPTIONS itself. *)
Definition CORS (s : Seen) (next : Observed) : Observed :=
  if bool_decide (sn_Method s = "OPTIONS"%string)
  then handled {| oc_calls := [WriteHeader 204]; oc_panic := false |} else next.

(** [RequireUser]: what it refuses goes no further, and the user it has found is in the
    context of the request it hands on, not in that of the request it was handed. *)
Definition RequireUser (check : Response + uuid) (next : option uuid -> Observed) : Observed :=
  match check with
  | inl r => handled {| oc_calls := written r; oc_panic := false |}
  | inr user => next (Some user)
  end.

(** Where chi sends a request: to a handler of the public group, to one of the group with
    [RequireUser], or to its own handler for paths and methods without route. *)
Inductive routed :=
| Public (h : Outcome)
| Protected (check : Response + uuid) (h : Outcome)
| Unrouted (h : Outcome).

Definition dispatch (s : Seen) (x : routed) : Observed :=
  match x with
  | Public h => RequestLogger None s (handled h)
  | Protected check h => RequireUser check (fun user => RequestLogger user s (handled h))
  | Unrouted h => handled h
  end.

(** The chain of server.go. *)
Definition chain (s : Seen) (x : routed) : Observed :=
  Recovery None s (HTTPMetrics s (CORS s (dispatch s x))).

(** ** What the recorder knows *)

(** A handler that sets a final status once, before the body or not at all, or that takes the
    connection over and leaves its writer alone. *)
Definition writes_only (calls : list writer_call) : Prop := Forall (fun c => exists n, c = Write n) calls.
Definition proper (calls : list writer_call) : Prop :=
  match calls with
  | WriteHeader code :: calls => (200 <= code)%Z /\ writes_only calls
  | Hijack _ :: calls => calls = []
  | calls => writes_only calls
  end.

Lemma record_writes r calls : sr_status r <> 0%Z -> writes_only calls ->
  sr_status (fold_left record calls r) = sr_status r.
Proof.
  intros Hr Hc. revert r Hr. induction Hc as [|c calls [n ->] _ IH]; intros r Hr; simpl; [done|].
  destruct (Z.eqb_spec (sr_status r) 0) as [|_]; [done|]. by rewrite IH.
Qed.

Definition is_hijack (c : writer_call) : bool := match c with Hijack _ => true | _ => false end.

Lemma writes_no_hijack calls : writes_only calls -> existsb is_hijack calls = false.
Proof. by induction 1 as [|c l [n ->] _ IH]. Qed.

Lemma Status_proper calls : proper calls ->
  Status (recorded calls) = if existsb is_hijack calls then 200%Z else sent_status calls.
Proof.
  unfold recorded, Status. destruct calls as [|[code|n|code] calls]; simpl; [done|intros [Hcode Hc]|..].
  - rewrite record_writes, writes_no_hijack by (simpl; (done || lia)). simpl. by destruct (Z.eqb_spec code 0); [lia|].
  - intros Hc. apply Forall_cons_1 in Hc as [_ Hc]. by rewrite record_writes, writes_no_hijack.
  - by intros ->.
Qed.

(** Calls with a status that [net/http] accepts. *)
Definition valid_calls (calls : list writer_call) : Prop := Forall (fun c => c <> WriteHeader 0) calls.

Lemma status_stays r calls : valid_calls calls -> sr_status r <> 0%Z -> sr_status (fold_left record calls r) <> 0%Z.
Proof.
  intros Hc. revert r. induction Hc as [|c calls Hc _ IH]; intros r Hr; simpl; [done|]. apply IH.
  destruct c as [code|n|code]; simpl; [by intros ->| |done]. by destruct (Z.eqb_spec (sr_status r) 0).
Qed.

(** A handler that has called the writer, but for taking the connection over, has set a status:
    [Recovery] writes all of the error response or nothing, its second branch is never taken. *)
Lemma untouched_or_set calls : valid_calls calls ->
  forallb is_hijack calls = true /\ recorded calls = {| sr_status := 0; sr_bytes := 0 |} \/
  forallb is_hijack calls = false /\ sr_status (recorded calls) <> 0%Z.
Proof.
  induction 1 as [|c calls Hc1 Hc IH]; [by left|]. unfold recorded in *.
  destruct c as [code|n|code]; simpl; [right..|exact IH]; (split; [done|]); apply status_stays; try done.
  simpl. by intros ->.
Qed.

(** What becomes of a handler's calls: if it panics before it has written anything, [Recovery]
    adds the canonical error. *)
Definition delivered (h : Outcome) : list writer_call :=
  if oc_panic h && forallb is_hijack (oc_calls h)
  then oc_calls h ++ written internal_server_error else oc_calls h.

(** The request as the observers count it. *)
Definition counted_path (s : Seen) (h : Outcome) : string :=
  path_or (if oc_panic h then sn_URLPath s else "unknown") s.

(** The recorder does not see what is sent on a connection that was taken over. *)
Definition counted_status (h : Outcome) : Z :=
  if existsb is_hijack (oc_calls h) then if oc_panic h then 500 else 200
  else sent_status (delivered h).

Lemma Recovery_calls user s x :
  valid_calls (oc_calls (ob_outcome x)) ->
  ob_outcome (Recovery user s x) = {| oc_calls := delivered (ob_outcome x); oc_panic := false |}.
Proof.
  intros Hc. unfold Recovery, delivered. destruct x as [[calls [|]] rs l]; simpl in *; [|done].
  destruct (untouched_or_set calls Hc) as [[-> ->]|[-> Hs]]; [done|].
  destruct (Z.eqb_spec (sr_status (recorded calls)) 0) as [|_]; [done|]. by rewrite app_nil_r.
Qed.

(** What is inside the metrics middleware does not count the request. *)
Lemma chain_inner s x : ob_requests (CORS s (dispatch s x)) = [].
Proof.
  unfold CORS, dispatch, RequireUser, RequestLogger. repeat case_match; simpl; repeat case_match; done.
Qed.

(** The handler that answers in the end. *)
Definition answering (s : Seen) (x : routed) : Outcome :=
  if bool_decide (sn_Method s = "OPTIONS"%string) then {| oc_calls := [WriteHeader 204]; oc_panic := false |}
  else match x with
       | Protected (inl r) _ => {| oc_calls := written r; oc_panic := false |}
       | Public h | Protected (inr _) h | Unrouted h => h
       end.

Lemma chain_answering s x : ob_outcome (CORS s (dispatch s x)) = answering s x.
Proof.
  unfold CORS, dispatch, RequireUser, RequestLogger, answering.
  repeat case_match; simplify_eq/=; repeat case_match; done.
Qed.

Lemma chain_once s x :
  valid_calls (oc_calls (answering s x)) ->
  ob_outcome (chain s x) = {| oc_calls := delivered (answering s x); oc_panic := false |} /\
  exists elapsed, ob_requests (chain s x) = [(sn_Method s, counted_path s (answering s x),
    Status (recorded (delivered (answering s x))), elapsed)].
Proof.
  intros Hc. unfold chain. set (inner := CORS _ _).
  assert (ob_requests inner = []) as Hr by apply chain_inner.
  assert (ob_outcome inner = answering s x) as Ho by apply chain_answering.
  rewrite <- Ho in *. clearbody inner. clear Ho.
  destruct inner as [[calls [|]] rs l]; simpl in *; subst rs; [|by split; [|eexists]].
  pose proof (Recovery_calls None s {| ob_outcome := {| oc_calls := calls; oc_panic := true |};
    ob_requests := []; ob_log := l |} Hc) as Hd.
  unfold HTTPMetrics, Recovery in *. simpl in *. rewrite Hd. injection Hd as Hd. rewrite Hd.
  by split; [|eexists].
Qed.

(** ** Requests in the registry *)

Definition count_request (x : string * string * Z * Duration) : metric_op :=
  let '(method, path, status, duration) := x in ObserveHTTPRequest method path status duration.

Fixpoint count_requests (l : list (string * string * Z * Duration)) : metric_op := fun r =>
  match l with
  | [] => Some r
  | x :: l => r ← count_request x r; count_requests l r
  end.

Definition labels_of (x : string * string * Z * Duration) : list string :=
  let '(method, path, status, _) := x in [method; path; Itoa status].

Lemma ObserveHTTPRequest_value method path status duration r :
  exists r', ObserveHTTPRequest method path status duration r = Some r' /\ forall lvs,
    value httpRequestsTotal lvs r' = (value httpRequestsTotal lvs r +
      if decide ([method; path; Itoa status] = lvs) then 1 else 0)%Z.
Proof.
  eexists. split; [reflexivity|]. intros lvs. unfold value. simpl. case_decide as Hl.
  - by rewrite Hl, lookup_insert_eq.
  - rewrite lookup_insert_ne by congruence. lia.
Qed.

Lemma count_requests_value l r :
  exists r', count_requests l r = Some r' /\ forall lvs,
    value httpRequestsTotal lvs r' =
    (value httpRequestsTotal lvs r + Z.of_nat (length (filter (fun x => labels_of x = lvs) l)))%Z.
Proof.
  revert r. induction l as [|[[[method path] status] duration] l IH]; intros r; cbn [count_requests].
  - exists r. split; [done|]. intros lvs. simpl. lia.
  - destruct (ObserveHTTPRequest_value method path status duration r) as (r1 & Hr1 & H1).
    destruct (IH r1) as (r' & Hr' & Hv). exists r'. cbn [count_request]. rewrite Hr1. split; [exact Hr'|].
    intros lvs. rewrite Hv, H1, filter_cons. cbn [labels_of]. case_decide; simpl; lia.
Qed.

(** A request that was served: what is known of it, and where it went. *)
Definition Served : Type := Seen * routed.
Definition answer_of (x : Served) : Outcome := answering x.1 x.2.
Definition observed (x : Served) : Observed := chain x.1 x.2.

Definition expected_labels (x : Served) : list string :=
  [sn_Method x.1; counted_path x.1 (answer_of x); Itoa (counted_status (answer_of x))].

Lemma proper_valid calls : proper calls -> valid_calls calls.
Proof.
  assert (forall calls, writes_only calls -> valid_calls calls) as Hw.
  { intros l Hl. eapply Forall_impl; [exact Hl|]. intros c [n ->]. done. }
  destruct calls as [|[code|n|code] calls]; [apply Hw| |apply Hw|].
  - intros [Hcode Hc]. constructor; [intros [= ->]; lia|by apply Hw].
  - intros ->. by repeat constructor.
Qed.

Lemma Status_delivered h : proper (oc_calls h) -> Status (recorded (delivered h)) = counted_status h.
Proof.
  intros Hp. unfold counted_status, delivered. destruct h as [calls [|]]; simpl in *; [|by apply Status_proper].
  pose proof (Status_proper calls Hp) as Hs.
  destruct calls as [|[code|n|code] calls]; simpl in *; [done|..|by subst calls].
  - by rewrite writes_no_hijack in * by apply Hp.
  - apply Forall_cons_1 in Hp as [_ Hp]. by rewrite writes_no_hijack in *.
Qed.

(** C25. Every request whose handler sets at most one final status, before the body, is counted
    in http_requests_total exactly once, whether it is answered by its handler, by chi, by
    CORS, by the check of the user or, after a panic, by the recovery: under its method, its
    route and the status that the client gets. The exception are connections that the handler
    takes over, as /ws does: they count as 200 whatever is sent on them, 500 if the handler
    panics. A panic of a handler that has not written anything gives the client the canonical
    error with status 500, and no panic leaves the chain. *)
Theorem requests_are_counted_once (l : list Served) :
  Forall (fun x => proper (oc_calls (answer_of x))) l ->
  (forall x, x ∈ l -> ob_outcome (observed x) = {| oc_calls := delivered (answer_of x); oc_panic := false |} /\
     (oc_calls (answer_of x) = [] -> oc_panic (answer_of x) = true ->
        oc_calls (ob_outcome (observed x)) = written internal_server_error)) /\
  exists r, count_requests (l ≫= (fun x => ob_requests (observed x))) empty_registry = Some r /\
    forall lvs, value httpRequestsTotal lvs r = Z.of_nat (length (filter (fun x => expected_labels x = lvs) l)).
Proof.
  intros Hl. assert (forall x, x ∈ l -> proper (oc_calls (answer_of x))) as Hp by by apply Forall_forall.
  clear Hl. split.
  - intros x Hx. pose proof (chain_once x.1 x.2 (proper_valid _ (Hp x Hx))) as [Ho _].
    split; [exact Ho|]. intros Hnil Hpanic. unfold observed. rewrite Ho. simpl. unfold delivered.
    fold (answer_of x). by rewrite Hpanic, Hnil.
  - destruct (count_requests_value (l ≫= (fun x => ob_requests (observed x))) empty_registry) as (r & Hr & Hv).
    exists r. split; [done|]. intros lvs. rewrite Hv.
    change (value httpRequestsTotal lvs empty_registry) with 0%Z. rewrite Z.add_0_l. f_equal.
    clear Hr Hv. induction l as [|x l IH]; [done|]. rewrite bind_cons.
    pose proof (Hp x ltac:(by left)) as Hx.
    destruct (chain_once x.1 x.2 (proper_valid _ Hx)) as [_ [elapsed Hone]].
    change (chain x.1 x.2) with (observed x) in Hone. fold (answer_of x) in Hone.
    rewrite Status_delivered in Hone by exact Hx. rewrite Hone. cbn [app]. rewrite !filter_cons.
    assert (labels_of (sn_Method x.1, counted_path x.1 (answer_of x), counted_status (answer_of x),
      elapsed) = expected_labels x) as -> by done.
    assert (forall y, y ∈ l -> proper (oc_calls (answer_of y))) as Hl by (intros y Hy; apply Hp; by right).
    destruct (decide (expected_labels x = lvs)); [apply (f_equal S), IH, Hl|apply IH, Hl].
Qed.

(** The client of an upgraded connection gets 101; the metrics and the log have 200. *)
Lemma upgrades_count_as_200 s :
  sn_Method s = "GET"%string ->
  let x := chain s (Public {| oc_calls := [Hijack 101]; oc_panic := false |}) in
  sent_status (oc_calls (ob_outcome x)) = 101%Z /\ (fun r => r.1.2) <$> ob_requests x = [200%Z] /\
  Forall (fun e => le_status e = 200%Z) (ob_log x).
Proof.
  intros Hm. unfold chain, CORS, dispatch, RequestLogger. rewrite Hm. simpl.
  case_bool_decide; split_and!; try done; by repeat constructor.
Qed.

(** [Recovery] looks for the user in its own request, where nobody puts one. *)
Lemma panics_are_logged_without_user s x e :
  e ∈ ob_log (chain s x) -> le_level e = ErrorLog -> le_user_id e = None.
Proof.
  assert (Forall (fun e => le_level e = InfoLog) (ob_log (CORS s (dispatch s x)))) as Hinner.
  { unfold CORS, dispatch, RequireUser, RequestLogger.
    repeat case_match; simpl; repeat case_match; by repeat constructor. }
  unfold chain. generalize dependent (CORS s (dispatch s x)). intros [[calls [|]] rs log] Hlog.
  - unfold HTTPMetrics, Recovery. simpl in *. rewrite Forall_forall in Hlog.
    intros [He|He]%elem_of_app Hlevel; [by rewrite Hlog in Hlevel|].
    by apply list_elem_of_singleton in He as ->.
  - simpl in *. rewrite Forall_forall in Hlog. intros He Hlevel. by rewrite Hlog in Hlevel.
Qed.

(** What the service's handlers do, and what [Http.recovered] says of them. *)
Definition outcome_of (x : reply) : Outcome :=
  match x with
  | Replied r => {| oc_calls := written r; oc_panic := false |}
  | Panicked => {| oc_calls := []; oc_panic := true |}
  end.

Lemma recovered_delivered x : delivered (outcome_of x) = written (recovered x).
Proof. by destruct x. Qed.

(** A request that succeeds, one that panics, one that is refused and one that is upgraded. *)
Definition seen (path pattern : string) : Seen :=
  {| sn_Method := "GET"; sn_URLPath := path; sn_RoutePattern := pattern; sn_RemoteAddr := "10.0.0.1";
     sn_RequestID := bytes_of "r1"; sn_elapsed _ := Second |}.

Definition sample_requests : list Served :=
  [(seen "/rooms/list" "/rooms/list", Protected (inr 1%N) (outcome_of (Replied (WriteJSON 200 JNull))));
   (seen "/rooms/list" "/rooms/list", Protected (inr 1%N) (outcome_of Panicked));
   (seen "/rooms/list" "/rooms/list",
    Protected (inl (WriteError (NewDomainError ErrorUnauthorized "missing bearer token")))
      (outcome_of Panicked));
   (seen "/ws" "/ws", Public {| oc_calls := [Hijack 101]; oc_panic := false |})].

Lemma requests_are_counted_once_witness :
  exists r, count_requests (sample_requests ≫= (fun x => ob_requests (observed x))) empty_registry = Some r /\
    value httpRequestsTotal ["GET"; "/rooms/list"; "200"]%string r = 1%Z /\
    value httpRequestsTotal ["GET"; "/rooms/list"; "500"]%string r = 1%Z /\
    value httpRequestsTotal ["GET"; "/rooms/list"; "401"]%string r = 1%Z /\
    value httpRequestsTotal ["GET"; "/ws"; "200"]%string r = 1%Z.
Proof.
  destruct (requests_are_counted_once sample_requests) as [_ (r & Hr & Hv)].
  - repeat constructor; try done; by eexists.
  - exists r. split; [exact Hr|]. rewrite !Hv. split_and!; by vm_compute.
Defined.
