(* ===== verification/Tally.v ===== *)
(** * Tally: the business counters and the rows they stand for

    booking_created_total and reservations_confirmed_total count the rows of bookings,
    waitlist_joined_total those of the waitlist, reservations_created_total those of
    slot_reservations: never too many, and all of them unless the outcome of a COMMIT was
    lost. *)

From Stdlib Require Import Ascii.
From S2P Require Import Prelude Domain Platform Database Program Postgres Schema Usecase Handover.
From S2P Require Import Invariant System Scenario Effects Frame Observability.
From S2P Require Booking Waitlist Reservation Http.

#[global] Instance Output_eq_dec : EqDecision Output.
Proof. solve_decision. Defined.

(** ** Counting outputs *)

Definition tally (c : Counter) (out : list Output) : Z :=
  Z.of_nat (length (filter (fun o => o = Counted c) out)).

Lemma tally_app c o o' : tally c (o ++ o') = (tally c o + tally c o')%Z.
Proof. unfold tally. rewrite filter_app, length_app. lia. Qed.
Lemma tally_nil c : tally c [] = 0%Z.
Proof. done. Qed.
Lemma tally_cons c x o : tally c (x :: o) = ((if decide (x = Counted c) then 1 else 0) + tally c o)%Z.
Proof. unfold tally. rewrite filter_cons. case_decide; simpl; lia. Qed.
Lemma tally_published c p ev : tally c (published p ev) = 0%Z.
Proof. by destruct p. Qed.
Lemma tally_nonneg c o : (0 <= tally c o)%Z.
Proof. unfold tally. lia. Qed.

(** The counter in the registry. *)
Definition counter_metric (c : Counter) : metric :=
  match c with
  | BookingCreated => bookingCreatedTotal
  | BookingCancelled => bookingCancelledTotal
  | BookingConflict => bookingConflictsTotal
  | BookingCreateError => bookingCreateErrorsTotal
  | BookingCancelError => bookingCancelErrorsTotal
  | WaitlistJoined => waitlistJoinedTotal
  | WaitlistNotification => waitlistNotificationsTotal
  | WaitlistCancelled => waitlistCancelledTotal
  | ReservationCreated => reservationsCreatedTotal
  | ReservationConfirmed => reservationsConfirmedTotal
  | ReservationExpired => reservationsExpiredTotal
  | ReservationCancelled => reservationsCancelledTotal
  end.

(** What the outputs do to the registry. *)
Fixpoint count_outputs (out : list Output) : metric_op := fun r =>
  match out with
  | [] => Some r
  | Counted c :: out => r ← IncCounter c r; count_outputs out r
  | Published _ :: out => count_outputs out r
  end.

Lemma IncCounter_value c r : exists r', IncCounter c r = Some r' /\ forall c',
  value (counter_metric c') [] r' = (value (counter_metric c') [] r + if decide (c = c') then 1 else 0)%Z.
Proof.
  assert (IncCounter c r = Inc (counter_metric c) r) as -> by by destruct c.
  unfold Inc, add. rewrite bool_decide_true by by destruct c. eexists. split; [reflexivity|].
  intros c'. unfold value. simpl. case_decide as Hc.
  - by rewrite Hc, lookup_insert_eq.
  - rewrite lookup_insert_ne; [lia|]. intros [= Heq]. apply Hc. by destruct c, c'.
Qed.

Lemma count_outputs_value out r : exists r', count_outputs out r = Some r' /\ forall c,
  value (counter_metric c) [] r' = (value (counter_metric c) [] r + tally c out)%Z.
Proof.
  revert r. induction out as [|[ev|c] out IH]; intros r; cbn [count_outputs].
  - exists r. split; [done|]. intros c. rewrite tally_nil. lia.
  - destruct (IH r) as (r' & Hr' & Hv). exists r'. split; [done|]. intros c.
    by rewrite Hv, tally_cons, decide_False.
  - destruct (IncCounter_value c r) as (r1 & Hr1 & H1). rewrite Hr1. cbn [mbind option_bind].
    destruct (IH r1) as (r' & Hr' & Hv). exists r'. split; [done|]. intros c'.
    rewrite Hv, H1, tally_cons. destruct (decide (c = c')) as [->|Hne].
    + rewrite decide_True by done. lia.
    + rewrite decide_False by congruence. lia.
Qed.

(** ** Rows *)

(** The outputs [o] count the rows that [db'] has more than [db]. *)
Record counts (o : list Output) (db db' : DB) : Prop := {
  ct_bookings : (Z.of_nat (size (db_bookings db')) =
    Z.of_nat (size (db_bookings db)) + tally BookingCreated o + tally ReservationConfirmed o)%Z;
  ct_waitlist : (Z.of_nat (size (db_waitlist db')) =
    Z.of_nat (size (db_waitlist db)) + tally WaitlistJoined o)%Z;
  ct_reservations : (Z.of_nat (size (db_reservations db')) =
    Z.of_nat (size (db_reservations db)) + tally ReservationCreated o)%Z;
  ct_notified : tally WaitlistNotification o = tally ReservationCreated o }.

(** Nothing of what is compared with rows. *)
Definition unrelated (o : list Output) : Prop :=
  forall c, c ∈ [BookingCreated; ReservationConfirmed; WaitlistJoined; ReservationCreated;
                 WaitlistNotification] -> tally c o = 0%Z.

Lemma counts_nothing o db db' :
  unrelated o -> occupancy db' = occupancy db -> counts o db db'.
Proof.
  intros Ho [= Hb Hw Hr]. split; rewrite ?Hb, ?Hw, ?Hr, ?Ho by set_solver; try lia.
Qed.

(** What the request may do: its outputs count the new rows, or - the outcome of a COMMIT was
    lost - there are new rows that are not counted. *)
Definition reckons (H : Assm) (db : DB) (out : list Output) (db' : DB) (out' : list Output) : Prop :=
  exists o, out' = out ++ o /\
    (counts o db db' \/ may_fail H /\ unrelated o /\ exists o', counts o' db db').

Lemma effect_reckons H {V A} (Post : V -> DB -> Prop) Bad (answer : V -> A) speech grumbles db out r db' out' :
  (forall v db', Post v db' -> counts (speech v) db db') -> (forall e, unrelated (grumbles e)) ->
  effect_of H Post Bad answer speech grumbles db out r db' out' -> reckons H db out db' out'.
Proof.
  intros Hpost Hgr. destruct r as [a|e]; simpl.
  - intros (v & HP & _ & ->). exists (speech v). split; [done|]. left. by apply Hpost.
  - intros [-> [[Hun _]|(Hf & _ & v & HP)]]; exists (grumbles e); (split; [done|]).
    + left. apply counts_nothing; [apply Hgr|]. by rewrite Hun.
    + right. split; [done|]. split; [apply Hgr|]. exists (speech v). by apply Hpost.
Qed.

(** A new row. *)
Lemma size_new {A} (t : gmap uuid A) i x : t !! i = None -> Z.of_nat (size (<[i := x]> t)) = (Z.of_nat (size t) + 1)%Z.
Proof. intros Hi. rewrite map_size_insert_None by done. lia. Qed.
(** A row that changes. *)
Lemma size_old {A} (t : gmap uuid A) i x y : t !! i = Some y -> size (<[i := x]> t) = size t.
Proof. intros Hi. apply map_size_insert_Some. by exists y. Qed.

Ltac tallies := repeat (rewrite ?tally_app, ?tally_cons, ?tally_nil, ?tally_published; simpl).

Lemma unrelated_counted c : c ∉ [BookingCreated; ReservationConfirmed; WaitlistJoined; ReservationCreated;
  WaitlistNotification] -> unrelated [Counted c].
Proof. intros Hc c' Hc'. tallies. rewrite decide_False; [done|]. intros [= ->]. done. Qed.
Lemma unrelated_nil : unrelated [].
Proof. done. Qed.
#[local] Hint Resolve unrelated_nil : svc.
#[local] Hint Extern 1 (unrelated [Counted _]) => (apply unrelated_counted; set_solver) : svc.

Section operations.
Context (H : Assm) (cfg : Settings).

Lemma create_reckons user slotID link db out :
  wp H (Booking.CreateBooking (bookingService cfg) user slotID link)
    (fun _ db' out' => reckons H db out db' out') db out.
Proof.
  eapply wp_mono; [|apply create_booking_does]. intros r db' out'. apply effect_reckons.
  - intros v db1 (now & _ & slot & _ & _ & _ & _ & Hnew & _ & ->). unfold create_says. simpl.
    split; simpl; tallies; rewrite ?size_new by done; lia.
  - intros e. unfold create_grumbles. simpl. case_match; auto with svc.
Qed.

Lemma join_reckons user slotID db out :
  wp H (Waitlist.JoinWaitlist user slotID) (fun _ db' out' => reckons H db out db' out') db out.
Proof.
  eapply wp_mono; [|apply join_waitlist_does]. intros r db' out'. apply effect_reckons; [|auto with svc].
  intros v db1 (slot & b & now & _ & _ & _ & _ & Hnew & _ & _ & ->).
  split; simpl; tallies; rewrite ?size_new by done; lia.
Qed.

Lemma leave_reckons user id db out :
  wp H (Waitlist.LeaveWaitlist user id) (fun _ db' out' => reckons H db out db' out') db out.
Proof.
  eapply wp_mono; [|apply leave_waitlist_does]. intros r db' out'. apply effect_reckons; [|auto with svc].
  intros v db1 (e & He & _ & Hx). case_bool_decide; destruct Hx as [-> ->]; simpl.
  - split; simpl; tallies; rewrite ?(size_old _ _ _ e) by done; lia.
  - by apply counts_nothing.
Qed.

Lemma confirm_reckons user id db out : schema db ->
  wp H (Reservation.ConfirmReservation (reservationService cfg) user id)
    (fun _ db' out' => reckons H db out db' out') db out.
Proof.
  intros Hs. eapply wp_mono; [|by apply confirm_reservation_does]. intros r db' out'.
  apply effect_reckons; [|auto with svc].
  intros [[b r'] room] db1 (now & _ & r0 & slot & Hr & _ & _ & _ & _ & _ & _ & Hnew & _ & _ & _ & ->).
  unfold confirm_says. simpl. split; simpl; destruct (negb _); tallies;
    rewrite ?size_new, ?(size_old _ _ _ r0) by done; lia.
Qed.

(** A slot that is handed over: one reservation, and the entry was there. *)
Lemma handover_counts ttl slot db o db' : primary wl_ID (db_waitlist db) ->
  handover H ttl slot db o db' ->
  size (db_bookings db') = size (db_bookings db) /\ size (db_waitlist db') = size (db_waitlist db) /\
  Z.of_nat (size (db_reservations db')) =
    (Z.of_nat (size (db_reservations db)) + if o then 1 else 0)%Z.
Proof.
  intros Hp [a _ _|a e id now _ He Hfresh _ e' r]; simpl; [split_and!; lia|].
  apply next_entry_Some in He as (He & _); [|done]. split_and!; [done|by rewrite (size_old _ _ _ e)|].
  by rewrite size_new.
Qed.

(** The room of a slot that is there. *)
Lemma room_not_nil db slot s : schema db -> db_rooms db !! uuid_Nil = None ->
  db_slots db !! slot = Some s -> (sl_RoomID s =? uuid_Nil)%N = false.
Proof.
  intros Hs Hn Hslot. apply N.eqb_neq. intros Heq.
  destruct (slots_room_id_fkey _ _ (schema_slots _ Hs) slot s _ Hslot eq_refl) as [x Hx]. congruence.
Qed.

Lemma cancel_reckons user id db out : schema db -> db_rooms db !! uuid_Nil = None ->
  wp H (Booking.CancelBooking (bookingService cfg) user id)
    (fun _ db' out' => reckons H db out db' out') db out.
Proof.
  intros Hs Hn. eapply wp_mono; [|apply cancel_booking_does]. intros r db' out'.
  apply effect_reckons; [|intros e; simpl; auto with svc].
  intros v db1 [b room Hb Hu Hst|b room o db2 Hb Hu Hst Hroom b' db3 Hhand].
  { unfold cancel_says. simpl. apply counts_nothing; [|done]. auto with svc. }
  simpl in Hhand. destruct Hhand as [[[=] _]|[_ Hhand]].
  destruct (bookings_slot_id_fkey _ _ _ (schema_bookings _ Hs) id b _ Hb eq_refl) as [slot Hslot].
  rewrite Hslot in Hroom. subst room.
  assert (primary wl_ID (db_waitlist db3)) as Hp by exact (waitlist_pkey _ _ _ _ (schema_waitlist _ Hs)).
  destruct (handover_counts _ _ _ _ _ Hp Hhand) as (H1 & H2 & H3).
  unfold cancel_says, release_says. simpl. rewrite (room_not_nil db _ slot Hs Hn Hslot). simpl.
  simpl in H1, H2, H3. rewrite (size_old _ _ _ b) in H1 by done.
  destruct o as [[e res]|]; simpl in *; split; tallies; lia.
Qed.

Lemma give_up_reckons user id db out : schema db ->
  wp H (Reservation.CancelReservation (reservationService cfg) user id)
    (fun _ db' out' => reckons H db out db' out') db out.
Proof.
  intros Hs. eapply wp_mono; [|by apply cancel_reservation_does]. intros r db' out'.
  apply effect_reckons; [|auto with svc].
  intros v db1 (now & _ & [r0 room Hr Hu Hst|r0 room o db2 Hr Hu Hst Hroom r' db3 Hhand]).
  { by apply counts_nothing. }
  simpl in Hhand.
  assert (primary wl_ID (db_waitlist db3)) as Hp by exact (waitlist_pkey _ _ _ _ (schema_waitlist _ Hs)).
  destruct (handover_counts _ _ _ _ _ Hp Hhand) as (H1 & H2 & H3).
  simpl in H1, H2, H3. rewrite (size_old _ _ _ r0) in H3 by done.
  unfold reservation_cancel_says, decline_says. simpl.
  destruct o as [[e res]|]; simpl in *; destruct (negb (room =? uuid_Nil)%N); split; tallies; lia.
Qed.

(** *** The expiration worker *)

Lemma expire_rows_size now l (t : gmap uuid SlotReservation) :
  (forall r, r ∈ l -> is_Some (t !! rs_ID r)) -> size (ReservationRepo.expire_rows now l t) = size t.
Proof.
  intros Hl. induction l as [|r l IH]; simpl; [done|].
  assert (forall x, x ∈ l -> is_Some (t !! rs_ID x)) as Hl' by (intros x Hx; apply Hl; by right).
  rewrite map_size_insert_Some; [by apply IH|].
  destruct (Hl r) as [y Hy]; [by left|]. clear IH Hl. induction l as [|z l IH]; simpl; [by exists y|].
  apply lookup_insert_is_Some'. right. apply IH. intros x Hx. apply Hl'. by right.
Qed.

(** The handovers of a batch. *)
Definition handed (os : list (option (WaitlistEntry * SlotReservation))) : Z :=
  Z.of_nat (length (filter is_Some os)).

Lemma handed_cons o os : handed (o :: os) = ((if o then 1 else 0) + handed os)%Z.
Proof.
  unfold handed. rewrite filter_cons. destruct o; case_decide as Hd; simpl; try lia; [by destruct Hd|by destruct Hd].
Qed.

Lemma handovers_counts ttl l db os db' : primary wl_ID (db_waitlist db) ->
  handovers H ttl l db os db' ->
  size (db_bookings db') = size (db_bookings db) /\ size (db_waitlist db') = size (db_waitlist db) /\
  Z.of_nat (size (db_reservations db')) = (Z.of_nat (size (db_reservations db)) + handed os)%Z.
Proof.
  intros Hp Hh. induction Hh as [db|r l db o db1 os db2 Ho _ IH]; [unfold handed; simpl; split_and!; lia|].
  destruct (handover_counts _ _ _ _ _ Hp Ho) as (H1 & H2 & H3).
  destruct IH as (I1 & I2 & I3); [by eapply handover_primary|]. rewrite handed_cons. split_and!; try congruence. lia.
Qed.

Lemma expire_vars_offered slots l os v : length l = length os ->
  Z.of_nat (length (Reservation.ev_replacements (Reservation.expire_vars slots l os v))) =
  (Z.of_nat (length (Reservation.ev_replacements v)) + handed os)%Z.
Proof.
  revert os v. induction l as [|r l IH]; intros [|o os] v; simpl; try done; intros Hl; [unfold handed; simpl; lia|].
  rewrite IH by lia. rewrite handed_cons. destruct o as [[e res]|]; simpl.
  - rewrite length_app. simpl. destruct (slots !! rs_SlotID r); simpl; lia.
  - by destruct (slots !! rs_SlotID r).
Qed.

Lemma handovers_length ttl l db os db' : handovers H ttl l db os db' -> length l = length os.
Proof. induction 1; simpl; congruence. Qed.

Local Abbreviation service := (reservationService cfg).

Lemma expired_says_unrelated v l : unrelated (l ≫= expired_says service v).
Proof.
  intros c Hc. induction l as [|r l IH]; [done|]. rewrite bind_cons, tally_app, IH. unfold expired_says. simpl.
  assert (ReservationExpired <> c) as Hne by set_solver. clear IH Hc.
  destruct (negb _); [destruct (negb _)|]; tallies; rewrite decide_False by congruence; lia.
Qed.

Lemma replacement_says_tally c l :
  tally c (l ≫= replacement_says service) = 
  if decide (c ∈ [WaitlistNotification; ReservationCreated]) then Z.of_nat (length l) else 0%Z.
Proof.
  induction l as [|r l IH]; [by case_decide|]. rewrite bind_cons, tally_app, IH. unfold replacement_says. simpl.
  destruct (negb _); tallies; destruct c; vm_compute decide; simpl; lia.
Qed.

Lemma expire_reckons limit db out : schema db ->
  wp H (Reservation.ExpireDue service limit) (fun _ db' out' => reckons H db out db' out') db out.
Proof.
  intros Hs. eapply wp_mono; [|apply expire_due_does]. intros r db' out'.
  apply effect_reckons; [|auto with svc].
  intros [l v] db1 (now & _ & a & _ & _ & os & Hv & Hos). simpl in Hv, Hos |- *. subst v.
  set (db0 := Reservation.batch_expired _ _ db) in *.
  assert (size (db_reservations db0) = size (db_reservations db)) as Hsize.
  { apply expire_rows_size. intros r0 Hr0. apply elem_of_picked in Hr0 as ([i Hi] & _).
    rewrite (reservations_pkey _ _ _ _ (schema_reservations _ Hs) i r0 Hi). by eexists. }
  assert (primary wl_ID (db_waitlist db0)) as Hp by exact (waitlist_pkey _ _ _ _ (schema_waitlist _ Hs)).
  destruct (handovers_counts _ _ _ _ _ Hp Hos) as (H1 & H2 & H3).
  pose proof (expire_vars_offered (db_slots db0) l os (Reservation.Build_ExpireVars ∅ ∅ [])
    (handovers_length _ _ _ _ _ Hos)) as Hrep. simpl in Hrep.
  set (v := Reservation.expire_vars _ _ _ _) in *. clearbody v.
  assert (forall c, c ∈ [BookingCreated; ReservationConfirmed; WaitlistJoined; ReservationCreated;
    WaitlistNotification] -> tally c (expire_says service (l, v)) =
    if decide (c ∈ [WaitlistNotification; ReservationCreated]) then handed os else 0%Z) as Ht.
  { intros c Hc. unfold expire_says. cbn [fst snd]. destruct l as [|r0 l].
    - inversion Hos; subst. by case_decide.
    - rewrite tally_app, (expired_says_unrelated _ _ c Hc), replacement_says_tally.
      case_decide; [rewrite Hrep; lia|lia]. }
  change (db_bookings db0) with (db_bookings db) in H1. change (db_waitlist db0) with (db_waitlist db) in H2.
  split; rewrite !Ht by set_solver; vm_compute decide; cbv iota; lia.
Qed.
End operations.

(** *** Requests that only read *)

(** A program without outputs. *)
Fixpoint mute {A} (p : prog A) : Prop :=
  match p with
  | Ret _ => True
  | @Do _ R e k =>
      match e in effect R return (R -> prog A) -> (R -> Prop) -> Prop with
      | Output_ _ => fun _ _ => False
      | _ => fun _ K => forall r, K r
      end k (fun r => mute (k r))
  end.

Lemma run_mute E {A} (p : prog A) w : mute p -> w_out (run E p w).2 = w_out w.
Proof.
  revert w. induction p as [a|R e k IH]; intros w; simpl; [done|]. intros Hp.
  assert (w_out (sem E e w).2 = w_out w /\ mute (k (sem E e w).1)) as [Ho Hk].
  { destruct e; simpl in *; try destruct (respond _ _ _); try destruct (a_fault _); simpl; by try split. }
  destruct (sem E e w) as [r w1]. simpl in *. by rewrite IH.
Qed.

Lemma mute_bind {A B} (p : prog A) (k : A -> prog B) : mute p -> (forall a, mute (k a)) -> mute (bind p k).
Proof.
  intros Hp Hk. induction p as [a|R e k' IH]; simpl in *; [apply Hk|].
  destruct e; simpl in *; auto.
Qed.

Lemma mute_answered {A} (p : prog (result A)) : mute p -> mute (answered p).
Proof. intros Hp. apply mute_bind; [done|]. by intros []. Qed.

Ltac quiet := repeat first [done | intros ? | case_match | progress simpl].

Lemma reads_reckon H E {A} (p : prog A) w :
  mute p -> w_db (run E p w).2 = w_db w -> reckons H (w_db w) (w_out w) (w_db (run E p w).2) (w_out (run E p w).2).
Proof.
  intros Hm Hdb. exists []. rewrite run_mute, app_nil_r, Hdb by done. split; [done|]. left.
  by apply counts_nothing.
Qed.

Lemma serve_reckons H cfg E req w :
  respects H E -> schema (w_db w) -> db_rooms (w_db w) !! uuid_Nil = None ->
  let w' := (run E (serve cfg req) w).2 in reckons H (w_db w) (w_out w) (w_db w') (w_out w').
Proof.
  intros HE Hs Hn. assert (forall A (p : prog (result A)),
    wp H p (fun _ db' out' => reckons H (w_db w) (w_out w) db' out') (w_db w) (w_out w) ->
    let w' := (run E (answered p) w).2 in reckons H (w_db w) (w_out w) (w_db w') (w_out w')) as Hwp.
  { intros A p Hp. rewrite Http.run_answered. by apply (wp_run H E p _ w HE) in Hp. }
  assert (forall A (p : prog (result A)), mute p -> 
    wp H p (fun _ db' _ => db' = w_db w) (w_db w) (w_out w) ->
    let w' := (run E (answered p) w).2 in reckons H (w_db w) (w_out w) (w_db w') (w_out w')) as Hread.
  { intros A p Hm Hp. apply reads_reckon; [by apply mute_answered|]. rewrite Http.run_answered.
    by apply (wp_run H E p _ w HE) in Hp. }
  destruct req; cbn [serve].
  - apply Hwp, create_reckons.
  - by apply Hwp, cancel_reckons.
  - apply Hread; [|by apply (list_bookings_reads H (fun db => db = w_db w))].
    unfold Booking.ListBookings, BookingRepo.List. quiet.
  - apply Hread; [|by apply (list_my_bookings_reads H (fun db => db = w_db w))].
    unfold Booking.ListMyBookings. quiet.
  - apply Hwp, join_reckons.
  - apply Hwp, leave_reckons.
  - by apply Hwp, confirm_reckons.
  - by apply Hwp, give_up_reckons.
  - apply Hread; [|by apply (list_reservations_reads H (fun db => db = w_db w))].
    unfold Reservation.ListMyActiveReservations. quiet.
  - by apply Hwp, expire_reckons.
Qed.

(** ** Any number of requests *)

Definition serve_all (cfg : Settings) (l : list (Env * Request)) (w : World) : World :=
  fold_left (fun w x => (run x.1 (serve cfg x.2) w).2) l w.

(** The outputs of a run, against the rows it ends with. *)
Record tallied (H : Assm) (out : list Output) (db : DB) : Prop := {
  td_bookings : (tally BookingCreated out + tally ReservationConfirmed out <= Z.of_nat (size (db_bookings db)))%Z;
  td_waitlist : (tally WaitlistJoined out <= Z.of_nat (size (db_waitlist db)))%Z;
  td_reservations : (tally ReservationCreated out <= Z.of_nat (size (db_reservations db)))%Z;
  td_notified : tally WaitlistNotification out = tally ReservationCreated out;
  td_exact : ~ may_fail H ->
    (tally BookingCreated out + tally ReservationConfirmed out = Z.of_nat (size (db_bookings db)) /\
     tally WaitlistJoined out = Z.of_nat (size (db_waitlist db)) /\
     tally ReservationCreated out = Z.of_nat (size (db_reservations db)))%Z }.

Lemma tallied_step H db out db' out' : tallied H out db -> reckons H db out db' out' -> tallied H out' db'.
Proof.
  intros [T1 T2 T3 T4 T5] (o & -> & [[C1 C2 C3 C4]|(Hf & Hu & o' & [C1 C2 C3 C4])]).
  - split; rewrite !tally_app; try lia. intros Hf. destruct (T5 Hf) as (?&?&?). lia.
  - pose proof (tally_nonneg BookingCreated o'). pose proof (tally_nonneg ReservationConfirmed o').
    pose proof (tally_nonneg WaitlistJoined o'). pose proof (tally_nonneg ReservationCreated o').
    split; rewrite !tally_app, !Hu by set_solver; try lia. by intros [].
Qed.

Lemma serve_all_tallied H cfg l w :
  schema (w_db w) -> db_rooms (w_db w) !! uuid_Nil = None -> tallied H (w_out w) (w_db w) ->
  Forall (fun x => respects H x.1) l -> tallied H (w_out (serve_all cfg l w)) (w_db (serve_all cfg l w)).
Proof.
  intros Hs Hn Ht Hl. revert w Hs Hn Ht. induction Hl as [|[E req] l HE _ IH]; intros w Hs Hn Ht; [done|].
  apply IH; cbn [fst snd].
  - by apply (serve_keeps cfg req E w).
  - pose proof (serve_leaves cfg req E w) as Hl. injection Hl as Hr _ _. by rewrite Hr.
  - eapply tallied_step; [done|]. by apply serve_reckons.
Qed.


