(* ===== verification/Stable.v ===== *)
(** * Stable: what a session may rely on while others interleave with it

    [Announcements] shows that events tell the truth when requests are served one after the
    other.  Here they are interleaved: between the COMMIT of a request and its announcement
    others may have changed the rows, so what an event can promise is what stays true of a
    row ([backed]).  [Backed] shows that every event of every job of the service is.

    [backs] is a program logic for interleavings.  Its state is what the session sees: its
    own writes over the committed database.  Before every effect the others may make of it
    anything that [outlives] it; the session's own statements do so too, and COMMIT keeps what
    is seen; after a rollback what is left is what the others have made of the database the
    transaction began with. *)

From S2P Require Import Prelude Domain Database Program Postgres Schema Usecase.
From S2P Require Import Handover Invariant System Announcements Frame.
From S2P Require Import Concurrency Discipline Interleaving Parallel Finality.

(** ** What an event promises *)

(** The row [i] of a table satisfies [P]. *)
Definition row {A} (table : DB -> gmap uuid A) (i : uuid) (P : A -> Prop) (db : DB) : Prop :=
  exists x, table db !! i = Some x /\ P x.

Definition promise (db : DB) (ev : Event) : Prop :=
  match ev with
  | EvSlotBooked _ slot id => row db_bookings id (fun b => bk_SlotID b = slot) db
  | EvSlotReleased _ slot id =>
      row db_bookings id (fun b => bk_SlotID b = slot /\ bk_Status b = BookingStatusCancelled) db
  | EvSlotAvailable _ slot => exists id,
      row db_reservations id (fun r => rs_SlotID r = slot /\ rs_Status r <> ReservationStatusActive) db
  | EvSlotReserved _ slot id => row db_reservations id (fun r => rs_SlotID r = slot) db
  | EvWaitlistSlotReserved _ slot user id entry expiresAt =>
      row db_reservations id (fun r => rs_SlotID r = slot /\ rs_UserID r = user /\
        rs_WaitlistEntryID r = Some entry /\ rs_ExpiresAt r = expiresAt) db /\
      row db_waitlist entry (fun e => wl_SlotID e = slot /\ wl_UserID e = user /\
        wl_Status e <> WaitlistStatusActive) db
  | EvSlotReservationExpired _ slot id =>
      row db_reservations id (fun r => rs_SlotID r = slot /\ rs_Status r = ReservationStatusExpired) db
  | EvReservationExpired _ slot user id =>
      row db_reservations id (fun r => rs_SlotID r = slot /\ rs_UserID r = user /\
        rs_Status r = ReservationStatusExpired) db
  end.

(** The event names the room of its slot and keeps its promise. *)
Definition backed (db : DB) (ev : Event) : Prop :=
  in_room db (event_slot ev) (event_room ev) /\ promise db ev.

(** ** What stays true *)

Class Stable (P : DB -> Prop) : Prop := stable : forall v v', outlives v v' -> P v -> P v'.

Lemma row_booking_stable id (P : Booking -> Prop) :
  (forall b b', same_booking b b' -> P b -> P b') -> Stable (row db_bookings id P).
Proof.
  intros HP v v' Hv (b & Hb & Hp). destruct (ol_bookings _ _ Hv id b Hb) as (b' & Hb' & Hm).
  exists b'. eauto.
Qed.
Lemma row_entry_stable id (P : WaitlistEntry -> Prop) :
  (forall e e', moves_on e e' -> P e -> P e') -> Stable (row db_waitlist id P).
Proof.
  intros HP v v' Hv (e & He & Hp). destruct (ol_waitlist _ _ Hv id e He) as (e' & He' & Hm).
  exists e'. eauto.
Qed.
Lemma row_reservation_stable id (P : SlotReservation -> Prop) :
  (forall r r', same_origin r r' -> P r -> P r') -> Stable (row db_reservations id P).
Proof.
  intros HP v v' Hv (r & Hr & Hp). destruct (ol_reservations _ _ Hv id r Hr) as (r' & Hr' & Hm).
  exists r'. eauto.
Qed.

(** What has become of a row that was seen. *)
#[export] Instance seen_booking_stable id b : Stable (row db_bookings id (same_booking b)).
Proof. apply row_booking_stable. intros x y Hxy Hx. by etrans. Qed.
#[export] Instance seen_entry_stable id e : Stable (row db_waitlist id (moves_on e)).
Proof. apply row_entry_stable. intros x y Hxy Hx. by etrans. Qed.
#[export] Instance seen_reservation_stable id r : Stable (row db_reservations id (same_origin r)).
Proof. apply row_reservation_stable. intros x y Hxy Hx. by etrans. Qed.

(** A row that was seen, and was cancelled or settled since then. *)
Definition cancelled_since (b b' : Booking) : Prop := same_booking b b' /\ bk_Status b' = BookingStatusCancelled.
Definition settled_since (r r' : SlotReservation) : Prop :=
  same_origin r r' /\ rs_Status r' <> ReservationStatusActive.

#[export] Instance cancelled_since_stable id b : Stable (row db_bookings id (cancelled_since b)).
Proof.
  apply row_booking_stable. intros x y Hxy [Hx Hst]. split; [by etrans|].
  destruct Hxy as [->|[? ->]]; done.
Qed.
#[export] Instance settled_since_stable id r : Stable (row db_reservations id (settled_since r)).
Proof.
  apply row_reservation_stable. intros x y Hxy [Hx Hst]. split; [by etrans|].
  destruct Hxy as (_ & _ & _ & _ & [->|(? & ? & ?)]); done.
Qed.

Lemma in_room_stable slot room : Stable (fun db => in_room db slot room).
Proof. intros v v' Hv (x & Hx & Hr). exists x. split; [|done]. by eapply lookup_weaken, Hv. Qed.

Lemma promise_stable ev : Stable (fun db => promise db ev).
Proof.
  destruct ev as [? slot id|? slot id|? slot|? slot id|? slot id|? slot user id entry t|? slot user id];
    cbn [promise].
  - apply row_booking_stable. by intros b b' [->|[_ ->]].
  - apply row_booking_stable. intros b b' [->|[? ->]]; [done|]. intros [? ?]. congruence.
  - intros v v' Hv (id & Hr). exists id. revert v v' Hv Hr. apply row_reservation_stable.
    intros r r' (? & ? & ? & ? & [->|(? & ? & ?)]); [done|]. intros [? ?]. split; congruence.
  - apply row_reservation_stable. intros r r' (? & _). congruence.
  - apply row_reservation_stable.
    intros r r' (? & ? & ? & ? & [->|(? & ? & ?)]); [done|]. intros [? ?]. congruence.
  - intros v v' Hv [Hr He]. split; revert v v' Hv Hr He.
    + intros v v' Hv Hr _. revert v v' Hv Hr. apply row_reservation_stable.
      intros r r' (? & ? & ? & ? & [->|(? & ? & ?)]); [done|]. intros (? & ? & ? & ?). split_and!; congruence.
    + intros v v' Hv _ He. revert v v' Hv He. apply row_entry_stable.
      intros e e' (? & ? & _ & [->|(? & ? & ?)]); [done|]. intros (? & ? & ?). split_and!; congruence.
  - apply row_reservation_stable.
    intros r r' (? & ? & ? & ? & [->|(? & ? & ?)]); [done|]. intros (? & ? & ?). congruence.
Qed.

#[export] Instance backed_stable ev : Stable (fun db => backed db ev).
Proof. intros v v' Hv [? ?]. split; [by eapply in_room_stable|by eapply promise_stable]. Qed.

(** ** A logic for sessions that others interleave with *)

(** A session is outside of transactions ([None]), or in one that began with the committed
    database [b] ([Some b]). *)
Definition fallen (tx : option DB) (v : DB) : Prop :=
  match tx with
  | Some b => outlives b v
  | None => False
  end.

(** Events are published outside of transactions, and are backed at that point. *)
Definition says (tx : option DB) (v : DB) (o : Output) : Prop :=
  match o with
  | Published ev => tx = None /\ backed v ev
  | Counted _ => True
  end.

Definition backs_effect {R} (e : effect R) : (option DB -> R -> DB -> Prop) -> option DB -> DB -> Prop :=
  match e in effect R return (option DB -> R -> DB -> Prop) -> option DB -> DB -> Prop with
  | Statement _ s => fun K tx v => forall a,
      let x := respond a s v in outlives v x.2 -> K tx x.1 x.2
  | Begin => fun K tx v => (forall h, K (Some v) (Ok h) v) /\ (forall err, K tx (Err err) v)
  | Commit _ => fun K tx v => K None None v /\ (forall m v', v' = v \/ fallen tx v' -> K None (Some m) v')
  | Rollback _ => fun K tx v => forall r v', fallen tx v' -> K None r v'
  | Now => fun K tx v => forall t, K tx t v
  | NewUUID => fun K tx v => forall i, K tx i v
  | Output_ o => fun K tx v => says tx v o /\ K tx tt v
  end.

Fixpoint backs {A} (Q : option DB -> A -> DB -> Prop) (tx : option DB) (p : prog A) (v : DB) : Prop :=
  match p with
  | Ret a => Q tx a v
  | Do e k => forall v', outlives v v' -> schema v' ->
      backs_effect e (fun tx r v => backs Q tx (k r) v) tx v'
  end.

Lemma backs_effect_mono {R} (e : effect R) (K K' : option DB -> R -> DB -> Prop) tx v :
  (forall tx r v, K tx r v -> K' tx r v) -> backs_effect e K tx v -> backs_effect e K' tx v.
Proof. intros HK. destruct e; simpl; naive_solver. Qed.

Lemma backs_bind {A B} (Q : option DB -> B -> DB -> Prop) (Q' : option DB -> A -> DB -> Prop) tx p
    (k : A -> prog B) v :
  backs Q' tx p v -> (forall tx a v, Q' tx a v -> backs Q tx (k a) v) -> backs Q tx (bind p k) v.
Proof.
  intros Hp Hk. revert tx v Hp. induction p as [a|R e k' IH]; intros tx v Hp; [by apply Hk|].
  intros v' Hv Hs. eapply backs_effect_mono; [|by apply Hp]. intros tx' r v1. apply IH.
Qed.

Lemma backs_mono {A} (Q Q' : option DB -> A -> DB -> Prop) tx p v :
  (forall tx a v, Q tx a v -> Q' tx a v) -> backs Q tx p v -> backs Q' tx p v.
Proof.
  intros HQ. revert tx v. induction p as [a|R e k IH]; intros tx v Hp; [by apply HQ|].
  intros v' Hv Hs. eapply backs_effect_mono; [|by apply Hp]. intros tx' r v1. apply IH.
Qed.

(** What the others do meanwhile does no harm. *)
Lemma backs_later {A} (Q : option DB -> A -> DB -> Prop) tx (p : prog A) v v' :
  (forall tx a, Stable (Q tx a)) -> outlives v v' -> backs Q tx p v -> backs Q tx p v'.
Proof.
  intros HQ Hv. destruct p as [a|R e k]; [by apply HQ|]. intros Hp v1 Hv1. apply Hp. by etrans.
Qed.

(** ** Adequacy *)

(** The session is over: nothing is asked any more. *)
Definition over_with (tx : option DB) (r : result unit) (v : DB) : Prop := True.

Definition session_backs (c : DB) (tx : option Delta) (p : option (prog (result unit))) : Prop :=
  match p with
  | Some p => exists b, match tx with
                        | Some _ => exists b0, b = Some b0 /\ outlives b0 c
                        | None => b = None
                        end /\ backs over_with b p (view (delta tx) c)
  | None => True
  end.

Record all_backed (s : Server) : Prop := {
  bk_out : forall ev, Published ev ∈ sv_out s -> backed (sv_db s) ev;
  bk_sessions : forall t, session_backs (sv_db s) (sv_tx s !! t) (sv_prog s t) }.

(** The others see more of the committed database. *)
Lemma view_later d c c' : outlives c c' -> outlives (view d c) (view d c').
Proof.
  intros [Hb Hw Hr Hs]. split; [..|done]; intros i x Hx; simpl in *;
    apply lookup_union_Some_raw in Hx as [Hx|[Hn Hx]].
  - exists x. split; [by apply lookup_union_Some_l|reflexivity].
  - destruct (Hb i x Hx) as (y & Hy & Hxy). exists y. by rewrite lookup_union_r.
  - exists x. split; [by apply lookup_union_Some_l|reflexivity].
  - destruct (Hw i x Hx) as (y & Hy & Hxy). exists y. by rewrite lookup_union_r.
  - exists x. split; [by apply lookup_union_Some_l|reflexivity].
  - destruct (Hr i x Hx) as (y & Hy & Hxy). exists y. by rewrite lookup_union_r.
Qed.

Lemma session_later c c' tx p : outlives c c' -> session_backs c tx p -> session_backs c' tx p.
Proof.
  intros Hc. destruct p as [p|]; [|done]. intros (b & Hb & Hp). exists b. split.
  - destruct tx; [|done]. destruct Hb as (b0 & -> & Hb0). exists b0. split; [done|by etrans].
  - eapply backs_later; [by intros tx' a v v'| |done]. by apply view_later.
Qed.

(** A session's own statement. *)
Lemma advances_outlives c d v' : advances c d v' -> outlives (view d c) v'.
Proof.
  intros Ha. split.
  - intros i b Hb. destruct (ad_bookings _ _ _ Ha i (ex_intro _ b Hb)) as [b' Hb'].
    exists b'. split; [done|]. by eapply ad_booking.
  - intros i e He. destruct (ad_waitlist _ _ _ Ha i (ex_intro _ e He)) as [e' He'].
    exists e'. split; [done|]. pose proof (ad_entries _ _ _ Ha i e' He') as Hm. simpl in He. by rewrite He in Hm.
  - intros i r Hr. destruct (ad_rows _ _ _ Ha i (ex_intro _ r Hr)) as [r' Hr'].
    exists r'. split; [done|]. simpl in Hr. destruct (ad_reservations _ _ _ Ha i r' Hr') as [(x & Hx & Ho)|[Hn _]]; congruence.
  - pose proof (ad_settings _ _ _ Ha) as Hset. injection Hset as _ _ _ ->. done.
Qed.

Lemma statement_mute {R} ch locks (q : sql R) tx c r tx' c' o :
  exec ch (Statement locks q) tx c = Some (r, tx', c', o) -> o = [].
Proof. simpl. destruct (respond _ _ _). by destruct tx; intros [= _ _ _ <-]. Qed.

(** What a statement makes of what the session sees. *)
Lemma statement_backs s t m {R} locks (q : sql R) k ch r tx' c' o :
  sound s -> typed m (Do (Statement locks q) k) -> mode_ok (sv_db s) (sv_tx s !! t) m ->
  exec ch (Statement locks q) (sv_tx s !! t) (sv_db s) = Some (r, tx', c', o) ->
  let x := respond (ch_answer ch) q (view (delta (sv_tx s !! t)) (sv_db s)) in
  r = x.1 /\ outlives (view (delta (sv_tx s !! t)) (sv_db s)) x.2 /\ view (delta tx') c' = x.2 /\
  (is_Some tx' <-> is_Some (sv_tx s !! t)).
Proof.
  intros [S1 S2 S3 _ _] Hp Hm He. apply typed_follows in Hp. cbn [follows] in Hp.
  apply exec_sql in He as [-> He]. destruct m as [|tx mine], (sv_tx s !! t) as [d|] eqn:Hd; try done;
    destruct He as [-> ->]; cbn [delta default id] in *.
  - destruct Hp as [_ Hv]. rewrite !view_nothing. split_and!; [done| |done|done].
    destruct (Hv (ch_answer ch) _ S1 S2) as [Ha|Ha]; [by apply autocommit_outlives|by apply settles_outlives].
  - destruct (Hp (ch_answer ch) _ d (S3 t d Hd) Hm) as [Ha _]. split_and!; [done| | |by split; eexists].
    + by apply advances_outlives.
    + by apply view_written.
Qed.

(** The session that takes a step. *)
Lemma own_step s t m {R} (e : effect R) k ch r tx' c' o :
  sound s -> all_backed s -> typed m (Do e k) -> mode_ok (sv_db s) (sv_tx s !! t) m ->
  sv_prog s t = Some (Do e k) ->
  exec ch e (sv_tx s !! t) (sv_db s) = Some (r, tx', c', o) ->
  session_backs c' tx' (Some (k r)) /\ (forall ev, Published ev ∈ o -> backed c' ev).
Proof.
  intros Hs [_ Hb] Hp Hm Hprog He. pose proof Hs as [S1 S2 S3 _ _].
  pose proof (typed_outlives s t m e k ch r tx' c' o Hs Hp Hm He) as Hc.
  specialize (Hb t). rewrite Hprog in Hb. destruct Hb as (b & Hb & Hk). cbn [backs] in Hk.
  assert (schema (view (delta (sv_tx s !! t)) (sv_db s))) as Hv.
  { destruct (sv_tx s !! t) as [d|] eqn:Hd; [by apply S3 with t|]. cbn. by rewrite view_nothing. }
  specialize (Hk _ (reflexivity _) Hv).
  destruct e as [R locks q| |h|h| | |x].
  - (* statement *)
    destruct (statement_backs s t m locks q k ch r tx' c' o Hs Hp Hm He) as (-> & Hq & Hview & Htx).
    specialize (Hk (ch_answer ch) Hq). rewrite (statement_mute _ _ _ _ _ _ _ _ _ He).
    apply exec_sql in He as [_ He]. split; [|by intros ev ?%elem_of_nil]. exists b. rewrite Hview. split; [|done].
    destruct (sv_tx s !! t) as [d|] eqn:Hd; destruct He as [-> _]; [|done].
    destruct Hb as (b0 & -> & Hb0). exists b0. split; [done|by etrans].
  - (* begin *)
    destruct (sv_tx s !! t) as [d|]; [done|]. subst b. cbn [exec backs_effect delta default] in *.
    rewrite view_nothing in Hk. destruct Hk as [Hk1 Hk2].
    destruct (a_fault (ch_answer ch)); injection He as <- <- <- <-; (split; [|by intros ev ?%elem_of_nil]).
    + exists None. split; [done|]. cbn. by rewrite view_nothing.
    + exists (Some (sv_db s)). split; [by exists (sv_db s)|]. cbn. by rewrite view_nothing.
  - (* commit *)
    destruct (sv_tx s !! t) as [d|]; [|done]. destruct Hb as (b0 & -> & Hb0).
    cbn [exec backs_effect delta default] in *. destruct Hk as [Hk1 Hk2].
    destruct (a_fault (ch_answer ch)); injection He as <- <- <- <-; (split; [|by intros ev ?%elem_of_nil]);
      exists None; (split; [done|]); cbn; rewrite view_nothing; [|done].
    apply Hk2. destruct (a_lost _); [by left|by right].
  - (* rollback *)
    destruct (sv_tx s !! t) as [d|]; [|done]. destruct Hb as (b0 & -> & Hb0).
    cbn [exec backs_effect delta default] in *. injection He as <- <- <- <-.
    split; [|by intros ev ?%elem_of_nil]. exists None. split; [done|]. cbn. rewrite view_nothing. by apply Hk.
  - injection He as <- <- <- <-. split; [|by intros ev ?%elem_of_nil]. exists b. split; [done|apply Hk].
  - injection He as <- <- <- <-. split; [|by intros ev ?%elem_of_nil]. exists b. split; [done|apply Hk].
  - injection He as <- <- <- <-. destruct Hk as [Hsays Hk]. split; [by exists b|].
    intros ev Hev. apply list_elem_of_singleton in Hev as <-. destruct Hsays as [-> Hev].
    destruct (sv_tx s !! t); [by destruct Hb as (? & ? & _)|]. cbn in Hev. by rewrite view_nothing in Hev.
Qed.

(** One move of a schedule, of programs that are well typed and backed. *)
Definition backed_job (p : prog (result unit)) : Prop :=
  whole p /\ forall v, backs over_with None p v.

Lemma move_backed H mv s s' :
  sound s -> all_backed s -> allowed backed_job H mv -> move mv s = Some s' -> all_backed s'.
Proof.
  intros Hs Hall Hm Hmove. pose proof Hall as [Hout Hb]. destruct mv as [t p|t ch|t]; simpl in Hm, Hmove.
  - unfold arrive in Hmove. destruct (sv_prog s t) eqn:Hp; [done|]. injection Hmove as <-. split; simpl; [done|].
    intros t'. destruct (decide (t' = t)) as [->|Hne]; [|by rewrite upd_ne].
    rewrite upd_eq. pose proof (so_sessions _ Hs t) as Htx. rewrite Hp in Htx. simpl in Htx. rewrite Htx.
    exists None. split; [done|apply Hm].
  - unfold advance in Hmove. pose proof (so_sessions _ Hs t) as Hses.
    destruct (sv_prog s t) as [[a|R e k]|] eqn:Hp; [done| |done]. destruct Hses as (m & Htyped & Hok).
    case_decide; [|done]. destruct (exec ch e _ _) as [[[[r tx'] c'] o]|] eqn:He; [|done].
    injection Hmove as <-. pose proof (typed_outlives s t m e k ch r tx' c' o Hs Htyped Hok He) as Hc.
    destruct (own_step s t m e k ch r tx' c' o Hs Hall Htyped Hok Hp He) as [Hown Hsaid].
    split; simpl.
    + intros ev [Hev|Hev]%elem_of_app; [|by apply Hsaid]. by eapply backed_stable, Hout.
    + intros t'. destruct (decide (t' = t)) as [->|Hne].
      * by rewrite lookup_partial_alter_eq, upd_eq.
      * rewrite lookup_partial_alter_ne, upd_ne by done. by eapply session_later.
  - injection Hmove as <-. split; simpl; [done|]. intros t'. destruct (decide (t' = t)) as [->|Hne].
    + by rewrite upd_eq.
    + by rewrite lookup_delete_ne, upd_ne.
Qed.

Lemma idle_backed db : all_backed (idle db).
Proof. split; [by intros ev ?%elem_of_nil|done]. Qed.

(** Whatever the schedule, everything that has been published is backed. *)
Lemma moves_backed H db l s :
  schema db -> traced db -> Forall (allowed backed_job H) l -> moves l (idle db) = Some s -> all_backed s.
Proof.
  intros Hs Ht Hl. assert (interleaving whole H db (idle db)) as Hi by apply interleaving_start.
  pose proof (idle_backed db) as Hb. revert Hi Hb. generalize (idle db) as s0. induction Hl as [|mv l Hm _ IH]; intros s0 Hi Hb; simpl;
    [by intros [= <-]|].
  destruct (move mv s0) as [s1|] eqn:Hmv; [|done]. apply IH.
  - eapply interleaving_step; [done|]. eapply move_cstep; [|done]. by destruct mv; [apply Hm|..].
  - eapply move_backed; [|done..]. by eapply interleaving_sound.
Qed.

(** ** Rules *)

#[global] Arguments backs : simpl never.

Section rules.
Context {A : Type}.
Implicit Types (Q : option DB -> A -> DB -> Prop).

Lemma backs_ret Q tx (a : A) v : Q tx a v -> backs Q tx (Ret a) v.
Proof. done. Qed.

Lemma backs_now Q tx (k : time -> prog A) v :
  (forall t v', outlives v v' -> backs Q tx (k t) v') -> backs Q tx (Do Now k) v.
Proof. intros Hk v' Hv _ t. by apply Hk. Qed.

Lemma backs_uuid Q tx (k : uuid -> prog A) v :
  (forall i v', outlives v v' -> backs Q tx (k i) v') -> backs Q tx (Do NewUUID k) v.
Proof. intros Hk v' Hv _ i. by apply Hk. Qed.

Lemma backs_counted Q tx c (k : unit -> prog A) v :
  (forall v', outlives v v' -> backs Q tx (k tt) v') -> backs Q tx (Do (Output_ (Counted c)) k) v.
Proof. intros Hk v' Hv _. split; [done|]. by apply Hk. Qed.

Lemma backs_published Q ev (k : unit -> prog A) v :
  backed v ev -> (forall v', outlives v v' -> backs Q None (k tt) v') ->
  backs Q None (Do (Output_ (Published ev)) k) v.
Proof. intros Hev Hk v' Hv _. split; [|by apply Hk]. split; [done|]. by eapply backed_stable. Qed.

(** A query answers from what the session sees; it, or any statement, may fail. *)
Lemma backs_query {R} Q tx locks (f : DB -> R) (k : result R -> prog A) v :
  (forall m v', backs Q tx (k (Err (PlainError m))) v') ->
  (forall v', outlives v v' -> schema v' -> backs Q tx (k (Ok (f v'))) v') ->
  backs Q tx (Do (Statement locks (query f)) k) v.
Proof.
  intros Hf Hk v' Hv Hs a. cbn zeta. intros _. rewrite respond_query. unfold respond, query.
  destruct (a_fault a); simpl; auto.
Qed.

Lemma backs_sql {R} Q tx locks (s : sql R) (k : result R -> prog A) v :
  (forall m v', backs Q tx (k (Err (PlainError m))) v') ->
  (forall a v', outlives v v' -> schema v' -> outlives v' (s a v').2 ->
     backs Q tx (k (s a v').1) (s a v').2) ->
  backs Q tx (Do (Statement locks s) k) v.
Proof. intros Hf Hk v' Hv Hs a. cbn zeta. unfold respond. destruct (a_fault a); simpl; auto. Qed.
End rules.

(** The body of a transaction leaves it open, and has established [Post] if it succeeds. *)
Definition leaves {A} (tx : option DB) (Post : A -> DB -> Prop) (tx' : option DB) (r : result A) (v : DB) : Prop :=
  tx' = tx /\ match r with Ok a => Post a v | Err _ => True end.

Lemma backs_tx {A} (fn : prog (result A)) (Post : A -> DB -> Prop) v :
  (forall a, Stable (Post a)) ->
  (forall v0, outlives v v0 -> schema v0 -> backs (leaves (Some v0) Post) (Some v0) fn v0) ->
  backs (leaves None Post) None (WithinTransaction fn) v.
Proof.
  intros HP Hfn. unfold WithinTransaction. cbn [bind perform]. intros v0 Hv Hs. split; [|done].
  intros h. eapply backs_bind; [by apply Hfn|]. intros tx r v1 [-> Hr]. destruct r as [a|e].
  - intros v2 Hv2 _. cbn [bind perform]. split; [|done]. split; [done|]. by eapply HP.
  - cbn [bind perform]. intros v2 Hv2 _ r v3 Hv3. by destruct r.
Qed.

(** *** Programs that publish nothing *)

(** A program that publishes nothing. *)
Fixpoint tacit {A} (p : prog A) : Prop :=
  match p with
  | Ret _ => True
  | @Do _ R e k =>
      match e in effect R return (R -> prog A) -> (R -> Prop) -> Prop with
      | Output_ (Published _) => fun _ _ => False
      | Output_ (Counted _) => fun _ K => K tt
      | _ => fun _ K => forall r, K r
      end k (fun r => tacit (k r))
  end.

Lemma tacit_bind {A B} (p : prog A) (k : A -> prog B) : tacit p -> (forall a, tacit (k a)) -> tacit (bind p k).
Proof.
  intros Hp Hk. induction p as [a|R e k' IH]; simpl in *; [apply Hk|].
  destruct e as [| | | | | |[|]]; simpl in *; auto.
Qed.

(** It is in the mode its typing says. *)
Definition in_mode (m : mode) (tx : option DB) : Prop :=
  match m with
  | Outside => tx = None
  | Inside _ _ => is_Some tx
  end.

Lemma claimed_slot a slot v e :
  schema v -> (respond a (WaitlistRepo.claim_next slot) v).1 = Ok (Some e) -> wl_SlotID e = slot.
Proof.
  intros Hs. unfold respond, WaitlistRepo.claim_next. destruct (a_fault a); [done|].
  destruct (WaitlistRepo.next_entry _ _ _) as [x|] eqn:Hx; simpl; [|done]. intros [= <-].
  apply next_entry_Some in Hx as (_ & Hslot & _); [done|]. apply schema_waitlist, Hs.
Qed.

Lemma tacit_backs {A} (Q : mode -> A -> Prop) m (p : prog A) tx v :
  disciplined Q m p -> tacit p -> in_mode m tx ->
  backs (fun tx a _ => exists m, Q m a /\ in_mode m tx) tx p v.
Proof.
  intros Hp. revert tx v. induction Hp as [m a Ha|m k _ IH|m k _ IH|m o k _ IH|m R ? f k _ IH|m R q k _ _ _ IH
    |R q k _ _ IH|tx mine slot k _ IH1 _ IH2 _ IH3|tx w x k _ _ IH|k _ IH1 _ IH2|mine tx k _ IH|mine tx k _ IH];
    intros tx0 v Hq Hm; simpl in Hq;
    [by apply backs_ret; exists m|intros v' _ Hs..].
  - intros t. by apply IH.
  - intros i. by apply IH.
  - destruct o; [done|]. split; [done|]. by apply IH.
  - intros a x _. by apply IH.
  - intros a x _. apply IH; [done|]. by destruct m.
  - intros a x _. by apply IH.
  - intros a x _. unfold x. clear x. destruct (respond a _ v') as [[[e|]|err] v1] eqn:Hr; cbn [fst snd].
    + apply IH1; [|done..]. apply (claimed_slot a slot v'); [done|by rewrite Hr].
    + by apply IH2.
    + by apply IH3.
  - intros a y _. by apply IH.
  - split; [intros h; by apply IH1; [|eexists]|intros err; by apply IH2].
  - split; [by apply IH|]. intros err v1 _. by apply IH.
  - intros r v1 _. by apply IH.
Qed.

(** *** The statements that write *)

Section statements.
Context {A : Type}.
Implicit Types (Q : option DB -> A -> DB -> Prop).

(** The insert of a booking. *)
Lemma backs_book Q tx x (k : result N -> prog A) v :
  (forall e v', backs Q tx (k (Err e)) v') -> (forall v', backs Q tx (k (Ok 0%N)) v') ->
  (forall v', outlives v v' -> row db_bookings (bk_ID x) (same_booking x) v' -> backs Q tx (k (Ok 1%N)) v') ->
  bk_Status x = BookingStatusActive -> backs Q tx (Do (Sql (BookingRepo.insert x)) k) v.
Proof.
  intros He H0 Hk Hx. apply backs_sql; [auto|]. intros a v1 Hv Hs Hown.
  destruct (booking_insert_inv x a v1 Hx) as [[_ Heq]|[(e & Heq & _)|(Heq & _)]]; rewrite Heq in *;
    cbn [fst snd] in *; auto.
  apply Hk; [by etrans|]. exists x. split; [apply lookup_insert_eq|reflexivity].
Qed.

(** The cancellation of a booking that was seen. *)
Lemma backs_cancel_booking Q tx id x (k : result (option Booking) -> prog A) v :
  row db_bookings id (same_booking x) v ->
  (forall e v', backs Q tx (k (Err e)) v') ->
  (forall v', outlives v v' -> row db_bookings id (cancelled_since x) v' -> backs Q tx (k (Ok None)) v') ->
  (forall y v', outlives v v' -> schema v' -> cancelled_since x y ->
     row db_bookings id (same_booking y) v' -> backs Q tx (k (Ok (Some y))) v') ->
  backs Q tx (Do (Sql (BookingRepo.update_cancelled id)) k) v.
Proof.
  intros Hx He H0 Hk. apply backs_sql; [auto|]. intros a v1 Hv Hs Hown.
  pose proof (preserves (I := schema) (s := BookingRepo.update_cancelled id) a v1 Hs) as Hs'.
  apply (stable _ _ Hv) in Hx. destruct Hx as (y & Hy & Hxy).
  unfold BookingRepo.update_cancelled in *. rewrite Hy in *. case_bool_decide as Hact; cbn [fst snd] in *.
  - apply Hk; [by etrans|done| |].
    + split; [|done]. etrans; [done|]. by right.
    + exists (BookingRepo.with_Status BookingStatusCancelled y). split; [apply lookup_insert_eq|reflexivity].
  - apply H0; [done|]. exists y. split; [done|]. split; [done|]. by destruct (bk_Status y).
Qed.

(** The update of a reservation that was seen. *)
Lemma backs_update_active Q tx id upd x (k : result (option SlotReservation) -> prog A) v :
  Preserves schema (ReservationRepo.update_active id upd) ->
  (forall r, rs_Status r = ReservationStatusActive -> settled_since r (upd r)) ->
  row db_reservations id (same_origin x) v ->
  (forall e v', backs Q tx (k (Err e)) v') ->
  (forall v', outlives v v' -> row db_reservations id (settled_since x) v' -> backs Q tx (k (Ok None)) v') ->
  (forall y v', outlives v v' -> schema v' -> settled_since x y ->
     row db_reservations id (same_origin y) v' -> backs Q tx (k (Ok (Some y))) v') ->
  backs Q tx (Do (Sql (ReservationRepo.update_active id upd)) k) v.
Proof.
  intros Hp Hu Hx He H0 Hk. apply backs_sql; [auto|]. intros a v1 Hv Hs Hown.
  pose proof (preserves (I := schema) (s := ReservationRepo.update_active id upd) a v1 Hs) as Hs'.
  apply (stable _ _ Hv) in Hx. destruct Hx as (y & Hy & Hxy).
  unfold ReservationRepo.update_active in *. rewrite Hy in *. case_bool_decide as Hact; cbn [fst snd] in *.
  - destruct (Hu y Hact) as [Hor Hst]. apply Hk; [by etrans|done|by split; [etrans|]|].
    exists (upd y). split; [apply lookup_insert_eq|reflexivity].
  - apply H0; [done|]. by exists y.
Qed.

(** The reservations that were due. *)
Definition seen_expired (db : DB) (r : SlotReservation) : Prop :=
  rs_Status r = ReservationStatusExpired /\ row db_reservations (rs_ID r) (same_origin r) db.

Lemma seen_expired_later v v' r : outlives v v' -> seen_expired v r -> seen_expired v' r.
Proof. intros Hv [Hst Hr]. split; [done|]. by apply (stable _ _ Hv). Qed.

Lemma expire_rows_lookup now l (t : gmap uuid SlotReservation) r :
  (forall x y, x ∈ l -> y ∈ l -> rs_ID x = rs_ID y -> x = y) -> r ∈ l ->
  ReservationRepo.expire_rows now l t !! rs_ID r = Some (ReservationRepo.expire now r).
Proof.
  intros Huniq Hr. induction l as [|x l IH]; [by apply elem_of_nil in Hr|]. simpl.
  destruct (decide (rs_ID x = rs_ID r)) as [Heq|Hne].
  - rewrite Heq, lookup_insert_eq. do 2 f_equal. apply Huniq; [by left|done|done].
  - rewrite lookup_insert_ne by done. apply IH.
    + intros y z Hy Hz. apply Huniq; by right.
    + apply elem_of_cons in Hr as [->|Hr]; done.
Qed.

Lemma backs_expire_batch Q tx now limit (k : result (list SlotReservation) -> prog A) v :
  (forall e v', backs Q tx (k (Err e)) v') ->
  (forall l v', outlives v v' -> Forall (seen_expired v') l -> backs Q tx (k (Ok l)) v') ->
  backs Q tx (Do (Sql (ReservationRepo.expire_batch now limit)) k) v.
Proof.
  intros He Hk. apply backs_sql; [auto|]. intros a v1 Hv Hs. unfold ReservationRepo.expire_batch.
  destruct (limit <? 0)%Z; cbn [fst snd]; intros Hown; [apply He|]. apply Hk; [by etrans|].
  apply Forall_forall. intros r' Hr'. apply list_elem_of_fmap in Hr' as (r & -> & Hr).
  split; [done|]. exists (ReservationRepo.expire now r). split; [|reflexivity].
  apply (expire_rows_lookup now _ _ r); [|done]. intros x y Hx Hy Heq.
  apply elem_of_picked in Hx as ([i Hi] & _), Hy as ([j Hj] & _).
  pose proof (reservations_pkey _ _ _ _ (schema_reservations _ Hs)) as Hkey.
  rewrite (Hkey _ _ Hi), (Hkey _ _ Hj) in Heq. congruence.
Qed.

(** A slot is passed on: an entry of its waitlist is claimed, and a reservation made for it. *)
Lemma backs_claim Q tx slot (k : result (option WaitlistEntry) -> prog A) v :
  (forall e v', backs Q tx (k (Err e)) v') ->
  (forall v', outlives v v' -> backs Q tx (k (Ok None)) v') ->
  (forall e v', outlives v v' -> wl_SlotID e = slot -> wl_Status e = WaitlistStatusNotified ->
     row db_waitlist (wl_ID e) (moves_on e) v' -> backs Q tx (k (Ok (Some e))) v') ->
  backs Q tx (Do (Sql (WaitlistRepo.claim_next slot)) k) v.
Proof.
  intros He H0 Hk. apply backs_sql; [auto|]. intros a v1 Hv Hs. unfold WaitlistRepo.claim_next.
  destruct (WaitlistRepo.next_entry _ _ _) as [e|] eqn:Hn; cbn [fst snd]; intros Hown; [|by apply H0].
  apply next_entry_Some in Hn as (_ & Hslot & _); [|apply schema_waitlist, Hs].
  apply Hk; [by etrans|done|done|]. eexists. split; [apply lookup_insert_eq|reflexivity].
Qed.

Lemma backs_reserve Q tx r (k : result SlotReservation -> prog A) v :
  (forall e v', backs Q tx (k (Err e)) v') ->
  (forall v', outlives v v' -> row db_reservations (rs_ID r) (same_origin r) v' -> backs Q tx (k (Ok r)) v') ->
  backs Q tx (Do (Sql (ReservationRepo.insert r)) k) v.
Proof.
  intros He Hk. apply backs_sql; [auto|]. intros a v1 Hv Hs Hown.
  destruct (reservation_insert_inv r a v1) as [[e Heq]|(Heq & _)]; rewrite Heq in *; cbn [fst snd] in *; [auto|].
  apply Hk; [by etrans|]. exists r. split; [apply lookup_insert_eq|reflexivity].
Qed.
End statements.
