(* ===== verification/Backed.v ===== *)
(** * Backed: events are backed by what has been committed

    Every job of the service follows the logic of [Stable]: what its requests publish is
    backed, however they interleave. *)

From Stdlib Require Import Ascii.
From S2P Require Import Prelude Domain GoStd Platform Database Program Postgres Schema Usecase.
From S2P Require Import Handover Invariant System Announcements Frame Scenario SlotGen Http Deployment Tally.
From S2P Require Import Concurrency Discipline Interleaving Parallel Finality Stable.
From S2P Require Booking Waitlist Reservation Rooms Schedules Calendar Auth Middleware Handlers.

(** ** Programs whose events are backed *)

(** Outside of transactions, and there again when it is done. *)
Definition sincere {A} (p : prog A) : Prop := forall v, backs (fun tx _ _ => tx = None) None p v.

Lemma sincere_bind {A B} (p : prog A) (k : A -> prog B) :
  sincere p -> (forall a, sincere (k a)) -> sincere (bind p k).
Proof. intros Hp Hk v. eapply backs_bind; [apply Hp|]. intros tx a v' ->. apply Hk. Qed.

Lemma sincere_ret {A} (a : A) : sincere (Ret a).
Proof. intros v. by apply backs_ret. Qed.
Lemma sincere_now : sincere (perform Now).
Proof. intros v. apply backs_now. intros. by apply backs_ret. Qed.
Lemma sincere_uuid : sincere (perform NewUUID).
Proof. intros v. apply backs_uuid. intros. by apply backs_ret. Qed.
Lemma sincere_sql {R} locks (s : sql R) : sincere (perform (Statement locks s)).
Proof. intros v. apply backs_sql; intros; by apply backs_ret. Qed.
Lemma sincere_inc m c : sincere (inc m c).
Proof. destruct m; [apply sincere_ret|]. intros v. apply backs_counted. intros. by apply backs_ret. Qed.
Lemma sincere_observe c : sincere (observe c).
Proof. intros v. apply backs_counted. intros. by apply backs_ret. Qed.
#[export] Hint Resolve sincere_ret sincere_now sincere_uuid sincere_sql sincere_inc sincere_observe : svc.

(** A transaction that publishes nothing. *)
Lemma sincere_tx {A} (fn : prog (result A)) :
  (forall tx, body tx fn) -> tacit fn -> sincere (WithinTransaction fn).
Proof.
  intros Hfn Ht v. eapply backs_mono; [|apply (tacit_backs (fun m _ => m = Outside) Outside (WithinTransaction fn) None v)].
  - by intros tx a v' (m & -> & Hm).
  - by apply whole_tx.
  - unfold WithinTransaction. intros [tx|err]; cbn; [|done]. apply tacit_bind; [done|].
    intros [a|err]; by intros [|].
  - done.
Qed.

(** [sincere] by the structure of the program. *)
Ltac sincerely :=
  repeat first
    [ by auto with svc
    | apply sincere_bind; [|intros ?]
    | progress cbv beta iota zeta delta [ok fail bind_ok answered on_err]
    | case_match ].

(** What the session sees moves on; what is stable goes with it. *)
Ltac carry Hv :=
  lazymatch type of Hv with
  | outlives ?v ?v' =>
      repeat match goal with
      | H : ?P v |- _ => apply (stable (P := P) v v' Hv) in H
      | H : in_room v ?slot ?room |- _ => apply (in_room_stable slot room v v' Hv) in H
      | H : backed v ?ev |- _ => apply (backed_stable ev v v' Hv) in H
      end; clear Hv
  end.

Ltac fails := intros; norm; apply backs_ret; by split.

Ltac back :=
  norm;
  lazymatch goal with
  | |- backs _ _ (Ret _) _ => apply backs_ret
  | |- backs _ _ (Do Now _) _ => apply backs_now; let Hv := fresh "Hv" in intros ?now ?v Hv; carry Hv
  | |- backs _ _ (Do NewUUID _) _ => apply backs_uuid; let Hv := fresh "Hv" in intros ?id ?v Hv; carry Hv
  | |- backs _ _ (Do (Output_ (Counted _)) _) _ =>
      apply backs_counted; let Hv := fresh "Hv" in intros ?v Hv; carry Hv
  | |- backs _ _ (Do (Output_ (Published _)) _) _ =>
      apply backs_published; [|let Hv := fresh "Hv" in intros ?v Hv; carry Hv]
  | |- backs _ _ (Do (Statement _ (query _)) _) _ =>
      apply backs_query; [fails|let Hv := fresh "Hv" in intros ?v Hv ?Hs; carry Hv]
  | |- backs _ _ ?p _ =>
      lazymatch p with
      | context [observe _] => unfold observe
      | context [inc ?m _] => destruct m; cbn [inc]
      | context [publish ?e _] => destruct e; cbn [publish]
      end
  end; norm.

(** ** What the transactions establish *)

(** The slot of a row exists. *)
Lemma booking_in_room v id b : schema v -> row db_bookings id (same_booking b) v ->
  exists slot, db_slots v !! bk_SlotID b = Some slot.
Proof.
  intros Hs (x & Hx & Hbx). assert (bk_SlotID x = bk_SlotID b) as <- by by destruct Hbx as [->|[_ ->]].
  by apply (bookings_slot_id_fkey _ _ _ (schema_bookings _ Hs) id x).
Qed.
Lemma reservation_in_room v id r : schema v -> row db_reservations id (same_origin r) v ->
  exists slot, db_slots v !! rs_SlotID r = Some slot.
Proof.
  intros Hs (x & Hx & <- & _). by apply (reservations_slot_id_fkey _ _ _ _ (schema_reservations _ Hs) id x).
Qed.

(** The slot has been passed on: the entry [e] has been claimed and the reservation [r] made
    for it. *)
Record handed (slot : uuid) (e : WaitlistEntry) (r : SlotReservation) (db : DB) : Prop := {
  hand_reservation : row db_reservations (rs_ID r) (same_origin r) db;
  hand_entry : row db_waitlist (wl_ID e) (moves_on e) db;
  hand_slot : rs_SlotID r = slot /\ wl_SlotID e = slot;
  hand_user : rs_UserID r = wl_UserID e;
  hand_from : rs_WaitlistEntryID r = Some (wl_ID e);
  hand_status : wl_Status e <> WaitlistStatusActive }.

#[export] Instance handed_stable slot e r : Stable (handed slot e r).
Proof. intros v v' Hv []. split; [by apply (stable _ _ Hv)..|done|done|done|done]. Qed.

Lemma handed_reserved db room slot e r :
  in_room db slot room -> handed slot e r db -> backed db (EvSlotReserved room slot (rs_ID r)).
Proof.
  intros Hr [(x & Hx & Hs & _) _ [<- _] _ _ _]. split; [done|]. by exists x.
Qed.

Lemma handed_notified db room slot e r :
  in_room db slot room -> handed slot e r db ->
  backed db (EvWaitlistSlotReserved room slot (wl_UserID e) (rs_ID r) (wl_ID e) (rs_ExpiresAt r)).
Proof.
  intros Hr [(x & Hx & Hs & Hu & Hf & _ & Ht) (y & Hy & Hys & Hyu & _ & Hst) [<- Hslot] Huser Hfrom Hstatus].
  split; [done|]. split.
  - exists x. split; [done|]. split_and!; [done|congruence|congruence|]. by destruct Ht as [->|(_ & _ & ?)].
  - exists y. split; [done|]. split_and!; [congruence|done|]. by destruct Hst as [->|[? _]].
Qed.

(** A transaction, and what is done with its result. *)
Lemma sincere_tx_then {A B} (fn : prog (result A)) (Post : A -> DB -> Prop) (k : result A -> prog B) :
  (forall a, Stable (Post a)) ->
  (forall b v, backs (leaves (Some b) Post) (Some b) fn v) ->
  (forall a v, Post a v -> backs (fun tx _ _ => tx = None) None (k (Ok a)) v) ->
  (forall err, sincere (k (Err err))) -> sincere (bind (WithinTransaction fn) k).
Proof.
  intros HP Hfn Hk He v. eapply backs_bind; [by apply (backs_tx fn Post)|].
  intros tx [a|err] v' [-> Ha]; [by apply Hk|apply He].
Qed.

(** *** CreateBooking *)

Lemma create_booking_tx_backs b s user slotID now v :
  backs (leaves (Some b) (fun x db => backed db (EvSlotBooked x.2 (bk_SlotID x.1) (bk_ID x.1))))
    (Some b) (Booking.create_booking_tx s user slotID now) v.
Proof.
  unfold Booking.create_booking_tx. back.
  destruct (db_slots v0 !! slotID) as [slot|] eqn:Hslot; [|by back].
  assert (in_room v0 slotID (sl_RoomID slot)) as Hroom by by exists slot. clear Hslot.
  destruct (_ <? _)%Z; [by back|].
  eapply (backs_bind _ (leaves (Some b) (fun _ db => in_room db slotID (sl_RoomID slot)))).
  - destruct (Booking.reservations s); [|by back]. back. by destruct (first_where _ _); back.
  - intros tx [[]|err] v1 [-> Hr]; [|by back]. back.
    apply backs_book; [fails|change (0 =? 0)%N with true; fails| |done].
    intros v3 Hv Hrow. carry Hv. change (1 =? 0)%N with false. back. split; [done|]. split; [done|].
    destruct Hrow as (x & Hx & Hb). exists x. split; [done|]. by destruct Hb as [->|[? ->]].
Qed.

Lemma CreateBooking_sincere s user slotID link : sincere (Booking.CreateBooking s user slotID link).
Proof.
  unfold Booking.CreateBooking. case_match; [by sincerely|]. apply sincere_bind; [by auto with svc|].
  intros now. apply sincere_tx_then with (Post := fun x db => backed db (EvSlotBooked x.2 (bk_SlotID x.1) (bk_ID x.1))).
  - intros x. apply backed_stable.
  - intros b v. apply create_booking_tx_backs.
  - intros [x room] v Hb. cbn [fst snd] in Hb. repeat back; done.
  - intros err. sincerely.
Qed.

(** *** CancelBooking *)

Definition cancel_backed (x : Booking.CancelVars) (db : DB) : Prop :=
  let slot := bk_SlotID (Booking.cv_result x) in
  backed db (EvSlotReleased (Booking.cv_roomID x) slot (bk_ID (Booking.cv_result x))) /\
  forall e r, Booking.cv_notifiedEntry x = Some e -> Booking.cv_createdReservation x = Some r -> handed slot e r db.

#[export] Instance cancel_backed_stable x : Stable (cancel_backed x).
Proof.
  intros v v' Hv [H1 H2]. split; [by eapply backed_stable|]. intros e r He Hr. apply (stable _ _ Hv). by apply H2.
Qed.

Lemma released_backed v id x y slot : 
  schema v -> cancelled_since x y -> row db_bookings id (same_booking y) v ->
  db_slots v !! bk_SlotID y = Some slot ->
  backed v (EvSlotReleased (sl_RoomID slot) (bk_SlotID y) (bk_ID y)).
Proof.
  intros Hs [_ Hst] (z & Hz & Hyz) Hslot. destruct Hyz as [->|[? ->]]; [|congruence].
  split; [by exists slot|]. exists y. split; [|done].
  by rewrite (bookings_pkey _ _ _ (schema_bookings _ Hs) id y Hz).
Qed.

(** The slot is passed on to nobody. *)
Ltac nobody := back; split; [done|]; split; [assumption|intros ? ? [=]].

Lemma cancel_booking_tx_backs b s user id v :
  backs (leaves (Some b) cancel_backed) (Some b) (Booking.cancel_booking_tx s user id) v.
Proof.
  unfold Booking.cancel_booking_tx. back.
  destruct (db_bookings v0 !! id) as [x|] eqn:Hx; [|by back].
  assert (row db_bookings id (same_booking x) v0) as Hseen by by (exists x; split). clear Hx Hs.
  case_match; [by back|]. eapply backs_cancel_booking; [exact Hseen|fails|clear Hseen..].
  1: intros v1 Hv Hseen; carry Hv; back; destruct Hseen as (y & Hy & Hc); rewrite Hy;
    assert (row db_bookings id (same_booking y) v2) as Hrow by (by exists y; split); clear Hy Hs.
  2: intros y v2 Hv _ Hc Hrow; norm; carry Hv.
  all: back; destruct (booking_in_room _ _ _ Hs Hrow) as [slot Hslot]; rewrite Hslot;
    pose proof (released_backed _ _ _ _ _ Hs Hc Hrow Hslot) as Hev; clear Hs Hrow Hslot.
  all: case_match; [|nobody].
  all: destruct (Booking.waitlists s); [|nobody].
  all: apply backs_claim; [fails|intros v4 Hv; carry Hv; nobody|].
  all: intros e v4 Hv He Hst Hrow; carry Hv; norm; destruct (Booking.reservations s); [|by back].
  all: back; back; apply backs_reserve; [fails|].
  all: intros v7 Hv Hres; carry Hv; back; split; [done|]; split; [exact Hev|].
  all: intros e' r' [= <-] [= <-]; split; [done..|by rewrite Hst].
Qed.

(** Executes announcements. *)
Ltac announce :=
  repeat first
    [ back
    | done
    | by eapply handed_reserved
    | by eapply handed_notified
    | match goal with |- context [if ?c then _ else _] => destruct c end ].

Lemma CancelBooking_sincere s user id : sincere (Booking.CancelBooking s user id).
Proof.
  unfold Booking.CancelBooking. case_match; [by sincerely|].
  apply sincere_tx_then with (Post := cancel_backed); [apply _|intros b v; apply cancel_booking_tx_backs| |].
  - intros [y room released [e|] [r|]] v [Hev Hhand]; pose proof (proj1 Hev) as Hroom;
      cbn [event_slot event_room Booking.cv_notifiedEntry Booking.cv_createdReservation Booking.cv_roomID
        Booking.cv_result Booking.cv_slotReleased] in *.
    1: specialize (Hhand e r eq_refl eq_refl).
    all: announce.
  - intros err. sincerely.
Qed.

(** *** ConfirmReservation *)

Lemma confirm_reservation_tx_backs b user id now v :
  backs (leaves (Some b) (fun x db => backed db (EvSlotBooked x.2 (bk_SlotID x.1.1) (bk_ID x.1.1))))
    (Some b) (Reservation.confirm_reservation_tx user id now) v.
Proof.
  unfold Reservation.confirm_reservation_tx. back.
  destruct (db_reservations v0 !! id) as [r|]; [|by back]. do 2 (case_match; [by back|]).
  destruct (now <? rs_ExpiresAt r)%Z; [|by back]. back.
  destruct (first_where _ _); [by back|]. back.
  destruct (db_slots v2 !! rs_SlotID r) as [slot|] eqn:Hslot; [|by back].
  assert (in_room v2 (rs_SlotID r) (sl_RoomID slot)) as Hroom by by exists slot. clear Hslot.
  case_match; [by back|]. back.
  apply backs_book; [fails|change (0 =? 0)%N with true; fails| |done].
  intros v4 Hv Hrow. carry Hv. change (1 =? 0)%N with false. norm.
  apply backs_sql; [fails|]. intros a v5 Hv _ Hown. carry Hv.
  destruct (ReservationRepo.update_active _ _ a v5) as [[[y|]|err] v6]; cbn [fst snd] in *; carry Hown;
    [|back; case_match|]; back;
    (split; [done|]); try done; (split; [done|]).
  all: destruct Hrow as (x & Hx & Hb); exists x; split; [done|by destruct Hb as [->|[? ->]]].
Qed.

Lemma ConfirmReservation_sincere s user id : sincere (Reservation.ConfirmReservation s user id).
Proof.
  unfold Reservation.ConfirmReservation. case_match; [by sincerely|]. apply sincere_bind; [by auto with svc|].
  intros now. apply sincere_tx_then with
    (Post := fun x db => backed db (EvSlotBooked x.2 (bk_SlotID x.1.1) (bk_ID x.1.1))).
  - intros x. apply backed_stable.
  - intros b v. apply confirm_reservation_tx_backs.
  - intros [[x r] room] v Hev. cbn [fst snd] in Hev. announce.
  - intros err. sincerely.
Qed.

(** *** CancelReservation *)

Definition give_up_backed (x : Reservation.CancelVars) (db : DB) : Prop :=
  Reservation.cv_changed x = true ->
  let slot := rs_SlotID (Reservation.cv_cancelled x) in
  backed db (EvSlotAvailable (Reservation.cv_roomID x) slot) /\
  forall e r, Reservation.cv_notifiedEntry x = Some e -> Reservation.cv_nextReservation x = Some r ->
    handed slot e r db.

#[export] Instance give_up_backed_stable x : Stable (give_up_backed x).
Proof.
  intros v v' Hv Hx Hc. destruct (Hx Hc) as [H1 H2]. split; [by eapply backed_stable|].
  intros e r He Hr. apply (stable _ _ Hv). by apply H2.
Qed.

Lemma available_backed v id x y room :
  in_room v (rs_SlotID x) room -> settled_since x y -> row db_reservations id (same_origin y) v ->
  backed v (EvSlotAvailable room (rs_SlotID y)).
Proof.
  intros Hroom [(Hslot & _) Hst] (z & Hz & Hs & _ & _ & _ & Hor). rewrite Hslot. split; [done|].
  exists id, z. split; [done|]. split; [congruence|]. by destruct Hor as [->|[? _]].
Qed.

Lemma seen_key v id r : schema v -> db_reservations v !! id = Some r -> rs_ID r = id.
Proof. intros Hs. apply (reservations_pkey _ _ _ _ (schema_reservations _ Hs)). Qed.

Lemma cancel_reservation_tx_backs b s user id now v :
  backs (leaves (Some b) give_up_backed) (Some b) (Reservation.cancel_reservation_tx s user id now) v.
Proof.
  unfold Reservation.cancel_reservation_tx. back.
  destruct (db_reservations v0 !! id) as [x|] eqn:Hx; [|by back].
  assert (row db_reservations (rs_ID x) (same_origin x) v0) as Hseen
    by by (rewrite (seen_key _ _ _ Hs Hx); exists x; split). clear Hx Hs.
  case_match; [by back|]. back. destruct (reservation_in_room _ _ _ Hs Hseen) as [slot Hslot]. rewrite Hslot.
  assert (in_room v1 (rs_SlotID x) (sl_RoomID slot)) as Hroom by by exists slot. clear Hs Hslot.
  case_match; [by back|].
  eapply backs_update_active; [apply _|intros r Hr; split; [by apply cancel_origin|done]|exact Hseen|fails|clear Hseen..].
  1: intros v2 Hv Hseen; carry Hv; back; destruct Hseen as (y & Hy & Hc); rewrite Hy;
    assert (row db_reservations (rs_ID x) (same_origin y) v3) as Hrow by (by exists y; split); clear Hy Hs.
  2: intros y v3 Hv _ Hc Hrow; norm; carry Hv.
  all: pose proof (available_backed _ _ _ _ _ Hroom Hc Hrow) as Hev; clear Hroom Hrow.
  all: destruct Hc as [(Hsame & _) _].
  all: destruct (Reservation.waitlists s); norm; [|back; split; [done|]; intros _; by split].
  all: apply backs_claim; [fails|intros v4 Hv; carry Hv; back; split; [done|]; intros _; by split|].
  all: intros e v4 Hv He Hst Hrow; carry Hv; back; apply backs_reserve; [fails|].
  all: intros v6 Hv Hres; carry Hv; back; split; [done|]; intros _; split; [exact Hev|].
  all: intros e' r' [= <-] [= <-]; split; cbn; rewrite ?Hsame, ?Hst; done.
Qed.

Lemma CancelReservation_sincere s user id : sincere (Reservation.CancelReservation s user id).
Proof.
  unfold Reservation.CancelReservation. case_match; [by sincerely|]. apply sincere_bind; [by auto with svc|].
  intros now. apply sincere_tx_then with (Post := give_up_backed); [apply _|intros b v; apply cancel_reservation_tx_backs| |].
  - intros [y [|] room [e|] [r|]] v Hx; cbn [Reservation.cv_changed Reservation.cv_nextReservation
      Reservation.cv_notifiedEntry Reservation.cv_roomID Reservation.cv_cancelled]; try (by apply backs_ret).
    all: destruct (Hx eq_refl) as [Hev Hhand]; pose proof (proj1 Hev) as Hroom;
      cbn [event_slot event_room Reservation.cv_nextReservation Reservation.cv_notifiedEntry
        Reservation.cv_roomID Reservation.cv_cancelled] in *.
    1: specialize (Hhand e r eq_refl eq_refl).
    all: announce.
  - intros err. sincerely.
Qed.

(** *** ExpireDue *)

Definition all_expired (l : list SlotReservation) (db : DB) : Prop := Forall (seen_expired db) l.

#[export] Instance all_expired_stable l : Stable (all_expired l).
Proof. intros v v' Hv Hl. eapply Forall_impl; [exact Hl|]. intros r. by apply seen_expired_later. Qed.

(** The reservations made for waiting users, with their rooms. *)
Definition replaced (p : Reservation.Replacement) (db : DB) : Prop :=
  let r := Reservation.rp_reservation p in
  in_room db (rs_SlotID r) (Reservation.rp_roomID p) /\ handed (rs_SlotID r) (Reservation.rp_waitlist p) r db.
Definition all_replaced (l : list Reservation.Replacement) (db : DB) : Prop := Forall (fun p => replaced p db) l.

#[export] Instance all_replaced_stable l : Stable (all_replaced l).
Proof.
  intros v v' Hv Hl. eapply Forall_impl; [exact Hl|]. intros p [H1 H2].
  split; [by eapply in_room_stable|by apply (stable _ _ Hv)].
Qed.

Record vars_backed (x : Reservation.ExpireVars) (db : DB) : Prop := {
  vb_rooms : forall slot room, Reservation.ev_slotRooms x !! slot = Some room -> in_room db slot room;
  vb_replacements : all_replaced (Reservation.ev_replacements x) db }.

#[export] Instance vars_backed_stable x : Stable (vars_backed x).
Proof.
  intros v v' Hv [Hr Hp]. split; [|by apply (stable _ _ Hv)].
  intros slot room Hx. by eapply in_room_stable, Hr.
Qed.

(** The room of the slot is known. *)
Definition known (x : Reservation.ExpireVars) (slot : uuid) : Prop := is_Some (Reservation.ev_slotRooms x !! slot).

Lemma with_room_backed x slotID slot db :
  db_slots db !! slotID = Some slot -> vars_backed x db ->
  vars_backed (Reservation.with_room slotID (Some slot) x) db.
Proof.
  intros Hslot [Hr Hp]. split; [|done]. intros i room Hi. simpl in Hi.
  apply lookup_insert_Some in Hi as [[<- <-]|[_ Hi]]; [by exists slot|by apply Hr].
Qed.

Lemma with_replacement_backed x slotID e r db :
  known x slotID -> rs_SlotID r = slotID -> handed slotID e r db -> vars_backed x db ->
  vars_backed (Reservation.with_replacement slotID e r x) db.
Proof.
  intros [room Hroom] <- Hhand [Hr Hp]. split; [done|]. simpl. apply Forall_app. split; [done|].
  constructor; [|done]. split; [|done]. simpl. unfold Reservation.room_of. rewrite Hroom. by apply Hr.
Qed.

(** After the loop over [l], which is the end of the batch [l0]. *)
Definition loop_backed (l0 : list SlotReservation) (x : Reservation.ExpireVars) (l : list SlotReservation) (x' : Reservation.ExpireVars)
    (db : DB) : Prop :=
  all_expired l0 db /\ vars_backed x' db /\ (forall slot, known x slot -> known x' slot) /\ Forall (fun r => known x' (rs_SlotID r)) l.

Lemma loop_backed_cons l0 x x1 r l x' db :
  (forall slot, known x slot \/ slot = rs_SlotID r -> known x1 slot) ->
  loop_backed l0 x1 l x' db -> loop_backed l0 x (r :: l) x' db.
Proof. intros Hk (H0 & Hv & Hm & Hl). split_and!; [done..|auto|]. constructor; auto. Qed.

Lemma expire_loop_backs b s now l0 l x v :
  all_expired l0 v -> all_expired l v -> vars_backed x v ->
  backs (leaves (Some b) (loop_backed l0 x l)) (Some b) (Reservation.expire_loop s now l x) v.
Proof.
  revert x v. induction l as [|r l IH]; intros x v H0 Hl Hx; cbn [Reservation.expire_loop].
  { back. split; [done|]. by split_and!. }
  apply Forall_cons in Hl as [[_ Hr] Hl]. fold (all_expired l v) in Hl. back.
  destruct (reservation_in_room _ _ _ Hs Hr) as [slot Hslot]. rewrite Hslot.
  apply (with_room_backed _ _ _ _ Hslot) in Hx. set (x1 := Reservation.with_room _ _ x) in *.
  assert (forall i, known x i \/ i = rs_SlotID r -> known x1 i) as Hk.
  { intros i Hi. unfold known, x1. simpl. apply lookup_insert_is_Some'. destruct Hi as [?| ->]; auto. }
  assert (known x1 (rs_SlotID r)) as Hk1 by auto. clearbody x1. clear Hs Hslot Hr.
  assert (forall x2 v2, (forall i, known x1 i -> known x2 i) -> all_expired l0 v2 ->
    all_expired l v2 -> vars_backed x2 v2 ->
    backs (leaves (Some b) (loop_backed l0 x (r :: l))) (Some b) (Reservation.expire_loop s now l x2) v2) as Hrest.
  { intros x2 v2 Hk2 H2 Hl2 Hx2. eapply backs_mono; [|by apply IH]. intros tx [x'|err] v' [-> Hp]; split; try done.
    eapply loop_backed_cons; [|exact Hp]. auto. }
  destruct (Reservation.waitlists s); norm; [|by apply Hrest].
  apply backs_claim; [fails|intros v1 Hv; carry Hv; norm; by apply Hrest|].
  intros e v1 Hv He Hst Hrow. carry Hv. back. apply backs_reserve; [fails|].
  intros v3 Hv Hres. carry Hv. norm. apply Hrest; [by intros i|done..|].
  apply with_replacement_backed; [done..| |done]. split; cbn; rewrite ?Hst; done.
Qed.

Definition due_backed (x : list SlotReservation * Reservation.ExpireVars) (db : DB) : Prop :=
  all_expired x.1 db /\ vars_backed x.2 db /\ Forall (fun r => known x.2 (rs_SlotID r)) x.1.

#[export] Instance due_backed_stable x : Stable (due_backed x).
Proof. intros v v' Hv (H1 & H2 & H3). split_and!; [by apply (stable _ _ Hv)..|done]. Qed.

Lemma expire_due_tx_backs b s now limit v :
  backs (leaves (Some b) due_backed) (Some b) (Reservation.expire_due_tx s now limit) v.
Proof.
  unfold Reservation.expire_due_tx. norm. apply backs_expire_batch; [fails|]. intros l v1 Hv Hl.
  fold (all_expired l v1) in Hl. norm. clear Hv.
  eapply backs_bind; [apply (expire_loop_backs _ _ _ l l); [done|done|split; [done|constructor]]|]. intros tx [x|err] v2 [-> Hx]; norm; back; [|done].
  destruct Hx as (H1 & H2 & _ & H3). by split_and!.
Qed.

Lemma room_of_backed x slot db : known x slot -> vars_backed x db -> in_room db slot (Reservation.room_of x slot).
Proof. intros [room Hr] [Hx _]. unfold Reservation.room_of. rewrite Hr. by apply Hx. Qed.

Lemma expired_events db r room :
  in_room db (rs_SlotID r) room -> seen_expired db r ->
  backed db (EvReservationExpired room (rs_SlotID r) (rs_UserID r) (rs_ID r)) /\
  backed db (EvSlotReservationExpired room (rs_SlotID r) (rs_ID r)) /\
  backed db (EvSlotAvailable room (rs_SlotID r)).
Proof.
  intros Hroom [Hst (z & Hz & Hor)].
  assert (z = r) as -> by by destruct Hor as (_ & _ & _ & _ & [->|[? _]]); [|congruence].
  split_and!; (split; [exact Hroom|]); [by exists r..|]. exists (rs_ID r), r. by rewrite Hst.
Qed.

Lemma announce_expired_sincere s x l v :
  vars_backed x v -> all_expired l v -> Forall (fun r => known x (rs_SlotID r)) l ->
  backs (fun tx _ v' => tx = None /\ vars_backed x v') None (Reservation.announce_expired s x l) v.
Proof.
  revert v. induction l as [|r l IH]; intros v Hx Hl Hk; cbn [Reservation.announce_expired]; [by back|].
  apply Forall_cons in Hl as [Hr Hl], Hk as [Hk1 Hk]. fold (all_expired l v) in Hl.
  destruct (expired_events v r _ (room_of_backed _ _ _ Hk1 Hx) Hr) as (E1 & E2 & E3). clear Hr.
  announce; by apply IH.
Qed.

Lemma announce_replacements_sincere s l v :
  all_replaced l v -> backs (fun tx _ _ => tx = None) None (Reservation.announce_replacements s l) v.
Proof.
  revert v. induction l as [|p l IH]; intros v Hl; cbn [Reservation.announce_replacements]; [by back|].
  apply Forall_cons in Hl as [[Hroom Hp] Hl]. fold (all_replaced l v) in Hl. announce; by apply IH.
Qed.

Lemma ExpireDue_sincere s limit : sincere (Reservation.ExpireDue s limit).
Proof.
  unfold Reservation.ExpireDue. apply sincere_bind; [by auto with svc|].
  intros now. apply sincere_tx_then with (Post := due_backed); [apply _|intros b v; apply expire_due_tx_backs| |].
  - intros [[|r l] x] v (Hl & Hx & Hk); cbn [fst snd] in *; [by back|].
    eapply backs_bind; [by apply announce_expired_sincere|]. intros tx [] v1 [-> Hx1].
    eapply backs_bind; [by apply announce_replacements_sincere, vb_replacements|]. intros tx [] v2 ->. by back.
  - intros err. sincerely.
Qed.

(** ** The other requests *)

Ltac tacitly := repeat first [done | intros ? | case_match | progress simpl].

Lemma join_tx_sincere user slotID : sincere (WithinTransaction (Waitlist.join_waitlist_tx user slotID)).
Proof. apply sincere_tx; [auto with svc|]. unfold Waitlist.join_waitlist_tx. tacitly. Qed.
Lemma leave_tx_sincere user id : sincere (WithinTransaction (Waitlist.leave_waitlist_tx user id)).
Proof. apply sincere_tx; [auto with svc|]. unfold Waitlist.leave_waitlist_tx. tacitly. Qed.
#[local] Hint Resolve join_tx_sincere leave_tx_sincere : svc.

Lemma JoinWaitlist_sincere user slotID : sincere (Waitlist.JoinWaitlist user slotID).
Proof. unfold Waitlist.JoinWaitlist. sincerely. Qed.
Lemma LeaveWaitlist_sincere user id : sincere (Waitlist.LeaveWaitlist user id).
Proof. unfold Waitlist.LeaveWaitlist. sincerely. Qed.
Lemma ListBookings_sincere user page pageSize : sincere (Booking.ListBookings user page pageSize).
Proof. unfold Booking.ListBookings, BookingRepo.List. sincerely. Qed.
Lemma ListMyBookings_sincere user : sincere (Booking.ListMyBookings user).
Proof. unfold Booking.ListMyBookings, BookingRepo.ListFutureByUser. sincerely. Qed.
Lemma ListMyActiveReservations_sincere user : sincere (Reservation.ListMyActiveReservations user).
Proof. unfold Reservation.ListMyActiveReservations, ReservationRepo.ListActiveByUser. sincerely. Qed.
#[export] Hint Resolve CreateBooking_sincere CancelBooking_sincere ListBookings_sincere
  ListMyBookings_sincere JoinWaitlist_sincere LeaveWaitlist_sincere ConfirmReservation_sincere
  CancelReservation_sincere ListMyActiveReservations_sincere ExpireDue_sincere : svc.

Lemma serve_sincere cfg req : sincere (serve cfg req).
Proof. destruct req; unfold serve; sincerely. Qed.

Lemma make_schedules_sincere roomID input t days : sincere (Schedules.make_schedules roomID input t days).
Proof. induction days; cbn [Schedules.make_schedules]; sincerely. Qed.
#[export] Hint Resolve make_schedules_sincere : svc.

Lemma Register_sincere P email password role : sincere (Auth.Register P email password role).
Proof. unfold Auth.Register, UserRepo.GetByEmail, UserRepo.Create. sincerely. Qed.
Lemma Login_sincere P secret email password : sincere (Auth.Login P secret email password).
Proof. unfold Auth.Login, Auth.Sign, UserRepo.GetByEmail. sincerely. Qed.
Lemma DummyLogin_sincere P secret role : sincere (Auth.DummyLogin P secret role).
Proof. unfold Auth.DummyLogin, Auth.Sign. sincerely. Qed.
Lemma ListRooms_sincere user : sincere (Rooms.ListRooms user).
Proof. unfold Rooms.ListRooms, RoomRepo.List. sincerely. Qed.
Lemma CreateRoom_sincere user input : sincere (Rooms.CreateRoom user input).
Proof. unfold Rooms.CreateRoom, RoomRepo.Create. sincerely. Qed.
Lemma CreateSchedule_sincere time_in time_out pg_message user roomID input :
  sincere (Schedules.CreateSchedule time_in time_out pg_message user roomID input).
Proof.
  unfold Schedules.CreateSchedule, Schedules.CreateBatch, RoomRepo.GetByID, ScheduleRepo.ExistsByRoomID. sincerely.
Qed.
Lemma ListAvailableSlots_sincere user room date : sincere (Calendar.ListAvailableSlots user room date).
Proof. unfold Calendar.ListAvailableSlots, Calendar.validateAndNormalizeRequest,
    RoomRepo.GetByID, SlotRepo.ListAvailableByRoomAndDate, SlotRepo.ListAllByRoomAndDate. sincerely. Qed.
Lemma ListRoomSlots_sincere user room date : sincere (Calendar.ListRoomSlots user room date).
Proof. unfold Calendar.ListRoomSlots, Calendar.validateAndNormalizeRequest,
    RoomRepo.GetByID, SlotRepo.ListAvailableByRoomAndDate, SlotRepo.ListAllByRoomAndDate. sincerely. Qed.
#[export] Hint Resolve Register_sincere Login_sincere DummyLogin_sincere ListRooms_sincere CreateRoom_sincere
  CreateSchedule_sincere ListAvailableSlots_sincere ListRoomSlots_sincere : svc.

(** ** The slot generator *)

Section generator.
Context (NewSHA1 : uuid -> list ascii -> uuid) (g : Generator).

Lemma ctx_Err_sincere : sincere ctx_Err.
Proof. unfold ctx_Err. auto with svc. Qed.
Lemma flushBatch_sincere batch : sincere (flushBatch batch).
Proof. destruct batch; unfold flushBatch, SlotRepo.InsertBatchIgnoreConflicts; sincerely. Qed.
#[local] Hint Resolve ctx_Err_sincere flushBatch_sincere : svc.
Lemma appendSlot_sincere batch slot : sincere (appendSlot g batch slot).
Proof. unfold appendSlot. sincerely. Qed.
#[local] Hint Resolve appendSlot_sincere : svc.
Lemma each_start_sincere roomID lowerBound target createdAt batch starts :
  sincere (each_start NewSHA1 g roomID lowerBound target createdAt batch starts).
Proof. revert batch. induction starts; intros batch; cbn [each_start]; sincerely. Qed.
#[local] Hint Resolve each_start_sincere : svc.
Lemma each_schedule_sincere roomID day lowerBound target createdAt batch schedules :
  sincere (each_schedule NewSHA1 g roomID day lowerBound target createdAt batch schedules).
Proof.
  revert batch. induction schedules; intros batch; cbn [each_schedule]; unfold generateForSchedule; sincerely.
Qed.
#[local] Hint Resolve each_schedule_sincere : svc.
Lemma each_day_sincere roomID schedules lowerBound target createdAt batch ds :
  sincere (each_day NewSHA1 g roomID schedules lowerBound target createdAt batch ds).
Proof. revert batch. induction ds; intros batch; cbn [each_day]; sincerely. Qed.
#[local] Hint Resolve each_day_sincere : svc.
Lemma each_room_sincere schedByRoom now target rooms : sincere (each_room NewSHA1 g schedByRoom now target rooms).
Proof.
  induction rooms; cbn [each_room]; unfold generateForRoom, SlotRepo.GetLastSlotStartByRoomID; sincerely.
Qed.
#[local] Hint Resolve each_room_sincere : svc.
Lemma Generate_sincere : sincere (Generate NewSHA1 g).
Proof. unfold Generate, RoomRepo.ListWithSchedule, ScheduleRepo.ListByRoomIDs. sincerely. Qed.
End generator.

(** ** HTTP *)

Lemma respond_sincere (p : prog (result Handlers.reply)) : sincere p -> sincere (Handlers.respond p).
Proof. intros Hp. unfold Handlers.respond. sincerely. Qed.

Section http.
Context (P : Platform) (c : Wiring).

Lemma dispatch_sincere ep user r : sincere (dispatch P (router_deps P c) ep user r).
Proof.
  destruct ep;
    cbn [dispatch router_deps AuthUC RoomUC ScheduleUC SlotUC BookingUC WaitlistUC ReservationUC];
    unfold Handlers.Register, Handlers.Login, Handlers.DummyLogin, Handlers.ListRooms,
      Handlers.CreateRoom, Handlers.CreateSchedule, Handlers.ListAvailableSlots,
      Handlers.ListRoomSlots, Handlers.CreateBooking, Handlers.ListBookings,
      Handlers.ListMyBookings, Handlers.CancelBooking, Handlers.JoinWaitlist,
      Handlers.LeaveWaitlist, Handlers.ListMyActiveReservations, Handlers.ConfirmReservation,
      Handlers.CancelReservation, Handlers.with_user, Handlers.with_auth, Handlers.parsed,
      Handlers.write; try apply respond_sincere; destruct user; simpl; sincerely.
Qed.

Lemma authenticate_sincere secret authorization : sincere (Middleware.AuthenticateRequest P secret authorization).
Proof.
  unfold Middleware.AuthenticateRequest, Middleware.AuthenticateToken, Middleware.parseAndValidateToken. sincerely.
Qed.
#[local] Hint Resolve dispatch_sincere authenticate_sincere : svc.

Lemma ServeHTTP_sincere ep r : sincere (ServeHTTP P (router_deps P c) ep r).
Proof. unfold ServeHTTP, Middleware.request_id, RequireUser. sincerely. Qed.
End http.

(** ** The jobs *)

Lemma job_backed P c NewSHA1 p : job P c NewSHA1 p -> backed_job p.
Proof.
  intros Hp. split; [by eapply job_whole|]. intros v.
  apply backs_mono with (Q := fun tx _ _ => tx = None); [done|].
  destruct Hp as [ep r|req|g]; [|apply serve_sincere|apply Generate_sincere].
  apply sincere_bind; [apply ServeHTTP_sincere|]. intros x. apply sincere_ret.
Qed.

Lemma allowed_jobs jobs jobs' H m : (forall p, jobs p -> jobs' p) -> allowed jobs H m -> allowed jobs' H m.
Proof. intros Hj. destruct m; simpl; auto. Qed.

Lemma allowed_weaken jobs jobs' H l :
  (forall p, jobs p -> jobs' p) -> Forall (allowed jobs H) l -> Forall (allowed jobs' H) l.
Proof. intros Hj. induction 1; constructor; [by eapply allowed_jobs|done]. Qed.

(** C3. However requests of every kind, ticks of the worker and runs of the slot generator
    interleave, whatever fails and whichever connections are lost: every event that has been
    published is backed by committed rows, and stays so.  It names the room of its slot, and:
    slot_booked that a booking of the slot with this identifier was committed; slot_released
    that this booking of the slot is cancelled; slot_available that a reservation of the slot is
    over; slot_reserved and waitlist_slot_reserved that this reservation of the slot was
    committed, the latter also for whom, from which waitlist entry - which is of this user and
    slot and has left the queue - and until when; slot_reservation_expired and
    reservation_expired that this reservation of the slot, the latter also that of this user,
    has expired.  Nothing that was rolled back, or whose COMMIT failed, has been announced. *)
Theorem events_are_backed P c NewSHA1 H db l s ev :
  schema db -> traced db -> Forall (allowed (job P c NewSHA1) H) l -> moves l (idle db) = Some s ->
  Published ev ∈ sv_out s -> backed (sv_db s) ev.
Proof.
  intros Hs Ht Hl Hm. apply bk_out. eapply (moves_backed H db l); [done..| |done].
  eapply allowed_weaken; [|exact Hl]. apply job_backed.
Qed.

(** Alice's two cancellations, Carol's booking and Bob's entry, interleaved. *)
Definition raced : Server := default (idle (w_db booked)) (moves double_cancel (idle (w_db booked))).

Lemma double_cancel_runs : moves double_cancel (idle (w_db booked)) = Some raced.
Proof.
  assert ((if moves double_cancel (idle (w_db booked)) then true else false) = true) as H1 by by vm_compute.
  unfold raced. by destruct (moves double_cancel _).
Qed.

(** The slot was announced as released, and then booked and reserved again: the booking that
    released it is cancelled all the same. *)
Lemma events_are_backed_witness :
  Published (EvSlotReleased 10 20 1000) ∈ sv_out raced /\ given_twice (sv_db raced) 20 /\
  row db_bookings 1000 (fun b => bk_SlotID b = 20%N /\ bk_Status b = BookingStatusCancelled) (sv_db raced) /\
  row db_waitlist 4001 (fun e => wl_SlotID e = 20%N /\ wl_UserID e = 2%N /\ wl_Status e <> WaitlistStatusActive)
    (sv_db raced).
Proof.
  assert (forall ev, bool_decide (Published ev ∈ sv_out raced) = true ->
    Published ev ∈ sv_out raced /\ backed (sv_db raced) ev) as Hev.
  { intros ev Hev. apply bool_decide_eq_true in Hev. split; [exact Hev|]. destruct booking_traced as [Hs Ht].
    exact (events_are_backed sample wiring_times short_id quiet (w_db booked) double_cancel raced ev Hs Ht
      (double_cancel_allowed sample short_id) double_cancel_runs Hev). }
  destruct (Hev (EvSlotReleased 10 20 1000)) as [H1 [_ H2]]; [by vm_compute|].
  destruct (Hev (EvWaitlistSlotReserved 10 20 2 5000 4001 3900000000000)) as [_ [_ [_ H3]]]; [by vm_compute|].
  split; [exact H1|]. split; [|by split].
  exists 4000%N, 5000%N. eexists _, _. split; [by vm_compute|]. split; [by vm_compute|]. by split_and!.
Defined.
