(* ===== verification/EndToEnd.v ===== *)
(** * EndToEnd: from the database to the websockets

    The parts of a running process put together as main.go does: the server with its
    interleaved requests and workers ([Concurrency], [Parallel]), whose announcements the
    publisher writes to a Redis channel ([Realtime]), the subscriber that hands them to the
    hub, and the hub with the goroutines of its clients ([Hub]), who were let in with a token
    ([Gateway]).  All of them interleave.  Redis may lose, repeat and reorder what it carries,
    and only this service writes to the channel. *)

From Stdlib Require Import Ascii.
From S2P Require Import Prelude Domain GoStd Platform Database Program Postgres Schema Usecase.
From S2P Require Import Handover Invariant System Announcements Frame Scenario SlotGen Http Deployment Tally.
From S2P Require Import Concurrency Discipline Interleaving Parallel Finality Stable Backed.
From S2P Require Dates Sessions Handlers Realtime Hub HubSafety HubDelivery Gateway.

Abbreviation bytes := (list ascii).

Record Deployed := {
  dp_server : Server;
  (** What has been written to the channel. *)
  dp_channel : list bytes;
  dp_hub : Hub.System }.

Inductive Happening :=
| Serve (m : Move)
(** The publisher writes an event that a session announces; it does so at the time [now]. *)
| Publish (ev : Event) (now : time)
(** The subscriber handles a message of the channel; the goroutine [t] delivers it. *)
| Receive (t : Hub.tid) (payload : bytes)
(** [user] is let in; the goroutine [t] runs the client [c]. *)
| Upgrade (t : Hub.tid) (c : Hub.cid) (user : User)
(** A goroutine of the hub. *)
| Go (t : Hub.tid) (ch : Hub.Choice)
| Next (t t' : Hub.tid).

Section deployed.
Context (P : Platform) (channel : string).

Definition on_hub (m : Hub.Move) (s : Deployed) : option Deployed :=
  match Hub.move P m (dp_hub s) with
  | Some h => Some {| dp_server := dp_server s; dp_channel := dp_channel s; dp_hub := h |}
  | None => None
  end.

Definition happen (x : Happening) (s : Deployed) : option Deployed :=
  match x with
  | Serve m =>
      match move m (dp_server s) with
      | Some server => Some {| dp_server := server; dp_channel := dp_channel s; dp_hub := dp_hub s |}
      | None => None
      end
  | Publish ev now =>
      if bool_decide (Published ev ∈ sv_out (dp_server s)) then
        match Realtime.publishEvent channel (Realtime.event_of (Realtime.Announce ev) now) with
        | Some payload => Some {| dp_server := dp_server s; dp_channel := payload :: dp_channel s;
                                  dp_hub := dp_hub s |}
        | None => Some s
        end
      else None
  | Receive t payload =>
      if bool_decide (payload ∈ dp_channel s) then
        match (Realtime.handleMessage P payload).1 with
        | Ok d => on_hub (Hub.Arrive t d) s
        | Err _ => Some s
        end
      else None
  | Upgrade t c user => on_hub (Hub.Connect t c (us_ID user)) s
  | Go t ch => on_hub (Hub.Go t ch) s
  | Next t t' => on_hub (Hub.Next t t') s
  end.

Fixpoint happens (l : list Happening) (s : Deployed) : option Deployed :=
  match l with
  | [] => Some s
  | x :: l => match happen x s with Some s => happens l s | None => None end
  end.

Definition just_started (db : DB) : Deployed :=
  {| dp_server := idle db; dp_channel := []; dp_hub := Hub.initial |}.
End deployed.

Section assumptions.
Context (P : Platform) (c : Wiring) (NewSHA1 : uuid -> list ascii -> uuid) (H : Assm).

(** [user] got through the handler of /ws. *)
Definition let_in (user : User) : Prop :=
  exists r E w, (run E (Gateway.ServeHTTP P (wi_JWTSecret c) r true) w).1 = Gateway.LetIn user.

(** The jobs of the service are served, identifiers have 128 bits, events are published in a
    year of four digits. *)
Definition possible (x : Happening) : Prop :=
  match x with
  | Serve m => allowed (job P c NewSHA1) H m
  | Publish ev now => Realtime.fits (Realtime.Announce ev) /\ Dates.four_digit_year now
  | Upgrade _ _ user => let_in user
  | _ => True
  end.
End assumptions.

(** ** What the goroutines of the hub leave alone *)

(** The deliveries it was asked for and the users of its clients; rooms are asked for by
    clients only. *)
Record same_people (h h' : Hub.Hub) : Prop := {
  sp_deliveries : Hub.h_deliveries (Hub.hb_history h') = Hub.h_deliveries (Hub.hb_history h);
  sp_users : forall c cl', Hub.hb_clients h' !! c = Some cl' ->
    exists cl, Hub.hb_clients h !! c = Some cl /\ Hub.cl_user cl = Hub.cl_user cl';
  sp_kept : forall c, is_Some (Hub.hb_clients h !! c) -> is_Some (Hub.hb_clients h' !! c);
  sp_asked : forall c room, (c, room) ∈ Hub.h_asked (Hub.hb_history h') ->
    (c, room) ∈ Hub.h_asked (Hub.hb_history h) \/ is_Some (Hub.hb_clients h !! c) }.

Lemma same_people_refl h : same_people h h.
Proof. split; eauto. Qed.

Lemma same_people_update h c cl cl' :
  Hub.hb_clients h !! c = Some cl -> Hub.cl_user cl' = Hub.cl_user cl -> same_people h (Hub.update c cl' h).
Proof.
  intros Hc Hu. split; simpl; [done|..|by left].
  - intros d x [[<- <-]|[_ Hx]]%lookup_insert_Some; eauto.
  - intros d Hd. apply lookup_insert_is_Some'. by right.
Qed.

Lemma act_people t ch {R} (a : Hub.action R) h r h' :
  Hub.act t ch a h = Some (r, h') -> same_people h h'.
Proof.
  intros Ha. destruct a; HubSafety.acted Ha; try apply same_people_refl; try (split; eauto; done);
    try (by eapply same_people_update).
  destruct (same_people_update h c cl (Hub.with_subscribed ({[roomID]} ∪ Hub.cl_subscribed cl) cl)) as [S1 S2 S3 _];
    [done..|]. split; simpl; [done..|]. intros d room Hin. apply elem_of_union in Hin as [Hin|Hin]; [right|by left].
  apply elem_of_singleton in Hin as [= -> ->]. by exists cl.
Qed.

Lemma move_people P m s s' :
  Hub.move P m s = Some s' ->
  match m with
  | Hub.Connect _ c user => Hub.h_deliveries (Hub.hb_history (Hub.sy_hub s')) =
      Hub.h_deliveries (Hub.hb_history (Hub.sy_hub s)) /\
      Hub.h_asked (Hub.hb_history (Hub.sy_hub s')) = Hub.h_asked (Hub.hb_history (Hub.sy_hub s)) /\
      (forall d, is_Some (Hub.hb_clients (Hub.sy_hub s) !! d) -> is_Some (Hub.hb_clients (Hub.sy_hub s') !! d)) /\
      forall d cl', Hub.hb_clients (Hub.sy_hub s') !! d = Some cl' -> Hub.cl_user cl' = user \/
        exists cl, Hub.hb_clients (Hub.sy_hub s) !! d = Some cl /\ Hub.cl_user cl = Hub.cl_user cl'
  | Hub.Arrive _ d => Hub.sy_hub s' = Hub.announced d (Hub.sy_hub s)
  | _ => same_people (Hub.sy_hub s) (Hub.sy_hub s')
  end.
Proof.
  destruct m as [t c user|t d|t ch|t t']; cbn [Hub.move]; intros Hm.
  - case_match; [|done]. injection Hm as <-. simpl. split_and!; [done|done| |].
    { intros d Hd. apply lookup_insert_is_Some'. by right. }
    intros d cl' [[<- <-]|[_ Hcl]]%lookup_insert_Some; [by left|right; eauto].
  - case_match; [|done]. by injection Hm as <-.
  - destruct (Hub.sy_threads s !! t) as [g|]; [|done]. cbn [mbind option_bind] in Hm.
    assert (forall A (p p' : Hub.proc A) h', Hub.proceed t ch p (Hub.sy_hub s) = Some (p', h') ->
      same_people (Hub.sy_hub s) h') as Hp.
    { intros A p p' h' Hpr. destruct p as [|R a k]; [done|]. cbn [Hub.proceed] in Hpr.
      destruct (Hub.act t ch a (Hub.sy_hub s)) as [[r h1]|] eqn:Ha; [|done]. simplify_eq/=.
      by eapply act_people. }
    destruct g as [? p|? p|? p|p|p];
      (destruct (Hub.proceed t ch p (Hub.sy_hub s)) as [[p' h']|] eqn:Hpr; [|done]);
      simplify_eq/=; by eapply Hp.
  - destruct (Hub.sy_threads s !! t) as [g|]; [|done]. cbn [mbind option_bind] in Hm.
    repeat case_match; simplify_eq/=; apply same_people_refl.
Qed.

(** ** The invariant *)

Lemma move_out m s s' : move m s = Some s' -> exists o, sv_out s' = sv_out s ++ o.
Proof.
  destruct m as [t p|t ch|t]; simpl.
  - unfold arrive. destruct (sv_prog s t); [done|]. intros [= <-]. exists []. by rewrite app_nil_r.
  - unfold advance. destruct (sv_prog s t) as [[a|R e k]|]; [done| |done]. case_decide; [|done].
    destruct (exec ch e _ _) as [[[[r tx'] c'] o]|]; [|done]. intros [= <-]. by exists o.
  - intros [= <-]. exists []. by rewrite app_nil_r.
Qed.

Lemma publishEvent_payload channel e payload :
  Realtime.publishEvent channel e = Some payload -> payload = Json.print (Realtime.event_json e).
Proof. unfold Realtime.publishEvent. case_bool_decide; [done|]. intros Hp. by apply (inj Some) in Hp. Qed.

Section invariant.
Context (P : Platform) (HP : parses_uuids P) (channel : string) (c : Wiring).
Context (NewSHA1 : uuid -> list ascii -> uuid) (H : Assm) (db : DB) (Hs : schema db) (Ht : traced db).

Record in_order (s : Deployed) : Prop := {
  io_server : interleaving whole H db (dp_server s);
  io_backed : all_backed (dp_server s);
  io_hub : Hub.interleaving P (dp_hub s);
  io_channel : forall payload, payload ∈ dp_channel s -> exists ev now,
    Published ev ∈ sv_out (dp_server s) /\ Realtime.fits (Realtime.Announce ev) /\ Dates.four_digit_year now /\
    Realtime.publishEvent channel (Realtime.event_of (Realtime.Announce ev) now) = Some payload;
  io_deliveries : forall d, d ∈ Hub.h_deliveries (Hub.hb_history (Hub.sy_hub (dp_hub s))) -> exists ev now,
    Published ev ∈ sv_out (dp_server s) /\
    d = Realtime.audience (Realtime.Announce ev) (Realtime.message_of (Realtime.Announce ev) now);
  io_people : forall i cl, Hub.hb_clients (Hub.sy_hub (dp_hub s)) !! i = Some cl ->
    exists user, let_in P c user /\ us_ID user = Hub.cl_user cl;
  io_asked : forall i room, (i, room) ∈ Hub.h_asked (Hub.hb_history (Hub.sy_hub (dp_hub s))) ->
    is_Some (Hub.hb_clients (Hub.sy_hub (dp_hub s)) !! i) }.

Lemma start_in_order : in_order (just_started db).
Proof.
  split; simpl; [apply interleaving_start|apply idle_backed|apply Hub.interleaving_start|..]; try done;
    intros x Hx; by apply elem_of_nil in Hx.
Qed.

(** A move of the hub that asks for no delivery. *)
Lemma hub_in_order m s s' :
  in_order s -> on_hub P m s = Some s' ->
  match m with
  | Hub.Connect _ _ user => exists u, let_in P c u /\ us_ID u = user
  | Hub.Arrive _ d => exists ev now, Published ev ∈ sv_out (dp_server s) /\
      d = Realtime.audience (Realtime.Announce ev) (Realtime.message_of (Realtime.Announce ev) now)
  | _ => True
  end -> in_order s'.
Proof.
  intros [I1 I2 I3 I4 I5 I6 I7] Hm Hx. unfold on_hub in Hm. destruct (Hub.move P m (dp_hub s)) as [h|] eqn:Hmv; [|done].
  injection Hm as <-. pose proof (move_people P m _ _ Hmv) as Hpeople.
  assert (Hub.interleaving P h) as Hi by by eapply Hub.interleaving_move.
  assert (same_people (Hub.sy_hub (dp_hub s)) (Hub.sy_hub h) ->
    in_order {| dp_server := dp_server s; dp_channel := dp_channel s; dp_hub := h |}) as Hsame.
  { intros [S1 S2 S3 S4]. split; simpl; [done..|by rewrite S1| |].
    - intros i cl Hcl. destruct (S2 i cl Hcl) as (cl0 & Hcl0 & <-). by eapply I6.
    - intros i room Hr. apply S3. destruct (S4 i room Hr) as [Ha|Ha]; [by eapply I7|done]. }
  destruct m as [t j user|t d|t ch|t t']; [| |by apply Hsame..].
  - destruct Hpeople as (S1 & S2 & S3 & S4). split; simpl; [done..|by rewrite S1| |].
    + intros i cl Hcl. destruct (S4 i cl Hcl) as [Heq|(cl0 & Hcl0 & <-)]; [|by eapply I6].
      destruct Hx as (u & Hu & Hid). exists u. split; [done|congruence].
    + intros i room. rewrite S2. intros Hr. by eapply S3, I7.
  - split; simpl; [done..| |by rewrite Hpeople|by rewrite Hpeople].
    rewrite Hpeople. simpl. intros d' [->|Hd]%elem_of_cons; [exact Hx|by apply I5].
Qed.

Lemma happen_in_order x s s' :
  in_order s -> possible P c NewSHA1 H x -> happen P channel x s = Some s' -> in_order s'.
Proof.
  intros Hi Hp Hx. destruct x as [m|ev now|t payload|t i user|t ch|t t']; cbn [happen possible] in Hp, Hx.
  - destruct (move m (dp_server s)) as [server|] eqn:Hm; [|done]. injection Hx as <-.
    destruct Hi as [I1 I2 I3 I4 I5 I6 I7]. destruct (move_out _ _ _ Hm) as [o Ho].
    assert (forall ev, Published ev ∈ sv_out (dp_server s) -> Published ev ∈ sv_out server) as Hout
      by (intros ev Hev; rewrite Ho; apply elem_of_app; by left).
    pose proof (allowed_jobs _ backed_job H m (job_backed P c NewSHA1) Hp) as Hb.
    split; simpl; try done.
    + eapply interleaving_step; [done|]. eapply move_cstep; [|done]. eapply allowed_jobs; [|done]. by intros p [].
    + eapply move_backed; [|done..]. by eapply interleaving_sound.
    + intros payload Hin. destruct (I4 payload Hin) as (ev & now & ? & ?). eauto.
    + intros d Hin. destruct (I5 d Hin) as (ev & now & ? & ?). eauto.
  - case_bool_decide as Hev; [|done]. destruct Hp as [Hf Hn].
    destruct (Realtime.publishEvent channel _) as [payload|] eqn:Hpay; injection Hx as <-; [|done].
    destruct Hi as [I1 I2 I3 I4 I5 I6 I7]. split; simpl; try done.
    intros p [->|Hin]%elem_of_cons; [|by apply I4]. by exists ev, now.
  - case_bool_decide as Hin; [|done]. destruct (io_channel _ Hi payload Hin) as (ev & now & Hev & Hf & Hn & Hpay).
    apply publishEvent_payload in Hpay as ->.
    rewrite (Realtime.handled_event P) in Hx by done. cbn [fst] in Hx.
    eapply hub_in_order; [exact Hi|exact Hx|]. by exists ev, now.
  - eapply hub_in_order; [exact Hi|exact Hx|]. by exists user.
  - by eapply hub_in_order.
  - by eapply hub_in_order.
Qed.

Lemma happens_in_order l s s' :
  in_order s -> Forall (possible P c NewSHA1 H) l -> happens P channel l s = Some s' -> in_order s'.
Proof.
  intros Hi Hl. revert s Hi. induction Hl as [|x l Hx _ IH]; intros s Hi; simpl; [by intros [= <-]|].
  destruct (happen P channel x s) as [s1|] eqn:Hs1; [|done]. apply IH. by eapply happen_in_order.
Qed.
End invariant.

(** *** The property *)

(** The user of the client was let in with a token of the service. *)
Definition let_in_with_token (P : Platform) (secret : bytes) (h : Hub.Hub) (i : Hub.cid) (userID : uuid) : Prop :=
  HubSafety.user_of h i userID /\
  exists token now user, Sessions.vouched P secret token now user /\ us_ID user = userID.

Lemma client_vouched P channel c H db s i :
  in_order P channel c H db s -> is_Some (Hub.hb_clients (Hub.sy_hub (dp_hub s)) !! i) ->
  exists userID, let_in_with_token P (wi_JWTSecret c) (Hub.sy_hub (dp_hub s)) i userID.
Proof.
  intros Hi [cl Hcl]. destruct (io_people _ _ _ _ _ _ Hi i cl Hcl) as (user & (r & E & w & Hin) & Hid).
  destruct (Gateway.admitted_vouched _ _ _ _ _ _ _ Hin) as (token & now & Hv & _).
  exists (Hub.cl_user cl). split; [by exists cl|]. by exists token, now, user.
Qed.

(** C5. What a websocket client is told about a slot is backed by the database.  HTTP requests of
    every kind, ticks, generator runs, the publisher, the subscriber and the goroutines of the
    hub interleave in any order; statements, commits and connections fail; Redis loses, repeats
    and reorders messages.  Whatever is handed to the websocket of a client is a reply to the
    client itself, or the message of an event whose promise is kept by committed rows - the
    booking it speaks of was made, the booking that released the slot is cancelled, the
    reservation exists, or has expired, and was made from the waitlist entry of its user -, and
    the client belongs to a user who was let in with a token signed by this service, and either
    asked for the room of the event or is the one the event is for. *)
Theorem websockets_tell_what_is_committed P channel c NewSHA1 H db l s i m :
  parses_uuids P -> schema db -> traced db ->
  Forall (possible P c NewSHA1 H) l -> happens P channel l (just_started db) = Some s ->
  let hub := Hub.sy_hub (dp_hub s) in
  (i, m) ∈ Hub.h_written (Hub.hb_history hub) ->
  HubSafety.reply m \/
  exists ev now userID, m = HubSafety.event_message (Realtime.message_of (Realtime.Announce ev) now) /\
    backed (sv_db (dp_server s)) ev /\ let_in_with_token P (wi_JWTSecret c) hub i userID /\
    match Realtime.audience (Realtime.Announce ev) [] with
    | Realtime.Broadcast roomID _ => (i, roomID) ∈ Hub.h_asked (Hub.hb_history hub)
    | Realtime.SendToUser user _ => userID = user
    end.
Proof.
  intros HP Hs Ht Hl Hrun hub Hm.
  assert (in_order P channel c H db s) as Hi
    by (eapply happens_in_order; [done..|by apply start_in_order|done|done]).
  destruct (HubSafety.interleaving_well _ _ (io_hub _ _ _ _ _ _ Hi)) as [Hfine _].
  destruct (HubSafety.written_addressed _ Hfine i m Hm)
    as [Hr|[(room & payload & -> & Hd & Ha)|(user & payload & -> & Hd & Hu)]]; [by left|right..];
    destruct (io_deliveries _ _ _ _ _ _ Hi _ Hd) as (ev & now & Hev & Haud);
    pose proof (bk_out _ (io_backed _ _ _ _ _ _ Hi) ev Hev) as Hb.
  - destruct (client_vouched _ _ _ _ _ _ i Hi (io_asked _ _ _ _ _ _ Hi i room Ha)) as [userID Hu].
    exists ev, now, userID. destruct ev; simplify_eq/=; by split_and!.
  - destruct Hu as (cl & Hcl & <-). destruct (client_vouched _ _ _ _ _ _ i Hi (ex_intro _ cl Hcl)) as [userID Hv].
    assert (userID = Hub.cl_user cl) as -> by (destruct Hv as [(cl' & Hcl' & <-) _]; congruence).
    exists ev, now, (Hub.cl_user cl). destruct ev; simplify_eq/=; by split_and!.
Qed.

(** ** Bob hears of his reservation *)

(** Bob comes with a token that the service has signed for him. *)
Definition bob_token : bytes :=
  match (run env (Auth.Sign sample (wi_JWTSecret wiring_times) 2 RoleUser) start).1 with
  | Ok token => token
  | Err _ => []
  end.
Definition bob_request : Handlers.HttpRequest :=
  {| Handlers.rq_Method := "GET"; Handlers.rq_Header := fun _ => [];
     Handlers.rq_URLParam := fun _ => [];
     Handlers.rq_Query := fun name => if bool_decide (name = "token"%string) then bob_token else [];
     Handlers.rq_Body := [] |}.

Definition offer : Event := EvWaitlistSlotReserved 10 20 2 5000 4001 (3900 * Second).
Definition offer_payload : bytes :=
  default [] (Realtime.publishEvent "bookings" (Realtime.event_of (Realtime.Announce offer) (3700 * Second))).

(** The offer to Bob is made while Alice's requests, Carol's and Bob's race ([double_cancel]); his
    client, whose reader is goroutine 0 and whose writer is goroutine 1, gets the message. *)
Definition hearing : list Happening :=
  (Upgrade 0 7 (Sessions.session_user 2 RoleUser) :: repeat (Go 0 (HubSafety.lets [])) 3 ++ [Next 0 1] ++
   map Serve double_cancel ++
   [Publish offer (3700 * Second); Receive 2 offer_payload; Go 2 (HubSafety.lets [7]);
    Go 2 (HubSafety.lets []); Next 2 9; Go 1 (HubSafety.lets []); Go 1 (HubSafety.lets [])])%N.

Definition heard : Deployed := default (just_started (w_db Parallel.booked)) (happens sample "bookings" hearing (just_started (w_db Parallel.booked))).

Lemma hearing_happens : happens sample "bookings" hearing (just_started (w_db Parallel.booked)) = Some heard.
Proof.
  assert ((if happens sample "bookings" hearing (just_started (w_db Parallel.booked)) then true else false) = true)
    as H1 by by vm_compute.
  unfold heard. by destruct (happens sample "bookings" hearing _).
Qed.

Lemma bob_let_in : let_in sample wiring_times (Sessions.session_user 2 RoleUser).
Proof. exists bob_request, env, start. by vm_compute. Qed.

Lemma serving_possible P c NewSHA1 H l :
  Forall (allowed (job P c NewSHA1) H) l -> Forall (possible P c NewSHA1 H) (map Serve l).
Proof. induction 1; by constructor. Qed.

Lemma hearing_possible : Forall (possible sample wiring_times short_id quiet) hearing.
Proof.
  unfold hearing. cbn [repeat app]. constructor; [exact bob_let_in|]. do 4 (constructor; [done|]).
  apply List.Forall_app. split; [apply serving_possible, double_cancel_allowed|].
  constructor; [by repeat split|]. by repeat constructor.
Qed.

Definition offered_to_bob : Hub.outboundMessage :=
  HubSafety.event_message (Realtime.message_of (Realtime.Announce offer) (3700 * Second)).

Lemma websockets_tell_what_is_committed_witness :
  let hub := Hub.sy_hub (dp_hub heard) in
  (7%N, offered_to_bob) ∈ Hub.h_written (Hub.hb_history hub) /\ ~ HubSafety.reply offered_to_bob /\
  exists ev now userID,
    offered_to_bob = HubSafety.event_message (Realtime.message_of (Realtime.Announce ev) now) /\
    backed (sv_db (dp_server heard)) ev /\ let_in_with_token sample [] hub 7%N userID.
Proof.
  cbv zeta. assert (bool_decide ((7%N, offered_to_bob) ∈ Hub.h_written (Hub.hb_history (Hub.sy_hub (dp_hub heard)))) = true)
    as Hin%bool_decide_eq_true by by vm_compute.
  assert (~ HubSafety.reply offered_to_bob) as Hno.
  { intros (msg & Hmsg & Ht). apply (f_equal Hub.om_messageType) in Hmsg. cbn [Hub.om_messageType] in Hmsg.
    rewrite <- Hmsg in Ht. revert Ht. apply (bool_decide_eq_false_1 _). by vm_compute. }
  split; [exact Hin|]. split; [exact Hno|]. destruct booking_traced as [Hs Ht].
  destruct (websockets_tell_what_is_committed sample "bookings" wiring_times short_id quiet (w_db Parallel.booked)
    hearing heard 7%N offered_to_bob sample_parses_uuids Hs Ht hearing_possible hearing_happens Hin)
    as [Hr|(ev & now & userID & H1 & H2 & H3 & _)]; [by destruct Hno|].
  exists ev, now, userID. split; [exact H1|]. split; [exact H2|exact H3].
Defined.
