(* ===== verification/Lifecycle.v ===== *)
(** * Lifecycle: cmd/app/main.go from its start to its end

    How the process starts or gives up, the two workers with their tickers, and what main
    waits for and writes to the log when it ends.  What the context, the tickers, the server
    and the other processes do is given by the environment as lists and results. *)

From Stdlib Require Import Ascii.
From S2P Require Import Prelude Domain GoStd Platform Database Program Postgres Usecase System Scenario.
From S2P Require Import Http Config SlotGen Expiry.

(** [errors.Is(err, context.Canceled)]. *)
Fixpoint Is_Canceled (err : error) : bool :=
  match err with
  | DomainError _ _ (Some err) | Wrapped _ err => Is_Canceled err
  | DomainError _ _ None | PgError _ _ => false
  | PlainError message => bool_decide (message = "context canceled"%string)
  end.

Inductive Log :=
| Info (message : string)
| Warn (message : string) (err : option error)
| Error_ (message : string) (err : error).

(** ** Start *)

(** pool.go: what pgxpool answers, and whether the pool that was made is closed again. *)
Definition NewPool (ParseConfig NewWithConfig Ping : result unit) : result unit * bool :=
  match ParseConfig with
  | Err err => (Err (Wrapped "parse postgres config" err), false)
  | Ok _ =>
      match NewWithConfig with
      | Err err => (Err (Wrapped "create postgres pool" err), false)
      | Ok _ =>
          match Ping with
          | Err err => (Err (Wrapped "ping postgres" err), true)
          | Ok _ => (Ok tt, false)
          end
      end
  end.

(** migrate.go: what [m.Up] returns. *)
Inductive up_result := Applied | ErrNoChange | UpFailed (err : error).

Definition RunMigrations (New : result unit) (Up : up_result) : result unit :=
  match New with
  | Err err => Err (Wrapped "create migrate instance" err)
  | Ok _ =>
      match Up with
      | UpFailed err => Err (Wrapped "apply migrations" err)
      | Applied | ErrNoChange => Ok tt
      end
  end.

(** What main finds when it starts. *)
Record Surroundings := {
  su_config : result Config;
  (** [pgxpool]. *)
  su_ParseConfig : result unit;
  su_NewWithConfig : result unit;
  su_Ping : result unit;
  (** [golang-migrate]. *)
  su_New : result unit;
  su_Up : up_result;
  su_redis : result unit }.

Definition su_pool (s : Surroundings) : result unit :=
  (NewPool (su_ParseConfig s) (su_NewWithConfig s) (su_Ping s)).1.
Definition su_migrations (s : Surroundings) : result unit := RunMigrations (su_New s) (su_Up s).

(** The configuration that the process runs with, if it does not give up, and the log. *)
Definition start_up (s : Surroundings) : option Config * list Log :=
  match su_config s with
  | Err err => (None, [Error_ "load config" err])
  | Ok cfg =>
      match su_pool s with
      | Err err => (None, [Error_ "connect postgres" err])
      | Ok _ =>
          match (if cf_RunMigrations cfg then su_migrations s else Ok tt) with
          | Err err => (None, [Error_ "run migrations" err])
          | Ok _ =>
              (Some cfg,
               match su_redis s with
               | Err err => [Warn "redis unavailable at startup; realtime in degraded mode until reconnect" (Some err)]
               | Ok _ => [Info "redis connected"]
               end)
          end
      end
  end.

(** ** Workers *)

(** What [select] yields: the context is done, or the ticker ticks. *)
Inductive wake := Done | Tick.

#[global] Instance wake_eq_dec : EqDecision wake.
Proof. solve_decision. Defined.

Definition complaint (message : string) (r : result unit) : list Log :=
  match r with
  | Err err => if Is_Canceled err then [] else [Warn message (Some err)]
  | Ok _ => []
  end.

(** The loop of a worker: the log, and whether it has returned. *)
Fixpoint worker (job : prog (result unit)) (message : string) (l : list wake) : prog (list Log * bool) :=
  match l with
  | [] => Ret ([], false)
  | Done :: _ => Ret ([], true)
  | Tick :: l =>
      let! r := job in
      let! x := worker job message l in
      Ret (complaint message r ++ x.1, x.2)
  end.

Definition expiration_worker (cfg : Settings) : list wake -> prog (list Log * bool) :=
  worker (Reservation.ExpireDue (reservationService cfg) (ReservationExpireBatch cfg))
    "reservation expiration worker failed".

(** The generator runs once before its ticker starts. *)
Definition generator_worker (NewSHA1 : uuid -> list ascii -> uuid) (g : Generator) (l : list wake)
    : prog (list Log * bool) :=
  let! r := Generate NewSHA1 g in
  let! x := worker (Generate NewSHA1 g) "slot generation failed" l in
  Ret (complaint "slot generation failed" r ++ x.1, x.2).

(** What a background goroutine sends to main when it returns [r]: the subscriber, and the
    HTTP server. *)
Definition subscriber_error (r : result unit) : option error :=
  match r with
  | Err err => if Is_Canceled err then None else Some err
  | Ok _ => None
  end.
Definition server_error (closed : bool) (err : error) : option error := if closed then None else Some err.

(** ** The end *)

(** What the main goroutine is woken up by. *)
Inductive ending :=
| SignalReceived
| ServerFailed (err : error)
| SubscriberFailed (err : error).

(** [runErr], and whether [stop] is called here; after a signal the context is done already. *)
Definition run_error (e : ending) : option error :=
  match e with
  | SignalReceived => None
  | ServerFailed err => Some (Wrapped "http server failed" err)
  | SubscriberFailed err => Some (Wrapped "realtime subscriber failed" err)
  end.

(** [server.Shutdown], then the wait for the background goroutines, ten seconds together. *)
Definition shut_down (e : ending) (shutdown : result unit) (finished_in_time : bool) : list Log :=
  match shutdown with Err err => [Warn "graceful shutdown failed" (Some err)] | Ok _ => [] end ++
  (if finished_in_time then [] else [Warn "background shutdown timeout reached" None]) ++
  match run_error e with Some err => [Error_ "application terminated with error" err] | None => [] end.

(** The deferred call that can complain. *)
Definition close_redis (closed : result unit) : list Log :=
  match closed with Err err => [Warn "close redis client" (Some err)] | Ok _ => [] end.

(** The log of main but for the workers; it gives up without configuration, database or schema. *)
Definition main_log (s : Surroundings) (e : ending) (shutdown : result unit) (finished_in_time : bool)
    (closed : result unit) : list Log :=
  let '(cfg, log) := start_up s in
  match cfg with
  | None => log
  | Some _ => log ++ [Info "http server listening"] ++ shut_down e shutdown finished_in_time ++ close_redis closed
  end.

(** ** What the workers do *)

(** The ticks that are served before the context is done. *)
Fixpoint served_ticks (l : list wake) : nat :=
  match l with
  | Tick :: l => S (served_ticks l)
  | _ => O
  end.

Fixpoint repeated (E : Env) (job : prog (result unit)) (n : nat) (w : World) : World :=
  match n with
  | O => w
  | S n => repeated E job n (run E job w).2
  end.

(** A worker does its job once for every tick until the context is done, whatever became of
    the ticks before, and returns exactly when it finds the context done. *)
Lemma worker_serves E job message l w :
  let x := run E (worker job message l) w in
  x.2 = repeated E job (served_ticks l) w /\ x.1.2 = bool_decide (Done ∈ l) /\
  (length x.1.1 <= served_ticks l)%nat.
Proof.
  revert w. induction l as [|[|] l IH]; intros w; cbn [worker served_ticks repeated].
  - done.
  - split; [done|]. split; [|done]. by rewrite bool_decide_true by by left.
  - rewrite !run_bind. destruct (IH (run E job w).2) as (Hw & Hd & Hl). simpl. rewrite Hw, Hd.
    split; [done|]. split.
    + apply bool_decide_ext. rewrite elem_of_cons. split; [auto|]. by intros [[=]|].
    + rewrite length_app. unfold complaint. repeat case_match; simpl; lia.
Qed.

(** For the expiration worker these are the ticks of [Expiry]. *)
Lemma expiration_worker_ticks E cfg l w :
  (run E (expiration_worker cfg l) w).2 = (ticks E cfg (served_ticks l) w).2.
Proof.
  unfold expiration_worker. destruct (worker_serves E
    (Reservation.ExpireDue (reservationService cfg) (ReservationExpireBatch cfg))
    "reservation expiration worker failed" l w) as (-> & _ & _).
  generalize (served_ticks l). intros n. revert w.
  induction n as [|n IH]; intros w; cbn [repeated ticks snd]; [done|].
  rewrite IH. cbn [serve].
  by rewrite run_answered.
Qed.

Lemma NewPool_Ok ParseConfig NewWithConfig Ping :
  (NewPool ParseConfig NewWithConfig Ping).1 = Ok tt <->
  ParseConfig = Ok tt /\ NewWithConfig = Ok tt /\ Ping = Ok tt.
Proof. unfold NewPool. destruct ParseConfig as [[]|], NewWithConfig as [[]|], Ping as [[]|]; naive_solver. Qed.

Lemma RunMigrations_Ok New Up :
  RunMigrations New Up = Ok tt <-> New = Ok tt /\ forall err, Up <> UpFailed err.
Proof. unfold RunMigrations. destruct New as [[]|], Up; naive_solver. Qed.

(** The process runs exactly if it has a configuration, a database that answers and, where it
    is to apply them, migrations that are applied or were before; Redis may be missing. *)
Lemma start_up_needs s : is_Some (start_up s).1 <->
  exists cfg, su_config s = Ok cfg /\
    (su_ParseConfig s = Ok tt /\ su_NewWithConfig s = Ok tt /\ su_Ping s = Ok tt) /\
    (cf_RunMigrations cfg = true -> su_New s = Ok tt /\ forall err, su_Up s <> UpFailed err).
Proof.
  setoid_rewrite <- NewPool_Ok. setoid_rewrite <- RunMigrations_Ok.
  fold (su_pool s) (su_migrations s). unfold start_up. split.
  - destruct (su_config s) as [cfg|]; [|by intros [? [=]]]. destruct (su_pool s) as [[]|]; [|by intros [? [=]]].
    intros Hs. exists cfg. split_and!; [done..|]. intros Hm. rewrite Hm in Hs.
    destruct (su_migrations s) as [[]|]; [done|by destruct Hs].
  - intros (cfg & -> & -> & Hm). destruct (cf_RunMigrations cfg); [rewrite Hm by done|]; by eexists.
Qed.

(** The end is reported as an error exactly if the server or the subscriber has failed. *)
Lemma shut_down_reports e shutdown finished err :
  Error_ "application terminated with error" err ∈ shut_down e shutdown finished <-> run_error e = Some err.
Proof.
  unfold shut_down. rewrite !elem_of_app. split.
  - intros [H|[H|H]]; repeat case_match; simplify_eq; set_solver.
  - intros ->. right; right. by left.
Qed.

(** main logs an error exactly if it gives up at the start, or if the server or the subscriber
    has failed: a missing Redis, a slow shutdown and a signal are none. *)
Lemma main_log_errors s e shutdown finished closed :
  (exists message err, Error_ message err ∈ main_log s e shutdown finished closed) <->
  (start_up s).1 = None \/ is_Some (run_error e).
Proof.
  unfold main_log. destruct (start_up s) as [[cfg|] log] eqn:Hs; simpl.
  - assert (forall message err, Error_ message err ∉ log) as Hlog.
    { intros message err. unfold start_up in Hs. repeat case_match; simplify_eq; set_solver. }
    assert (forall message err, Error_ message err ∉ close_redis closed) as Hclose
      by (intros message err; unfold close_redis; case_match; set_solver).
    split.
    + intros (message & err & Hin). right. rewrite elem_of_app, elem_of_cons, elem_of_app in Hin.
      destruct Hin as [Hin|[Hin|[Hin|Hin]]]; [by destruct (Hlog message err)|done| |by destruct (Hclose message err)].
      unfold shut_down in Hin. destruct (run_error e) as [err'|]; [by eexists|].
      rewrite !elem_of_app in Hin. destruct Hin as [Hin|[Hin|Hin]]; repeat case_match; set_solver.
    + intros [|[err He]]; [done|]. exists "application terminated with error"%string, err.
      rewrite elem_of_app, elem_of_cons, elem_of_app. right; right; left. by apply shut_down_reports.
  - split; [by left|]. intros _. unfold start_up in Hs. repeat case_match; simplify_eq; eexists _, _; by left.
Qed.
